(* ===== verification/_CoqProject ===== *)
-Q . S2P
Prelude.v
CRC16.v
Packet.v
PacketQueue.v
Sys.v
Effects.v
Agent.v
Channel.v
Receive.v
Traffic.v
Protocol.v
Negotiation.v
Delivery.v
Liveness.v
Text.v
Config.v
ConfigCgi.v
Atof.v
ModemAT.v
Tasks.v
Threads.v
Interleaving.v
Exclusion.v
DebugLog.v
KernelCrc.v
KernelFifo.v
KernelSort.v
KernelString.v
KernelText.v
KernelTree.v
KernelBalance.v
KernelSearch.v
KernelKmp.v
KernelBm.v
KernelFsm.v
KernelMatch.v
KernelNumber.v
KernelPrintf.v
KernelFormat.v
KernelScan.v
KernelCmdline.v
