(* ===== verification/Prelude.v ===== *)
(** * device-agent: verification of the monitoring-post communication agent

    ** The program

    The agent (src/device-agent/src) runs on an ARM board beside a monitoring post. It
    polls the post over a serial line for measurements, keeps them in a queue, and sends
    them to a server over TCP, through a satellite terminal it switches on and off by AT
    commands. The server may also send commands, which the agent passes on to the post.
    A small CGI program (src/config/src/config.cpp) edits its configuration file. src/os
    holds the Linux 2.6.30 kernel of the board.

    The process has four threads over one set of objects: the reading thread
    ([DataTask::doReadData]) asks the post for data and pushes what it answers; the data
    thread ([DataTask::doProcess]) negotiates a port, sends the queue and pops what the
    server acknowledges; the control thread ([ControlTask::doProcess]) keeps the modem
    on, negotiates the control connection and obeys the server; the main thread watches
    the power key.

    ** The files

    Shared:
    - [Prelude]: machine words, byte lists, the tactics [case_bool] and [to_prop], hints.
    - [Sys]: the system calls, the environment that answers them ([Env]) and the monad
      [M] of the threads (objects, world, trace; [Ok], [Throw] a [ChannelException],
      [Undef], [NoFuel]), with its weakest preconditions [wp].
    - [Effects]: the judgements [keeps], [avoids], [yields] and the tactic [effects].
    - [Text]: the C library functions on strings the agent calls.  [Atof]: [atof].

    The agent, one Module per file:
    - [CRC16] (CRC16.cpp), [Packet] (Packet.cpp, CommunicationCommand.cpp,
      HistoryDataRequestCmd.h, MPHealthCheckCmdPacket.cpp), [PacketQueue]
      (PacketQueue.cpp): data and pure operations.  A packet is its byte string, a queue
      its list of packets and its mutex.
    - [Agent]: one record per class, and the record of all objects.
    - [Channel] (Channel.h, TCPPort.cpp, SerialPort.cpp), [Receive] (the send and receive
      methods of Packet.cpp), [Protocol] (Protocol.cpp), [ModemAT] (Modem.cpp), [Tasks]
      (DataTask.cpp, ControlTask.cpp, device-agent.cpp): computations of [M], one
      Definition per method and one Fixpoint per loop.  Method names are those of the
      source; the virtual methods of [Channel] are a record of operations, dispatched on
      the object a reference names.
    - [Config] (Config.cpp), [ConfigCgi] (config.cpp), [DebugLog] (DebugLog.cpp).

    The theorems about the agent as a whole:
    - [Traffic], [Negotiation], [Delivery], [Liveness]: what each method of [Protocol]
      does to the connections, the flags and the queue, and what it puts on the wire.
    - [Threads], [Interleaving], [Exclusion]: the threads together.

    The kernel, the routines of its library that stand alone:
    - [KernelCrc] (lib/crc-ccitt.c, crc-itu-t.c, crc16.c, crc7.c, crc-t10dif.c, bitrev.c),
      [KernelFifo] (kernel/kfifo.c, linux/kfifo.h), [KernelSort] (lib/sort.c),
      [KernelString] and [KernelText] (lib/string.c, lib/ctype.c), [KernelTree] and
      [KernelBalance] (lib/rbtree.c, linux/rbtree.h), [KernelSearch] (lib/textsearch.c,
      linux/textsearch.h) with the algorithms [KernelKmp] (lib/ts_kmp.c), [KernelBm]
      (lib/ts_bm.c) and [KernelFsm] (lib/ts_fsm.c, linux/textsearch_fsm.h), and
      [KernelMatch], the search with its algorithms.  What an algorithm promises to the
      search is the class [Algorithm], what a text's owner promises to an algorithm the
      class [Delivers].
    - lib/vsprintf.c in four files: [KernelNumber] (numbers from and to digits),
      [KernelPrintf] (what one conversion prints), [KernelFormat] (formats and
      [vsnprintf]), [KernelScan] ([vsscanf]).  [KernelCmdline] (lib/cmdline.c).

    ** What is shown

    - Data: in every interleaving of the threads no packet is lost or doubled
      ([data_is_conserved]), the queues hold only whole, checked frames
      ([queues_stay_well_formed]), and while a queue is saved no other thread changes it
      ([save_is_exclusive]); over a link that works the queue is emptied
      ([queue_is_emptied]); what is queued survives a power failure
      ([data_survives_restart]), a prefix of it when saving was interrupted
      ([interrupted_save_loads_a_prefix]), up to the first frame of 5000 bytes or more,
      which [Load] does not take ([long_frame_is_lost]).
    - Frames: what is received is the first frame of the stream that passes the check
      ([receive_refines_stream_spec], [framing_round_trip]); the check is CRC-CCITT and
      rejects every burst of up to 16 bits ([crc16_implements_ccitt],
      [corrupted_frames_are_rejected]).
    - Conversations: the outcome of each method on every branch, in terms of what was
      sent, the flags and the connections ([negotiation_contract], [transfer_outcome],
      [request_outcome], [control_channel_outcome], [data_channel_outcome],
      [power_on_outcome], [power_off_outcome], [tcp_read_outcomes]); the serial lock is
      released, no exception ends a thread, each port has one owner.
    - Time (lemmas of [Negotiation]): reserved times, rests and the idle test, with their
      overflows.
    - Configuration: the file means what it says, a form posted to the page takes effect
      in it unless the text of a key stands also elsewhere ([key_inside_a_value]), the
      start applies it.
    - Kernel: check sums against their polynomials, the FIFO against a bounded queue and
      without its lock, the sort, the copies and [strsep]; the red-black trees, nodes
      linked by pointers, against sequences ([rbtree_is_a_sequence]), and their height
      after any calls ([rbtree_is_low]); the text search: the first occurrence is found
      ([textsearch_finds_the_first], [kmp_finds_in_blocks]) and matches are matches
      ([fsm_finds_matches]).  Formatted output: the format is read as a text
      ([format_decode_spec]), each conversion prints one text ([number_spec],
      [string_spec], [pointer_prints]), [vsnprintf] stores as much of the whole as fits
      and returns its length ([vsnprintf_spec], and [vsnprintf_prints] for the formats in
      which it agrees with C99), for arguments that are there, strings
      apart from the buffer and field widths and precisions up to 2^30; numbers that were
      printed are read back ([printed_numbers_read_back], [printed_lists_are_scanned]).
      Lists of numbers and ranges are expanded ([get_options_expands]) and sizes read
      ([memparse_decimal]).

    ** Conventions

    A byte, word or [int] is a [Z], with its conversions written out; signed overflow in
    the agent is [checked], that is undefined.  A pure function answers [None], a
    computation [Undef], where the C++ program has no defined behaviour: a read outside
    a string, [front()] of an empty list.  [delete] of an array, which [Load] does, is
    undefined too ([record_is_released_by_delete]); the other theorems about [Load] are
    for the libraries in which it releases the array ([lenient]).

    A thread that finds a mutex taken waits in a system call and tries again ([acquire]).
    [Push] and [Pop] make no system call while they hold it, and are one step; [Save]
    makes many, and each of its writes is a call at which the other threads may run.

    The environment is arbitrary: it decides what every system call returns, and since
    the other threads run while a thread is in a call, it may also change the objects
    then.  A call need not return; the run then ends, with [NoFuel], in the state the
    call was made in.  So invariants proved of the last state of every run hold at every
    system call.  Theorems that promise a result assume [Returns] (every call returns)
    and say so.  In [Interleaving] the environment of each thread is the other threads:
    an execution is a sequence of segments between system calls, and the theorems there
    assume nothing of how the threads are scheduled.

    ** Fuel

    Loops with a bound get that bound: 24 turns of a negotiation ([nego_fuel]: four
    empty answers, each after at most five failed connections), 2 connect and 5
    disconnect commands of the modem, 11 attempts to format a log message
    ([trace_fuel]).  Loops over data get one turn per byte
    and the last: [length + 2] for [Load] and [GetValue], the length of the cache for
    the salvage of a frame, one more than memory has bytes for the string functions, one
    more than there are elements, or bytes, for the sort, one more than there are nodes
    for the trees, one more than the text has bytes for the text search (blocks of one
    byte, or one try per byte), two turns per byte of memory for a format (behind a width
    or precision that is an argument one turn may read no character), one turn per byte
    for the scan; that these suffice is part of the theorems.  The negotiation's bound is
    proved for any number of turns ([nego_loop]).  Receiving goes on as long
    as the peer sends, and waiting for a mutex as long as another thread holds it, so
    their fuel is a parameter, and the theorems are for every value
    that is at least the length of what is sent.  Threads never end: theorems are for
    every number of turns.

    ** Not modelled

    The text of log messages (their arguments are evaluated, where that reads a packet);
    weak memory order (threads are interleaved at system calls; the agent's flags and
    the FIFO's indices are read and written in program order); the table of kernel symbols
    behind [%pS], which the build generates, and the binary variants of [vsnprintf], which
    the board configuration leaves out; the rest of the kernel,
    which is the environment of the agent and, vendored unchanged, too large to be part
    of this development; build files.  The sample configuration ARM/agent.conf is an
    input. *)

From Stdlib Require Export ZArith Lia.
From stdpp Require Export base tactics numbers decidable option list_numbers list.

(** ** Scope and notations

    [agent_scope] holds the development's own notations.  Bytes, machine words
    and indices of the C++ code are [Z]; [Z_scope] is opened by every file. *)

Declare Scope agent_scope.
Delimit Scope agent_scope with agent.

Notation "x .^ y" := (Z.lxor x y) (at level 35, right associativity) : agent_scope.
Notation "x .& y" := (Z.land x y) (at level 34, right associativity) : agent_scope.
Notation "x .| y" := (Z.lor x y) (at level 36, right associativity) : agent_scope.
Notation "x .>> n" := (Z.shiftr x n) (at level 33, left associativity) : agent_scope.
Notation "x .<< n" := (Z.shiftl x n) (at level 33, left associativity) : agent_scope.

#[global] Open Scope Z_scope.
#[global] Open Scope agent_scope.

(** ** Machine words

    [byte] is an 8-bit value kept in [Z]; [uN z] is the conversion of [z] to an
    unsigned N-bit type, [i32 z] the conversion to a two's complement 32-bit
    [int]. *)

Abbreviation byte := Z (only parsing).

Definition byte_ok (b : Z) : Prop := 0 <= b < 256.
Definition bytes_ok (l : list byte) : Prop := Forall byte_ok l.

#[global] Instance byte_ok_dec b : Decision (byte_ok b).
Proof. unfold byte_ok. apply _. Defined.
#[global] Instance bytes_ok_dec l : Decision (bytes_ok l).
Proof. unfold bytes_ok. apply _. Defined.

Definition u8 (z : Z) : Z := z mod 2 ^ 8.
Definition u16 (z : Z) : Z := z mod 2 ^ 16.
Definition u32 (z : Z) : Z := z mod 2 ^ 32.
Definition i32 (z : Z) : Z := (z + 2 ^ 31) mod 2 ^ 32 - 2 ^ 31.

(** Value of a plain [char] holding byte [b]; plain [char] is signed or not
    depending on the target ([signed_char = false] on ARM). *)
Definition char_val (signed_char : bool) (b : byte) : Z :=
  if signed_char && (128 <=? b) then b - 256 else b.

(** ** Tactics *)

Create HintDb agent discriminated.
Create HintDb agentZ discriminated.

(** Case analysis on the booleans and matches that block a goal or hypothesis. *)
Ltac case_bool :=
  match goal with
  | |- context [if ?b then _ else _] => let E := fresh "E" in destruct b eqn:E
  | H : context [if ?b then _ else _] |- _ => let E := fresh "E" in destruct b eqn:E
  end.

(** Turn boolean comparisons in the context into propositions. *)
Ltac to_prop :=
  repeat match goal with
  | H : (_ && _) = true |- _ => apply andb_true_iff in H; destruct H
  | H : (_ || _) = false |- _ => apply orb_false_iff in H; destruct H
  | H : (_ || _) = true |- _ => apply orb_true_iff in H
  | H : (_ && _) = false |- _ => apply andb_false_iff in H
  | H : negb _ = true |- _ => apply negb_true_iff in H
  | H : negb _ = false |- _ => apply negb_false_iff in H
  | H : (_ =? _) = true |- _ => apply Z.eqb_eq in H
  | H : (_ =? _) = false |- _ => apply Z.eqb_neq in H
  | H : (_ <? _) = true |- _ => apply Z.ltb_lt in H
  | H : (_ <? _) = false |- _ => apply Z.ltb_ge in H
  | H : (_ <=? _) = true |- _ => apply Z.leb_le in H
  | H : (_ <=? _) = false |- _ => apply Z.leb_gt in H
  | H : bool_decide _ = true |- _ => apply bool_decide_eq_true in H
  | H : bool_decide _ = false |- _ => apply bool_decide_eq_false in H
  end.

(** Equality of integers, bit by bit. *)
Ltac bitwise_intro i Hi := apply Z.bits_inj'; intros i Hi.

Ltac bit_rewrite :=
  rewrite ?Z.lxor_spec, ?Z.land_spec, ?Z.lor_spec, ?Z.bits_0.

(** ** Integers *)

Lemma testbit_small p n i : 0 <= n < 2 ^ p -> p <= i -> Z.testbit n i = false.
Proof.
  intros Hn Hi. destruct (Z.lt_ge_cases p 0) as [Hp|Hp].
  { rewrite Z.pow_neg_r in Hn by done. lia. }
  rewrite <- (Z.mod_small n (2 ^ p)) by done.
  by apply Z.mod_pow2_bits_high.
Qed.

Lemma small_of_testbit p n :
  0 <= p -> 0 <= n -> (forall i, p <= i -> Z.testbit n i = false) -> n < 2 ^ p.
Proof.
  intros Hp Hn Hbits.
  assert (n = n mod 2 ^ p) as ->; [|apply Z.mod_pos_bound; lia].
  bitwise_intro i Hi. destruct (Z.lt_ge_cases i p).
  - by rewrite Z.mod_pow2_bits_low.
  - rewrite Z.mod_pow2_bits_high by lia. auto.
Qed.

Lemma lxor_range p a b :
  0 <= p -> 0 <= a < 2 ^ p -> 0 <= b < 2 ^ p -> 0 <= a .^ b < 2 ^ p.
Proof.
  intros Hp Ha Hb. assert (0 <= a .^ b) by (apply Z.lxor_nonneg; split; lia).
  split; [done|]. apply small_of_testbit; try done.
  intros i Hi. bit_rewrite. by rewrite !(testbit_small p) by lia.
Qed.

Lemma shiftr_range p k a :
  0 <= k -> 0 <= p -> 0 <= a < 2 ^ (p + k) -> 0 <= a .>> k < 2 ^ p.
Proof.
  intros Hk Hp Ha. rewrite Z.shiftr_div_pow2 by done. split.
  - apply Z.div_pos; lia.
  - apply Z.div_lt_upper_bound; [lia|]. rewrite <- Z.pow_add_r, Z.add_comm by lia. apply Ha.
Qed.

Lemma land_255 a : a .& 255 = a mod 256.
Proof. change 255 with (Z.ones 8). by rewrite Z.land_ones. Qed.

Lemma u16_range z : 0 <= u16 z < 65536.
Proof. apply Z.mod_pos_bound. lia. Qed.

Lemma i32_small z : -2 ^ 31 <= z < 2 ^ 31 -> i32 z = z.
Proof. intros H. unfold i32. rewrite Z.mod_small; lia. Qed.

Lemma char_val_land_255 s b : byte_ok b -> char_val s b .& 255 = b.
Proof.
  intros Hb. unfold byte_ok in Hb. rewrite land_255. unfold char_val.
  case_bool; [|apply Z.mod_small; lia].
  replace (b - 256) with (b + -1 * 256) by lia.
  rewrite Z.mod_add by done. apply Z.mod_small. lia.
Qed.

#[export] Hint Resolve u16_range lxor_range shiftr_range : agentZ.

(** ** Big- and little-endian 16- and 32-bit fields *)

Definition be16 (hi lo : byte) : Z := hi * 256 + lo.
Definition be32 (b3 b2 b1 b0 : byte) : Z := be16 b3 b2 * 65536 + be16 b1 b0.

(** The two bytes a 16-bit value occupies in network order. *)
Definition put_be16 (n : Z) : list byte := [u8 (n .>> 8); u8 n].

Lemma be16_range hi lo : byte_ok hi -> byte_ok lo -> 0 <= be16 hi lo < 65536.
Proof. unfold byte_ok, be16. lia. Qed.

Lemma be16_split n : 0 <= n < 65536 -> be16 (u8 (n .>> 8)) (u8 n) = n.
Proof.
  intros Hn. unfold be16, u8. rewrite Z.shiftr_div_pow2 by lia. change (2 ^ 8) with 256.
  rewrite (Z.mod_small (n / 256)) by (split; [apply Z.div_pos|apply Z.div_lt_upper_bound]; lia).
  pose proof (Z.div_mod n 256). lia.
Qed.

Lemma be16_inj a b c d :
  byte_ok a -> byte_ok b -> byte_ok c -> byte_ok d -> be16 a b = be16 c d -> a = c /\ b = d.
Proof. unfold byte_ok, be16. lia. Qed.

Lemma u8_ok z : byte_ok (u8 z).
Proof. apply Z.mod_pos_bound. lia. Qed.

Lemma u8_small b : byte_ok b -> u8 b = b.
Proof. intros H. by apply Z.mod_small. Qed.

Lemma u8_u16 z : u8 (u16 z) = u8 z.
Proof.
  unfold u8, u16. apply Z.mod_mod_divide. by exists 256.
Qed.

#[export] Hint Resolve u8_ok be16_range : agent.

(** ** Lists *)

Lemma bytes_ok_app l k : bytes_ok (l ++ k) <-> bytes_ok l /\ bytes_ok k.
Proof. apply Forall_app. Qed.

Lemma bytes_ok_cons b l : bytes_ok (b :: l) <-> byte_ok b /\ bytes_ok l.
Proof. apply Forall_cons_iff. Qed.

Lemma bytes_ok_lookup l i b : bytes_ok l -> l !! i = Some b -> byte_ok b.
Proof. apply Forall_lookup_1. Qed.

Lemma bytes_ok_take n l : bytes_ok l -> bytes_ok (take n l).
Proof. apply Forall_take. Qed.

Lemma bytes_ok_drop n l : bytes_ok l -> bytes_ok (drop n l).
Proof. apply Forall_drop. Qed.

#[export] Hint Resolve bytes_ok_take bytes_ok_drop : agent.

(** Position of the first element satisfying [p]. *)
Fixpoint find_pos {A} (p : A -> bool) (l : list A) : option nat :=
  match l with
  | [] => None
  | x :: l => if p x then Some O else S <$> find_pos p l
  end.

Lemma find_pos_lt {A} (p : A -> bool) l n : find_pos p l = Some n -> (n < length l)%nat.
Proof.
  revert n. induction l as [|x l IH]; intros n; simpl; [done|].
  destruct (p x); intros H; [simplify_eq; lia|].
  apply fmap_Some in H as (m & Hm & ->). apply IH in Hm. lia.
Qed.

Lemma find_pos_drop {A} (p : A -> bool) l n :
  find_pos p l = Some n -> exists x k, drop n l = x :: k /\ p x = true.
Proof.
  revert n. induction l as [|x l IH]; intros n; simpl; [done|].
  destruct (p x) eqn:E; intros H.
  - simplify_eq. rewrite drop_0. eauto.
  - apply fmap_Some in H as (m & Hm & ->). simpl. auto.
Qed.

Lemma find_pos_none {A} (f : A -> bool) l : find_pos f l = None -> Forall (fun x => f x = false) l.
Proof.
  induction l as [|x l IH]; simpl; [constructor|]. destruct (f x) eqn:E; [done|]. intros H%fmap_None. constructor; auto.
Qed.

Lemma find_pos_some {A} (f : A -> bool) l i :
  find_pos f l = Some i -> exists x, l !! i = Some x /\ f x = true /\ Forall (fun x => f x = false) (take i l).
Proof.
  revert i. induction l as [|x l IH]; intros i; simpl; [done|]. destruct (f x) eqn:E.
  - intros [= <-]. exists x. by repeat split.
  - intros (k & Hk & ->)%fmap_Some. destruct (IH k Hk) as (y & H1 & H2 & H3). exists y. split_and!; [done|done|]. by constructor.
Qed.

(** Cutting a list in three. *)
Lemma split_at {A} (n m : nat) (l : list A) :
  (n + m <= length l)%nat ->
  exists a b c, l = a ++ b ++ c /\ length a = n /\ length b = m.
Proof.
  intros H. exists (take n l), (take m (drop n l)), (drop m (drop n l)).
  rewrite !take_drop, !length_take, length_drop. split_and!; [done|lia|lia].
Qed.

Lemma u16_small n : 0 <= n < 65536 -> u16 n = n.
Proof. intros H. by apply Z.mod_small. Qed.
