(* ===== verification/CRC16.v ===== *)
(** * CRC16: the frame checksum (device-agent/src/CRC16.cpp, CRC16.h) *)

From S2P Require Import Prelude.

Module CRC16.

(** [crc_table_itut]: CRC16.cpp. *)
Definition crc_table_itut : list Z := [
0x0000; 0x1189; 0x2312; 0x329B; 0x4624; 0x57AD; 0x6536; 0x74BF;
0x8C48; 0x9DC1; 0xAF5A; 0xBED3; 0xCA6C; 0xDBE5; 0xE97E; 0xF8F7;
0x1081; 0x0108; 0x3393; 0x221A; 0x56A5; 0x472C; 0x75B7; 0x643E;
0x9CC9; 0x8D40; 0xBFDB; 0xAE52; 0xDAED; 0xCB64; 0xF9FF; 0xE876;
0x2102; 0x308B; 0x0210; 0x1399; 0x6726; 0x76AF; 0x4434; 0x55BD;
0xAD4A; 0xBCC3; 0x8E58; 0x9FD1; 0xEB6E; 0xFAE7; 0xC87C; 0xD9F5;
0x3183; 0x200A; 0x1291; 0x0318; 0x77A7; 0x662E; 0x54B5; 0x453C;
0xBDCB; 0xAC42; 0x9ED9; 0x8F50; 0xFBEF; 0xEA66; 0xD8FD; 0xC974;
0x4204; 0x538D; 0x6116; 0x709F; 0x0420; 0x15A9; 0x2732; 0x36BB;
0xCE4C; 0xDFC5; 0xED5E; 0xFCD7; 0x8868; 0x99E1; 0xAB7A; 0xBAF3;
0x5285; 0x430C; 0x7197; 0x601E; 0x14A1; 0x0528; 0x37B3; 0x263A;
0xDECD; 0xCF44; 0xFDDF; 0xEC56; 0x98E9; 0x8960; 0xBBFB; 0xAA72;
0x6306; 0x728F; 0x4014; 0x519D; 0x2522; 0x34AB; 0x0630; 0x17B9;
0xEF4E; 0xFEC7; 0xCC5C; 0xDDD5; 0xA96A; 0xB8E3; 0x8A78; 0x9BF1;
0x7387; 0x620E; 0x5095; 0x411C; 0x35A3; 0x242A; 0x16B1; 0x0738;
0xFFCF; 0xEE46; 0xDCDD; 0xCD54; 0xB9EB; 0xA862; 0x9AF9; 0x8B70;
0x8408; 0x9581; 0xA71A; 0xB693; 0xC22C; 0xD3A5; 0xE13E; 0xF0B7;
0x0840; 0x19C9; 0x2B52; 0x3ADB; 0x4E64; 0x5FED; 0x6D76; 0x7CFF;
0x9489; 0x8500; 0xB79B; 0xA612; 0xD2AD; 0xC324; 0xF1BF; 0xE036;
0x18C1; 0x0948; 0x3BD3; 0x2A5A; 0x5EE5; 0x4F6C; 0x7DF7; 0x6C7E;
0xA50A; 0xB483; 0x8618; 0x9791; 0xE32E; 0xF2A7; 0xC03C; 0xD1B5;
0x2942; 0x38CB; 0x0A50; 0x1BD9; 0x6F66; 0x7EEF; 0x4C74; 0x5DFD;
0xB58B; 0xA402; 0x9699; 0x8710; 0xF3AF; 0xE226; 0xD0BD; 0xC134;
0x39C3; 0x284A; 0x1AD1; 0x0B58; 0x7FE7; 0x6E6E; 0x5CF5; 0x4D7C;
0xC60C; 0xD785; 0xE51E; 0xF497; 0x8028; 0x91A1; 0xA33A; 0xB2B3;
0x4A44; 0x5BCD; 0x6956; 0x78DF; 0x0C60; 0x1DE9; 0x2F72; 0x3EFB;
0xD68D; 0xC704; 0xF59F; 0xE416; 0x90A9; 0x8120; 0xB3BB; 0xA232;
0x5AC5; 0x4B4C; 0x79D7; 0x685E; 0x1CE1; 0x0D68; 0x3FF3; 0x2E7A;
0xE70E; 0xF687; 0xC41C; 0xD595; 0xA12A; 0xB0A3; 0x8238; 0x93B1;
0x6B46; 0x7ACF; 0x4854; 0x59DD; 0x2D62; 0x3CEB; 0x0E70; 0x1FF9;
0xF78F; 0xE606; 0xD49D; 0xC514; 0xB1AB; 0xA022; 0x92B9; 0x8330;
0x7BC7; 0x6A4E; 0x58D5; 0x495C; 0x3DE3; 0x2C6A; 0x1EF1; 0x0F78
].

(** [CRC16::crc16_byte] (CRC16.h): one table step. *)
Definition crc16_byte (data : byte) (crc : Z) : Z :=
  default 0 (crc_table_itut !! Z.to_nat ((crc .^ data) .& 0x00ff)) .^ (crc .>> 8).

(** The loop of [CRC16::crc16]: [for (i = 0; i < len; i++) crc = crc16_byte(data[i], crc)].
    A read past the end of [data] has no value. *)
Fixpoint crc16_loop (data : list byte) (i n : nat) (crc : Z) : option Z :=
  match n with
  | O => Some crc
  | S n => d ← data !! i; crc16_loop data (S i) n (crc16_byte d crc)
  end.

(** [CRC16::crc16(start, data, len)] (CRC16.cpp). *)
Definition crc16 (start : Z) (data : list byte) (len : Z) : option Z :=
  crc16_loop data 0 (Z.to_nat len) (u16 start).

(** The overload [CRC16::crc16(start, data, offset, len)], whose accumulator is a
    plain [char]: every assignment to [crc] keeps the low byte only, and passing
    it to [crc16_byte] converts it back to [unsigned short]. *)
Fixpoint crc16_off_loop (sc : bool) (data : list byte) (offset i n : nat) (crc : Z) : option Z :=
  match n with
  | O => Some (u16 crc)
  | S n =>
      d ← data !! (offset + i)%nat;
      crc16_off_loop sc data offset (S i) n (char_val sc (u8 (crc16_byte d (u16 crc))))
  end.

Definition crc16_off (sc : bool) (start : Z) (data : list byte) (offset len : Z) : option Z :=
  crc16_off_loop sc data (Z.to_nat offset) 0 (Z.to_nat len) (char_val sc (u8 start)).

(** ** Reference: the CCITT polynomial x^16 + x^12 + x^5 + 1, bit by bit

    The register is kept reflected: bit 0 leaves first, and 0x8408 is the
    reflected polynomial. *)

Definition poly : Z := 0x8408.

Definition crc_bit (c : Z) : Z :=
  (if Z.testbit c 0 then poly else 0) .^ (c .>> 1).

Definition crc_byte_ref (data : byte) (crc : Z) : Z := Nat.iter 8 crc_bit (crc .^ data).

(** The checksum of a byte string. *)
Definition checksum (start : Z) (l : list byte) : Z := foldl (fun c d => crc16_byte d c) start l.

(** The bits of a byte string, in the order the register consumes them. *)
Definition byte_bits (b : byte) : list bool := (fun i => Z.testbit b i) <$> seqZ 0 8.
Definition bits_of (l : list byte) : list bool := l ≫= byte_bits.

(** Feeding one bit to the register. *)
Definition feed_bit (c : Z) (b : bool) : Z := crc_bit (c .^ Z.b2z b).
Definition feed_bits (c : Z) (bs : list bool) : Z := foldl feed_bit c bs.

(** Bitwise difference of two messages. *)
Definition xor_bits (a b : list bool) : list bool := zip_with xorb a b.

(** ** The reference register *)

Lemma crc_bit_lxor a b : crc_bit (a .^ b) = crc_bit a .^ crc_bit b.
Proof.
  unfold crc_bit. rewrite Z.lxor_spec, Z.shiftr_lxor.
  bitwise_intro i Hi. bit_rewrite.
  destruct (Z.testbit a 0), (Z.testbit b 0); simpl; rewrite ?Z.bits_0;
    destruct (Z.testbit poly i), (Z.testbit (a .>> 1) i), (Z.testbit (b .>> 1) i); done.
Qed.

Lemma crc_bit_range c : 0 <= c < 2 ^ 16 -> 0 <= crc_bit c < 2 ^ 16.
Proof.
  intros Hc. unfold crc_bit. apply lxor_range; [lia| |].
  - destruct (Z.testbit c 0); unfold poly; lia.
  - pose proof (shiftr_range 15 1 c). lia.
Qed.

(** The register step is invertible: bit 15 of the new value is the bit that left. *)
Definition crc_unbit (c : Z) : Z :=
  if Z.testbit c 15 then ((c .^ poly) .<< 1) + 1 else c .<< 1.

Lemma crc_unbit_bit c : 0 <= c < 2 ^ 16 -> crc_unbit (crc_bit c) = c.
Proof.
  intros Hc. pose proof (shiftr_range 15 1 c ltac:(lia) ltac:(lia) Hc) as Hs.
  unfold crc_unbit, crc_bit. rewrite Z.lxor_spec, (testbit_small 15 (c .>> 1)) by lia.
  rewrite Z.shiftr_div_pow2, (Z.bit0_odd c) in * by lia. change (2 ^ 1) with 2 in *.
  pose proof (Z.div_mod c 2) as Hdm. rewrite Zmod_odd in Hdm.
  destruct (Z.odd c); [rewrite (Z.lxor_comm poly), Z.lxor_assoc, Z.lxor_nilpotent, Z.lxor_0_r|];
    cbn [Z.testbit poly xorb]; rewrite Z.shiftl_mul_pow2 by lia; change (2 ^ 1) with 2.
  - simpl. lia.
  - rewrite Z.lxor_0_l. simpl. lia.
Qed.

Lemma crc_bit_inj a b :
  0 <= a < 2 ^ 16 -> 0 <= b < 2 ^ 16 -> crc_bit a = crc_bit b -> a = b.
Proof. intros Ha Hb E. by rewrite <- (crc_unbit_bit a), <- (crc_unbit_bit b), E. Qed.

Section iterate.
Abbreviation it n c := (Nat.iter n crc_bit c).

Lemma iter_lxor n a b : it n (a .^ b) = it n a .^ it n b.
Proof. induction n as [|n IH]; simpl; [done|]. by rewrite IH, crc_bit_lxor. Qed.

Lemma iter_range n c : 0 <= c < 2 ^ 16 -> 0 <= it n c < 2 ^ 16.
Proof. intros Hc. induction n as [|n IH]; simpl; [done|]. by apply crc_bit_range. Qed.

Lemma iter_inj n a b :
  0 <= a < 2 ^ 16 -> 0 <= b < 2 ^ 16 -> it n a = it n b -> a = b.
Proof.
  intros Ha Hb. induction n as [|n IH]; simpl; [done|].
  intros E. apply IH, crc_bit_inj; auto using iter_range.
Qed.

Lemma iter_zero n : it n 0 = 0.
Proof. induction n as [|n IH]; simpl; [done|]. by rewrite IH. Qed.

Lemma iter_nonzero n c : 0 <= c < 2 ^ 16 -> c <> 0 -> it n c <> 0.
Proof. intros Hc Hnz E. apply Hnz, (iter_inj n); [done|lia|]. by rewrite iter_zero. Qed.

(** A cleared low bit leaves without feedback. *)
Lemma crc_bit_shiftl v : crc_bit (v .<< 1) = v.
Proof.
  unfold crc_bit. rewrite Z.shiftl_spec by lia. rewrite Z.testbit_neg_r by lia.
  by rewrite Z.lxor_0_l, Z.shiftr_shiftl_l, Z.shiftl_0_r by lia.
Qed.

Lemma iter_shiftl n v : it n (v .<< Z.of_nat n) = v.
Proof.
  revert v. induction n as [|n IH]; intros v; [by rewrite Z.shiftl_0_r|].
  rewrite Nat.iter_succ.
  replace (v .<< Z.of_nat (S n)) with ((v .<< 1) .<< Z.of_nat n).
  - by rewrite IH, crc_bit_shiftl.
  - rewrite Z.shiftl_shiftl by lia. f_equal. lia.
Qed.

(** Value of a bit string, first bit least significant. *)
Fixpoint bits_val (bs : list bool) : Z :=
  match bs with [] => 0 | b :: bs => Z.b2z b .^ (bits_val bs .<< 1) end.

Lemma feed_bits_iter bs c : feed_bits c bs = it (length bs) (c .^ bits_val bs).
Proof.
  revert c. induction bs as [|b bs IH]; intros c; [by rewrite Z.lxor_0_r|].
  cbn [feed_bits foldl length bits_val]. fold (feed_bits (feed_bit c b) bs).
  rewrite IH. unfold feed_bit. rewrite Nat.iter_succ_r. f_equal.
  by rewrite <- Z.lxor_assoc, (crc_bit_lxor (c .^ Z.b2z b)), crc_bit_shiftl.
Qed.
End iterate.

Lemma bits_val_range bs : 0 <= bits_val bs < 2 ^ Z.of_nat (length bs).
Proof.
  induction bs as [|b bs IH]; simpl length; [simpl; lia|].
  cbn [bits_val]. rewrite Nat2Z.inj_succ, Z.pow_succ_r by lia.
  pose proof (lxor_range (Z.of_nat (length bs) + 1) (Z.b2z b) (bits_val bs .<< 1)) as R.
  rewrite Z.shiftl_mul_pow2, Z.pow_add_r in * by lia. change (2 ^ 1) with 2 in *.
  destruct b; simpl Z.b2z in *; lia.
Qed.

Lemma bits_val_nonzero bs : true ∈ bs -> bits_val bs <> 0.
Proof.
  induction bs as [|b bs IH]; intros Hin; [by apply not_elem_of_nil in Hin|].
  cbn [bits_val]. intros E. apply Z.lxor_eq in E.
  apply elem_of_cons in Hin as [<-|Hin].
  - rewrite Z.shiftl_mul_pow2 in E by lia. change (2 ^ 1) with 2 in E. simpl in E. lia.
  - apply IH in Hin. rewrite Z.shiftl_mul_pow2 in E by lia. change (2 ^ 1) with 2 in E.
    destruct b; simpl in E; lia.
Qed.

(** ** The table implements the polynomial *)

Lemma table_entry i :
  0 <= i < 256 -> crc_table_itut !! Z.to_nat i = Some (Nat.iter 8 crc_bit i).
Proof.
  assert (forallb (fun n => bool_decide
    (crc_table_itut !! n = Some (Nat.iter 8 crc_bit (Z.of_nat n)))) (seq 0 256) = true)
    as H by (vm_compute; reflexivity).
  intros Hi. rewrite forallb_forall in H.
  specialize (H (Z.to_nat i)). rewrite bool_decide_eq_true, Z2Nat.id in H by lia.
  apply H, in_seq. lia.
Qed.

Lemma crc16_byte_ref data crc :
  byte_ok data -> 0 <= crc -> crc16_byte data crc = crc_byte_ref data crc.
Proof.
  intros Hd Hc. unfold crc16_byte, crc_byte_ref. set (x := crc .^ data).
  assert (crc .>> 8 = x .>> 8) as ->.
  { unfold x. rewrite Z.shiftr_lxor. rewrite (Z.shiftr_div_pow2 data) by lia.
    rewrite Z.div_small by (unfold byte_ok in Hd; lia). by rewrite Z.lxor_0_r. }
  assert (x = (x .& 0x00ff) .^ ((x .>> 8) .<< Z.of_nat 8)) as Hx.
  { bitwise_intro i Hi. bit_rewrite. rewrite Z.shiftl_spec by lia.
    change 0xff with (Z.ones 8). rewrite Z.testbit_ones_nonneg by lia.
    destruct (Z.ltb_spec i 8).
    - rewrite (Z.testbit_neg_r _ (i - Z.of_nat 8)) by lia. by rewrite andb_true_r, xorb_false_r.
    - rewrite Z.shiftr_spec by lia. rewrite andb_false_r, xorb_false_l. f_equal. lia. }
  rewrite table_entry by (rewrite land_255; apply Z.mod_pos_bound; lia).
  rewrite Hx at 3. by rewrite iter_lxor, iter_shiftl.
Qed.

Lemma crc16_byte_range data crc :
  byte_ok data -> 0 <= crc < 2 ^ 16 -> 0 <= crc16_byte data crc < 2 ^ 16.
Proof.
  intros Hd Hc. rewrite crc16_byte_ref by lia || done.
  apply iter_range, lxor_range; unfold byte_ok in Hd; lia.
Qed.

Lemma byte_bits_val b : byte_ok b -> bits_val (byte_bits b) = b.
Proof.
  assert (forallb (fun n => bits_val (byte_bits (Z.of_nat n)) =? Z.of_nat n) (seq 0 256) = true)
    as H by (vm_compute; reflexivity).
  intros Hb. unfold byte_ok in Hb. rewrite forallb_forall in H.
  specialize (H (Z.to_nat b)). rewrite Z2Nat.id, Z.eqb_eq in H by lia. apply H, in_seq. lia.
Qed.

Lemma crc16_byte_bits data crc :
  byte_ok data -> 0 <= crc -> crc16_byte data crc = feed_bits crc (byte_bits data).
Proof.
  intros Hd Hc. rewrite crc16_byte_ref, feed_bits_iter, byte_bits_val by done. done.
Qed.

(** ** The loop and the checksum *)

Lemma crc16_loop_checksum data i n crc :
  (i + n <= length data)%nat ->
  crc16_loop data i n crc = Some (checksum crc (take n (drop i data))).
Proof.
  revert i crc. induction n as [|n IH]; intros i crc Hn; [done|].
  destruct (lookup_lt_is_Some_2 data i) as [d Hd]; [lia|].
  simpl. rewrite Hd. simpl. rewrite IH by lia.
  rewrite (drop_S data d i) by done. done.
Qed.

Lemma crc16_loop_out_of_bounds data i n crc :
  (length data < i + n)%nat -> (i <= length data)%nat -> crc16_loop data i n crc = None.
Proof.
  revert i crc. induction n as [|n IH]; intros i crc Hn Hi; [lia|].
  simpl. destruct (data !! i) as [d|] eqn:E; [|done].
  apply lookup_lt_Some in E. simpl. apply IH; lia.
Qed.

Lemma crc16_checksum start data len :
  0 <= len <= Z.of_nat (length data) ->
  crc16 start data len = Some (checksum (u16 start) (take (Z.to_nat len) data)).
Proof. intros H. unfold crc16. rewrite crc16_loop_checksum, drop_0 by lia. done. Qed.

Lemma checksum_app c l k : checksum c (l ++ k) = checksum (checksum c l) k.
Proof. apply foldl_app. Qed.

Lemma checksum_range c l : bytes_ok l -> 0 <= c < 2 ^ 16 -> 0 <= checksum c l < 2 ^ 16.
Proof.
  intros Hl. revert c. induction Hl as [|d l Hd _ IH]; intros c Hc; [done|].
  apply IH, crc16_byte_range; auto.
Qed.

Lemma checksum_ref c l :
  bytes_ok l -> 0 <= c < 2 ^ 16 -> checksum c l = foldl (fun c d => crc_byte_ref d c) c l.
Proof.
  intros Hl. revert c. induction Hl as [|d l Hd Hl IH]; intros c Hc; [done|].
  cbn [checksum foldl] in *. fold (checksum (crc16_byte d c) l).
  rewrite IH by (by apply crc16_byte_range). by rewrite crc16_byte_ref by lia || done.
Qed.

Lemma feed_bits_app c a b : feed_bits c (a ++ b) = feed_bits (feed_bits c a) b.
Proof. apply foldl_app. Qed.

Lemma checksum_bits c l :
  bytes_ok l -> 0 <= c < 2 ^ 16 -> checksum c l = feed_bits c (bits_of l).
Proof.
  intros Hl. revert c. induction Hl as [|d l Hd Hl IH]; intros c Hc; [done|].
  unfold bits_of in *. cbn [mbind list_bind]. rewrite feed_bits_app.
  cbn [checksum foldl]. fold (checksum (crc16_byte d c) l).
  rewrite IH by (by apply crc16_byte_range). by rewrite crc16_byte_bits by lia || done.
Qed.

(** ** Error detection *)

Lemma feed_bits_lxor c1 c2 a b :
  length a = length b ->
  feed_bits c1 a .^ feed_bits c2 b = feed_bits (c1 .^ c2) (xor_bits a b).
Proof.
  revert c1 c2 b. induction a as [|x a IH]; intros c1 c2 [|y b] Hl; simplify_eq/=; [done|].
  unfold xor_bits in *. rewrite IH by done. f_equal.
  unfold feed_bit. rewrite <- crc_bit_lxor. f_equal.
  transitivity ((c1 .^ c2) .^ (Z.b2z x .^ Z.b2z y)).
  - bitwise_intro i Hi. bit_rewrite.
    destruct (Z.testbit c1 i), (Z.testbit c2 i), (Z.testbit (Z.b2z x) i), (Z.testbit (Z.b2z y) i); done.
  - by destruct x, y.
Qed.

Lemma feed_bits_zeros n c : feed_bits c (replicate n false) = Nat.iter n crc_bit c.
Proof.
  rewrite feed_bits_iter, length_replicate.
  assert (bits_val (replicate n false) = 0) as ->; [|by rewrite Z.lxor_0_r].
  induction n as [|n IH]; simpl; [done|]. by rewrite IH.
Qed.

(** [burst w a b]: the bit strings differ only inside a window of [length w] bits,
    by the pattern [w]. *)
Definition burst (w a b : list bool) : Prop :=
  exists k m, xor_bits a b = replicate k false ++ w ++ replicate m false.

Lemma feed_bits_burst c a b w :
  length a = length b -> burst w a b -> (length w <= 16)%nat -> true ∈ w ->
  feed_bits c a <> feed_bits c b.
Proof.
  intros Hl (k & m & Hx) Hw Ht E.
  pose proof (feed_bits_lxor c c a b Hl) as H.
  rewrite E, !Z.lxor_nilpotent, Hx, !feed_bits_app, !feed_bits_zeros, iter_zero in H.
  symmetry in H. rewrite feed_bits_iter, Z.lxor_0_l in H.
  assert (0 <= bits_val w < 2 ^ 16) as Hr.
  { pose proof (bits_val_range w). pose proof (Z.pow_le_mono_r 2 (Z.of_nat (length w)) 16). lia. }
  apply iter_nonzero in H; [done|by apply iter_range|].
  apply iter_nonzero; [done|]. by apply bits_val_nonzero.
Qed.

Lemma length_bits_of l : length (bits_of l) = (8 * length l)%nat.
Proof.
  unfold bits_of. induction l as [|b l IH]; [done|].
  cbn [mbind list_bind]. rewrite length_app, IH. simpl length. lia.
Qed.

Lemma checksum_burst c l k w :
  bytes_ok l -> bytes_ok k -> 0 <= c < 2 ^ 16 -> length l = length k ->
  burst w (bits_of l) (bits_of k) -> (length w <= 16)%nat -> true ∈ w ->
  checksum c l <> checksum c k.
Proof.
  intros Hl Hk Hc Hlen Hb Hw Ht. rewrite !checksum_bits by done.
  eapply feed_bits_burst; eauto. by rewrite !length_bits_of, Hlen.
Qed.

(** ** Replacing up to two adjacent bytes is a burst *)

Lemma bits_of_app l k : bits_of (l ++ k) = bits_of l ++ bits_of k.
Proof. unfold bits_of. by rewrite bind_app. Qed.

Lemma xor_bits_same a : xor_bits a a = replicate (length a) false.
Proof. unfold xor_bits. induction a as [|x a IH]; simpl; [done|]. by rewrite xorb_nilpotent, IH. Qed.

Lemma xor_bits_comm a b : xor_bits a b = xor_bits b a.
Proof.
  unfold xor_bits. revert b. induction a as [|x a IH]; intros [|y b]; simpl; [done..|].
  by rewrite xorb_comm, IH.
Qed.

Lemma xor_bits_app a b a' b' :
  length a = length a' -> xor_bits (a ++ b) (a' ++ b') = xor_bits a a' ++ xor_bits b b'.
Proof. intros H. by apply zip_with_app. Qed.

Lemma xor_bits_diff a b : length a = length b -> a <> b -> true ∈ xor_bits a b.
Proof.
  unfold xor_bits. revert b. induction a as [|x a IH]; intros [|y b] Hl Hne; simplify_eq/=.
  destruct (decide (x = y)) as [->|Hxy].
  - apply elem_of_cons; right; apply IH; congruence.
  - assert (xorb x y = true) as -> by (by destruct x, y). apply elem_of_cons; by left.
Qed.

Lemma bits_of_inj l k : bytes_ok l -> bytes_ok k -> length l = length k -> bits_of l = bits_of k -> l = k.
Proof.
  intros Hl. revert k. induction Hl as [|x l Hx _ IH]; intros [|y k] Hk Hlen E; try discriminate Hlen; [done|].
  injection Hlen as Hlen. apply bytes_ok_cons in Hk as [Hy Hk]. change (x :: l) with ([x] ++ l) in E.
  change (y :: k) with ([y] ++ k) in E. rewrite !bits_of_app in E.
  apply app_inj_1 in E as [E1 E2]; [|by rewrite !length_bits_of].
  f_equal; [|by apply IH].
  unfold bits_of in E1. cbn [mbind list_bind] in E1. rewrite !app_nil_r in E1.
  by rewrite <- (byte_bits_val x), <- (byte_bits_val y), E1.
Qed.

Lemma checksum_two_bytes c pre mid mid' post :
  bytes_ok (pre ++ mid ++ post) -> bytes_ok mid' -> 0 <= c < 2 ^ 16 ->
  length mid = length mid' -> (length mid <= 2)%nat -> mid <> mid' ->
  checksum c (pre ++ mid ++ post) <> checksum c (pre ++ mid' ++ post).
Proof.
  rewrite !bytes_ok_app. intros (Hpre & Hmid & Hpost) Hmid' Hc Hlen H2 Hne.
  apply (checksum_burst c _ _ (xor_bits (bits_of mid) (bits_of mid'))); try done.
  - by rewrite !bytes_ok_app.
  - by rewrite !bytes_ok_app.
  - by rewrite !length_app, Hlen.
  - exists (length (bits_of pre)), (length (bits_of post)).
    rewrite !bits_of_app, !xor_bits_app, !xor_bits_same by (rewrite ?length_bits_of; congruence). done.
  - unfold xor_bits. rewrite length_zip_with, !length_bits_of. lia.
  - apply xor_bits_diff; [by rewrite !length_bits_of, Hlen|]. intros E. by apply Hne, bits_of_inj.
Qed.

(** ** Properties *)

(** C24.  [CRC16::crc16] over [len] bytes inside the buffer is defined and equals
    the CRC-CCITT of those bytes computed bit by bit with the reflected
    polynomial x^16 + x^12 + x^5 + 1: the 256-entry table is right and the table
    step loses no bit of the 16-bit register. *)
Theorem crc16_implements_ccitt start data len :
  bytes_ok data -> 0 <= len <= Z.of_nat (length data) ->
  crc16 start data len =
    Some (foldl (fun c d => crc_byte_ref d c) (u16 start) (take (Z.to_nat len) data)).
Proof.
  intros Hd Hlen. rewrite crc16_checksum by done. f_equal.
  apply checksum_ref; auto with agent. apply u16_range.
Qed.

Lemma crc16_implements_ccitt_witness :
  crc16 (-1) [0x31; 0x32; 0x33; 0x34; 0x35; 0x36; 0x37; 0x38; 0x39] 9 = Some 0x6F91.
Proof.
  rewrite crc16_implements_ccitt; [vm_compute; reflexivity|..].
  - repeat constructor; unfold byte_ok; lia.
  - simpl; lia.
Defined.

(** Two buffers whose first [len] bytes differ only inside a window of 16
    consecutive bits (a burst of at most 16 bits, and so any single-bit, single-byte
    or aligned two-byte corruption) have different checksums. *)
Theorem crc16_detects_bursts start l k len w :
  bytes_ok l -> bytes_ok k -> length l = length k -> len = Z.of_nat (length l) ->
  burst w (bits_of l) (bits_of k) -> (length w <= 16)%nat -> true ∈ w ->
  crc16 start l len <> crc16 start k len.
Proof.
  intros Hl Hk Hlen -> Hb Hw Ht.
  rewrite !crc16_checksum by lia. rewrite Nat2Z.id, Hlen at 1.
  rewrite Nat2Z.id, <- Hlen at 1. rewrite !firstn_all2 by lia.
  intros [= E]. revert E. eapply checksum_burst; eauto. apply u16_range.
Qed.

Lemma crc16_detects_bursts_witness :
  crc16 0 [1; 0x80; 0x40; 7] 4 <> crc16 0 [1; 0x00; 0xC1; 7] 4.
Proof.
  apply (crc16_detects_bursts 0 _ _ 4 [true; true; false; false; false; false; false; false; true]).
  - repeat constructor; unfold byte_ok; lia.
  - repeat constructor; unfold byte_ok; lia.
  - reflexivity.
  - reflexivity.
  - exists 15%nat, 8%nat. reflexivity.
  - simpl; lia.
  - constructor.
Defined.

(** The four-argument overload accumulates in a plain [char] and so returns
    the low byte of the register only: whatever the data, with an unsigned
    [char] its result is below 256, and already on one byte it differs from the
    three-argument overload. *)
Theorem crc16_overload_truncates start data offset len r :
  crc16_off false start data offset len = Some r -> 0 <= r < 256.
Proof.
  unfold crc16_off. change (char_val false (u8 start)) with (u8 start).
  assert (byte_ok (u8 start)) as H by apply u8_ok. revert H.
  generalize (u8 start), 0%nat. induction (Z.to_nat len) as [|n IH]; intros c i Hc; simpl.
  - intros [= <-]. unfold u16. rewrite Z.mod_small; unfold byte_ok in Hc; lia.
  - destruct (data !! (Z.to_nat offset + i)%nat) as [d|]; [|done]. simpl. apply IH, u8_ok.
Qed.

Lemma crc16_overload_truncates_witness :
  0 <= 0xF7 < 256 /\ crc16_off false (-1) [0x61] 0 1 <> crc16 (-1) [0x61] 1.
Proof.
  split; [|vm_compute; discriminate].
  apply (crc16_overload_truncates (-1) [0x61] 0 1). vm_compute. reflexivity.
Defined.

End CRC16.
