(* ===== verification/Packet.v ===== *)
(** * Packet: frames and their accessors

    The class [Packet] (device-agent/src/Packet.h, Packet.cpp) and its derived
    classes [CmdPacket] (CommunicationCommand.h/.cpp), [HistoryDataRequestCmd]
    and [MPHealthCheckCmdPacket], less the methods that talk to a channel.

    The only field of the class is [strCache], so a packet is its byte string.
    Field accessors cast [strCache.data()] to a packed struct and read at a fixed
    offset without looking at the size; they are partial functions here, [None]
    being a read outside the string. *)

From S2P Require Import Prelude CRC16.
Import CRC16.

Module Packet.

(** ** Commands and symbols *)

(** [enum CommunicationCommand]: Packet.h. *)
Inductive CommunicationCommand :=
| DataRequest | MPHealthCheck | GetCondition | SetCondition | GetPreAmp | GetADCSetting
| GetSpectrumSetting | GetNetworkSetting | SetLowHiDoesRateAlarmReset
| SetTransmitUnitHardwareReset | SetTransmitUnitReset | SetTransmitUnitMemortClear
| GetTime | SetTime | RequestDoseRate | ConfirmDoseRate | RequestSpectrum | ConfirmSpectrum
| RequestDoseRateAlarm | ConfirmDoseRateAlarm | Request40KAction | Confirm40KAction
| RequestGPS | ConfirmGPS | RequestDataCancel | DataTerminate | SetDataPort | SetControlPort
| ControlPortHealthCheck | CMD_END.

#[global] Instance CommunicationCommand_eq_dec : EqDecision CommunicationCommand.
Proof. solve_decision. Defined.

(** The enumerators in order, [CMD_END] excluded: the range of the loops over
    [eCmd]. *)
Definition commands : list CommunicationCommand :=
  [DataRequest; MPHealthCheck; GetCondition; SetCondition; GetPreAmp; GetADCSetting;
   GetSpectrumSetting; GetNetworkSetting; SetLowHiDoesRateAlarmReset;
   SetTransmitUnitHardwareReset; SetTransmitUnitReset; SetTransmitUnitMemortClear;
   GetTime; SetTime; RequestDoseRate; ConfirmDoseRate; RequestSpectrum; ConfirmSpectrum;
   RequestDoseRateAlarm; ConfirmDoseRateAlarm; Request40KAction; Confirm40KAction;
   RequestGPS; ConfirmGPS; RequestDataCancel; DataTerminate; SetDataPort; SetControlPort;
   ControlPortHealthCheck].

(** [cmdWord[]]: Packet.cpp; each entry with its terminating NUL. *)
Definition cmdWord (e : CommunicationCommand) : list byte :=
  match e with
  | DataRequest => [114; 97; 0] (* "ra" *)
  | MPHealthCheck => [119; 97; 0] (* "wa" *)
  | GetCondition => [99; 97; 0] (* "ca" *)
  | SetCondition => [99; 65; 0] (* "cA" *)
  | GetPreAmp => [99; 98; 0] (* "cb" *)
  | GetADCSetting => [99; 99; 0] (* "cc" *)
  | GetSpectrumSetting => [99; 100; 0] (* "cd" *)
  | GetNetworkSetting => [99; 101; 0] (* "ce" *)
  | SetLowHiDoesRateAlarmReset => [99; 70; 0] (* "cF" *)
  | SetTransmitUnitHardwareReset => [99; 72; 0] (* "cH" *)
  | SetTransmitUnitReset => [99; 73; 0] (* "cI" *)
  | SetTransmitUnitMemortClear => [99; 74; 0] (* "cJ" *)
  | GetTime => [99; 107; 0] (* "ck" *)
  | SetTime => [99; 75; 0] (* "cK" *)
  | RequestDoseRate => [104; 97; 0] (* "ha" *)
  | ConfirmDoseRate => [104; 65; 0] (* "hA" *)
  | RequestSpectrum => [104; 99; 0] (* "hc" *)
  | ConfirmSpectrum => [104; 67; 0] (* "hC" *)
  | RequestDoseRateAlarm => [104; 100; 0] (* "hd" *)
  | ConfirmDoseRateAlarm => [104; 68; 0] (* "hD" *)
  | Request40KAction => [104; 102; 0] (* "hf" *)
  | Confirm40KAction => [104; 70; 0] (* "hF" *)
  | RequestGPS => [104; 103; 0] (* "hg" *)
  | ConfirmGPS => [104; 71; 0] (* "hG" *)
  | RequestDataCancel => [104; 121; 0] (* "hy" *)
  | DataTerminate => [104; 122; 0] (* "hz" *)
  | SetDataPort => [112; 65; 0] (* "pA" *)
  | SetControlPort => [112; 66; 0] (* "pB" *)
  | ControlPortHealthCheck => [119; 98; 0] (* "wb" *)
  | CMD_END => [0] (* "" *)
  end.

(** [enum Packet::Symbol]. *)
Definition SOH : byte := 0x01.
Definition STX : byte := 0x02.
Definition ETX : byte := 0x03.
Definition EOT : byte := 0x04.
Definition ENQ : byte := 0x05.
Definition ACK : byte := 0x06.
Definition NAK : byte := 0x15.
Definition ETB : byte := 0x17.

(** ** Memory reads

    [data()[i]]: the bytes of the string, then the terminating NUL that libstdc++
    keeps at [data()[size()]], then nothing. *)

Abbreviation packet := (list byte) (only parsing).

Definition byte_at (p : list byte) (i : nat) : option byte := (p ++ [0]) !! i.

(** [append(buf, n)] and [SetPacket(buf, n)] read [n] bytes of [buf]. *)
Definition read_mem (buf : list byte) (n : Z) : option (list byte) :=
  if (0 <=? n) && (n <=? Z.of_nat (length buf)) then Some (take (Z.to_nat n) buf) else None.

(** 16- and 32-bit loads and stores on the little-endian target, and the byte
    swaps of [ntohs]/[htons]/[ntohl]/[htonl] there. *)
Definition load16 (p : list byte) (off : nat) : option Z :=
  b0 ← byte_at p off; b1 ← byte_at p (S off); Some (b0 + 256 * b1).

Definition load32 (p : list byte) (off : nat) : option Z :=
  lo ← load16 p off; hi ← load16 p (S (S off)); Some (lo + 65536 * hi).

Definition le16_bytes (n : Z) : list byte := [u8 n; u8 (n .>> 8)].
Definition le32_bytes (n : Z) : list byte :=
  [u8 n; u8 (n .>> 8); u8 (n .>> 16); u8 (n .>> 24)].

Definition store16 (p : list byte) (off : nat) (n : Z) : option (list byte) :=
  if (off + 2 <=? length p)%nat then Some (take off p ++ le16_bytes n ++ drop (off + 2) p) else None.

Definition swap16 (n : Z) : Z := (n mod 256) * 256 + (n / 256) mod 256.
Definition swap32 (n : Z) : Z := swap16 (n mod 65536) * 65536 + swap16 (n / 65536).
Definition ntohs := swap16.
Definition htons := swap16.
Definition ntohl := swap32.
Definition htonl := swap32.

(** Offsets of the packed frame structs of Packet.h ([FrameHead] is 3 bytes). *)
Definition off_cmd : nat := 3.           (* all frames: cmd[2] *)
Definition off_port : nat := 5.          (* PortAssignFrame.port *)
Definition off_dataNo : nat := 7.        (* DataPacketFrame.dataNo *)
Definition off_nInterval : nat := 7.     (* ConditionFrame.nInterval *)
Definition off_time : nat := 7.          (* GetTimeFrame.time: year, month, day, hour, minute *)
Definition off_second : nat := 13.       (* GetTimeFrame.second *)
Definition off_nStatus : nat := 15.      (* HealthCheckStatusAnswerFrame.nStatus *)
Definition off_dataNumber : nat := 4.    (* AcKFrame.dataNumber *)
Definition sizeof_DataPacketFrame : Z := 74.

(** ** Building frames *)

(** [Packet::BuildPacket]. *)
Definition BuildPacket (szContent : list byte) (size : Z) (Machine : byte) : option packet :=
  content ← read_mem szContent size;
  let strCache := [SOH; u8 Machine; STX] ++ content ++ [ETX] in
  crc ← crc16 (-1) (drop 3 strCache) (size + 1);
  Some (strCache ++ [u8 ((crc .>> 8) .& 0x00FF); u8 (crc .& 0x0FF)] ++ [EOT]).

(** [Packet::Ack]; [nNum] is a [short]. *)
Definition Ack (bAck : bool) (Machine : byte) (eCmd : CommunicationCommand) (nNum : Z) : option packet :=
  word ← read_mem (cmdWord eCmd) 2;
  let strCache := [if bAck then ACK else NAK; u8 Machine] ++ word in
  Some (if nNum =? 0 then strCache
        else strCache ++ [u8 ((nNum .>> 8) .& 0x0FF); u8 (nNum .& 0x0FF)]).

(** [Packet::SetPacket]. *)
Definition SetPacket (szBuf : list byte) (n : Z) : option packet := read_mem szBuf n.

(** [Packet::GetSize]. *)
Definition GetSize (p : packet) : Z := Z.of_nat (length p).

(** ** Frame validity *)

(** [Packet::isFrameCRCOK]; the reads are all below [size], which is at least 9. *)
Definition isFrameCRCOK (sc : bool) (p : packet) : bool :=
  if GetSize p <? 9 then false
  else
    let tail := (length p - 1)%nat in
    let ch i := char_val sc (default 0 (p !! i)) in
    if (ch tail =? EOT) && (ch (tail - 3)%nat =? ETX) then
      match crc16 (-1) (drop 3 p) (GetSize p - 6) with
      | Some crc =>
          let CRC := u16 (((ch (tail - 2)%nat .<< 8) .& 0xFF00) .| (0x00FF .& ch (tail - 1)%nat)) in
          crc =? CRC
      | None => false
      end
    else false.

(** [Packet::slipToNextStartToken]: drop everything before the next [SOH] found
    from position 1 on, or everything. *)
Definition slipToNextStartToken (p : packet) : packet :=
  match find_pos (fun b => b =? SOH) (drop 1 p) with
  | Some pos => drop (S pos) p
  | None => []
  end.

(** [Packet::isValidFrame]: the loop body runs once ([continue] in a
    [do .. while (false)] leaves the loop), so an oversized cache is cut once and
    the answer is still [false]. *)
Definition isValidFrame (sc : bool) (p : packet) : bool * packet :=
  if isFrameCRCOK sc p then (true, p)
  else if 4056 <? GetSize p then (false, slipToNextStartToken p)
  else (false, p).

Definition IsValidFrame (sc : bool) (p : packet) : bool := isFrameCRCOK sc p.

(** ** Accessors *)

(** [CmdPacket::IsCommand], on the string at [szCmd = p + off]; [CMD_END] is the
    largest enumerator and [szCmd] is never null here. *)
Definition IsCommand (p : packet) (off : nat) (n : CommunicationCommand) : option bool :=
  c0 ← byte_at p off; w0 ← cmdWord n !! 0%nat;
  if c0 =? w0 then c1 ← byte_at p (S off); w1 ← cmdWord n !! 1%nat; Some (c1 =? w1)
  else Some false.

Definition GetDataNo (p : packet) : option Z :=
  if GetSize p <? 1 then Some 0 else ntohs <$> load16 p off_dataNo.

Definition GetInterval (p : packet) : option Z :=
  if GetSize p <? 1 then Some 0 else byte_at p off_nInterval.

Definition GetAssignedPort (p : packet) : option Z :=
  if GetSize p <? 1 then Some 0 else ntohs <$> load16 p off_port.

Definition IsAckNo (p : packet) (No : Z) : option bool :=
  a ← byte_at p 0;
  if a =? ACK then n ← load16 p off_dataNumber; Some (n =? htons No) else Some false.

Definition IsValidStatus (p : packet) : option bool :=
  if 0 <? GetSize p then IsCommand p off_cmd MPHealthCheck else Some false.

Definition GetStatus (p : packet) : option Z :=
  if 0 <? GetSize p then ntohl <$> load32 p off_nStatus else Some 0.

Definition GetAckNo (p : packet) : option Z :=
  if GetSize p =? 4 then Some 0 else ntohs <$> load16 p off_dataNumber.

Definition IsValidAck (p : packet) : bool :=
  match p with [] => false | c :: _ => (c =? ACK) || (c =? NAK) end.

(** [strCache[0]] of an empty string is its terminating NUL. *)
Definition IsAck (p : packet) : bool := default 0 (byte_at p 0) =? ACK.

(** The scan over [cmdWord] shared by [FrameCommandType] and [CommandType]. *)
Fixpoint scan_cmd (p : packet) (es : list CommunicationCommand) : option CommunicationCommand :=
  match es with
  | [] => Some CMD_END
  | e :: es =>
      ok ← IsCommand p off_cmd e;
      if ok : bool then Some e else scan_cmd p es
  end.

(** [Packet::FrameCommandType]. *)
Definition FrameCommandType (p : packet) : option CommunicationCommand :=
  if 4 <? GetSize p then scan_cmd p commands else Some CMD_END.

(** [CmdPacket::CommandType]: the same scan without the size test. *)
Definition CommandType (p : packet) : option CommunicationCommand := scan_cmd p commands.

(** [CmdPacket::SetCommand]. *)
Definition SetCommand (szCmd : list byte) (Machine : byte) : option packet :=
  BuildPacket szCmd 2 Machine.

(** ** Time frames *)

(** The fields of [struct tm] that [GetMPTime] sets. *)
Record tm := mkTm { tm_year : Z; tm_mon : Z; tm_mday : Z; tm_hour : Z; tm_min : Z; tm_sec : Z }.

(** Days from 1970-01-01 to the first of a month, proleptic Gregorian calendar. *)
Definition days_to_month (y m : Z) : Z :=
  let y' := if m <? 3 then y - 1 else y in
  let mp := (m + 9) mod 12 in
  365 * y' + y' / 4 - y' / 100 + y' / 400 + (153 * mp + 2) / 5 - 719468.

(** [mktime] of the C library for a zone [gmtoff] seconds east of UTC without
    daylight saving: fields may be out of range and are normalised; a result that
    does not fit the 32-bit [time_t] is -1. *)
Definition mktime (gmtoff : Z) (t : tm) : Z :=
  let y := tm_year t + 1900 + tm_mon t / 12 in
  let m := tm_mon t mod 12 + 1 in
  let days := days_to_month y m + (tm_mday t - 1) in
  let secs := ((days * 24 + tm_hour t) * 60 + tm_min t) * 60 + tm_sec t - gmtoff in
  if (- 2 ^ 31 <=? secs) && (secs <? 2 ^ 31) then secs else -1.

(** [Packet::GetMPTime]. *)
Definition GetMPTime (gmtoff : Z) (p : packet) : option Z :=
  if GetSize p =? 0 then Some 0
  else
    ok ← IsCommand p off_cmd GetTime;
    if ok : bool then
      year ← load16 p off_time; month ← byte_at p 9; day ← byte_at p 10;
      hour ← byte_at p 11; minute ← byte_at p 12; second ← byte_at p off_second;
      Some (mktime gmtoff (mkTm (ntohs year - 1900) (month - 1) day hour minute second))
    else Some 0.

(** ** Dump *)

Definition hex_digit (n : Z) : byte := if n <? 10 then 48 + n else 55 + n.

(** [sprintf(buf + n, "%02hhX ", c)]. *)
Definition hex_byte (b : byte) : list byte := [hex_digit (b / 16); hex_digit (b mod 16); 32].

(** [Packet::Dump]: the text left in [buf] ([char buf[1024]]); the loop stops
    once more than 1000 characters are used. *)
Fixpoint Dump_loop (p : packet) (buf : list byte) : list byte :=
  match p with
  | [] => buf
  | b :: p =>
      let buf := buf ++ hex_byte b in
      if 1000 <? Z.of_nat (length buf) then buf else Dump_loop p buf
  end.

Definition Dump (p : packet) : list byte := Dump_loop p [].

(** ** History requests ([HistoryDataRequestCmd]): raw host-order fields *)

Definition GetStartNum (p : packet) : option Z := load16 p 7.
Definition GetEndNum (p : packet) : option Z := load16 p 9.
Definition GetDataNumber (p : packet) : option Z := load16 p 11.
Definition SetStartNum (p : packet) (n : Z) : option packet := store16 p 7 (u16 n).

(** ** Health-check commands ([MPHealthCheckCmdPacket]) *)

Definition INT_COMM_ERR : Z := 1 .<< 17.
Definition EXT_COMM_ERR : Z := 1 .<< 18.

(** The status word sent: [|=] or [&= ~] of each error bit. *)
Definition health_status (nStatus : Z) (bIntErr bExtErr : bool) : Z :=
  let s := if bIntErr then nStatus .| INT_COMM_ERR else Z.ldiff nStatus INT_COMM_ERR in
  if bExtErr then s .| EXT_COMM_ERR else Z.ldiff s EXT_COMM_ERR.

(** The constructor: the content is [cmd], [length = 9] in host order and the
    status in network order. *)
Definition MPHealthCheckCmdPacket (nStatus : Z) (Machine : byte) (bIntErr bExtErr : bool) : option packet :=
  let content :=
    take 2 (cmdWord MPHealthCheck) ++ le16_bytes 9 ++
    le32_bytes (htonl (health_status nStatus bIntErr bExtErr)) in
  BuildPacket content 8 Machine.

(** ** Lemmas: memory and fields *)

Lemma byte_at_lt p i : (i < length p)%nat -> byte_at p i = p !! i.
Proof. intros H. unfold byte_at. by rewrite lookup_app_l. Qed.

Lemma byte_at_oob p i : (length p < i)%nat -> byte_at p i = None.
Proof. intros H. apply lookup_ge_None_2. rewrite length_app. simpl. lia. Qed.

Lemma read_mem_all buf : read_mem buf (Z.of_nat (length buf)) = Some buf.
Proof.
  unfold read_mem. rewrite (proj2 (Z.leb_le _ _)) by lia. rewrite Z.leb_refl. simpl.
  by rewrite Nat2Z.id, firstn_all.
Qed.

Lemma read_mem_prefix a b : read_mem (a ++ b) (Z.of_nat (length a)) = Some a.
Proof.
  unfold read_mem. rewrite length_app, (proj2 (Z.leb_le _ _)), (proj2 (Z.leb_le _ _)) by lia.
  simpl. by rewrite Nat2Z.id, take_app_length.
Qed.

Lemma ntohs_load a b : byte_ok a -> byte_ok b -> ntohs (a + 256 * b) = be16 a b.
Proof.
  unfold byte_ok, ntohs, swap16, be16. intros Ha Hb.
  replace (a + 256 * b) with (a + b * 256) by lia.
  rewrite Z.mod_add, Z.div_add by done.
  rewrite (Z.mod_small a), (Z.div_small a), (Z.mod_small (0 + b)) by lia. lia.
Qed.

Lemma htons_load a b n :
  byte_ok a -> byte_ok b -> 0 <= n < 65536 -> (a + 256 * b =? htons n) = (be16 a b =? n).
Proof.
  intros Ha Hb Hn. rewrite <- ntohs_load by done. unfold ntohs, htons, swap16, byte_ok in *.
  pose proof (Z.div_mod n 256). pose proof (Z.mod_pos_bound n 256).
  pose proof (Z.div_mod (a + 256 * b) 256). pose proof (Z.mod_pos_bound (a + 256 * b) 256).
  rewrite (Z.mod_small (n / 256)), (Z.mod_small ((a + 256 * b) / 256)) by lia.
  destruct (Z.eqb_spec (a + 256 * b) (n mod 256 * 256 + n / 256)),
    (Z.eqb_spec ((a + 256 * b) mod 256 * 256 + (a + 256 * b) / 256) n); lia.
Qed.

(** Comparing a plain [char] with a symbol does not depend on its signedness. *)
Lemma char_val_eqb sc b s : byte_ok b -> 0 <= s < 128 -> (char_val sc b =? s) = (b =? s).
Proof.
  unfold byte_ok, char_val. intros Hb Hs. case_bool; [|done]. to_prop.
  rewrite !(proj2 (Z.eqb_neq _ _)); lia.
Qed.

Lemma crc_field sc hi lo :
  byte_ok hi -> byte_ok lo ->
  u16 (((char_val sc hi .<< 8) .& 0xFF00) .| (0x00FF .& char_val sc lo)) = be16 hi lo.
Proof.
  intros Hhi Hlo. rewrite (Z.land_comm 0xFF), char_val_land_255 by done.
  change 0xFF00 with (0xFF .<< 8). rewrite <- Z.shiftl_land, char_val_land_255 by done.
  unfold be16, u16, byte_ok in *. rewrite Z.shiftl_mul_pow2 by lia. change (2 ^ 8) with 256.
  assert ((hi * 256) .| lo = hi * 256 + lo) as ->; [|apply Z.mod_small; lia].
  rewrite <- Z.lxor_lor, <- Z.add_nocarry_lxor; [done|..];
    apply Z.bits_inj'; intros i Hi; rewrite Z.land_spec, Z.bits_0;
    change 256 with (2 ^ 8); destruct (Z.lt_ge_cases i 8).
  1,3: by rewrite Z.mul_pow2_bits_low.
  all: rewrite (testbit_small 8 lo) by lia; by rewrite andb_false_r.
Qed.

(** ** Lemmas: frames *)

(** A frame taken apart: three head bytes, the content, and the trailer. *)
Lemma frame_split (p : packet) :
  (9 <= length p)%nat ->
  exists h body a b c d, p = h ++ body ++ [a; b; c; d] /\ length h = 3%nat /\ (2 <= length body)%nat.
Proof.
  intros H. exists (take 3 p), (take (length p - 7) (drop 3 p)).
  assert (length (drop (length p - 4) p) = 4%nat) as Hl by (rewrite length_drop; lia).
  destruct (drop (length p - 4) p) as [|a [|b [|c [|d [|]]]]] eqn:E; simpl in Hl; try lia.
  exists a, b, c, d. rewrite <- E, length_take, length_take, length_drop. split; [|lia].
  rewrite <- (take_drop 3 p) at 1. f_equal.
  rewrite <- (take_drop (length p - 7) (drop 3 p)) at 1. rewrite drop_drop. do 2 f_equal. lia.
Qed.

Lemma drop_head (h l : list byte) : length h = 3%nat -> drop 3 (h ++ l) = l.
Proof. intros H. rewrite <- H. apply drop_app_length. Qed.

(** What [isFrameCRCOK] computes on a frame of at least 9 bytes. *)
Lemma isFrameCRCOK_frame sc h body a b c d :
  length h = 3%nat -> (2 <= length body)%nat -> bytes_ok [a; b; c; d] ->
  isFrameCRCOK sc (h ++ body ++ [a; b; c; d]) =
    (d =? EOT) && (a =? ETX) && (checksum 65535 (body ++ [a]) =? be16 b c).
Proof.
  intros Hh Hb Hok. unfold bytes_ok in Hok. rewrite !Forall_cons_iff in Hok.
  destruct Hok as (Ha & Hbb & Hc & Hd & _).
  set (p := h ++ body ++ [a; b; c; d]).
  assert (length p = length body + 7)%nat as Hp by (unfold p; rewrite !length_app, Hh; simpl; lia).
  assert (forall k x, [a; b; c; d] !! k = Some x -> p !! (length body + 3 + k)%nat = Some x) as Hlk.
  { intros k x Hk. unfold p. rewrite app_assoc, lookup_app_r; rewrite length_app, Hh; [|lia].
    rewrite <- Hk. f_equal. lia. }
  unfold isFrameCRCOK, GetSize. rewrite (proj2 (Z.ltb_ge _ _)) by lia. cbv zeta.
  replace (length p - 1)%nat with (length body + 3 + 3)%nat by lia.
  replace (length body + 3 + 3 - 3)%nat with (length body + 3 + 0)%nat by lia.
  replace (length body + 3 + 3 - 2)%nat with (length body + 3 + 1)%nat by lia.
  replace (length body + 3 + 3 - 1)%nat with (length body + 3 + 2)%nat by lia.
  rewrite (Hlk 3%nat d), (Hlk 0%nat a), (Hlk 1%nat b), (Hlk 2%nat c) by done. cbn [default from_option id].
  rewrite !char_val_eqb by (done || (unfold EOT, ETX; lia)).
  destruct ((d =? EOT) && (a =? ETX)); [|done]. rewrite crc_field by done.
  assert (drop 3 p = body ++ [a; b; c; d]) as -> by (by apply drop_head).
  rewrite crc16_checksum by (rewrite length_app; simpl; lia). change (u16 (-1)) with 65535.
  replace (Z.to_nat (Z.of_nat (length p) - 6)) with (length (body ++ [a]))
    by (rewrite length_app; simpl; lia).
  change [a; b; c; d] with ([a] ++ [b; c; d]). by rewrite app_assoc, take_app_length.
Qed.

Lemma isFrameCRCOK_size sc p : isFrameCRCOK sc p = true -> (9 <= length p)%nat.
Proof. unfold isFrameCRCOK, GetSize. destruct (Z.ltb_spec (Z.of_nat (length p)) 9); [done|lia]. Qed.

(** Valid frames, stated without the program's index arithmetic. *)
Definition frame_wf (p : packet) : Prop :=
  exists h body hi lo,
    p = h ++ body ++ [ETX; hi; lo; EOT] /\ length h = 3%nat /\ (2 <= length body)%nat /\
    be16 hi lo = checksum 65535 (body ++ [ETX]).

Lemma isFrameCRCOK_wf sc p : bytes_ok p -> isFrameCRCOK sc p = true <-> frame_wf p.
Proof.
  intros Hok. split.
  - intros H. pose proof (isFrameCRCOK_size _ _ H) as Hs.
    destruct (frame_split p Hs) as (h & body & a & b & c & d & -> & Hh & Hb).
    rewrite !bytes_ok_app in Hok. destruct Hok as (_ & _ & Hok).
    rewrite isFrameCRCOK_frame in H by done. to_prop. subst.
    exists h, body, b, c. eauto.
  - intros (h & body & hi & lo & -> & Hh & Hb & Hcrc).
    rewrite !bytes_ok_app in Hok. destruct Hok as (_ & _ & Hok).
    rewrite isFrameCRCOK_frame, <- Hcrc by done. by rewrite !Z.eqb_refl.
Qed.

(** A string that does not end in the trailer's [EOT] is not a frame. *)
Lemma isFrameCRCOK_last sc p b :
  byte_ok b -> isFrameCRCOK sc (p ++ [b]) = true -> b = EOT.
Proof.
  intros Hb. unfold isFrameCRCOK. case_bool; [done|]. cbv zeta.
  replace (length (p ++ [b]) - 1)%nat with (length p + 0)%nat by (rewrite length_app; simpl; lia).
  rewrite (lookup_app_r p [b]) by lia. replace (length p + 0 - length p)%nat with 0%nat by lia.
  cbn [lookup list_lookup default from_option id].
  rewrite char_val_eqb by (done || (unfold EOT; lia)).
  destruct (b =? EOT) eqn:E'; [intros _; by to_prop|done].
Qed.

(** ** Lemmas: built frames *)

(** The trailer [BuildPacket] appends. *)
Definition trailer (content : list byte) : list byte :=
  let crc := checksum 65535 (content ++ [ETX]) in
  [ETX; u8 ((crc .>> 8) .& 0x00FF); u8 (crc .& 0x0FF); EOT].

Lemma u8_land_255 z : u8 (z .& 255) = u8 z.
Proof. unfold u8. rewrite land_255. by apply Z.mod_mod. Qed.

Lemma trailer_crc content :
  bytes_ok content ->
  exists hi lo, trailer content = [ETX; hi; lo; EOT] /\ byte_ok hi /\ byte_ok lo /\
    be16 hi lo = checksum 65535 (content ++ [ETX]).
Proof.
  intros Hc. unfold trailer. rewrite !u8_land_255. do 2 eexists.
  split_and!; [done|apply u8_ok|apply u8_ok|].
  apply be16_split. apply (checksum_range 65535); [|lia].
  apply bytes_ok_app. split; [done|]. repeat constructor; unfold ETX; lia.
Qed.

Lemma trailer_ok content : bytes_ok (trailer content).
Proof. repeat constructor; (apply u8_ok || (unfold ETX, EOT; lia)). Qed.

Lemma BuildPacket_form szContent size m content :
  read_mem szContent size = Some content ->
  BuildPacket szContent size m = Some ([SOH; u8 m; STX] ++ content ++ trailer content).
Proof.
  intros Hr. unfold BuildPacket. rewrite Hr. cbn [mbind option_bind].
  assert (size = Z.of_nat (length content)) as Hs.
  { unfold read_mem in Hr. case_bool; [|done]. simplify_eq. to_prop. rewrite length_take. lia. }
  rewrite drop_head by done.
  rewrite crc16_checksum by (rewrite length_app; simpl; lia).
  replace (Z.to_nat (size + 1)) with (length (content ++ [ETX])) by (rewrite length_app; simpl; lia).
  rewrite firstn_all. cbn [mbind option_bind]. change (u16 (-1)) with 65535.
  unfold trailer. by rewrite <- !app_assoc.
Qed.

Lemma built_frame_wf m content :
  bytes_ok content -> (2 <= length content)%nat ->
  frame_wf ([SOH; u8 m; STX] ++ content ++ trailer content).
Proof.
  intros Hc Hl. destruct (trailer_crc content Hc) as (hi & lo & -> & _ & _ & Hcrc).
  exists [SOH; u8 m; STX], content, hi, lo. auto.
Qed.

Lemma built_frame_ok m content :
  bytes_ok content -> bytes_ok ([SOH; u8 m; STX] ++ content ++ trailer content).
Proof.
  intros Hc. rewrite !bytes_ok_app. split_and!; [|done|apply trailer_ok].
  repeat constructor; (apply u8_ok || (unfold SOH, STX; lia)).
Qed.

(** The frame of a two-letter command. *)
Definition cmd_frame (e : CommunicationCommand) (m : byte) : packet :=
  [SOH; u8 m; STX] ++ take 2 (cmdWord e) ++ trailer (take 2 (cmdWord e)).

Lemma SetCommand_frame e m : e <> CMD_END -> SetCommand (cmdWord e) m = Some (cmd_frame e m).
Proof. intros He. apply BuildPacket_form. by destruct e. Qed.

Lemma cmdWord_ok e : bytes_ok (cmdWord e).
Proof. apply (bool_decide_unpack _). by destruct e; vm_compute. Qed.

Lemma cmd_frame_ok e m : bytes_ok (cmd_frame e m).
Proof. apply built_frame_ok, bytes_ok_take, cmdWord_ok. Qed.

Lemma cmd_frame_length e m : e <> CMD_END -> length (cmd_frame e m) = 9%nat.
Proof. intros He. by destruct e. Qed.

Lemma cmd_frame_wf e m : e <> CMD_END -> frame_wf (cmd_frame e m).
Proof. intros He. apply built_frame_wf; [apply bytes_ok_take, cmdWord_ok|]. destruct e; simpl; done || lia. Qed.

(** The word at offset 3 decides the command type. *)
Lemma scan_cmd_frame e h rest :
  e <> CMD_END -> length h = 3%nat -> scan_cmd (h ++ take 2 (cmdWord e) ++ rest) commands = Some e.
Proof.
  intros He Hh. destruct h as [|x [|y [|z [|]]]]; simplify_eq/=. by destruct e; simpl.
Qed.

(** ** Lemmas: resynchronisation *)

Lemma slip_length p : p <> [] -> (length (slipToNextStartToken p) < length p)%nat.
Proof.
  intros Hp. destruct p as [|x p]; [done|]. unfold slipToNextStartToken. simpl drop.
  destruct (find_pos _ _) as [pos|]; simpl; [rewrite length_drop|]; lia.
Qed.

Lemma slip_head p : slipToNextStartToken p = [] \/ exists q, slipToNextStartToken p = SOH :: q.
Proof.
  unfold slipToNextStartToken. destruct (find_pos _ _) as [pos|] eqn:E; [right|by left].
  apply find_pos_drop in E as (x & k & Hk & Hx). to_prop. subst.
  rewrite drop_drop in Hk. eauto.
Qed.

Lemma slip_suffix p : exists q, p = q ++ slipToNextStartToken p.
Proof.
  unfold slipToNextStartToken. destruct (find_pos _ _) as [pos|].
  - exists (take (S pos) p). by rewrite take_drop.
  - exists p. by rewrite app_nil_r.
Qed.

Lemma slip_ok p : bytes_ok p -> bytes_ok (slipToNextStartToken p).
Proof.
  intros H. destruct (slip_suffix p) as [q Hq]. rewrite Hq, bytes_ok_app in H. apply H.
Qed.

(** ** Lemmas: 32-bit fields and status words *)

Lemma swap32_range n : 0 <= n < 2 ^ 32 -> 0 <= swap32 n < 2 ^ 32.
Proof. unfold swap32, swap16. intros H. Z.div_mod_to_equations. lia. Qed.

Lemma swap16_involutive n : 0 <= n < 65536 -> swap16 (swap16 n) = n.
Proof. unfold swap16. intros H. Z.div_mod_to_equations. lia. Qed.

Lemma swap16_range n : 0 <= swap16 n < 65536.
Proof. unfold swap16. Z.div_mod_to_equations. lia. Qed.

Lemma swap32_involutive n : 0 <= n < 2 ^ 32 -> ntohl (htonl n) = n.
Proof.
  unfold ntohl, htonl, swap32. intros H.
  pose proof (swap16_range (n mod 65536)). pose proof (swap16_range (n / 65536)).
  rewrite (Z.add_comm (swap16 (n mod 65536) * 65536)), Z.mod_add, Z.div_add by lia.
  rewrite (Z.mod_small (swap16 _)), (Z.div_small (swap16 _)) by lia. rewrite Z.add_0_l.
  rewrite !swap16_involutive by (Z.div_mod_to_equations; lia).
  Z.div_mod_to_equations; lia.
Qed.

Lemma le32_value n :
  0 <= n < 2 ^ 32 ->
  u8 n + 256 * u8 (n .>> 8) + 65536 * (u8 (n .>> 16) + 256 * u8 (n .>> 24)) = n.
Proof.
  intros H. unfold u8. rewrite !Z.shiftr_div_pow2 by lia. Z.div_mod_to_equations. lia.
Qed.

Lemma le16_value n : 0 <= n < 65536 -> u8 n + 256 * u8 (n .>> 8) = n.
Proof. intros H. unfold u8. rewrite !Z.shiftr_div_pow2 by lia. Z.div_mod_to_equations. lia. Qed.

Lemma health_status_bits s bInt bExt i :
  0 <= i ->
  Z.testbit (health_status s bInt bExt) i =
    if i =? 17 then bInt else if i =? 18 then bExt else Z.testbit s i.
Proof.
  intros Hi. unfold health_status.
  change INT_COMM_ERR with (2 ^ 17). change EXT_COMM_ERR with (2 ^ 18).
  destruct bInt, bExt; rewrite ?Z.lor_spec, ?Z.ldiff_spec, ?Z.lor_spec, ?Z.ldiff_spec;
    rewrite !Z.pow2_bits_eqb by lia; rewrite (Z.eqb_sym i 17), (Z.eqb_sym i 18);
    destruct (Z.eqb_spec 17 i), (Z.eqb_spec 18 i); try lia; destruct (Z.testbit s i); done.
Qed.

Lemma health_status_range s bInt bExt :
  0 <= s < 2 ^ 32 -> 0 <= health_status s bInt bExt < 2 ^ 32.
Proof.
  intros Hs. assert (0 <= health_status s bInt bExt) as Hnn.
  { unfold health_status. change INT_COMM_ERR with (2 ^ 17). change EXT_COMM_ERR with (2 ^ 18).
    destruct bInt, bExt; rewrite ?Z.lor_nonneg, ?Z.ldiff_nonneg; rewrite ?Z.lor_nonneg, ?Z.ldiff_nonneg; lia. }
  split; [done|]. apply small_of_testbit; [lia|done|]. intros i Hi.
  rewrite health_status_bits by lia. rewrite !(proj2 (Z.eqb_neq _ _)) by lia. by apply (testbit_small 32).
Qed.

Lemma load16_app h q : load16 (h ++ q) (length h) = load16 q 0.
Proof.
  unfold load16, byte_at. rewrite <- !app_assoc, !(lookup_app_r h) by lia.
  by rewrite Nat.sub_diag, Nat.sub_succ_l, Nat.sub_diag by lia.
Qed.

Lemma store16_app h x y q n : store16 (h ++ [x; y] ++ q) (length h) n = Some (h ++ le16_bytes n ++ q).
Proof.
  unfold store16. rewrite (proj2 (Nat.leb_le _ _)) by (rewrite !length_app; simpl; lia).
  rewrite take_app_length. f_equal. do 2 f_equal.
  by rewrite drop_app_add.
Qed.

(** ** Properties *)

(** [isFrameCRCOK] accepts exactly the well-formed frames: three head bytes,
    at least two content bytes, [ETX], the CRC-CCITT of content and [ETX] with its
    high byte first, and [EOT]; the answer does not depend on the signedness of
    the target's plain [char]. *)
Theorem frame_check_characterised sc p :
  bytes_ok p -> isFrameCRCOK sc p = true <-> frame_wf p.
Proof. apply isFrameCRCOK_wf. Qed.

Lemma frame_check_characterised_witness :
  isFrameCRCOK true (cmd_frame DataRequest 1) = true <-> frame_wf (cmd_frame DataRequest 1).
Proof. apply (frame_check_characterised true). apply cmd_frame_ok. Defined.

(** [BuildPacket] on [size] readable content bytes returns a frame of
    [size + 7] bytes that carries the content unchanged at offset 3, and the
    receiver's check accepts it exactly when [size >= 2]. *)
Theorem built_frames_are_accepted sc szContent size m :
  bytes_ok szContent -> 0 <= size <= Z.of_nat (length szContent) ->
  exists p, BuildPacket szContent size m = Some p /\
    GetSize p = size + 7 /\ bytes_ok p /\
    take (Z.to_nat size) (drop 3 p) = take (Z.to_nat size) szContent /\
    isFrameCRCOK sc p = (2 <=? size).
Proof.
  intros Hok Hs. set (content := take (Z.to_nat size) szContent).
  assert (read_mem szContent size = Some content) as Hr.
  { unfold read_mem. by rewrite !(proj2 (Z.leb_le _ _)) by lia. }
  assert (Z.of_nat (length content) = size) as Hl by (unfold content; rewrite length_take; lia).
  assert (bytes_ok content) as Hc by (by apply bytes_ok_take).
  eexists. split; [by apply BuildPacket_form|].
  pose proof (built_frame_ok m content Hc) as Hp. split_and!; [|done| |].
  - unfold GetSize. rewrite !length_app. change (length (trailer content)) with 4%nat. simpl length. lia.
  - rewrite drop_head by done.
    replace (Z.to_nat size) with (length content) by lia. apply take_app_length.
  - destruct (Z.leb_spec 2 size).
    + apply isFrameCRCOK_wf; [done|]. apply built_frame_wf; [done|lia].
    + apply not_true_is_false. intros E. apply isFrameCRCOK_size in E.
      rewrite !length_app in E. change (length (trailer content)) with 4%nat in E. simpl in E. lia.
Qed.

Lemma built_frames_are_accepted_witness :
  exists p, BuildPacket [114; 97; 7] 3 1 = Some p /\ GetSize p = 10 /\ bytes_ok p /\
    take 3 (drop 3 p) = [114; 97; 7] /\ isFrameCRCOK false p = true.
Proof.
  apply (built_frames_are_accepted false [114; 97; 7] 3 1).
  - repeat constructor; unfold byte_ok; lia.
  - simpl; lia.
Defined.

(** C15.  A valid frame in which the part the CRC covers, the content and its [ETX], is
    corrupted by any error burst of at most 16 bits is rejected; the three head bytes,
    the CRC and [EOT] are those of the valid frame. *)
Theorem corrupted_frames_are_rejected sc h body body' etx hi lo w :
  bytes_ok (h ++ body ++ [ETX; hi; lo; EOT]) -> bytes_ok (body' ++ [etx]) ->
  length h = 3%nat -> length body' = length body ->
  isFrameCRCOK sc (h ++ body ++ [ETX; hi; lo; EOT]) = true ->
  burst w (bits_of (body ++ [ETX])) (bits_of (body' ++ [etx])) -> (length w <= 16)%nat -> true ∈ w ->
  isFrameCRCOK sc (h ++ body' ++ [etx; hi; lo; EOT]) = false.
Proof.
  intros Hok Hok' Hh Hlen Hv Hb Hw Ht. pose proof (isFrameCRCOK_size _ _ Hv) as Hs.
  rewrite !length_app, Hh in Hs. simpl in Hs. rewrite !bytes_ok_app in Hok. destruct Hok as (_ & Hbody & Ht4).
  pose proof (proj2 (proj1 (bytes_ok_app _ _) Hok')) as He.
  assert (bytes_ok [etx; hi; lo; EOT]) as Ht4' by (rewrite !bytes_ok_cons in *; tauto).
  assert (bytes_ok [ETX]) as HE by (repeat constructor; unfold ETX; lia).
  rewrite isFrameCRCOK_frame in * by (done || lia). rewrite !Z.eqb_refl in *. simpl in Hv. to_prop.
  apply andb_false_intro2, Z.eqb_neq. rewrite <- Hv. apply not_eq_sym.
  apply (checksum_burst 65535 _ _ w); [by apply bytes_ok_app|done|lia|rewrite !length_app; simpl; lia|done..].
Qed.

(** A burst that begins in the content and ends in the [ETX]. *)
Lemma corrupted_frames_are_rejected_witness :
  isFrameCRCOK false ([1; 1; 2] ++ [114; 225] ++ [2; 66; 69; EOT]) = false.
Proof.
  apply (corrupted_frames_are_rejected false [1; 1; 2] [114; 97] [114; 225] 2 66 69 [true; true]).
  - apply (bool_decide_unpack _). vm_compute. done.
  - apply (bool_decide_unpack _). vm_compute. done.
  - reflexivity.
  - reflexivity.
  - vm_compute. reflexivity.
  - exists 15%nat, 7%nat. vm_compute. reflexivity.
  - simpl; lia.
  - constructor.
Defined.

(** Command round trip: for every command of the protocol and every machine
    number, [SetCommand] with the command's word yields a 9-byte frame that the
    receiver's check accepts and that both [FrameCommandType] and [CommandType]
    decode to the same command. *)
Theorem command_round_trip sc e m :
  e <> CMD_END ->
  exists p, SetCommand (cmdWord e) m = Some p /\ GetSize p = 9 /\
    isFrameCRCOK sc p = true /\ FrameCommandType p = Some e /\ CommandType p = Some e.
Proof.
  intros He. exists (cmd_frame e m). split; [by apply SetCommand_frame|].
  unfold GetSize. rewrite cmd_frame_length by done. split; [done|]. split.
  - apply isFrameCRCOK_wf; [apply cmd_frame_ok|by apply cmd_frame_wf].
  - unfold FrameCommandType, GetSize. rewrite cmd_frame_length by done.
    split; by apply (scan_cmd_frame e [SOH; u8 m; STX]).
Qed.

Lemma command_round_trip_witness :
  exists p, SetCommand (cmdWord GetTime) 1 = Some p /\ GetSize p = 9 /\
    isFrameCRCOK false p = true /\ FrameCommandType p = Some GetTime /\ CommandType p = Some GetTime.
Proof. apply (command_round_trip false GetTime 1). discriminate. Defined.

(** Acknowledgement round trip: an [Ack] for a non-zero number is recognised
    by [IsValidAck], [IsAck] tells ACK from NAK, [GetAckNo] returns the number as
    an unsigned 16-bit value and [IsAckNo] accepts that number and no other. *)
Theorem ack_round_trip bAck m e n No :
  e <> CMD_END -> - 2 ^ 15 <= n < 2 ^ 15 -> n <> 0 -> 0 <= No < 65536 ->
  exists p, Ack bAck m e n = Some p /\ IsValidAck p = true /\ IsAck p = bAck /\
    GetAckNo p = Some (u16 n) /\ IsAckNo p No = Some (bAck && (u16 n =? No)).
Proof.
  intros He Hn Hnz HNo. unfold Ack.
  assert (read_mem (cmdWord e) 2 = Some (take 2 (cmdWord e))) as -> by (by destruct e).
  cbn [mbind option_bind]. rewrite (proj2 (Z.eqb_neq _ _)) by done. rewrite !u8_land_255.
  assert (be16 (u8 (n .>> 8)) (u8 n) = u16 n) as Hbe.
  { unfold be16, u8, u16. rewrite Z.shiftr_div_pow2 by lia. change (2 ^ 16) with (256 * 256).
    rewrite (Z.rem_mul_r n 256 256) by lia. change (2 ^ 8) with 256. lia. }
  assert (exists a b, take 2 (cmdWord e) = [a; b]) as (a & b & ->) by (destruct e; simpl; eauto; done).
  eexists. split; [done|]. simpl. unfold GetAckNo, IsAckNo, load16, off_dataNumber, GetSize, IsAck.
  split_and!; [by destruct bAck..| |].
  - cbn. by rewrite ntohs_load, Hbe by apply u8_ok.
  - cbn. destruct bAck; [|done]. cbn. by rewrite htons_load, Hbe by (apply u8_ok || done).
Qed.

Lemma ack_round_trip_witness :
  exists p, Ack true 1 SetDataPort (-15535) = Some p /\ IsValidAck p = true /\ IsAck p = true /\
    GetAckNo p = Some 50001 /\ IsAckNo p 50001 = Some true.
Proof. apply (ack_round_trip true 1 SetDataPort (-15535) 50001); [discriminate|lia..]. Defined.

(** An acknowledgement for number 0 carries no number: [Ack] leaves the two
    bytes out, [GetAckNo] knows about the short form, but [IsAckNo] reads the
    missing field beyond the end of the 4-byte string; and acknowledging an
    unknown command ([CMD_END]) reads beyond the empty command word. *)
Theorem ack_zero_reads_out_of_bounds m e No :
  (e <> CMD_END -> exists p, Ack true m e 0 = Some p /\ GetSize p = 4 /\
     GetAckNo p = Some 0 /\ IsAckNo p No = None) /\
  (forall n, Ack true m CMD_END n = None).
Proof.
  split; [|done]. intros He. unfold Ack.
  assert (exists a b, read_mem (cmdWord e) 2 = Some [a; b]) as (a & b & ->)
    by (destruct e; simpl; eauto; done).
  eexists. split; [reflexivity|]. done.
Qed.

(** The health-check command carries bit 17 for an internal and bit 18 for an
    external communication error, every other bit of the last status unchanged,
    in network order at offset 7 of a 15-byte frame the receiver's check
    accepts. *)
Theorem health_check_status_bits sc s m bInt bExt :
  0 <= s < 2 ^ 32 ->
  let s' := health_status s bInt bExt in
  (forall i, 0 <= i -> Z.testbit s' i =
     if i =? 17 then bInt else if i =? 18 then bExt else Z.testbit s i) /\
  exists p, MPHealthCheckCmdPacket s m bInt bExt = Some p /\ GetSize p = 15 /\
    isFrameCRCOK sc p = true /\ CommandType p = Some MPHealthCheck /\
    ntohl <$> load32 p 7 = Some s'.
Proof.
  intros Hs s'. split; [intros i Hi; by apply health_status_bits|].
  unfold MPHealthCheckCmdPacket. fold s'. set (content := take 2 _ ++ _).
  assert (bytes_ok content) as Hc.
  { unfold content. rewrite !bytes_ok_app. split_and!;
      repeat constructor; try apply u8_ok; unfold byte_ok; lia. }
  eexists. split; [apply BuildPacket_form; apply (read_mem_all content)|].
  pose proof (built_frame_ok m content Hc) as Hp.
  split_and!; [done| | |].
  - apply isFrameCRCOK_wf; [done|]. apply built_frame_wf; [done|simpl; lia].
  - unfold CommandType. unfold content at 1. rewrite <- (app_assoc (take 2 _)).
    by apply (scan_cmd_frame MPHealthCheck [SOH; u8 m; STX]).
  - assert (0 <= s' < 2 ^ 32) as Hs' by (by apply health_status_range).
    cbn -[le32_value htonl ntohl u8]. rewrite le32_value by (apply swap32_range; lia).
    by rewrite swap32_involutive.
Qed.

Lemma health_check_status_bits_witness :
  Z.testbit (health_status 5 true false) 17 = true /\
  exists p, MPHealthCheckCmdPacket 5 1 true false = Some p /\ GetSize p = 15.
Proof.
  destruct (health_check_status_bits false 5 1 true false) as [Hb (p & Hp & Hsz & _)]; [lia|].
  split; [apply (Hb 17); lia|]. exists p. split; [exact Hp|exact Hsz].
Defined.

(** [HistoryDataRequestCmd::SetStartNum] patches the start number in place
    and leaves the CRC as it was: setting any number other than the one the frame
    holds turns a valid history request into one the check rejects. *)
Theorem SetStartNum_breaks_crc sc p n old :
  bytes_ok p -> (13 <= length p)%nat -> isFrameCRCOK sc p = true ->
  GetStartNum p = Some old -> 0 <= n < 65536 -> n <> old ->
  exists p', SetStartNum p n = Some p' /\ GetStartNum p' = Some n /\ isFrameCRCOK sc p' = false.
Proof.
  intros Hok Hlen Hv Hold Hn Hne. pose proof Hv as Hwf.
  apply isFrameCRCOK_wf in Hwf as (h & body & hi & lo & -> & Hh & _ & _); [|done].
  rewrite !length_app, Hh in Hlen. simpl in Hlen.
  destruct (split_at 4 2 body) as (a & xy & c & -> & Ha & Hxy); [lia|].
  destruct xy as [|x [|y [|]]]; try discriminate Hxy. clear Hxy.
  rewrite !bytes_ok_app in Hok. destruct Hok as (_ & (Hoka & Hokxy & Hokc) & Hokt).
  assert (bytes_ok (le16_bytes n)) as Hokn by (repeat constructor; apply u8_ok).
  exists (h ++ (a ++ le16_bytes n ++ c) ++ [ETX; hi; lo; EOT]).
  assert (length (h ++ a) = 7%nat) as H7 by (rewrite length_app; lia).
  assert (forall z q, load16 (h ++ (a ++ z ++ q)) 7 = load16 (z ++ q) 0) as Hld.
  { intros z q. rewrite app_assoc, <- H7. apply load16_app. }
  unfold SetStartNum, GetStartNum in *. rewrite <- !app_assoc in *. rewrite Hld in *.
  split_and!.
  - rewrite (u16_small n), !(app_assoc h), <- H7 by lia. apply store16_app.
  - cbn -[u8]. by rewrite le16_value.
  - apply not_true_is_false. intros Hv'.
    rewrite (app_assoc [x; y] c), (app_assoc a) in Hv.
    rewrite (app_assoc (le16_bytes n) c), (app_assoc a) in Hv'.
    rewrite isFrameCRCOK_frame in Hv by (done || (rewrite !length_app; simpl; lia)).
    rewrite isFrameCRCOK_frame in Hv' by (done || (rewrite !length_app; simpl; lia)).
    to_prop. rewrite <- !app_assoc in *.
    assert (bytes_ok [ETX]) as HE by (repeat constructor; unfold ETX; lia).
    eapply (checksum_two_bytes 65535 a [x; y] (le16_bytes n) (c ++ [ETX])).
    + by rewrite !bytes_ok_app.
    + done.
    + lia.
    + done.
    + simpl; lia.
    + intros [= Hx Hy]. apply Hne. cbn in Hold. simplify_eq. by rewrite le16_value.
    + congruence.
Qed.

Lemma SetStartNum_breaks_crc_witness :
  exists p', SetStartNum [1; 1; 2; 104; 65; 0; 10; 5; 0; 9; 0; 0; 0; 3; 171; 221; 4] 6 = Some p' /\
    GetStartNum p' = Some 6 /\ isFrameCRCOK false p' = false.
Proof.
  apply (SetStartNum_breaks_crc false _ 6 5).
  - apply (bool_decide_unpack _). vm_compute. done.
  - simpl; lia.
  - vm_compute. reflexivity.
  - reflexivity.
  - lia.
  - lia.
Defined.

Lemma Dump_loop_prefix p buf k :
  length buf = (3 * k)%nat -> (k <= 333)%nat ->
  Dump_loop p buf = buf ++ (take (334 - k) p ≫= hex_byte).
Proof.
  revert buf k. induction p as [|b p IH]; intros buf k Hb Hk; simpl.
  - by rewrite firstn_nil, app_nil_r.
  - replace (334 - k)%nat with (S (333 - k)) by lia. cbn [take mbind list_bind].
    assert (length (buf ++ hex_byte b) = (3 * S k)%nat) as Hl by (rewrite length_app; simpl; lia).
    rewrite Hl. destruct (Z.ltb_spec 1000 (Z.of_nat (3 * S k))).
    + replace (333 - k)%nat with 0%nat by lia. by rewrite take_0, app_nil_r.
    + rewrite (IH _ (S k)) by lia. rewrite <- app_assoc.
      replace (334 - S k)%nat with (333 - k)%nat by lia. done.
Qed.

(** [Dump] prints exactly the first 334 bytes of the packet, three characters
    each, whatever the packet's size: at most 1002 characters and a NUL are
    written to the 1024-byte buffer. *)
Theorem Dump_bounded p :
  Dump p = (take 334 p ≫= hex_byte) /\ (length (Dump p) < 1024)%nat.
Proof.
  unfold Dump. rewrite (Dump_loop_prefix p [] 0) by (done || lia). simpl app.
  split; [done|]. change (334 - 0)%nat with 334%nat.
  assert (forall l : list byte, length (l ≫= hex_byte) = (3 * length l)%nat) as H3.
  { induction l as [|b l IH]; [done|]. cbn [mbind list_bind]. rewrite length_app.
    rewrite IH. simpl. lia. }
  rewrite H3, length_take. lia.
Qed.

(** The civil calendar behind [mktime]: each month is as long as it should be. *)
Definition leap (y : Z) : bool := (y mod 4 =? 0) && (negb (y mod 100 =? 0) || (y mod 400 =? 0)).

Definition month_length (y m : Z) : Z :=
  if m =? 2 then if leap y then 29 else 28
  else if (m =? 4) || (m =? 6) || (m =? 9) || (m =? 11) then 30 else 31.

Definition next_month (y m : Z) : Z * Z := if m =? 12 then (y + 1, 1) else (y, m + 1).

Lemma div_step y k : 0 < k -> y / k - (y - 1) / k = if y mod k =? 0 then 1 else 0.
Proof.
  intros Hk. pose proof (Z.div_mod y k). pose proof (Z.mod_pos_bound y k).
  destruct (Z.eqb_spec (y mod k) 0).
  - assert ((y - 1) / k = y / k - 1); [|lia]. symmetry. apply (Z.div_unique_pos _ _ _ (k - 1)); lia.
  - assert ((y - 1) / k = y / k); [|lia]. symmetry. apply (Z.div_unique_pos _ _ _ (y mod k - 1)); lia.
Qed.

(** Evaluates the day-of-year terms of concrete months. *)
Ltac eval_doy :=
  repeat match goal with
  | |- context [(153 * (?b mod 12) + 2) / 5] =>
      let v := eval vm_compute in ((153 * (b mod 12) + 2) / 5) in
      change ((153 * (b mod 12) + 2) / 5) with v
  end.

Lemma days_to_month_step y m :
  1 <= m <= 12 ->
  days_to_month (fst (next_month y m)) (snd (next_month y m)) = days_to_month y m + month_length y m.
Proof.
  intros Hm. assert (m = 2 \/ m <> 2) as [->|Hne] by lia.
  - unfold days_to_month, next_month, month_length, leap. simpl.
    assert (y mod 400 = 0 -> y mod 100 = 0) as H400 by (intros; Z.div_mod_to_equations; lia).
    assert (y mod 100 = 0 -> y mod 4 = 0) as H100 by (intros; Z.div_mod_to_equations; lia).
    pose proof (div_step y 4 ltac:(lia)) as D4. pose proof (div_step y 100 ltac:(lia)) as D100.
    pose proof (div_step y 400 ltac:(lia)) as D400.
    destruct (Z.eqb_spec (y mod 4) 0), (Z.eqb_spec (y mod 100) 0), (Z.eqb_spec (y mod 400) 0);
      simpl; eval_doy; tauto || lia.
  - unfold days_to_month, next_month, month_length.
    assert (m = 1 \/ m = 3 \/ m = 4 \/ m = 5 \/ m = 6 \/ m = 7 \/ m = 8 \/ m = 9 \/ m = 10
      \/ m = 11 \/ m = 12) as Hc by lia.
    repeat destruct Hc as [->|Hc]; [..|subst m]; simpl;
      try (replace (y + 1 - 1) with y by lia); eval_doy; lia.
Qed.

Lemma days_to_month_epoch : days_to_month 1970 1 = 0.
Proof. reflexivity. Qed.

End Packet.
