(* ===== verification/PacketQueue.v ===== *)
(** * PacketQueue: the persistent queue of frames waiting for the server

    The class [DataPacketQueue] (device-agent/src/PacketQueue.h, PacketQueue.cpp):
    a [list<Packet>] guarded by a mutex, with [Save] and [Load] to a file.

    Methods are partial functions on the queue's state: [None] is undefined
    behaviour (a field read outside a packet, [front()] or [pop_front()] of an
    empty list, an iterator past the end) or a lock that is not to be had: a mutex the
    thread holds already.  Waiting for one that another thread holds is part of
    [Protocol]. *)

From S2P Require Import Prelude CRC16 Packet.
Import Packet.

Module PacketQueue.

Record DataPacketQueue := mkQueue { queue : list packet; mutex : bool }.

(** The constructor: an empty list and an unlocked mutex. *)
Definition newQueue : DataPacketQueue := mkQueue [] false.

(** A default (non-recursive) mutex: locking it twice from one thread never returns. *)
Definition lock (q : DataPacketQueue) : option DataPacketQueue :=
  if mutex q then None else Some (mkQueue (queue q) true).
Definition unlock (q : DataPacketQueue) : DataPacketQueue := mkQueue (queue q) false.

Definition GetSize (q : DataPacketQueue) : Z := Z.of_nat (length (queue q)).

(** The search of [Push]: is there an element with the data number of [data]? *)
Fixpoint has_no (l : list packet) (data : packet) : option bool :=
  match l with
  | [] => Some false
  | p :: l =>
      a ← GetDataNo p; b ← GetDataNo data;
      if a =? b then Some true else has_no l data
  end.

(** [DataPacketQueue::Push]; the [TRACE] arguments are evaluated first. *)
Definition Push (q : DataPacketQueue) (data : packet) : option DataPacketQueue :=
  q ← lock q;
  _ ← GetDataNo data;
  if negb (Packet.GetSize data =? 0) then
    dup ← has_no (queue q) data;
    if dup : bool then Some (unlock q)
    else Some (unlock (mkQueue (queue q ++ [data]) (mutex q)))
  else Some (unlock q).

(** [DataPacketQueue::Front]. *)
Definition Front (q : DataPacketQueue) : option packet := head (queue q).

(** [DataPacketQueue::GetAt]: the iterator stops at element [i], or at [end()],
    whose dereference is undefined. *)
Fixpoint GetAt_loop (l : list packet) (count i : Z) : option packet :=
  match l with
  | [] => None
  | p :: l => if count =? i then Some p else GetAt_loop l (count + 1) i
  end.
Definition GetAt (q : DataPacketQueue) (i : Z) : option packet := GetAt_loop (queue q) 0 i.

(** [DataPacketQueue::Pop]. *)
Definition Pop (q : DataPacketQueue) : option DataPacketQueue :=
  q ← lock q;
  match queue q with
  | [] => None
  | _ :: l => Some (unlock (mkQueue l (mutex q)))
  end.

(** ** Save

    [wr i n] is the value returned by the [i]-th [write] of the call when asked
    for [n] bytes; the bytes written are a prefix of the buffer. *)

Section Save.
Variable wr : nat -> Z -> Z.

Definition written (i : nat) (buf : list byte) : list byte :=
  take (Z.to_nat (wr i (Z.of_nat (length buf)))) buf.

(** The loop over the queue: the bytes that reach the file. *)
Fixpoint Save_loop (i : nat) (l : list packet) : list byte :=
  match l with
  | [] => []
  | p :: l =>
      let n := Packet.GetSize p in
      if n =? 0 then Save_loop i l
      else
        let hdr := le32_bytes n in
        if negb (wr i 4 =? 4) then written i hdr
        else if negb (n =? wr (S i) n) then written i hdr ++ written (S i) p
        else written i hdr ++ written (S i) p ++ Save_loop (S (S i)) l
  end.

(** [DataPacketQueue::Save] with the file opened ([O_TRUNC]); the queue is
    returned with the mutex released.  When [open] fails nothing happens. *)
Definition Save (open_ok : bool) (q : DataPacketQueue) : option (DataPacketQueue * option (list byte)) :=
  if open_ok then
    q ← lock q;
    Some (unlock q, Some (Save_loop 0 (queue q)))
  else Some (q, None).
End Save.

(** ** Load *)

(** The [int] that [fread(&n, 4, 1, fd)] stores. *)
Definition int_of_bytes (l : list byte) : option Z :=
  match l with
  | [a; b; c; d] => Some (i32 (a + 256 * b + 65536 * (c + 256 * d)))
  | _ => None
  end.

(** One record: [buf] is filled with [n] bytes, and what is a valid frame is pushed.
    The result is the unread part of the file, [feof(fd)], set by the [fread] of a body
    that runs into the end of the file, and the queue. *)
Definition Load_record (sc : bool) (n : Z) (f : list byte) (q : DataPacketQueue)
    : option (list byte * bool * DataPacketQueue) :=
  if n <=? Z.of_nat (length f) then
    let packet := take (Z.to_nat n) f in
    let f := drop (Z.to_nat n) f in
    if IsValidFrame sc packet then q ← Push q packet; Some (f, false, q)
    else Some (f, false, q)
  else Some ([], true, q).

(** The loop of [Load] on the unread part [f] of the file.  Every record ends with
    [delete buf] of memory from [new char[n]].  That is undefined in C++, where an
    array takes [delete[]]; with a library whose [operator delete] and
    [operator delete[]] are both [free], [lenient], it releases the array. *)
Fixpoint Load_loop (lenient sc : bool) (fuel : nat) (f : list byte) (eof : bool) (q : DataPacketQueue)
    : option (option DataPacketQueue) :=
  match fuel with
  | O => None
  | S fuel =>
      if eof then Some (Some q)
      else
        match int_of_bytes (take 4 f) with
        | None => Some (Some q)
        | Some n =>
            let f := drop 4 f in
            if (0 <? n) && (n <? 5000) then
              match Load_record sc n f q with
              | Some (f, eof, q) => if lenient then Load_loop lenient sc fuel f eof q else Some None
              | None => Some None
              end
            else Load_loop lenient sc fuel f false q
        end
  end.

(** [DataPacketQueue::Load]: [file] is the content of the file, [None] when [fopen]
    fails.  Every turn but the last consumes four bytes, so [length f + 2] turns
    are enough ([Load_loop_wf]).  [queue.clear()] is not guarded by the mutex. *)
Definition LoadWith (lenient sc : bool) (file : option (list byte)) (q : DataPacketQueue) : option DataPacketQueue :=
  match file with
  | None => Some q
  | Some f =>
      match Load_loop lenient sc (length f + 2) f false (mkQueue [] (mutex q)) with
      | Some r => r
      | None => None
      end
  end.

(** The agent is built with GCC, whose library is lenient. *)
Abbreviation Load := (LoadWith true).

(** ** Invariant *)

Definition dataNo (p : packet) : Z := default 0 (GetDataNo p).

(** What the tasks put in the queue: complete frames. *)
Definition frame (sc : bool) (p : packet) : Prop := isFrameCRCOK sc p = true.

Record queue_wf (sc : bool) (q : DataPacketQueue) : Prop := mkWf {
  wf_frames : Forall (frame sc) (queue q);
  wf_nodup : NoDup (dataNo <$> queue q);
  wf_unlocked : mutex q = false }.

(** ** Lemmas *)

Lemma frame_length sc p : frame sc p -> (9 <= length p)%nat.
Proof. apply isFrameCRCOK_size. Qed.

Lemma GetDataNo_frame sc p : frame sc p -> GetDataNo p = Some (dataNo p).
Proof.
  intros H. apply frame_length in H. unfold dataNo, GetDataNo.
  rewrite (proj2 (Z.ltb_ge _ _)) by (unfold Packet.GetSize; lia).
  unfold load16, off_dataNo. rewrite !byte_at_lt by lia.
  destruct (lookup_lt_is_Some_2 p 7) as [a ->]; [lia|].
  destruct (lookup_lt_is_Some_2 p 8) as [b ->]; [lia|]. done.
Qed.

Lemma has_no_frames sc l data :
  Forall (frame sc) l -> frame sc data ->
  has_no l data = Some (bool_decide (dataNo data ∈ dataNo <$> l)).
Proof.
  intros Hl Hd. induction Hl as [|p l Hp _ IH]; [done|]. simpl.
  rewrite (GetDataNo_frame _ _ Hp), (GetDataNo_frame _ _ Hd). cbn [mbind option_bind].
  destruct (Z.eqb_spec (dataNo p) (dataNo data)) as [E|E].
  - symmetry. f_equal. apply bool_decide_eq_true. rewrite E. apply elem_of_cons. by left.
  - rewrite IH. f_equal. apply bool_decide_ext. rewrite elem_of_cons. split; [by right|by intros [?|?]].
Qed.

(** Push on frames: append unless the number is already queued. *)
Lemma Push_frames sc q data :
  queue_wf sc q -> frame sc data ->
  Push q data = Some (if bool_decide (dataNo data ∈ dataNo <$> queue q) then q
                      else mkQueue (queue q ++ [data]) false).
Proof.
  intros [Hf _ Hm] Hd. unfold Push, lock. rewrite Hm. cbn [mbind option_bind queue mutex].
  rewrite (GetDataNo_frame _ _ Hd). cbn [mbind option_bind].
  pose proof (frame_length _ _ Hd). rewrite (proj2 (Z.eqb_neq _ _)) by (unfold Packet.GetSize; lia).
  simpl negb. cbn iota. rewrite (has_no_frames sc) by done. cbn [mbind option_bind].
  case_bool_decide; [|done]. unfold unlock. simpl. destruct q; simpl in *. by subst.
Qed.

Lemma queue_wf_snoc sc q data :
  queue_wf sc q -> frame sc data -> dataNo data ∉ dataNo <$> queue q ->
  queue_wf sc (mkQueue (queue q ++ [data]) false).
Proof.
  intros [Hf Hn _] Hd Hni. split; simpl; [|rewrite fmap_app|done].
  - apply Forall_app. auto.
  - apply NoDup_app. split_and!; [done| |apply NoDup_singleton].
    intros x Hx Hin. apply list_elem_of_singleton in Hin. by subst.
Qed.

Lemma Push_wf sc q data :
  queue_wf sc q -> frame sc data -> exists q', Push q data = Some q' /\ queue_wf sc q'.
Proof.
  intros Hq Hd. rewrite (Push_frames sc) by done. case_bool_decide; eauto using queue_wf_snoc.
Qed.

(** ** Lemmas: the file format *)

(** The first frame that is not short. *)
Lemma split_long (P : packet -> Prop) {HP : forall p, Decision (P p)} l :
  ~ Forall P l -> exists k p rest, l = k ++ p :: rest /\ Forall P k /\ ~ P p.
Proof.
  induction l as [|x l IH]; intros H; [by destruct H|]. destruct (decide (P x)) as [Hx|Hx].
  - destruct IH as (k & p & rest & -> & Hk & Hp); [by intros ?; destruct H; constructor|].
    exists (x :: k), p, rest. split_and!; [done|by constructor|done].
  - exists [], x, l. split_and!; [done|constructor|done].
Qed.

Lemma long_last (P : packet -> Prop) k p rest k' p' rest' :
  k ++ p :: rest = k' ++ p' :: rest' -> Forall P k' -> ~ P p -> exists x, k = k' ++ x.
Proof.
  revert k. induction k' as [|y k' IH]; intros k H Hk' Hp; [by exists k|].
  apply Forall_cons in Hk' as [Hy Hk']. destruct k as [|z k]; simpl in H; injection H as -> H; [done|].
  destruct (IH k H Hk' Hp) as [x ->]. by exists x.
Qed.

(** One record of the file. *)
Definition encode (p : packet) : list byte := le32_bytes (Packet.GetSize p) ++ p.

(** Frames [Load] accepts back.  Nothing keeps longer frames out of the queue. *)
Definition short (p : packet) : Prop := (length p < 5000)%nat.
#[global] Instance short_dec p : Decision (short p).
Proof. unfold short. apply _. Defined.

Definition storable (sc : bool) (p : packet) : Prop := frame sc p /\ short p.

(** What a write that stops early leaves behind: less than a length field, or a
    length field and less than its body. *)
Definition torn (t : list byte) : Prop :=
  (length t < 4)%nat \/
  exists n body, t = le32_bytes n ++ body /\ 0 < n < 5000 /\ Z.of_nat (length body) < n.

Lemma int_of_le32 n : 0 <= n < 2 ^ 31 -> int_of_bytes (le32_bytes n) = Some n.
Proof.
  intros H. unfold int_of_bytes, le32_bytes. f_equal. rewrite le32_value by lia. apply i32_small. lia.
Qed.

Lemma Load_loop_torn sc fuel t q :
  torn t -> (2 <= fuel)%nat -> Load_loop true sc fuel t false q = Some (Some q).
Proof.
  intros Ht Hf. destruct fuel as [|[|fuel]]; try lia. destruct Ht as [Hs|(n & body & -> & Hn & Hb)].
  - simpl. rewrite take_ge by lia. by destruct t as [|? [|? [|? [|]]]]; simpl in Hs; try lia.
  - cbn [Load_loop]. change (take 4 (le32_bytes n ++ body)) with (le32_bytes n).
    change (drop 4 (le32_bytes n ++ body)) with body. rewrite int_of_le32 by lia.
    rewrite !(proj2 (Z.ltb_lt _ _)) by lia. unfold Load_record. by rewrite (proj2 (Z.leb_gt _ _)) by lia.
Qed.

Lemma Load_loop_record sc fuel p rest q q' :
  storable sc p -> Push q p = Some q' ->
  Load_loop true sc (S fuel) (encode p ++ rest) false q = Load_loop true sc fuel rest false q'.
Proof.
  intros [Hp Hlen] HP. pose proof (frame_length _ _ Hp) as H9. unfold encode, short in *.
  set (n := Packet.GetSize p). assert (n = Z.of_nat (length p)) as Hn by done.
  rewrite <- app_assoc. cbn [Load_loop].
  change (take 4 (le32_bytes n ++ p ++ rest)) with (le32_bytes n).
  change (drop 4 (le32_bytes n ++ p ++ rest)) with (p ++ rest).
  rewrite int_of_le32 by lia. rewrite !(proj2 (Z.ltb_lt _ _)) by lia. simpl andb. cbn iota. unfold Load_record.
  rewrite (proj2 (Z.leb_le _ _)) by (rewrite length_app; lia).
  rewrite Hn, Nat2Z.id, take_app_length, drop_app_length.
  unfold IsValidFrame. rewrite Hp, HP. done.
Qed.

(** The records of short frames are read back, whatever follows them. *)
Lemma Load_loop_records sc l (t : list byte) fuel q :
  Forall (storable sc) l -> queue_wf sc q -> NoDup (dataNo <$> (queue q ++ l)) ->
  (length ((l ≫= encode) ++ t) + 2 <= fuel)%nat ->
  exists fuel' : nat,
    Load_loop true sc fuel ((l ≫= encode) ++ t) false q = Load_loop true sc fuel' t false (mkQueue (queue q ++ l) false) /\
    (length t + 2 <= fuel')%nat.
Proof.
  intros Hl. revert fuel q. induction Hl as [|p l Hp Hl IH]; intros fuel q Hq Hnd Hf.
  - exists fuel. split; [|done]. rewrite app_nil_r. destruct q as [l m]; destruct Hq as [_ _ Hm]; simpl in Hm; by subst.
  - cbn [mbind list_bind] in *. rewrite <- app_assoc in *.
    destruct fuel as [|fuel]; [lia|].
    assert (dataNo p ∉ dataNo <$> queue q) as Hni.
    { rewrite fmap_app, fmap_cons in Hnd. apply NoDup_app in Hnd as (_ & Hd & _).
      intros Hin. apply (Hd _ Hin). apply elem_of_cons. by left. }
    assert (Push q p = Some (mkQueue (queue q ++ [p]) false)) as HP.
    { rewrite (Push_frames sc) by (done || apply Hp). by rewrite bool_decide_false. }
    rewrite (Load_loop_record _ _ _ _ _ _ Hp HP).
    destruct (IH fuel (mkQueue (queue q ++ [p]) false)) as (k & -> & Hk); simpl queue.
    + eapply queue_wf_snoc; [done|apply Hp|done].
    + by rewrite <- app_assoc.
    + unfold encode in Hf at 1. rewrite !length_app in *. simpl in Hf. lia.
    + exists k. by rewrite <- app_assoc.
Qed.

(** What reaches the file is whole records of a prefix of the queue and a torn tail,
    unless the record after the prefix is that of a long frame. *)
Lemma Save_loop_prefix wr sc i l :
  (forall j n, 0 <= n -> -1 <= wr j n <= n) -> Forall (frame sc) l ->
  exists k t, Save_loop wr i l = (take k l ≫= encode) ++ t /\ Forall short (take k l) /\
    (torn t \/ exists p, l !! k = Some p /\ ~ short p).
Proof.
  intros Hwr Hl. revert i. induction Hl as [|p l Hp Hl IH]; intros i.
  { exists 0%nat, []. split_and!; [done|done|]. left. left. simpl. lia. }
  destruct (decide (length p < 5000)%nat) as [Hlen|Hlen].
  2: { exists 0%nat, (Save_loop wr i (p :: l)). split_and!; [done|done|]. right. by exists p. }
  pose proof (frame_length _ _ Hp) as H9. simpl.
  set (n := Packet.GetSize p). assert (n = Z.of_nat (length p)) as Hn by done.
  rewrite (proj2 (Z.eqb_neq n 0)) by lia. simpl negb. cbn iota.
  pose proof (Hwr i 4) as Hi. pose proof (Hwr (S i) n) as Hi'.
  destruct (Z.eqb_spec (wr i 4) 4) as [E4|E4]; simpl negb; cbn iota.
  - assert (written wr i (le32_bytes n) = le32_bytes n) as ->.
    { unfold written. change (Z.of_nat (length (le32_bytes n))) with 4. by rewrite E4. }
    destruct (Z.eqb_spec n (wr (S i) n)) as [En|En]; simpl negb; cbn iota.
    + assert (written wr (S i) p = p) as ->.
      { unfold written. rewrite <- Hn, <- En, Hn, Nat2Z.id. apply firstn_all. }
      destruct (IH (S (S i))) as (k & t & -> & Hk & Ht). exists (S k), t.
      simpl take. cbn [mbind list_bind]. unfold encode at 1. rewrite <- !app_assoc. split_and!; [done|by constructor|done].
    + exists 0%nat, (le32_bytes n ++ written wr (S i) p). split_and!; [done|done|]. left. right.
      exists n, (written wr (S i) p). split_and!; [done|lia|lia|].
      unfold written. rewrite length_take, <- Hn. lia.
  - exists 0%nat, (written wr i (le32_bytes n)). split_and!; [done|done|]. left. left.
    unfold written. change (Z.of_nat (length (le32_bytes n))) with 4. rewrite length_take. simpl. lia.
Qed.

Lemma Save_loop_ok sc i l :
  Forall (frame sc) l -> Save_loop (fun _ n => n) i l = l ≫= encode.
Proof.
  intros Hl. revert i. induction Hl as [|p l Hp Hl IH]; intros i; [done|].
  pose proof (frame_length _ _ Hp) as H9. cbn [Save_loop]. rewrite bind_cons. cbv zeta.
  rewrite (proj2 (Z.eqb_neq _ 0)) by (unfold Packet.GetSize; lia).
  rewrite !Z.eqb_refl. simpl negb. cbn iota. rewrite IH.
  assert (forall j b, written (fun _ n => n) j b = b) as Hw
    by (intros; unfold written; rewrite Nat2Z.id; apply firstn_all).
  rewrite !Hw. change (encode p) with (le32_bytes (Packet.GetSize p) ++ p). by rewrite <- app_assoc.
Qed.

(** ** Lemmas: any file *)

(** A record leaves the queue in order, and adds a short frame or nothing. *)
Lemma Load_record_wf sc n f q :
  queue_wf sc q -> 0 < n < 5000 ->
  exists f' eof q' extra, Load_record sc n f q = Some (f', eof, q') /\ queue_wf sc q' /\
    queue q' = queue q ++ extra /\ Forall (storable sc) extra /\
    (length f' + (if eof : bool then 0 else 1) <= length f + 1)%nat.
Proof.
  intros Hq Hn. unfold Load_record. destruct (Z.leb_spec n (Z.of_nat (length f))) as [Hle|Hgt].
  2: { exists [], true, q, []. rewrite app_nil_r. split_and!; [done|done|done|constructor|simpl; lia]. }
  set (p := take (Z.to_nat n) f). set (f' := drop (Z.to_nat n) f).
  assert (Hf : (length f' + 1 <= length f + 1)%nat) by (unfold f'; rewrite length_drop; lia).
  destruct (IsValidFrame sc p) eqn:Ev.
  2: { exists f', false, q, []. rewrite app_nil_r. split_and!; [done|done|done|constructor|done]. }
  assert (frame sc p) as Hfr by exact Ev. rewrite (Push_frames sc) by done. cbn [mbind option_bind].
  case_bool_decide.
  - exists f', false, q, []. rewrite app_nil_r. split_and!; [done|done|done|constructor|done].
  - exists f', false, (mkQueue (queue q ++ [p]) false), [p]. split_and!; [done|by apply queue_wf_snoc|done| |done].
    apply Forall_singleton. split; [done|]. unfold short, p. rewrite length_take. lia.
Qed.

Lemma Load_loop_wf sc fuel f (eof : bool) q :
  queue_wf sc q -> (length f + (if eof then 0 else 1) < fuel)%nat ->
  exists q' extra, Load_loop true sc fuel f eof q = Some (Some q') /\ queue_wf sc q' /\
    queue q' = queue q ++ extra /\ Forall (storable sc) extra.
Proof.
  revert f eof q. induction fuel as [|fuel IH]; intros f eof q Hq Hfuel; [lia|].
  cbn [Load_loop].
  assert (Hstop : exists q' extra, Some (Some q) = Some (Some q') /\ queue_wf sc q' /\
    queue q' = queue q ++ extra /\ Forall (storable sc) extra).
  { exists q, []. rewrite app_nil_r. split_and!; [done..|constructor]. }
  destruct eof; [done|].
  destruct (int_of_bytes (take 4 f)) as [n|] eqn:E4; [|done].
  assert (4 <= length f)%nat as H4.
  { assert (length (take 4 f) = 4%nat) as Hl; [|rewrite length_take in Hl; lia].
    by destruct (take 4 f) as [|? [|? [|? [|? [|]]]]]. }
  destruct ((0 <? n) && (n <? 5000)) eqn:En; to_prop.
  2: { apply IH; auto. rewrite length_drop. lia. }
  destruct (Load_record_wf sc n (drop 4 f) q) as (f' & eof & q1 & e1 & -> & H1 & Hq1 & He1 & Hlen); [done|lia|].
  rewrite length_drop in Hlen.
  destruct (IH f' eof q1) as (q' & e2 & -> & H2 & Hq2 & He2); [done|lia|].
  exists q', (e1 ++ e2). rewrite Hq2, Hq1, app_assoc. split_and!; [done..|by apply Forall_app].
Qed.

Lemma empty_wf sc : queue_wf sc (mkQueue [] false).
Proof. split; simpl; [constructor|constructor|done]. Qed.

Lemma Load_wf sc f q :
  mutex q = false ->
  exists q', Load sc (Some f) q = Some q' /\ queue_wf sc q' /\ Forall (storable sc) (queue q').
Proof.
  intros Hm. unfold LoadWith. rewrite Hm.
  destruct (Load_loop_wf sc (length f + 2) f false (mkQueue [] false)) as (q' & e & -> & H & He & Hs);
    [apply empty_wf|lia|]. exists q'. rewrite He. by split_and!.
Qed.

(** Nothing is loaded while the mutex is held. *)
Lemma Load_loop_locked sc fuel f eof q q' :
  mutex q = true -> Load_loop true sc fuel f eof q = Some (Some q') -> q' = q.
Proof.
  intros Hm. revert f eof. induction fuel as [|fuel IH]; intros f eof H; [done|]. cbn [Load_loop] in H.
  destruct eof; [congruence|]. destruct (int_of_bytes _) as [n|]; [|congruence].
  destruct (_ && _); [|by eapply IH]. unfold Load_record, Push, lock in H. rewrite Hm in H.
  destruct (n <=? _); [destruct (IsValidFrame _ _); [done|]|]; by eapply IH.
Qed.

Lemma Load_in_order sc file q q' :
  queue_wf sc (unlock q) -> Load sc file q = Some q' -> queue_wf sc (unlock q').
Proof.
  intros Hq H. destruct file as [f|]; [|simpl in H; by simplify_eq]. destruct (mutex q) eqn:Hm.
  - unfold LoadWith in H. destruct (Load_loop _ _ _ _ _ _) as [r|] eqn:Hl; [subst r|done].
    apply Load_loop_locked in Hl as ->; [apply empty_wf|done].
  - destruct (Load_wf sc f q Hm) as (q1 & H1 & [] & _). simplify_eq. by split.
Qed.

(** Records of short frames, and anything after them. *)
Lemma Load_records sc l t q0 :
  Forall (frame sc) l -> Forall short l -> NoDup (dataNo <$> l) -> mutex q0 = false ->
  exists q' extra, Load sc (Some ((l ≫= encode) ++ t)) q0 = Some q' /\ queue_wf sc q' /\
    queue q' = l ++ extra /\ (torn t -> extra = []).
Proof.
  intros Hf Hs Hn Hm. unfold LoadWith. rewrite Hm.
  assert (Hl : Forall (storable sc) l) by (apply Forall_and; done).
  destruct (Load_loop_records sc l t (length ((l ≫= encode) ++ t) + 2) (mkQueue [] false))
    as (k & -> & Hk); [done|apply empty_wf|done|lia|]. simpl app.
  assert (Hq : queue_wf sc (mkQueue l false)) by done.
  destruct (Load_loop_wf sc k t false (mkQueue l false)) as (q' & e & He & Hwf & Hqe & _); [done|lia|].
  rewrite He. exists q', e. split_and!; [done..|]. intros Ht. rewrite Load_loop_torn in He by (done || lia).
  injection He as <-. simpl in Hqe. rewrite <- (app_nil_r l) in Hqe at 1. by apply app_inv_head in Hqe.
Qed.

Lemma Pop_wf sc q q' : queue_wf sc q -> Pop q = Some q' -> queue_wf sc q'.
Proof.
  intros [Hf Hn Hm] H. unfold Pop, lock in H. rewrite Hm in H. simpl in H.
  destruct (queue q) as [|p l] eqn:Hq; [done|]. injection H as <-. simpl in Hn.
  apply Forall_cons in Hf as [_ Hf]. apply NoDup_cons in Hn as [_ Hn]. by split.
Qed.

(** The mutex aside. *)
Lemma unlocked_wf sc q : queue_wf sc q -> queue_wf sc (unlock q).
Proof. intros []. by split. Qed.

Lemma Push_in_order sc q p q' :
  queue_wf sc (unlock q) -> frame sc p -> Push q p = Some q' -> queue_wf sc (unlock q').
Proof.
  intros Hq Hp H. destruct q as [l []]; [done|]. destruct (Push_wf sc _ p Hq Hp) as (q1 & H1 & Hwf).
  unfold unlock in H1. simpl in H1. simplify_eq. by apply unlocked_wf.
Qed.

Lemma Pop_in_order sc q q' : queue_wf sc (unlock q) -> Pop q = Some q' -> queue_wf sc (unlock q').
Proof. intros Hq H. destruct q as [l []]; [done|]. eapply unlocked_wf, Pop_wf; [exact Hq|exact H]. Qed.

Lemma newQueue_wf sc : queue_wf sc newQueue.
Proof. split; [constructor|constructor|done]. Qed.

(** What [Load] makes of the file of an interrupted [Save]. *)
Lemma save_load_prefix sc wr q q0 :
  queue_wf sc q -> mutex q0 = false -> (forall i n, 0 <= n -> -1 <= wr i n <= n) ->
  exists file q' k extra, Save wr true q = Some (q, Some file) /\ Load sc (Some file) q0 = Some q' /\
    queue_wf sc q' /\ queue q' = take k (queue q) ++ extra /\
    (extra = [] \/ exists p, queue q !! k = Some p /\ ~ short p).
Proof.
  intros [Hf Hn Hm] Hm0 Hwr. unfold Save, lock. rewrite Hm. cbn [mbind option_bind].
  destruct (Save_loop_prefix wr sc 0 (queue q) Hwr Hf) as (k & t & E & Hk & Ht).
  destruct (Load_records sc (take k (queue q)) t q0) as (q' & e & Hl & Hwf & He & Hte); [by apply Forall_take|done| |done|].
  { rewrite fmap_take. eapply sublist_NoDup; [exact Hn|]. apply sublist_take. }
  rewrite <- E in Hl. exists (Save_loop wr 0 (queue q)), q', k, e. unfold unlock. simpl.
  split_and!; [destruct q; simpl in *; by subst|done..|]. destruct Ht as [Ht|Ht]; auto.
Qed.

Lemma save_load sc q q0 :
  queue_wf sc q -> Forall short (queue q) -> mutex q0 = false ->
  exists file, Save (fun _ n => n) true q = Some (q, Some file) /\ Load sc (Some file) q0 = Some q.
Proof.
  intros [Hf Hn Hm] Hs Hm0. unfold Save, lock. rewrite Hm. cbn [mbind option_bind].
  exists (queue q ≫= encode). rewrite (Save_loop_ok sc) by done. unfold unlock. cbn [queue].
  assert (q = mkQueue (queue q) false) as Hq by (destruct q; simpl in *; by subst).
  split; [by rewrite <- Hq|]. rewrite <- (app_nil_r (queue q ≫= encode)).
  destruct (Load_records sc (queue q) [] q0) as (q' & e & -> & [_ _ Hm'] & He & Ht); [done..|].
  rewrite Ht, app_nil_r in He by (left; simpl; lia). f_equal. destruct q', q; simpl in *. by subst.
Qed.

Lemma GetAt_lookup q i : 0 <= i -> GetAt q i = queue q !! Z.to_nat i.
Proof.
  intros Hi. unfold GetAt.
  assert (forall l c, 0 <= c <= i -> GetAt_loop l c i = l !! Z.to_nat (i - c)) as H.
  { induction l as [|p l IH]; intros c Hc; [done|]. simpl. destruct (Z.eqb_spec c i) as [->|Hne].
    - by rewrite Z.sub_diag.
    - rewrite IH by lia. replace (Z.to_nat (i - c)) with (S (Z.to_nat (i - (c + 1)))) by lia. done. }
  rewrite H by lia. by rewrite Z.sub_0_r.
Qed.

(** ** Abstract specification

    A first-in first-out list of entries, at most one per data number. *)

Definition spec_queue : Type := list (Z * packet).

Definition spec_push (s : spec_queue) (k : Z) (p : packet) : spec_queue :=
  if bool_decide (k ∈ s.*1) then s else s ++ [(k, p)].

Definition abs (q : DataPacketQueue) : spec_queue := (fun p => (dataNo p, p)) <$> queue q.

Lemma abs_keys q : (abs q).*1 = dataNo <$> queue q.
Proof. unfold abs. rewrite <- list_fmap_compose. done. Qed.

(** ** Properties *)

(** C14.  The queue implements a FIFO keyed by data number: on a well-formed queue
    [Push] of a frame appends it, or changes nothing when its number is queued
    already; [Push] of an empty packet changes nothing; [Front] and [Pop] return
    and remove the oldest entry; each operation leaves the queue well-formed and
    the mutex released. *)
Theorem queue_refines_keyed_fifo sc q :
  queue_wf sc q ->
  (forall data, frame sc data -> exists q', Push q data = Some q' /\ queue_wf sc q' /\
     abs q' = spec_push (abs q) (dataNo data) data) /\
  Push q [] = Some q /\
  (queue q <> [] -> exists p q', Front q = Some p /\ Pop q = Some q' /\ queue_wf sc q' /\
     abs q = (dataNo p, p) :: abs q').
Proof.
  intros Hq. split_and!.
  - intros data Hd. destruct (Push_wf sc q data Hq Hd) as (q' & HP & Hwf).
    exists q'. split_and!; [done..|]. rewrite (Push_frames sc) in HP by done.
    unfold spec_push. rewrite abs_keys. case_bool_decide; simplify_eq; [done|].
    unfold abs. simpl. by rewrite fmap_app.
  - destruct Hq as [_ _ Hm], q as [l m]. simpl in Hm. by subst.
  - intros Hne. destruct Hq as [Hf Hn Hm], q as [[|p l] m]; [done|]. simpl in *. subst.
    apply Forall_cons in Hf as [_ Hf]. apply NoDup_cons in Hn as [_ Hn].
    exists p, (mkQueue l false). by split_and!.
Qed.

Lemma queue_refines_keyed_fifo_witness :
  exists q', Push newQueue (cmd_frame DataRequest 1) = Some q' /\ queue_wf false q' /\
    abs q' = spec_push (abs newQueue) (dataNo (cmd_frame DataRequest 1)) (cmd_frame DataRequest 1).
Proof.
  apply (queue_refines_keyed_fifo false newQueue).
  - split; simpl; [constructor|constructor|reflexivity].
  - vm_compute. reflexivity.
Defined.

(** C21.  Persistence round trip: when every [write] succeeds, the file that [Save]
    produces from a well-formed queue is read back by [Load], whatever the queue held
    before, as exactly the same sequence of frames if all are shorter than 5000 bytes,
    the limit in [Load].  Nothing in the agent enforces that limit on what is queued:
    in general the frames before the first longer one come back, in order, followed by
    what [Load] may find in the bytes of the longer ones. *)
Theorem save_load_round_trip sc q q0 :
  queue_wf sc q -> mutex q0 = false ->
  exists file q', Save (fun _ n => n) true q = Some (q, Some file) /\ Load sc (Some file) q0 = Some q' /\
    (Forall short (queue q) -> q' = q) /\
    forall l long rest, queue q = l ++ long :: rest -> Forall short l -> exists extra, queue q' = l ++ extra.
Proof.
  intros Hq Hm0. destruct (decide (Forall short (queue q))) as [Hs|Hs].
  - destruct (save_load sc q q0 Hq Hs Hm0) as (file & H1 & H2). exists file, q. split_and!; [done..|].
    intros l p rest -> _. by eexists.
  - destruct Hq as [Hf Hn Hm]. assert (q = mkQueue (queue q) false) as Hq by (destruct q; simpl in *; by subst).
    destruct (split_long short _ Hs) as (l & p & rest & E & Hl & Hp).
    rewrite E in Hf, Hn. apply Forall_app in Hf as [Hfl Hf']. rewrite fmap_app in Hn. apply NoDup_app in Hn as [Hn _].
    destruct (Load_records sc l ((p :: rest) ≫= encode) q0) as (q' & e & Hld & _ & He & _); [done..|].
    exists (queue q ≫= encode), q'. split_and!.
    + unfold Save, lock. rewrite Hm. cbn [mbind option_bind]. unfold unlock. simpl.
      rewrite (Save_loop_ok sc) by (rewrite E; by apply Forall_app). by rewrite <- Hq.
    + by rewrite E, bind_app.
    + done.
    + intros l' p' rest' E' Hl'. rewrite E in E'. destruct (long_last short _ _ _ _ _ _ E' Hl' Hp) as [x ->].
      exists (x ++ e). by rewrite He, <- app_assoc.
Qed.

(** A queue of two distinct frames, for the witnesses. *)
Definition data_frame (no : Z) : packet :=
  default [] (BuildPacket ([114; 97; 0; 4] ++ put_be16 no) 6 1).

Definition two_frames : DataPacketQueue := mkQueue [data_frame 7; data_frame 258] false.

Lemma two_frames_wf : queue_wf false two_frames /\ Forall short (queue two_frames).
Proof.
  split; [split|]; simpl; [|apply (bool_decide_unpack _); vm_compute; done|done|].
  - rewrite !Forall_cons; split_and!; [vm_compute; done..|apply Forall_nil; done].
  - rewrite !Forall_cons; split_and!; [vm_compute; lia..|apply Forall_nil; done].
Qed.

Lemma save_load_round_trip_witness :
  exists file, Save (fun _ n => n) true two_frames = Some (two_frames, Some file) /\
    Load false (Some file) newQueue = Some two_frames.
Proof.
  destruct (save_load_round_trip false two_frames newQueue) as (file & q' & H1 & H2 & H3 & _).
  - apply two_frames_wf.
  - reflexivity.
  - exists file. rewrite <- (H3 (proj2 two_frames_wf)) at 3. by split.
Defined.

(** A frame of 5000 bytes or more is not read back. *)
Definition long_frame : packet :=
  default [] (BuildPacket ([114; 97; 19; 144] ++ put_be16 9 ++ replicate 4994 0) 5000 1).

Theorem long_frame_is_lost :
  isFrameCRCOK false long_frame = true /\
  exists file, Save (fun _ n => n) true (mkQueue [data_frame 7; long_frame; data_frame 258] false) =
      Some (mkQueue [data_frame 7; long_frame; data_frame 258] false, Some file) /\
    queue <$> Load false (Some file) newQueue = Some [data_frame 7].
Proof. split; [vm_compute; reflexivity|]. eexists. split; [reflexivity|]. vm_compute. reflexivity. Qed.

(** C19.  Interrupted saves: whatever the [write] calls of [Save] return (errors and
    short writes included), the file it leaves is read back by [Load] as a well-formed
    queue that is a prefix of the queue saved; anything else can follow this prefix only
    where the next frame is one of 5000 bytes or more, which [Load] does not accept. *)
Theorem interrupted_save_loads_a_prefix sc wr q q0 :
  queue_wf sc q -> mutex q0 = false -> (forall i n, 0 <= n -> -1 <= wr i n <= n) ->
  exists file q' k extra, Save wr true q = Some (q, Some file) /\ Load sc (Some file) q0 = Some q' /\
    queue_wf sc q' /\ queue q' = take k (queue q) ++ extra /\
    (extra = [] \/ exists p, queue q !! k = Some p /\ ~ short p).
Proof. apply save_load_prefix. Qed.

Lemma interrupted_save_loads_a_prefix_witness :
  let wr := fun i n => if (i <? 3)%nat then n else Z.min n 5 in
  exists file q' k extra, Save wr true two_frames = Some (two_frames, Some file) /\
    Load false (Some file) newQueue = Some q' /\ queue_wf false q' /\
    queue q' = take k (queue two_frames) ++ extra /\
    (extra = [] \/ exists p, queue two_frames !! k = Some p /\ ~ short p).
Proof.
  intros wr. apply (interrupted_save_loads_a_prefix false wr two_frames newQueue).
  - apply two_frames_wf.
  - reflexivity.
  - intros i n Hn. unfold wr. destruct (i <? 3)%nat; lia.
Defined.

(** C20.  [Load] of any file whatsoever (truncated, corrupted, random bytes) ends
    within its fuel, reads no field outside a packet, and leaves a well-formed queue:
    complete frames shorter than 5000 bytes, no data number twice, the mutex released.
    This is so with a C++ library, as GCC's, whose [delete] also releases arrays: [Load]
    releases the buffer of every record by [delete] though it comes from [new char[n]],
    which the language leaves undefined.  The mutex has to be free at the call. *)
Theorem load_of_any_file_is_safe sc f q :
  mutex q = false ->
  exists q', LoadWith true sc (Some f) q = Some q' /\ queue_wf sc q' /\ Forall (storable sc) (queue q').
Proof. apply Load_wf. Qed.

Lemma load_of_any_file_is_safe_witness :
  exists q', Load false (Some [9; 0; 0; 0; 1; 1; 2; 114; 97; 3; 66; 69; 4; 255; 255; 255; 255; 1]) newQueue = Some q' /\
    queue_wf false q' /\ Forall (storable false) (queue q').
Proof.
  apply (load_of_any_file_is_safe false). reflexivity.
Defined.

(** By the language every record read is undefined behaviour, whatever is in it. *)
Theorem record_is_released_by_delete sc f q n :
  int_of_bytes (take 4 f) = Some n -> 0 < n < 5000 -> LoadWith false sc (Some f) q = None.
Proof.
  intros Hn Hr. unfold LoadWith. rewrite Nat.add_comm. cbn [Nat.add Load_loop]. rewrite Hn.
  rewrite !(proj2 (Z.ltb_lt _ _)) by lia. simpl andb. cbn iota. by destruct (Load_record _ _ _ _) as [[[]]|].
Qed.

End PacketQueue.
