(* ===== verification/Sys.v ===== *)
(** * Sys: system calls, threads and the effect monad

    The agent is three threads over shared objects, and everything it does beyond
    computing goes through the C library and the kernel.  A thread is modelled as
    a function in the monad [M]: it carries the program's objects, the state of the
    outside world and the list of system calls made so far, and ends with a value,
    a [ChannelException], undefined behaviour, or not at all.

    The world is a parameter ([Env]).  A system call is also the point where the
    other threads run, so the environment's step may change the shared objects; and
    it may be where the thread stays: a call need not return (the peer is silent,
    the power fails), and then the run ends in the state the call was made in.  So
    what is proved of the last state of every run holds at every system call. *)

From S2P Require Import Prelude.

Module Sys.

(** ** Time *)

Record timeval := mkTv { tv_sec : Z; tv_usec : Z }.

#[global] Instance timeval_eq_dec : EqDecision timeval.
Proof. solve_decision. Defined.

(** The macros [timersub] and [timercmp] of <sys/time.h>. *)
Definition timersub (a b : timeval) : timeval :=
  let sec := tv_sec a - tv_sec b in
  let usec := tv_usec a - tv_usec b in
  if usec <? 0 then mkTv (sec - 1) (usec + 1000000) else mkTv sec usec.

Definition timercmp (cmp : Z -> Z -> bool) (a b : timeval) : bool :=
  if tv_sec a =? tv_sec b then cmp (tv_usec a) (tv_usec b) else cmp (tv_sec a) (tv_sec b).

Definition timer_lt := timercmp Z.ltb.
Definition timer_gt := timercmp Z.gtb.

(** Microseconds since the epoch; the value of a normalised [timeval]. *)
Definition usecs (t : timeval) : Z := tv_sec t * 1000000 + tv_usec t.
Definition tv_ok (t : timeval) : Prop := 0 <= tv_usec t < 1000000.

Lemma timersub_usecs a b : usecs (timersub a b) = usecs a - usecs b.
Proof. unfold timersub, usecs. case_bool; simpl; lia. Qed.

Lemma timersub_ok a b : tv_ok a -> tv_ok b -> tv_ok (timersub a b).
Proof. unfold timersub, tv_ok. intros Ha Hb. case_bool; to_prop; simpl; lia. Qed.

Lemma timer_lt_usecs a b : tv_ok a -> tv_ok b -> timer_lt a b = (usecs a <? usecs b).
Proof.
  unfold timer_lt, timercmp, usecs, tv_ok. intros Ha Hb.
  destruct (Z.eqb_spec (tv_sec a) (tv_sec b)); apply eq_true_iff_eq; rewrite !Z.ltb_lt; lia.
Qed.

(** ** System calls *)

(** [errno] values the agent looks at (Linux). *)
Definition EAGAIN : Z := 11.
Definition EWOULDBLOCK : Z := 11.
Definition ENETUNREACH : Z := 101.
Definition EHOSTUNREACH : Z := 113.

(** Result of [read]/[recv]: the bytes delivered (none at end of file, or when a
    non-blocking terminal has nothing), or -1 with [errno]. *)
Inductive io_result := IoData (l : list byte) | IoErr (errno : Z).

(** An Internet address as [getaddrinfo] returns it. *)
Definition address := Z.

(** Strings of the C library: bytes without the terminating NUL. *)
Abbreviation cstring := (list byte) (only parsing).

(** The start routines handed to [pthread_create]: [DataTask::doProcess],
    [DataTask::doReadData], [ControlTask::doProcess]. *)
Inductive thread := data_doProcess | data_doReadData | control_doProcess.

Inductive syscall : Type -> Type :=
(* clock *)
| sys_gettimeofday : syscall timeval
| sys_time : syscall Z                                    (* time_t, -1 on error *)
| sys_settimeofday (tv : timeval) : syscall Z             (* 0 or -1 *)
| sys_sleep (sec : Z) : syscall unit
| sys_usleep (usec : Z) : syscall unit
(* sockets *)
| sys_socket : syscall Z                                  (* descriptor or -1 *)
| sys_getaddrinfo (host : cstring) (port : Z) : syscall (option (list address))
| sys_connect (fd : Z) (a : address) : syscall Z          (* 0 or errno *)
| sys_shutdown (fd : Z) : syscall unit
| sys_recv (fd len : Z) : syscall io_result
| sys_send (fd : Z) (buf : list byte) : syscall Z         (* bytes sent, or -errno *)
| sys_set_timeouts (fd usec : Z) : syscall unit           (* SO_RCVTIMEO and SO_SNDTIMEO *)
| sys_select_write (fd sec : Z) : syscall Z               (* descriptors ready, 0 on a time-out, or -1 *)
| sys_so_error (fd : Z) : syscall (option Z)              (* SO_ERROR; None when getsockopt fails *)
(* terminal *)
| sys_open_tty (dev : cstring) : syscall Z                (* descriptor or -1 *)
| sys_tty_setup (fd : Z) : syscall unit                   (* tcflush, tcgetattr, tcsetattr *)
| sys_tty_flush (fd : Z) : syscall unit
| sys_read (fd len : Z) : syscall io_result
| sys_write (fd : Z) (buf : list byte) : syscall io_result (* IoData: the bytes written *)
| sys_tcdrain (fd : Z) : syscall unit
| sys_flock (fd : Z) (exclusive : bool) : syscall unit
| sys_close (fd : Z) : syscall unit
(* files and commands *)
| sys_read_file (name : cstring) : syscall (option (list byte))
| sys_create (name : cstring) : syscall Z                 (* O_CREAT, O_WRONLY, O_TRUNC; descriptor or -1 *)
| sys_system (cmd : cstring) : syscall Z
| sys_open (name : cstring) : syscall Z                   (* O_RDONLY; descriptor or -1 *)
(* processes and threads *)
| sys_fork : syscall Z                                    (* 0 in the child, -1 on error *)
| sys_waitpid (pid : Z) : syscall unit
| sys_pthread_create (start : thread) : syscall Z         (* 0 or an error number *)
| sys_mutex_wait : syscall unit.                          (* the futex wait of a contended pthread_mutex_lock *)

(** An entry of the trace: a call and its answer. *)
Inductive event := | Ev {T : Type} (c : syscall T) (r : T).

(** ** Exceptions and outcomes *)

(** [class ChannelException] (Channel.h): either "not connected" or an [errno]. *)
Record ChannelException := mkExn { err : Z; bUnConnected : bool }.

Definition exn_unconnected : ChannelException := mkExn 0 true.
Definition exn_errno (errNo : Z) : ChannelException := mkExn errNo false.

Inductive outcome (A : Type) :=
| Ok (a : A)
| Throw (e : ChannelException)
| Undef                               (* undefined behaviour *)
| NoFuel.                             (* unfinished: in a call that has not returned,
                                         or in a loop longer than its fuel *)
Arguments Ok {A} a.
Arguments Throw {A} e.
Arguments Undef {A}.
Arguments NoFuel {A}.

(** ** The environment *)

(** What the kernel and the other threads do during one system call: the answer,
    the shared objects afterwards, the world afterwards; [None] when the call does
    not return. *)
Class Env (S W : Type) := env_step : forall T, syscall T -> S -> W -> option (T * S * W).
Arguments env_step {S W _ T} c s w.

(** Every call returns. *)
Class Returns {S W} (E : Env S W) : Prop :=
  returns : forall T (c : syscall T) s w, is_Some (env_step c s w).

Record st (S W : Type) := mkSt { agent : S; world : W; trace : list event }.
Arguments mkSt {S W} agent world trace.
Arguments agent {S W} s.
Arguments world {S W} s.
Arguments trace {S W} s.

Section Monad.
Context {S W : Type}.

Definition M (A : Type) : Type := st S W -> outcome A * st S W.

Definition mret {A} (a : A) : M A := fun s => (Ok a, s).
Definition throw {A} (e : ChannelException) : M A := fun s => (Throw e, s).
Definition undef {A} : M A := fun s => (Undef, s).
Definition no_fuel {A} : M A := fun s => (NoFuel, s).

Definition bind {A B} (m : M A) (f : A -> M B) : M B := fun s =>
  match m s with
  | (Ok a, s) => f a s
  | (Throw e, s) => (Throw e, s)
  | (Undef, s) => (Undef, s)
  | (NoFuel, s) => (NoFuel, s)
  end.

(** [try { m } catch (ChannelException& e) { h e }]. *)
Definition try_catch {A} (m : M A) (h : ChannelException -> M A) : M A := fun s =>
  match m s with
  | (Throw e, s) => h e s
  | r => r
  end.

(** The exception as a value, for calls whose out-parameters survive it. *)
Definition attempt {A} (m : M A) : M (ChannelException + A) :=
  try_catch (bind m (fun a => mret (inr a))) (fun e => mret (inl e)).

(** A partial computation: [None] is undefined behaviour. *)
Definition lift {A} (o : option A) : M A :=
  match o with Some a => mret a | None => undef end.

Definition gets {A} (f : S -> A) : M A := fun s => (Ok (f (agent s)), s).
Definition modify (f : S -> S) : M unit := fun s =>
  (Ok tt, mkSt (f (agent s)) (world s) (trace s)).

Context {E : Env S W}.

Definition sys {T} (c : syscall T) : M T := fun s =>
  match env_step c (agent s) (world s) with
  | Some (r, a, w) => (Ok r, mkSt a w (trace s ++ [Ev c r]))
  | None => (NoFuel, s)
  end.

(** A loop: the body answers with the next state or the result. *)
Fixpoint loop {X A} (fuel : nat) (body : X -> M (X + A)) (x : X) : M A :=
  match fuel with
  | O => no_fuel
  | Datatypes.S fuel => bind (body x) (fun r =>
      match r with inl x => loop fuel body x | inr a => mret a end)
  end.

(** ** Weakest preconditions *)

Definition wp {A} (m : M A) (Q : outcome A -> st S W -> Prop) (s : st S W) : Prop :=
  Q (fst (m s)) (snd (m s)).

(** Postconditions on the normal outcome only. *)
Definition on_ok {A} (Q : A -> st S W -> Prop) : outcome A -> st S W -> Prop :=
  fun o s => match o with Ok a => Q a s | _ => True end.

Lemma wp_mono {A} (m : M A) (Q R : outcome A -> st S W -> Prop) s :
  (forall o s', Q o s' -> R o s') -> wp m Q s -> wp m R s.
Proof. intros HQR H. by apply HQR. Qed.

Lemma wp_mret {A} (a : A) Q s : Q (Ok a) s -> wp (mret a) Q s.
Proof. done. Qed.

Lemma wp_bind {A B} (m : M A) (f : A -> M B) Q s :
  wp m (fun o s' => match o with
                    | Ok a => wp (f a) Q s'
                    | Throw e => Q (Throw e) s'
                    | Undef => Q Undef s'
                    | NoFuel => Q NoFuel s'
                    end) s ->
  wp (bind m f) Q s.
Proof. unfold wp, bind. by destruct (m s) as [[]]. Qed.

Lemma wp_try_catch {A} (m : M A) h Q s :
  wp m (fun o s' => match o with Throw e => wp (h e) Q s' | o => Q o s' end) s ->
  wp (try_catch m h) Q s.
Proof. unfold wp, try_catch. by destruct (m s) as [[]]. Qed.

Lemma wp_attempt {A} (m : M A) Q s :
  wp m (fun o s' => match o with
                    | Ok a => Q (Ok (inr a)) s'
                    | Throw e => Q (Ok (inl e)) s'
                    | Undef => Q Undef s'
                    | NoFuel => Q NoFuel s'
                    end) s ->
  wp (attempt m) Q s.
Proof. unfold wp, attempt, try_catch, bind. by destruct (m s) as [[]]. Qed.

Lemma wp_sys_any {T} (c : syscall T) Q s :
  (forall r a w, env_step c (agent s) (world s) = Some (r, a, w) ->
     Q (Ok r) (mkSt a w (trace s ++ [Ev c r]))) ->
  Q NoFuel s ->
  wp (sys c) Q s.
Proof. unfold wp, sys. intros H1 H2. destruct (env_step c _ _) as [[[r a] w]|]; [by apply H1|done]. Qed.

Lemma wp_sys `{!Returns E} {T} (c : syscall T) Q s :
  (forall r a w, env_step c (agent s) (world s) = Some (r, a, w) ->
     Q (Ok r) (mkSt a w (trace s ++ [Ev c r]))) ->
  wp (sys c) Q s.
Proof.
  intros H. unfold wp, sys. destruct (returns T c (agent s) (world s)) as [[[r a] w] He].
  rewrite He. by apply H.
Qed.

Lemma wp_lift {A} (o : option A) Q s :
  match o with Some a => Q (Ok a) s | None => Q Undef s end -> wp (lift o) Q s.
Proof. by destruct o. Qed.

Lemma wp_gets {A} (f : S -> A) Q s : Q (Ok (f (agent s))) s -> wp (gets f) Q s.
Proof. done. Qed.

Lemma wp_modify f Q s :
  Q (Ok tt) (mkSt (f (agent s)) (world s) (trace s)) -> wp (modify f) Q s.
Proof. done. Qed.

(** Nothing is needed of this step. *)
Lemma wp_whatever {A} (m : M A) (Q : outcome A -> st S W -> Prop) s : (forall o s', Q o s') -> wp m Q s.
Proof. intros H. apply H. Qed.

Lemma wp_run {A} (m : M A) Q s : wp m Q s -> Q (fst (m s)) (snd (m s)).
Proof. done. Qed.
End Monad.

Arguments M S W A : clear implicits.

(** ** A scripted environment

    A concrete world, for executing the model: no other thread, a clock that
    sleeping advances, and the answers of the peers given in advance.  It shows
    that the hypotheses made about environments can hold. *)

Record script := mkScript {
  sc_clock : Z;                        (* microseconds *)
  sc_connects : list Z;                (* results of connect; then 0 *)
  sc_recvs : list io_result;           (* results of recv; then EAGAIN *)
  sc_reads : list io_result;           (* results of read on the terminal; then nothing *)
  sc_file : option (list byte) }.      (* the content of every file *)

Definition pop {A} (d : A) (l : list A) : A * list A :=
  match l with [] => (d, []) | x :: l => (x, l) end.

Definition script_answer {T} (c : syscall T) (w : script) : T * script :=
  let '(mkScript clk cs rs ts f) := w in
  match c in syscall T return T * script with
  | sys_gettimeofday => (mkTv (clk / 1000000) (clk mod 1000000), mkScript (clk + 10) cs rs ts f)
  | sys_time => (clk / 1000000, w)
  | sys_settimeofday tv => (0, mkScript (usecs tv) cs rs ts f)
  | sys_sleep n => (tt, mkScript (clk + n * 1000000) cs rs ts f)
  | sys_usleep n => (tt, mkScript (clk + n) cs rs ts f)
  | sys_socket => (5, w)
  | sys_getaddrinfo _ _ => (Some [1], w)
  | sys_connect _ _ => let '(r, cs) := pop 0 cs in (r, mkScript clk cs rs ts f)
  | sys_recv _ len =>
      match rs with
      | [] => (IoErr EAGAIN, w)
      | IoData l :: rs =>
          let n := Z.to_nat len in
          (IoData (take n l), mkScript clk cs (match drop n l with [] => rs | k => IoData k :: rs end) ts f)
      | r :: rs => (r, mkScript clk cs rs ts f)
      end
  | sys_read _ len =>
      match ts with
      | [] => (IoData [], w)
      | IoData l :: ts =>
          let n := Z.to_nat len in
          (IoData (take n l), mkScript clk cs rs (match drop n l with [] => ts | k => IoData k :: ts end) f)
      | r :: ts => (r, mkScript clk cs rs ts f)
      end
  | sys_send _ buf => (Z.of_nat (length buf), w)
  | sys_write fd buf => (IoData buf, if fd =? 8 then mkScript clk cs rs ts (Some (default [] f ++ buf)) else w)
  | sys_open_tty _ => (6, w)
  | sys_select_write _ _ => (1, w)
  | sys_so_error _ => (Some 0, w)
  | sys_shutdown _ | sys_set_timeouts _ _ | sys_tty_setup _ | sys_tty_flush _ | sys_tcdrain _
  | sys_flock _ _ | sys_close _ => (tt, w)
  | sys_read_file _ => (f, w)
  | sys_create _ => (8, mkScript clk cs rs ts (Some []))
  | sys_system _ => (0, w)
  | sys_open _ => (7, w)
  | sys_fork => (0, w)
  | sys_waitpid _ => (tt, w)
  | sys_pthread_create _ => (0, w)
  | sys_mutex_wait => (tt, w)
  end.

Instance script_env {S} : Env S script :=
  fun T c s w => let '(r, w) := script_answer c w in Some (r, s, w).

#[global] Instance script_returns {S} : Returns (script_env (S := S)).
Proof. intros T c s w. unfold env_step, script_env. destruct (script_answer c w). by eexists. Qed.

Lemma script_env_quiet {S T} (c : syscall T) (s : S) w r s' w' :
  env_step c s w = Some (r, s', w') -> s' = s.
Proof. unfold env_step, script_env. destruct (script_answer c w). congruence. Qed.

(** ** Notation *)

Notation "x <- m ; k" := (bind m (fun x => k))
  (at level 100, m at next level, right associativity) : agent_scope.
Notation "m ;; k" := (bind m (fun _ => k))
  (at level 100, k at level 200, right associativity) : agent_scope.

End Sys.
