(* ===== verification/Effects.v ===== *)
(** * Effects: what a computation can and cannot do

    Two judgements on computations of the monad of [Sys], both closed under the
    monad's combinators, so that they are proved by following the syntax:

    - [keeps R m]: every run of [m] goes from its first state to its last one
      along the preorder [R].  With [R] about the trace, this bounds the system
      calls [m] may make; with [R] about the program's objects, what it may change;
    - [avoids k m]: no run of [m] ends with an outcome of kind [k] (an exception,
      undefined behaviour, out of fuel).

    The tactic [effects] applies the rules. *)

From S2P Require Import Prelude Sys.
Import Sys.

Module Effects.

Create HintDb effects discriminated.

(** ** Keeping a preorder *)

Section Keeps.
Context {S W : Type} {E : Env S W}.
Context (R : st S W -> st S W -> Prop).

Definition keeps {A} (m : M S W A) : Prop := forall s, R s (snd (m s)).

Context {HR : PreOrder R}.

Lemma keeps_mret {A} (a : A) : keeps (mret a).
Proof. intros s. reflexivity. Qed.

Lemma keeps_throw {A} e : keeps (throw (A := A) e).
Proof. intros s. reflexivity. Qed.

Lemma keeps_undef {A} : keeps (undef (A := A)).
Proof. intros s. reflexivity. Qed.

Lemma keeps_no_fuel {A} : keeps (no_fuel (A := A)).
Proof. intros s. reflexivity. Qed.

Lemma keeps_gets {A} (f : S -> A) : keeps (gets f).
Proof. intros s. reflexivity. Qed.

Lemma keeps_lift {A} (o : option A) : keeps (lift o).
Proof. intros s. by destruct o. Qed.

Lemma keeps_bind {A B} (m : M S W A) (f : A -> M S W B) :
  keeps m -> (forall a, keeps (f a)) -> keeps (bind m f).
Proof.
  intros Hm Hf s. unfold bind. specialize (Hm s).
  destruct (m s) as [[a|e| |] s1]; simpl in *; try done.
  etrans; [apply Hm|apply Hf].
Qed.

Lemma keeps_try_catch {A} (m : M S W A) h :
  keeps m -> (forall e, keeps (h e)) -> keeps (try_catch m h).
Proof.
  intros Hm Hh s. unfold try_catch. specialize (Hm s).
  destruct (m s) as [[a|e| |] s1]; simpl in *; try done.
  etrans; [apply Hm|apply Hh].
Qed.

Lemma keeps_attempt {A} (m : M S W A) : keeps m -> keeps (attempt m).
Proof.
  intros Hm. apply keeps_try_catch; [apply keeps_bind; [done|]|]; intros; apply keeps_mret.
Qed.

Lemma keeps_loop {X A} fuel (body : X -> M S W (X + A)) x :
  (forall x, keeps (body x)) -> keeps (loop fuel body x).
Proof.
  intros Hb. revert x. induction fuel as [|fuel IH]; intros x; simpl; [apply keeps_no_fuel|].
  apply keeps_bind; [apply Hb|]. intros [y|a]; [apply IH|apply keeps_mret].
Qed.
End Keeps.

(** ** Avoiding an outcome *)

Inductive kind := KThrow | KUndef | KNoFuel.

Definition is_kind {A} (k : kind) (o : outcome A) : bool :=
  match k, o with
  | KThrow, Throw _ | KUndef, Undef | KNoFuel, NoFuel => true
  | _, _ => false
  end.

(** To show that a computation comes to an end, the calls must. *)
Class Answers {S W} (k : kind) (E : Env S W) : Prop := answers : k = KNoFuel -> Returns E.

#[global] Instance answers_throw {S W} (E : Env S W) : Answers KThrow E.
Proof. done. Qed.
#[global] Instance answers_undef {S W} (E : Env S W) : Answers KUndef E.
Proof. done. Qed.
#[global] Instance answers_returns {S W} k (E : Env S W) : Returns E -> Answers k E.
Proof. by intros H _. Qed.

Section Avoids.
Context {S W : Type} {E : Env S W}.
Context (k : kind).

Definition avoids {A} (m : M S W A) : Prop := forall s, is_kind k (fst (m s)) = false.

Lemma avoids_mret {A} (a : A) : avoids (mret a).
Proof. intros s. by destruct k. Qed.

Lemma avoids_throw {A} e : k <> KThrow -> avoids (throw (A := A) e).
Proof. intros Hk s. by destruct k. Qed.

Lemma avoids_undef {A} : k <> KUndef -> avoids (undef (A := A)).
Proof. intros Hk s. by destruct k. Qed.

Lemma avoids_no_fuel {A} : k <> KNoFuel -> avoids (no_fuel (A := A)).
Proof. intros Hk s. by destruct k. Qed.

Lemma avoids_gets {A} (f : S -> A) : avoids (gets f).
Proof. intros s. by destruct k. Qed.

Lemma avoids_modify f : avoids (modify f).
Proof. intros s. by destruct k. Qed.

Lemma avoids_sys `{!Answers k E} {T} (c : syscall T) : avoids (sys c).
Proof.
  intros s. unfold sys. destruct (env_step _ _ _) as [[[]]|] eqn:He; [by destruct k|].
  destruct k; try done. destruct (answers eq_refl T c (agent s) (world s)). congruence.
Qed.

Lemma avoids_lift {A} (o : option A) : k <> KUndef -> avoids (lift o).
Proof. intros Hk s. destruct o; by destruct k. Qed.

Lemma avoids_bind {A B} (m : M S W A) (f : A -> M S W B) :
  avoids m -> (forall a, avoids (f a)) -> avoids (bind m f).
Proof.
  intros Hm Hf s. unfold bind. specialize (Hm s).
  destruct (m s) as [[a|e| |] s1]; simpl in *; [apply Hf|destruct k..]; done.
Qed.

Lemma avoids_try_catch {A} (m : M S W A) h :
  k <> KThrow -> avoids m -> (forall e, avoids (h e)) -> avoids (try_catch m h).
Proof.
  intros Hk Hm Hh s. unfold try_catch. specialize (Hm s).
  destruct (m s) as [[a|e| |] s1]; simpl in *; try done. apply Hh.
Qed.

(** A handler that does not rethrow stops every exception. *)
Lemma avoids_handled {A} (m : M S W A) h :
  k = KThrow -> (forall e, avoids (h e)) -> avoids (try_catch m h).
Proof.
  intros Hk Hh s. unfold try_catch.
  destruct (m s) as [[a|e| |] s1]; [| apply Hh | |]; by rewrite Hk.
Qed.

Lemma avoids_attempt {A} (m : M S W A) : (k <> KThrow -> avoids m) -> avoids (attempt m).
Proof.
  intros Hm s. unfold attempt, try_catch, bind. revert Hm. unfold avoids.
  destruct k; intros Hm; [|specialize (Hm ltac:(done) s)..];
    destruct (m s) as [[a|e| |] s1]; simpl in *; done.
Qed.

Lemma avoids_loop {X A} fuel (body : X -> M S W (X + A)) x :
  k <> KNoFuel -> (forall x, avoids (body x)) -> avoids (loop fuel body x).
Proof.
  intros Hk Hb. revert x. induction fuel as [|fuel IH]; intros x; simpl; [by apply avoids_no_fuel|].
  apply avoids_bind; [apply Hb|]. intros [y|a]; [apply IH|apply avoids_mret].
Qed.

(** A loop whose measure goes down does not run out of fuel. *)
Lemma avoids_loop_measure {X A} (f : X -> nat) (I : X -> Prop) fuel (body : X -> M S W (X + A)) x :
  I x -> (f x < fuel)%nat ->
  (forall x, I x -> avoids (body x)) ->
  (forall x s y s', I x -> body x s = (Ok (inl y), s') -> I y /\ (f y < f x)%nat) ->
  avoids (loop fuel body x).
Proof.
  intros Hx Hf Hb Hd. revert x Hx Hf. induction fuel as [|fuel IH]; intros x Hx Hf; [lia|].
  intros s. simpl. unfold bind. pose proof (Hb x Hx s) as Hs.
  destruct (body x s) as [[[y|a]|e| |] s1] eqn:Hbx; simpl in *; try done.
  apply Hd in Hbx as [Hy Hm]; [|done]. apply IH; [done|lia].
Qed.
End Avoids.

(** ** Results *)

(** [yields Q m]: a normal result of [m] satisfies [Q], whatever the environment does. *)
Section Yields.
Context {S W : Type} {E : Env S W}.

Definition yields {A} (Q : A -> Prop) (m : M S W A) : Prop :=
  forall s, match fst (m s) with Ok a => Q a | _ => True end.

Lemma yields_mret {A} (Q : A -> Prop) a : Q a -> yields Q (mret a).
Proof. by intros H s. Qed.

Lemma yields_no_fuel {A} (Q : A -> Prop) : yields Q no_fuel.
Proof. by intros s. Qed.

Lemma yields_throw {A} (Q : A -> Prop) e : yields Q (throw e).
Proof. by intros s. Qed.

Lemma yields_true {A} (m : M S W A) : yields (fun _ => True) m.
Proof. intros s. by destruct (fst (m s)). Qed.

Lemma yields_lift {A} (Q : A -> Prop) o : (forall a, o = Some a -> Q a) -> yields Q (lift o).
Proof. intros H s. destruct o; simpl; auto. Qed.

Lemma yields_bind {A B} (P : A -> Prop) (Q : B -> Prop) m f :
  yields P m -> (forall a, P a -> yields Q (f a)) -> yields Q (bind m f).
Proof.
  intros Hm Hf s. unfold bind. specialize (Hm s).
  destruct (m s) as [[a|e| |] s1]; simpl in *; try done. by apply Hf.
Qed.

Lemma yields_bind_any {A B} (Q : B -> Prop) (m : M S W A) f :
  (forall a, yields Q (f a)) -> yields Q (bind m f).
Proof. intros Hf. eapply yields_bind; [apply yields_true|auto]. Qed.

Lemma yields_attempt {A} (Q : ChannelException + A -> Prop) (m : M S W A) :
  (forall e, Q (inl e)) -> (forall a, Q (inr a)) -> yields Q (attempt m).
Proof.
  intros H1 H2 s. unfold attempt, try_catch, bind.
  destruct (m s) as [[a|e| |] s1]; simpl; auto.
Qed.

(** A computation that cannot throw never reports an exception. *)
Lemma yields_attempt_safe {A} (Q : ChannelException + A -> Prop) (m : M S W A) :
  avoids KThrow m -> (forall a, Q (inr a)) -> yields Q (attempt m).
Proof.
  intros Hm H2 s. unfold attempt, try_catch, bind. specialize (Hm s).
  destruct (m s) as [[a|e| |] s1]; simpl in *; try done.
Qed.
End Yields.

(** ** Into weakest preconditions *)

Section Wp.
Context {S W : Type} {E : Env S W}.
Context (R : st S W -> st S W -> Prop).

Lemma wp_keeps {A} (m : M S W A) Q s :
  keeps R m -> (forall o s', R s s' -> Q o s') -> wp m Q s.
Proof. intros Hk HQ. apply HQ, Hk. Qed.

Lemma wp_and_keeps {A} (m : M S W A) (Q Q' : outcome A -> st S W -> Prop) s :
  keeps R m -> wp m Q s -> (forall o s', R s s' -> Q o s' -> Q' o s') -> wp m Q' s.
Proof. intros Hk HQ H. apply H; [apply Hk|apply HQ]. Qed.

(** A preorder kept with the help of what a step yields. *)
Lemma keeps_bind_yields `{!PreOrder R} {A B} (P : A -> Prop) (m : M S W A) (f : A -> M S W B) :
  keeps R m -> yields P m -> (forall a, P a -> keeps R (f a)) -> keeps R (bind m f).
Proof.
  intros Hm Hy Hf s. unfold bind. specialize (Hm s). specialize (Hy s).
  destruct (m s) as [[a|e| |] s1]; simpl in *; try done. etrans; [exact Hm|by apply Hf].
Qed.

(** A computation with a normal result if any. *)
Lemma wp_keeps_run {A} (m : M S W A) Q s :
  keeps R m -> avoids KThrow m -> avoids KUndef m ->
  (forall a s', R s s' -> Q (Ok a) s') -> (forall s', R s s' -> Q NoFuel s') -> wp m Q s.
Proof.
  intros Hk Ht Hu HQ HN. unfold wp. specialize (Hk s). specialize (Ht s). specialize (Hu s).
  destruct (m s) as [[a|e| |] s']; simpl in *; try done; auto.
Qed.

(** A computation with a normal result only. *)
Lemma wp_keeps_ok {A} (m : M S W A) Q s :
  keeps R m -> (forall k, avoids k m) -> (forall a s', R s s' -> Q (Ok a) s') -> wp m Q s.
Proof.
  intros Hk Ha HQ. unfold wp. specialize (Hk s).
  pose proof (Ha KThrow s). pose proof (Ha KUndef s). pose proof (Ha KNoFuel s).
  destruct (m s) as [[a|e| |] s']; simpl in *; try done. by apply HQ.
Qed.
End Wp.

(** ** The trace *)

(** [extends P s s']: the calls made from [s] to [s'] all satisfy [P]. *)
Definition extends {S W} (P : event -> Prop) (s s' : st S W) : Prop :=
  exists new, trace s' = trace s ++ new /\ Forall P new.

#[global] Instance extends_preorder {S W} P : PreOrder (extends (S := S) (W := W) P).
Proof.
  split.
  - intros s. exists []. by rewrite app_nil_r.
  - intros s1 s2 s3 (a & Ha & Fa) (b & Hb & Fb). exists (a ++ b).
    rewrite Hb, Ha, app_assoc, Forall_app. done.
Qed.

Section Trace.
Context {S W : Type} {E : Env S W}.
Context (P : event -> Prop).

Lemma keeps_sys_extends {T} (c : syscall T) :
  (forall r, P (Ev c r)) -> keeps (extends P) (sys (S := S) (W := W) c).
Proof.
  intros Hc s. unfold sys. destruct (env_step c _ _) as [[[r a] w]|]; [|reflexivity]. simpl.
  exists [Ev c r]. simpl. auto using Forall_cons, Forall_nil.
Qed.

Lemma keeps_modify_extends (f : S -> S) : keeps (W := W) (extends P) (modify f).
Proof. intros s. exists []. simpl. by rewrite app_nil_r. Qed.
End Trace.

(** ** Parts of the program's state *)

(** [stable f]: the part [f] of the objects is the same in both states. *)
Definition stable {S W X} (f : S -> X) (s s' : st S W) : Prop := f (agent s') = f (agent s).

#[global] Instance stable_preorder {S W X} (f : S -> X) : PreOrder (stable (W := W) f).
Proof. split; [done|]. intros s1 s2 s3. unfold stable. congruence. Qed.

(** The other threads leave the part [f] alone. *)
Definition untouched {S W X} (E : Env S W) (f : S -> X) : Prop :=
  forall T (c : syscall T) a w r a' w', env_step c a w = Some (r, a', w') -> f a' = f a.

Section Stable.
Context {S W X : Type} {E : Env S W} (f : S -> X).

Lemma keeps_stable_sys {T} (c : syscall T) : untouched E f -> keeps (stable f) (sys (S := S) (W := W) c).
Proof.
  intros H s. unfold sys, stable. destruct (env_step c _ _) as [[[r a] w]|] eqn:He; simpl; eauto.
Qed.

Lemma keeps_stable_modify g : (forall a, f (g a) = f a) -> keeps (W := W) (stable f) (modify g).
Proof. intros H s. apply H. Qed.
End Stable.

#[export] Hint Resolve keeps_mret keeps_throw keeps_undef keeps_no_fuel keeps_gets keeps_lift
  keeps_modify_extends : effects.
#[export] Hint Resolve avoids_mret avoids_gets avoids_modify avoids_sys avoids_lift : effects.

#[export] Hint Extern 0 (PreOrder _) => (typeclasses eauto) : effects.
#[export] Hint Extern 0 (Answers _ _) => (typeclasses eauto) : effects.

(** Follow the syntax of a computation. *)
Ltac effects_step :=
  match goal with
  | |- forall _, _ => intros
  | |- keeps _ (bind _ _) => apply keeps_bind
  | |- keeps _ (try_catch _ _) => apply keeps_try_catch
  | |- keeps _ (attempt _) => apply keeps_attempt
  | |- keeps _ (loop _ _ _) => apply keeps_loop
  | |- keeps (extends _) (sys _) => apply keeps_sys_extends
  | |- keeps (stable _) (sys _) => apply keeps_stable_sys; assumption
  | |- keeps (stable _) (modify _) => apply keeps_stable_modify; intros; done
  | |- keeps _ (match ?x with _ => _ end) => destruct x
  | |- avoids _ (bind _ _) => apply avoids_bind
  | |- avoids _ (attempt _) => apply avoids_attempt
  | |- avoids _ (match ?x with _ => _ end) => destruct x
  | |- keeps _ _ => solve [eauto with effects]
  | |- avoids _ _ => solve [eauto with effects]
  | |- PreOrder _ => apply _
  | |- Answers _ _ => apply _
  | |- _ <> _ => done
  end.
Ltac effects := repeat effects_step.

End Effects.
