(* ===== verification/Agent.v ===== *)
(** * Agent: the objects of the running program

    One record per class of device-agent/src, and [Agent] for the objects that
    [main_work] creates and the three threads share.  A C++ reference to a channel
    is a name of one of the four channel objects ([chan]), so that two references
    to the same port alias. *)

From S2P Require Import Prelude Packet PacketQueue Sys.
Import Packet PacketQueue Sys.

Module Agent.

(** Channel.h, TCPPort.h: a TCP connection. *)
Record TCPPort := mkTCP {
  tcp_nPort : Z;
  tcp_strServerName : cstring;
  socketID : Z;
  bConnected : bool;
  tcp_timeout : Z;
  nNoRoute : Z;
  tcp_tmLastAction : timeval }.

Definition set_tcp_nPort (v : Z) (o : TCPPort) : TCPPort :=
  mkTCP v (tcp_strServerName o) (socketID o) (bConnected o) (tcp_timeout o) (nNoRoute o) (tcp_tmLastAction o).
Definition set_tcp_strServerName (v : cstring) (o : TCPPort) : TCPPort :=
  mkTCP (tcp_nPort o) v (socketID o) (bConnected o) (tcp_timeout o) (nNoRoute o) (tcp_tmLastAction o).
Definition set_socketID (v : Z) (o : TCPPort) : TCPPort :=
  mkTCP (tcp_nPort o) (tcp_strServerName o) v (bConnected o) (tcp_timeout o) (nNoRoute o) (tcp_tmLastAction o).
Definition set_bConnected (v : bool) (o : TCPPort) : TCPPort :=
  mkTCP (tcp_nPort o) (tcp_strServerName o) (socketID o) v (tcp_timeout o) (nNoRoute o) (tcp_tmLastAction o).
Definition set_tcp_timeout (v : Z) (o : TCPPort) : TCPPort :=
  mkTCP (tcp_nPort o) (tcp_strServerName o) (socketID o) (bConnected o) v (nNoRoute o) (tcp_tmLastAction o).
Definition set_nNoRoute (v : Z) (o : TCPPort) : TCPPort :=
  mkTCP (tcp_nPort o) (tcp_strServerName o) (socketID o) (bConnected o) (tcp_timeout o) v (tcp_tmLastAction o).
Definition set_tcp_tmLastAction (v : timeval) (o : TCPPort) : TCPPort :=
  mkTCP (tcp_nPort o) (tcp_strServerName o) (socketID o) (bConnected o) (tcp_timeout o) (nNoRoute o) v.

(** Channel.h, SerialPort.h: the line to the monitoring post. *)
Record SerialPort := mkSerial {
  handle : Z;
  ser_timeout : Z;
  strDevName : cstring;
  ser_tmLastAction : timeval }.

Definition set_handle (v : Z) (o : SerialPort) : SerialPort :=
  mkSerial v (ser_timeout o) (strDevName o) (ser_tmLastAction o).
Definition set_ser_timeout (v : Z) (o : SerialPort) : SerialPort :=
  mkSerial (handle o) v (strDevName o) (ser_tmLastAction o).
Definition set_strDevName (v : cstring) (o : SerialPort) : SerialPort :=
  mkSerial (handle o) (ser_timeout o) v (ser_tmLastAction o).
Definition set_ser_tmLastAction (v : timeval) (o : SerialPort) : SerialPort :=
  mkSerial (handle o) (ser_timeout o) (strDevName o) v.

(** Modem.h: the satellite terminal. *)
Record Modem := mkModem {
  bPowerOff : bool;
  bModemOpen : bool;
  modem_strCache : list byte;
  UT_ATPort_ : TCPPort;
  strAPN : cstring;
  strUserName : cstring;
  strIP : cstring;
  strPassword : cstring }.

Definition set_bPowerOff (v : bool) (o : Modem) : Modem :=
  mkModem v (bModemOpen o) (modem_strCache o) (UT_ATPort_ o) (strAPN o) (strUserName o) (strIP o) (strPassword o).
Definition set_bModemOpen (v : bool) (o : Modem) : Modem :=
  mkModem (bPowerOff o) v (modem_strCache o) (UT_ATPort_ o) (strAPN o) (strUserName o) (strIP o) (strPassword o).
Definition set_modem_strCache (v : list byte) (o : Modem) : Modem :=
  mkModem (bPowerOff o) (bModemOpen o) v (UT_ATPort_ o) (strAPN o) (strUserName o) (strIP o) (strPassword o).
Definition set_UT_ATPort_ (v : TCPPort) (o : Modem) : Modem :=
  mkModem (bPowerOff o) (bModemOpen o) (modem_strCache o) v (strAPN o) (strUserName o) (strIP o) (strPassword o).
Definition set_strAPN (v : cstring) (o : Modem) : Modem :=
  mkModem (bPowerOff o) (bModemOpen o) (modem_strCache o) (UT_ATPort_ o) v (strUserName o) (strIP o) (strPassword o).
Definition set_strUserName (v : cstring) (o : Modem) : Modem :=
  mkModem (bPowerOff o) (bModemOpen o) (modem_strCache o) (UT_ATPort_ o) (strAPN o) v (strIP o) (strPassword o).
Definition set_strIP (v : cstring) (o : Modem) : Modem :=
  mkModem (bPowerOff o) (bModemOpen o) (modem_strCache o) (UT_ATPort_ o) (strAPN o) (strUserName o) v (strPassword o).
Definition set_strPassword (v : cstring) (o : Modem) : Modem :=
  mkModem (bPowerOff o) (bModemOpen o) (modem_strCache o) (UT_ATPort_ o) (strAPN o) (strUserName o) (strIP o) v.

(** Protocol.h: state shared by the tasks. [bControlPre] is never used. *)
Record Protocol := mkProtocol {
  bExtCommunicationError : bool;
  bInCommunicationError : bool;
  bControlDone : bool;
  Machine : byte;
  strServerName : cstring;
  nLastStatus : Z;
  nIdleTimeSetting : Z;
  nIntervalSetting : Z;
  tmLastActive : timeval;
  tmHealthCheckActive : timeval;
  tmCurrentDataActive : timeval;
  tmSendDataActive : timeval;
  devMP : SerialPort;
  srvData_ : TCPPort;
  srvControl_ : TCPPort;
  statusQueue : DataPacketQueue;
  nCommandPort : Z;
  nDataPort : Z;
  nNegotialTimeOut : Z }.

Definition set_bExtCommunicationError (v : bool) (o : Protocol) : Protocol :=
  mkProtocol v (bInCommunicationError o) (bControlDone o) (Machine o) (strServerName o) (nLastStatus o) (nIdleTimeSetting o) (nIntervalSetting o) (tmLastActive o) (tmHealthCheckActive o) (tmCurrentDataActive o) (tmSendDataActive o) (devMP o) (srvData_ o) (srvControl_ o) (statusQueue o) (nCommandPort o) (nDataPort o) (nNegotialTimeOut o).
Definition set_bInCommunicationError (v : bool) (o : Protocol) : Protocol :=
  mkProtocol (bExtCommunicationError o) v (bControlDone o) (Machine o) (strServerName o) (nLastStatus o) (nIdleTimeSetting o) (nIntervalSetting o) (tmLastActive o) (tmHealthCheckActive o) (tmCurrentDataActive o) (tmSendDataActive o) (devMP o) (srvData_ o) (srvControl_ o) (statusQueue o) (nCommandPort o) (nDataPort o) (nNegotialTimeOut o).
Definition set_bControlDone (v : bool) (o : Protocol) : Protocol :=
  mkProtocol (bExtCommunicationError o) (bInCommunicationError o) v (Machine o) (strServerName o) (nLastStatus o) (nIdleTimeSetting o) (nIntervalSetting o) (tmLastActive o) (tmHealthCheckActive o) (tmCurrentDataActive o) (tmSendDataActive o) (devMP o) (srvData_ o) (srvControl_ o) (statusQueue o) (nCommandPort o) (nDataPort o) (nNegotialTimeOut o).
Definition set_Machine (v : byte) (o : Protocol) : Protocol :=
  mkProtocol (bExtCommunicationError o) (bInCommunicationError o) (bControlDone o) v (strServerName o) (nLastStatus o) (nIdleTimeSetting o) (nIntervalSetting o) (tmLastActive o) (tmHealthCheckActive o) (tmCurrentDataActive o) (tmSendDataActive o) (devMP o) (srvData_ o) (srvControl_ o) (statusQueue o) (nCommandPort o) (nDataPort o) (nNegotialTimeOut o).
Definition set_strServerName (v : cstring) (o : Protocol) : Protocol :=
  mkProtocol (bExtCommunicationError o) (bInCommunicationError o) (bControlDone o) (Machine o) v (nLastStatus o) (nIdleTimeSetting o) (nIntervalSetting o) (tmLastActive o) (tmHealthCheckActive o) (tmCurrentDataActive o) (tmSendDataActive o) (devMP o) (srvData_ o) (srvControl_ o) (statusQueue o) (nCommandPort o) (nDataPort o) (nNegotialTimeOut o).
Definition set_nLastStatus (v : Z) (o : Protocol) : Protocol :=
  mkProtocol (bExtCommunicationError o) (bInCommunicationError o) (bControlDone o) (Machine o) (strServerName o) v (nIdleTimeSetting o) (nIntervalSetting o) (tmLastActive o) (tmHealthCheckActive o) (tmCurrentDataActive o) (tmSendDataActive o) (devMP o) (srvData_ o) (srvControl_ o) (statusQueue o) (nCommandPort o) (nDataPort o) (nNegotialTimeOut o).
Definition set_nIdleTimeSetting (v : Z) (o : Protocol) : Protocol :=
  mkProtocol (bExtCommunicationError o) (bInCommunicationError o) (bControlDone o) (Machine o) (strServerName o) (nLastStatus o) v (nIntervalSetting o) (tmLastActive o) (tmHealthCheckActive o) (tmCurrentDataActive o) (tmSendDataActive o) (devMP o) (srvData_ o) (srvControl_ o) (statusQueue o) (nCommandPort o) (nDataPort o) (nNegotialTimeOut o).
Definition set_nIntervalSetting (v : Z) (o : Protocol) : Protocol :=
  mkProtocol (bExtCommunicationError o) (bInCommunicationError o) (bControlDone o) (Machine o) (strServerName o) (nLastStatus o) (nIdleTimeSetting o) v (tmLastActive o) (tmHealthCheckActive o) (tmCurrentDataActive o) (tmSendDataActive o) (devMP o) (srvData_ o) (srvControl_ o) (statusQueue o) (nCommandPort o) (nDataPort o) (nNegotialTimeOut o).
Definition set_tmLastActive (v : timeval) (o : Protocol) : Protocol :=
  mkProtocol (bExtCommunicationError o) (bInCommunicationError o) (bControlDone o) (Machine o) (strServerName o) (nLastStatus o) (nIdleTimeSetting o) (nIntervalSetting o) v (tmHealthCheckActive o) (tmCurrentDataActive o) (tmSendDataActive o) (devMP o) (srvData_ o) (srvControl_ o) (statusQueue o) (nCommandPort o) (nDataPort o) (nNegotialTimeOut o).
Definition set_tmHealthCheckActive (v : timeval) (o : Protocol) : Protocol :=
  mkProtocol (bExtCommunicationError o) (bInCommunicationError o) (bControlDone o) (Machine o) (strServerName o) (nLastStatus o) (nIdleTimeSetting o) (nIntervalSetting o) (tmLastActive o) v (tmCurrentDataActive o) (tmSendDataActive o) (devMP o) (srvData_ o) (srvControl_ o) (statusQueue o) (nCommandPort o) (nDataPort o) (nNegotialTimeOut o).
Definition set_tmCurrentDataActive (v : timeval) (o : Protocol) : Protocol :=
  mkProtocol (bExtCommunicationError o) (bInCommunicationError o) (bControlDone o) (Machine o) (strServerName o) (nLastStatus o) (nIdleTimeSetting o) (nIntervalSetting o) (tmLastActive o) (tmHealthCheckActive o) v (tmSendDataActive o) (devMP o) (srvData_ o) (srvControl_ o) (statusQueue o) (nCommandPort o) (nDataPort o) (nNegotialTimeOut o).
Definition set_tmSendDataActive (v : timeval) (o : Protocol) : Protocol :=
  mkProtocol (bExtCommunicationError o) (bInCommunicationError o) (bControlDone o) (Machine o) (strServerName o) (nLastStatus o) (nIdleTimeSetting o) (nIntervalSetting o) (tmLastActive o) (tmHealthCheckActive o) (tmCurrentDataActive o) v (devMP o) (srvData_ o) (srvControl_ o) (statusQueue o) (nCommandPort o) (nDataPort o) (nNegotialTimeOut o).
Definition set_devMP (v : SerialPort) (o : Protocol) : Protocol :=
  mkProtocol (bExtCommunicationError o) (bInCommunicationError o) (bControlDone o) (Machine o) (strServerName o) (nLastStatus o) (nIdleTimeSetting o) (nIntervalSetting o) (tmLastActive o) (tmHealthCheckActive o) (tmCurrentDataActive o) (tmSendDataActive o) v (srvData_ o) (srvControl_ o) (statusQueue o) (nCommandPort o) (nDataPort o) (nNegotialTimeOut o).
Definition set_srvData_ (v : TCPPort) (o : Protocol) : Protocol :=
  mkProtocol (bExtCommunicationError o) (bInCommunicationError o) (bControlDone o) (Machine o) (strServerName o) (nLastStatus o) (nIdleTimeSetting o) (nIntervalSetting o) (tmLastActive o) (tmHealthCheckActive o) (tmCurrentDataActive o) (tmSendDataActive o) (devMP o) v (srvControl_ o) (statusQueue o) (nCommandPort o) (nDataPort o) (nNegotialTimeOut o).
Definition set_srvControl_ (v : TCPPort) (o : Protocol) : Protocol :=
  mkProtocol (bExtCommunicationError o) (bInCommunicationError o) (bControlDone o) (Machine o) (strServerName o) (nLastStatus o) (nIdleTimeSetting o) (nIntervalSetting o) (tmLastActive o) (tmHealthCheckActive o) (tmCurrentDataActive o) (tmSendDataActive o) (devMP o) (srvData_ o) v (statusQueue o) (nCommandPort o) (nDataPort o) (nNegotialTimeOut o).
Definition set_statusQueue (v : DataPacketQueue) (o : Protocol) : Protocol :=
  mkProtocol (bExtCommunicationError o) (bInCommunicationError o) (bControlDone o) (Machine o) (strServerName o) (nLastStatus o) (nIdleTimeSetting o) (nIntervalSetting o) (tmLastActive o) (tmHealthCheckActive o) (tmCurrentDataActive o) (tmSendDataActive o) (devMP o) (srvData_ o) (srvControl_ o) v (nCommandPort o) (nDataPort o) (nNegotialTimeOut o).
Definition set_nCommandPort (v : Z) (o : Protocol) : Protocol :=
  mkProtocol (bExtCommunicationError o) (bInCommunicationError o) (bControlDone o) (Machine o) (strServerName o) (nLastStatus o) (nIdleTimeSetting o) (nIntervalSetting o) (tmLastActive o) (tmHealthCheckActive o) (tmCurrentDataActive o) (tmSendDataActive o) (devMP o) (srvData_ o) (srvControl_ o) (statusQueue o) v (nDataPort o) (nNegotialTimeOut o).
Definition set_nDataPort (v : Z) (o : Protocol) : Protocol :=
  mkProtocol (bExtCommunicationError o) (bInCommunicationError o) (bControlDone o) (Machine o) (strServerName o) (nLastStatus o) (nIdleTimeSetting o) (nIntervalSetting o) (tmLastActive o) (tmHealthCheckActive o) (tmCurrentDataActive o) (tmSendDataActive o) (devMP o) (srvData_ o) (srvControl_ o) (statusQueue o) (nCommandPort o) v (nNegotialTimeOut o).
Definition set_nNegotialTimeOut (v : Z) (o : Protocol) : Protocol :=
  mkProtocol (bExtCommunicationError o) (bInCommunicationError o) (bControlDone o) (Machine o) (strServerName o) (nLastStatus o) (nIdleTimeSetting o) (nIntervalSetting o) (tmLastActive o) (tmHealthCheckActive o) (tmCurrentDataActive o) (tmSendDataActive o) (devMP o) (srvData_ o) (srvControl_ o) (statusQueue o) (nCommandPort o) (nDataPort o) v.

(** device-agent.cpp: the objects [main_work] creates. *)
Record Agent := mkAgent {
  protocol : Protocol;
  modem : Modem;
  dataQueue : DataPacketQueue }.

Definition set_protocol (v : Protocol) (o : Agent) : Agent :=
  mkAgent v (modem o) (dataQueue o).
Definition set_modem (v : Modem) (o : Agent) : Agent :=
  mkAgent (protocol o) v (dataQueue o).
Definition set_dataQueue (v : DataPacketQueue) (o : Agent) : Agent :=
  mkAgent (protocol o) (modem o) v.

#[global] Instance TCPPort_eq_dec : EqDecision TCPPort.
Proof. solve_decision. Defined.
#[global] Instance SerialPort_eq_dec : EqDecision SerialPort.
Proof. solve_decision. Defined.
#[global] Instance Modem_eq_dec : EqDecision Modem.
Proof. solve_decision. Defined.
#[global] Instance DataPacketQueue_eq_dec : EqDecision DataPacketQueue.
Proof. solve_decision. Defined.
#[global] Instance Protocol_eq_dec : EqDecision Protocol.
Proof. solve_decision. Defined.
#[global] Instance Agent_eq_dec : EqDecision Agent.
Proof. solve_decision. Defined.

(** ** References *)

(** The TCP ports of the program: [Protocol::srvData], [Protocol::srvControl] and
    [Modem::UT_ATPort]. *)
Inductive tcp := srvData | srvControl | UT_ATPort.

(** Channels: [Channel&] is the serial port [Protocol::devMP] or a TCP port. *)
Inductive chan := Serial | Tcp (t : tcp).

#[global] Instance tcp_eq_dec : EqDecision tcp.
Proof. solve_decision. Defined.
#[global] Instance chan_eq_dec : EqDecision chan.
Proof. solve_decision. Defined.

Definition get_tcp (t : tcp) (a : Agent) : TCPPort :=
  match t with
  | srvData => srvData_ (protocol a)
  | srvControl => srvControl_ (protocol a)
  | UT_ATPort => UT_ATPort_ (modem a)
  end.

Definition set_tcp (t : tcp) (p : TCPPort) (a : Agent) : Agent :=
  match t with
  | srvData => set_protocol (set_srvData_ p (protocol a)) a
  | srvControl => set_protocol (set_srvControl_ p (protocol a)) a
  | UT_ATPort => set_modem (set_UT_ATPort_ p (modem a)) a
  end.

Definition upd_tcp (t : tcp) (f : TCPPort -> TCPPort) (a : Agent) : Agent := set_tcp t (f (get_tcp t a)) a.
Definition upd_protocol (f : Protocol -> Protocol) (a : Agent) : Agent := set_protocol (f (protocol a)) a.
Definition upd_modem (f : Modem -> Modem) (a : Agent) : Agent := set_modem (f (modem a)) a.
Definition upd_serial (f : SerialPort -> SerialPort) (a : Agent) : Agent :=
  upd_protocol (fun p => set_devMP (f (devMP p)) p) a.
Definition serial (a : Agent) : SerialPort := devMP (protocol a).

Lemma get_set_tcp t p a : get_tcp t (set_tcp t p a) = p.
Proof. by destruct t. Qed.

Lemma get_set_tcp_ne t t' p a : t <> t' -> get_tcp t (set_tcp t' p a) = get_tcp t a.
Proof. by destruct t, t'. Qed.

(** ** Constructors *)

Definition tv_zero : timeval := mkTv 0 0.

(** [TCPPort::TCPPort] and [Channel::Channel]. *)
Definition new_TCPPort : TCPPort := mkTCP 0 [] (-1) false 20000000 0 tv_zero.

(** [SerialPort::SerialPort]. *)
Definition new_SerialPort : SerialPort := mkSerial (-1) 20000 [] tv_zero.

(** [Protocol::Protocol(szServer)] at time [now]; [Machine] is left uninitialised
    until [SetMachine]. *)
Definition new_Protocol (szServer : cstring) (now : timeval) (Machine0 : byte) : Protocol :=
  mkProtocol false false false Machine0 szServer 0 20 600 now now now now
    new_SerialPort new_TCPPort new_TCPPort newQueue 50101 50001 20.

(** [Modem::Modem] with the modem address of the configuration file. *)
Definition new_Modem (modemIP : cstring) : Modem :=
  mkModem true false [] (set_tcp_nPort 9998 (set_tcp_strServerName modemIP new_TCPPort)) [] [] [] [].

(** The trivial setters of Protocol.h. *)
Definition Protocol_SetCommandPort (n : Z) : Protocol -> Protocol := set_nCommandPort n.
Definition Protocol_SetDataPort (n : Z) : Protocol -> Protocol := set_nDataPort n.
Definition Protocol_SetExtCommunicationError (b : bool) : Protocol -> Protocol := set_bExtCommunicationError b.
Definition Protocol_SetMachine (m : Z) : Protocol -> Protocol := set_Machine (u8 m).
Definition Protocol_SetIdleTimeSecond (n : Z) : Protocol -> Protocol := set_nIdleTimeSetting n.
Definition Protocol_SetIntervalSecond (n : Z) : Protocol -> Protocol := set_nIntervalSetting n.
Definition Protocol_SetControlDone (b : bool) : Protocol -> Protocol := set_bControlDone b.

End Agent.
