(* ===== verification/Channel.v ===== *)
(** * Channel: TCP ports and the serial port

    The abstract class [Channel] (Channel.h) and its two implementations,
    [TCPPort] (TCPPort.h, TCPPort.cpp) and [SerialPort] (SerialPort.h,
    SerialPort.cpp).  The virtual methods are a record of operations
    ([ChannelOps]) with one instance per class; [ops] is the dispatch on the
    object a reference names.  Log output is not modelled. *)

From S2P Require Import Prelude Packet PacketQueue Sys Agent.
Import Sys Agent.

Module Channel.

(** ** The virtual methods of [Channel] *)

Class ChannelOps (W : Type) := {
  Open : M Agent W Z;
  Read : Z -> M Agent W (list byte);       (* at most [len] bytes; [] is the 0 result *)
  Write : list byte -> M Agent W Z;
  Lock : M Agent W unit;
  Unlock : M Agent W unit;
  SetTimeOut : Z -> M Agent W unit;
  IsOpen : M Agent W bool;
  GetActiveTime : M Agent W timeval }.

Section Ports.
Context {W : Type} {E : Env Agent W}.

Abbreviation MA := (M Agent W).

(** ** TCPPort *)

Section TCP.
Context (this : tcp).

Definition tcp_get {A} (f : TCPPort -> A) : MA A := gets (fun a => f (get_tcp this a)).
Definition tcp_set (f : TCPPort -> TCPPort) : MA unit := modify (upd_tcp this f).

(** [gettimeofday(&tmLastAction, 0)]. *)
Definition tcp_touch : MA unit :=
  now <- sys sys_gettimeofday; tcp_set (set_tcp_tmLastAction now).

(** [TCPPort::Close]. *)
Definition tcp_Close : MA unit :=
  tcp_touch;;
  fd <- tcp_get socketID;
  if 0 <? fd then
    sys (sys_shutdown fd);;
    fd <- tcp_get socketID;
    sys (sys_close fd);;
    tcp_set (set_socketID (-1));;
    tcp_set (set_bConnected false)
  else mret tt.

(** [TCPPort::SetTimeOut]. *)
Definition tcp_SetTimeOut (uSecond : Z) : MA unit :=
  tcp_set (set_tcp_timeout uSecond);;
  fd <- tcp_get socketID;
  if 0 <? fd then sys (sys_set_timeouts fd uSecond) else mret tt.

(** The loop of [TCPPort::Connect] over the addresses; [true] when it was left by
    [break], [false] when [rp] ran to [NULL]. *)
Fixpoint tcp_connect_loop (addrs : list address) : MA bool :=
  match addrs with
  | [] => mret false
  | rp :: addrs =>
      fd <- tcp_get socketID;
      (if fd =? -1 then
         fd <- sys sys_socket;
         tcp_set (set_socketID fd);;
         timeout <- tcp_get tcp_timeout;
         tcp_SetTimeOut timeout
       else mret tt);;
      fd <- tcp_get socketID;
      if fd =? -1 then tcp_connect_loop addrs
      else
        e <- sys (sys_connect fd rp);
        if e =? 0 then
          tcp_set (set_bConnected true);;
          tcp_set (set_nNoRoute 0);;
          mret true
        else
          (if (e =? EHOSTUNREACH) || (e =? ENETUNREACH) then
             tcp_set (fun p => set_nNoRoute (nNoRoute p + 1) p)
           else mret tt);;
          fd <- tcp_get socketID;
          sys (sys_close fd);;
          tcp_set (set_socketID (-1));;
          tcp_connect_loop addrs
  end.

(** [TCPPort::Connect]. *)
Definition tcp_Connect : MA Z :=
  tcp_touch;;
  host <- tcp_get tcp_strServerName;
  port <- tcp_get tcp_nPort;
  result <- sys (sys_getaddrinfo host port);
  match result with
  | None => mret (-1)
  | Some addrs =>
      found <- tcp_connect_loop addrs;
      if negb found then mret (-1)
      else
        tcp_touch;;
        c <- tcp_get bConnected;
        mret (if negb c then -1 else 0)
  end.

(** [TCPPort::Open(szServer, nPort)]. *)
Definition tcp_Open_at (szServer : cstring) (nPort : Z) : MA Z :=
  tcp_set (set_tcp_strServerName szServer);;
  tcp_set (set_tcp_nPort nPort);;
  fd <- tcp_get socketID;
  (if 0 <? fd then tcp_Close else mret tt);;
  fd <- sys sys_socket;
  tcp_set (set_socketID fd);;
  if fd <? 0 then mret (-1)
  else
    timeout <- tcp_get tcp_timeout;
    tcp_SetTimeOut timeout;;
    tcp_Connect.

(** [TCPPort::Read]. *)
Definition tcp_Read (len : Z) : MA (list byte) :=
  c <- tcp_get bConnected;
  if negb c then throw exn_unconnected
  else
    fd <- tcp_get socketID;
    r <- sys (sys_recv fd len);
    match r with
    | IoErr err =>
        if (err =? EAGAIN) || (err =? EWOULDBLOCK) then mret []
        else throw (exn_errno err)
    | IoData buf =>
        (if (length buf =? 0)%nat then tcp_Close else mret tt);;
        tcp_touch;;
        mret buf
    end.

(** [TCPPort::Write]. *)
Definition tcp_Write (buf : list byte) : MA Z :=
  c <- tcp_get bConnected;
  if negb c then throw exn_unconnected
  else
    tcp_touch;;
    fd <- tcp_get socketID;
    n <- sys (sys_send fd buf);
    if n <? 0 then throw (exn_errno (- n))
    else tcp_touch;; mret n.

(** [TCPPort::waitConnect] (never called): a time-out of [select] is not told from a
    connection that succeeded. *)
Definition tcp_waitConnect : MA Z :=
  fd <- tcp_get socketID;
  retval <- sys (sys_select_write fd 20);
  if retval =? -1 then mret (-1)
  else
    fd <- tcp_get socketID;
    error <- sys (sys_so_error fd);
    mret (match error with Some 0 => 0 | _ => -1 end).

(** The inline setters of TCPPort.h: *)
Definition SetRemoteHost (szHost : cstring) : MA unit := tcp_set (set_tcp_strServerName szHost).
Definition SetRemotePort (nPort : Z) : MA unit := tcp_set (set_tcp_nPort nPort).
Definition IsUnReachable : MA bool := n <- tcp_get nNoRoute; mret (0 <? n).
Definition Bind (socket : Z) : MA unit :=
  tcp_set (set_socketID socket);; tcp_set (set_bConnected (negb (socket =? -1))).

Instance TCPPort_ops : ChannelOps W := {|
  Open := host <- tcp_get tcp_strServerName; port <- tcp_get tcp_nPort; tcp_Open_at host port;
  Read := tcp_Read;
  Write := tcp_Write;
  Lock := mret tt;
  Unlock := mret tt;
  SetTimeOut := tcp_SetTimeOut;
  IsOpen := tcp_get bConnected;
  GetActiveTime := tcp_get tcp_tmLastAction |}.
End TCP.

(** ** SerialPort *)

Definition ser_get {A} (f : SerialPort -> A) : MA A := gets (fun a => f (serial a)).
Definition ser_set (f : SerialPort -> SerialPort) : MA unit := modify (upd_serial f).

(** [SerialPort::Close]. *)
Definition ser_Close : MA unit :=
  fd <- ser_get handle;
  if 0 <? fd then
    sys (sys_tty_flush fd);;
    fd <- ser_get handle;
    sys (sys_close fd);;
    ser_set (set_handle (-1))
  else mret tt.

(** [SerialPort::SetCom]. *)
Definition ser_SetCom : MA unit :=
  fd <- ser_get handle;
  if fd <? 0 then mret tt else sys (sys_tty_setup fd).

(** [SerialPort::Open(szDev)]. *)
Definition ser_Open_dev (szDev : cstring) : MA Z :=
  ser_Close;;
  ser_set (set_strDevName szDev);;
  fd <- sys (sys_open_tty szDev);
  ser_set (set_handle fd);;
  if fd <? 0 then mret (-1)
  else ser_SetCom;; mret 0.

(** [if (handle == -1) Open(strDevName.c_str());] *)
Definition ser_reopen : MA unit :=
  fd <- ser_get handle;
  if fd =? -1 then
    dev <- ser_get strDevName;
    ser_Open_dev dev;;
    mret tt
  else mret tt.

(** The loop of [SerialPort::Read]: with [try_again = 2] it reads at most twice,
    sleeping [timeout] microseconds after each empty read. *)
Fixpoint ser_read_loop (try_again : nat) (len : Z) : MA (list byte) :=
  match try_again with
  | O => mret []
  | S try_again =>
      fd <- ser_get handle;
      r <- sys (sys_read fd len);
      match r with
      | IoData ((_ :: _) as buf) => mret buf
      | IoErr _ => ser_Close;; mret []
      | IoData [] =>
          us <- ser_get ser_timeout;
          sys (sys_usleep us);;
          ser_read_loop try_again len
      end
  end.

(** [SerialPort::Read]. *)
Definition ser_Read (len : Z) : MA (list byte) :=
  if len =? 0 then mret []
  else ser_reopen;; ser_read_loop 2 len.

(** [SerialPort::Write]. *)
Definition ser_Write (buf : list byte) : MA Z :=
  if (length buf =? 0)%nat then mret 0
  else
    ser_reopen;;
    fd <- ser_get handle;
    r <- sys (sys_write fd buf);
    fd <- ser_get handle;
    sys (sys_tcdrain fd);;
    match r with
    | IoData ((_ :: _) as w) => mret (Z.of_nat (length w))
    | IoData [] => mret 0
    | IoErr _ => ser_Close;; mret 0
    end.

Instance SerialPort_ops : ChannelOps W := {|
  Open := dev <- ser_get strDevName; ser_Open_dev dev;
  Read := ser_Read;
  Write := ser_Write;
  Lock := fd <- ser_get handle; sys (sys_flock fd true);
  Unlock := fd <- ser_get handle; sys (sys_flock fd false);
  SetTimeOut := fun usec => ser_set (set_ser_timeout usec);
  IsOpen := fd <- ser_get handle; mret (fd =? -1);
  GetActiveTime := ser_get ser_tmLastAction |}.

(** Virtual dispatch. *)
Definition ops (c : chan) : ChannelOps W :=
  match c with Serial => SerialPort_ops | Tcp t => TCPPort_ops t end.
End Ports.

(** ** What the theorems assume of the environment *)

(** The other threads leave TCP port [t] alone: in the program each TCP port is
    driven by one thread. *)
Definition quiet {W} (E : Env Agent W) (t : tcp) : Prop :=
  forall T (c : syscall T) a w r a' w',
    env_step c a w = Some (r, a', w') -> get_tcp t a' = get_tcp t a.

(** [socket] returns -1 or a descriptor above the standard input's. *)
Definition socket_fresh {W} (E : Env Agent W) : Prop :=
  forall a w r a' w', env_step sys_socket a w = Some (r, a', w') -> r = -1 \/ 0 < r.

(** [recv] with [len] delivers at most [len] bytes. *)
Definition recv_bounded {W} (E : Env Agent W) : Prop :=
  forall fd len a w l a' w',
    env_step (sys_recv fd len) a w = Some (IoData l, a', w') -> (length l <= Z.to_nat len)%nat.

(** ** Proof rules for code on one TCP port *)

(** Connection state of a port; the other fields do not matter to it. *)
Definition conn (p : TCPPort) : Z * bool := (socketID p, bConnected p).

Definition tcp_wf (p : TCPPort) : Prop := bConnected p = true -> 0 < socketID p.

(** Express the port of the last state through the port of the first one. *)
Ltac port_simpl :=
  repeat match goal with
  | H : get_tcp _ (agent ?s) = _ |- context [get_tcp _ (agent ?s)] => rewrite H
  | H : conn (get_tcp _ (agent ?s)) = _ |- context [conn (get_tcp _ (agent ?s))] => rewrite H
  end.

(** The state of a TCP port between calls. *)
Definition port_ok (p : TCPPort) : Prop := (socketID p = -1 \/ 0 < socketID p) /\ tcp_wf p.

Lemma port_ok_conn p p' : conn p' = conn p -> port_ok p -> port_ok p'.
Proof. intros [= Hi Hb]. unfold port_ok, tcp_wf. by rewrite Hi, Hb. Qed.

Lemma port_ok_disconnected p :
  bConnected p = false -> socketID p = -1 \/ 0 < socketID p -> port_ok p.
Proof. intros Hb Hfd. split; [done|]. unfold tcp_wf. by rewrite Hb. Qed.

Section TcpRules.
Context {W : Type} {E : Env Agent W} `{!Returns E} (this : tcp) (Hq : quiet E this).

Abbreviation port s := (get_tcp this (agent s)).

Lemma wp_tcp_get {A} (f : TCPPort -> A) Q (s : st Agent W) :
  Q (Ok (f (port s))) s -> wp (tcp_get this f) Q s.
Proof. done. Qed.

Lemma wp_tcp_set f Q (s : st Agent W) :
  (forall s', port s' = f (port s) -> trace s' = trace s -> Q (Ok tt) s') -> wp (tcp_set this f) Q s.
Proof. intros H. apply H; [|done]. simpl. unfold upd_tcp. apply get_set_tcp. Qed.

Lemma wp_sys_tcp {T} (c : syscall T) Q (s : st Agent W) :
  (forall r s', port s' = port s -> trace s' = trace s ++ [Ev c r] ->
     (exists w', env_step c (agent s) (world s) = Some (r, agent s', w')) -> Q (Ok r) s') ->
  wp (sys c) Q s.
Proof.
  intros H. apply wp_sys. intros r a w Hs. apply H; simpl; eauto.
Qed.

Ltac tcp_step :=
  match goal with
  | |- wp (bind _ _) _ _ => apply wp_bind
  | |- wp (tcp_get _ _) _ _ => apply wp_tcp_get
  | |- wp (tcp_set _ _) _ _ => apply wp_tcp_set; intros
  | |- wp (sys _) _ _ =>
      apply wp_sys_tcp; intros; repeat match goal with u : unit |- _ => destruct u end
  | |- wp (mret _) _ _ => apply wp_mret
  | |- wp (throw _) _ _ => red; cbn [throw fst snd]
  | |- wp (if ?b then _ else _) _ _ => let E := fresh "E" in destruct b eqn:E
  | |- wp (match ?x with _ => _ end) _ _ => let E := fresh "E" in destruct x eqn:E
  end; cbn beta iota.

Lemma wp_tcp_touch Q (s : st Agent W) :
  (forall s', conn (port s') = conn (port s) -> Q (Ok tt) s') -> wp (tcp_touch this) Q s.
Proof.
  intros H. unfold tcp_touch. repeat tcp_step. apply H. port_simpl. done.
Qed.

Lemma wp_tcp_Close Q (s : st Agent W) :
  tcp_wf (port s) ->
  (forall s', bConnected (port s') = false -> (socketID (port s') <= 0) ->
     Q (Ok tt) s') -> wp (tcp_Close this) Q s.
Proof.
  intros Hwf H. unfold tcp_Close. tcp_step. apply wp_tcp_touch. intros s1 H1. repeat tcp_step.
  - apply H; port_simpl; done.
  - injection H1 as Hs Hc. to_prop. apply H; [|lia].
    destruct (bConnected (port s1)); [|done]. symmetry in Hc. apply Hwf in Hc. lia.
Qed.

Lemma wp_tcp_SetTimeOut us Q (s : st Agent W) :
  (forall s', conn (port s') = conn (port s) -> Q (Ok tt) s') -> wp (tcp_SetTimeOut this us) Q s.
Proof. intros H. unfold tcp_SetTimeOut. repeat tcp_step; apply H; port_simpl; done. Qed.

Context (Hsock : socket_fresh E).

(** From a disconnected port the connection loop ends connected to a live
    descriptor exactly when it found an address. *)
Lemma wp_tcp_connect_loop addrs Q (s : st Agent W) :
  bConnected (port s) = false -> port_ok (port s) ->
  (forall found s', bConnected (port s') = found -> port_ok (port s') -> Q (Ok found) s') ->
  wp (tcp_connect_loop this addrs) Q s.
Proof.
  revert s. induction addrs as [|rp addrs IH]; intros s Hc Hfd H; cbn [tcp_connect_loop].
  { repeat tcp_step. by apply H. }
  tcp_step. tcp_step. tcp_step.
  assert (forall s1 : st Agent W, bConnected (port s1) = false -> port_ok (port s1) ->
    wp (fd <- tcp_get this socketID;
        if fd =? -1 then tcp_connect_loop this addrs
        else e <- sys (sys_connect fd rp);
          if e =? 0 then
            tcp_set this (set_bConnected true);; tcp_set this (set_nNoRoute 0);; mret true
          else
            (if (e =? EHOSTUNREACH) || (e =? ENETUNREACH) then
               tcp_set this (fun p => set_nNoRoute (nNoRoute p + 1) p) else mret tt);;
            fd <- tcp_get this socketID;
            sys (sys_close fd);; tcp_set this (set_socketID (-1));; tcp_connect_loop this addrs) Q s1)
    as Hrest.
  { intros s1 Hc1 [Hfd1 _]. do 3 tcp_step; [apply IH; [done|by apply port_ok_disconnected|done]|]. to_prop.
    repeat tcp_step;
      try (apply IH; [|apply port_ok_disconnected; [|left]|done]; port_simpl; simpl; done).
    apply H; port_simpl; simpl; [done|]. split; simpl; [auto|intros _; simpl; lia]. }
  destruct (socketID (port s) =? -1) eqn:E1.
  - do 3 tcp_step. destruct H2 as [w' Hs]. apply Hsock in Hs as Hr. repeat tcp_step.
    apply wp_tcp_SetTimeOut. intros s3 Hcn. cbn iota. injection Hcn as Hi Hb.
    apply Hrest; [rewrite Hb; port_simpl; simpl; done|].
    apply port_ok_disconnected; [rewrite Hb|rewrite Hi]; port_simpl; simpl; done.
  - tcp_step. by apply Hrest.
Qed.

(** What [Open] and [Connect] tell their caller is the state of the port. *)
Definition reports (r : Z) (p : TCPPort) : Prop :=
  port_ok p /\ (r = 0 /\ bConnected p = true \/ r = -1 /\ bConnected p = false).

Lemma wp_tcp_Connect Q (s : st Agent W) :
  bConnected (port s) = false -> port_ok (port s) ->
  (forall r s', reports r (port s') -> Q (Ok r) s') ->
  wp (tcp_Connect this) Q s.
Proof.
  intros Hc Hok H. unfold tcp_Connect. tcp_step. apply wp_tcp_touch. intros s1 H1.
  pose proof (port_ok_conn _ _ H1 Hok) as Hok1. injection H1 as Hi1 Hc1. repeat tcp_step.
  - apply wp_tcp_connect_loop; [port_simpl; congruence|by port_simpl|].
    intros found s3 Hcn3 Hok3. cbn iota. tcp_step; [tcp_step; apply H|].
    + split; [done|]. right. destruct found; done.
    + tcp_step. apply wp_tcp_touch. intros s4 Hcn4.
      pose proof (port_ok_conn _ _ Hcn4 Hok3) as Hok4. injection Hcn4 as Hi4 Hc4.
      repeat tcp_step. destruct found; [|done]. rewrite Hc4, Hcn3. apply H.
      split; [done|]. left. by rewrite Hc4.
  - apply H. split; [by port_simpl|]. right. port_simpl. by rewrite Hc1.
Qed.

Lemma wp_tcp_Close_ok Q (s : st Agent W) :
  port_ok (port s) ->
  (forall s', conn (port s') = (-1, false) -> Q (Ok tt) s') -> wp (tcp_Close this) Q s.
Proof.
  intros [Hfd Hwf] H. unfold tcp_Close. tcp_step. apply wp_tcp_touch. intros s1 H1.
  injection H1 as Hi Hb. repeat tcp_step; apply H; unfold conn; port_simpl; simpl; [done|].
  to_prop. rewrite Hi, Hb in *. unfold tcp_wf in Hwf. f_equal; [lia|].
  destruct (bConnected (port s)); [specialize (Hwf eq_refl); lia|done].
Qed.

Lemma wp_tcp_Open_at host n Q (s : st Agent W) :
  port_ok (port s) ->
  (forall r s', reports r (port s') -> Q (Ok r) s') ->
  wp (tcp_Open_at this host n) Q s.
Proof.
  intros Hok H. unfold tcp_Open_at. do 4 tcp_step. do 2 tcp_step.
  assert (port_ok (port s'0)) as Hok0 by (eapply port_ok_conn; [|exact Hok]; port_simpl; done).
  tcp_step.
  assert (forall s1 : st Agent W, bConnected (port s1) = false -> port_ok (port s1) ->
    wp (fd <- sys sys_socket; tcp_set this (set_socketID fd);;
        if fd <? 0 then mret (-1)
        else timeout <- tcp_get this tcp_timeout; tcp_SetTimeOut this timeout;; tcp_Connect this) Q s1)
    as Hrest.
  { intros s1 Hc1 Hok1. tcp_step. tcp_step. destruct H6 as [w' Hs]. apply Hsock in Hs as Hr.
    repeat tcp_step; to_prop.
    - apply H. split; [apply port_ok_disconnected|right]; port_simpl; simpl; done || lia.
    - apply wp_tcp_SetTimeOut. intros s3 Hcn. cbn iota. injection Hcn as Hi Hb.
      apply wp_tcp_Connect; [rewrite Hb; by port_simpl| |done].
      apply port_ok_disconnected; [rewrite Hb|rewrite Hi]; port_simpl; simpl; done. }
  destruct (0 <? socketID (port s'0)) eqn:E0.
  - apply wp_tcp_Close_ok; [done|]. intros s1 [= Hi Hb]. cbn iota.
    apply Hrest; [done|]. apply port_ok_disconnected; auto.
  - tcp_step. apply Hrest; [|done]. to_prop. destruct Hok0 as [_ Hwf]. unfold tcp_wf in Hwf.
    destruct (bConnected (port s'0)); [specialize (Hwf eq_refl); lia|done].
Qed.

(** How a [Read] on a TCP port ends, by what [recv] answers. *)
Definition read_post (len : Z) (s : st Agent W) (o : outcome (list byte)) (s' : st Agent W) : Prop :=
  port_ok (port s') /\
  if bConnected (port s) then
    let call := sys_recv (socketID (port s)) len in
    exists r a w, env_step call (agent s) (world s) = Some (r, a, w) /\
      match r with
      | IoData [] => o = Ok [] /\ conn (port s') = (-1, false)
      | IoData l => o = Ok l /\ conn (port s') = conn (port s) /\ (length l <= Z.to_nat len)%nat
      | IoErr e =>
          o = (if decide (e = EAGAIN \/ e = EWOULDBLOCK) then Ok [] else Throw (exn_errno e)) /\
          s' = mkSt a w (trace s ++ [Ev call r]) /\ conn (port s') = conn (port s)
      end
  else o = Throw exn_unconnected /\ s' = s.

Lemma wp_tcp_Read len (s : st Agent W) :
  recv_bounded E -> port_ok (port s) -> wp (tcp_Read this len) (read_post len s) s.
Proof.
  intros Hrb Hok. unfold tcp_Read. do 3 tcp_step; to_prop.
  { split; [done|]. by rewrite E0. }
  do 2 tcp_step. tcp_step. apply wp_sys. intros r a w Hs.
  assert (Hp : get_tcp this a = port s) by (by eapply Hq).
  set (s1 := mkSt a w _). assert (Hp1 : port s1 = port s) by exact Hp. destruct r as [l|e].
  - apply wp_bind. destruct (length l =? 0)%nat eqn:E2.
    + apply Nat.eqb_eq in E2. destruct l; [|done].
      apply wp_tcp_Close_ok; [by rewrite Hp1|]. intros s2 Hc2. tcp_step.
      apply wp_tcp_touch. intros s3 Hc3. cbn iota. tcp_step. rewrite Hc2 in Hc3. split.
      * injection Hc3 as Hi Hb. apply port_ok_disconnected; auto.
      * rewrite E0. by exists (IoData []), a, w.
    + do 2 tcp_step. apply wp_tcp_touch. intros s3 Hc3. cbn iota. tcp_step. rewrite Hp1 in Hc3.
      split; [by eapply port_ok_conn|]. rewrite E0. exists (IoData l), a, w. split; [done|].
      apply Nat.eqb_neq in E2. apply Hrb in Hs. by destruct l.
  - assert (Hd : (e =? EAGAIN) || (e =? EWOULDBLOCK) = bool_decide (e = EAGAIN \/ e = EWOULDBLOCK)).
    { apply eq_true_iff_eq. rewrite orb_true_iff, !Z.eqb_eq. by rewrite bool_decide_eq_true. }
    rewrite Hd. case_bool_decide as He; tcp_step; (split; [by rewrite Hp1|]); rewrite E0;
      exists (IoErr e), a, w; (split; [done|]); split_and!;
      by rewrite ?decide_True, ?decide_False, ?Hp1 by done.
Qed.

Lemma read_post_ends len s o s' : read_post len s o s' -> o <> Undef /\ o <> NoFuel.
Proof.
  intros [_ H]. destruct (bConnected (port s)); [|by destruct H as [-> _]].
  destruct H as ([[|b l]|e] & a & w & _ & -> & _); try done. by case_decide.
Qed.

Lemma wp_tcp_Write buf (s : st Agent W) :
  port_ok (port s) ->
  wp (tcp_Write this buf) (fun o s' => port_ok (port s') /\ conn (port s') = conn (port s) /\
    match o with
    | Ok n => 0 <= n
    | Throw e => bUnConnected e = negb (bConnected (port s))
    | _ => False
    end) s.
Proof.
  intros Hok. unfold tcp_Write. do 3 tcp_step.
  - by split_and!.
  - to_prop. tcp_step. apply wp_tcp_touch. intros s1 Hc1. cbn iota. repeat tcp_step.
    + split_and!; [eapply port_ok_conn; [|exact Hok]| |]; port_simpl; done.
    + apply wp_tcp_touch. intros s2 Hc2. cbn iota. tcp_step. to_prop.
      split_and!; [eapply port_ok_conn; [|exact Hok]| |done]; rewrite Hc2; by port_simpl.
Qed.
End TcpRules.

(** ** Sequences of calls on one TCP port *)

Inductive tcp_op :=
| OpOpen (host : cstring) (n : Z)
| OpClose
| OpRead (len : Z)
| OpWrite (buf : list byte)
| OpSetTimeOut (us : Z)
| OpReconnect (n us : Z).            (* Close, then the retry body of the negotiations *)

Section Calls.
Context {W : Type} {E : Env Agent W} `{!Returns E} (this : tcp).

Definition run_op (o : tcp_op) : M Agent W unit :=
  match o with
  | OpOpen host n => tcp_Open_at this host n;; mret tt
  | OpClose => tcp_Close this
  | OpRead len => tcp_Read this len;; mret tt
  | OpWrite buf => tcp_Write this buf;; mret tt
  | OpSetTimeOut us => tcp_SetTimeOut this us
  | OpReconnect n us =>
      tcp_Close this;; SetRemotePort this n;; tcp_SetTimeOut this us;; tcp_Connect this;; mret tt
  end.

(** The callers catch every [ChannelException]. *)
Fixpoint run_ops (os : list tcp_op) : M Agent W unit :=
  match os with
  | [] => mret tt
  | o :: os => try_catch (run_op o) (fun _ => mret tt);; run_ops os
  end.

Context (Hq : quiet E this) (Hsock : socket_fresh E) (Hrb : recv_bounded E).

Lemma run_op_ok o (s : st Agent W) :
  port_ok (get_tcp this (agent s)) ->
  wp (run_op o) (fun r s' => port_ok (get_tcp this (agent s')) /\ r <> Undef /\ r <> NoFuel) s.
Proof.
  intros Hok. destruct o; cbn [run_op].
  - apply wp_bind, wp_tcp_Open_at; auto. intros r s' [Hok' _]. by split_and!.
  - apply wp_tcp_Close_ok; auto. intros s' [= Hi Hb]. split_and!; [|done..].
    apply port_ok_disconnected; auto.
  - apply wp_bind. eapply wp_mono; [|by apply wp_tcp_Read].
    intros o s' Hp. destruct (read_post_ends _ _ _ _ _ Hp). destruct Hp as [Hok' _]. by destruct o.
  - apply wp_bind. eapply wp_mono; [|by apply wp_tcp_Write].
    intros [] s' (Hok' & _ & Hp); try done; by split_and!.
  - apply wp_tcp_SetTimeOut; auto. intros s' Hc. split_and!; [|done..]. by eapply port_ok_conn.
  - apply wp_bind, wp_tcp_Close_ok; auto. intros s1 [= Hi1 Hb1].
    apply wp_bind, wp_tcp_set. intros s2 H2 _.
    apply wp_bind, wp_tcp_SetTimeOut; auto. intros s3 [= Hi3 Hb3].
    apply wp_bind, wp_tcp_Connect; auto.
    + rewrite Hb3, H2. done.
    + apply port_ok_disconnected; [rewrite Hb3|rewrite Hi3]; rewrite H2; auto.
    + intros r s4 [Hok4 _]. by split_and!.
Qed.
End Calls.

(** ** Properties *)


(** A fresh agent, for the witnesses. *)
Definition fresh_agent : Agent :=
  mkAgent (new_Protocol [49; 48; 46; 48; 46; 48; 46; 49] tv_zero 1) (new_Modem []) PacketQueue.newQueue.

Lemma script_quiet t : quiet (script_env (S := Agent)) t.
Proof. intros T c a w r a' w' H. apply script_env_quiet in H. by subst. Qed.

Lemma script_socket_fresh : socket_fresh (script_env (S := Agent)).
Proof. intros a [? ? ? ? ?] r a' w' H. unfold env_step, script_env in H. simpl in H. simplify_eq. lia. Qed.

Lemma script_recv_bounded : recv_bounded (script_env (S := Agent)).
Proof.
  intros fd len a [? ? rs ? ?] l a' w' H. unfold env_step, script_env, script_answer in H.
  destruct rs as [|[k|e] rs]; simplify_eq. rewrite length_take. lia.
Qed.

Lemma fresh_port_ok t : port_ok (get_tcp t fresh_agent).
Proof. apply port_ok_disconnected; destruct t; simpl; auto. Qed.


(** [TCPPort::Open] tells the truth: it returns 0 exactly when the port is left
    connected, and -1 with the port disconnected in every failure case (no
    socket, no address, every address refused). *)
Theorem tcp_open_reports_connection {W} (E : Env Agent W) `{!Returns E} this host n s :
  quiet E this -> socket_fresh E -> port_ok (get_tcp this (agent s)) ->
  exists r s', tcp_Open_at this host n s = (Ok r, s') /\ reports r (get_tcp this (agent s')).
Proof.
  intros Hq Hsock Hok.
  assert (wp (tcp_Open_at this host n) (fun o s' => exists r, o = Ok r /\ reports r (get_tcp this (agent s'))) s)
    as H by (apply wp_tcp_Open_at; eauto).
  unfold wp in H. destruct (tcp_Open_at this host n s) as [o s'] eqn:Eo. simpl in H.
  destruct H as (r & -> & Hr). eauto.
Qed.

Lemma tcp_open_reports_connection_witness :
  exists r s', tcp_Open_at srvData [49] 50001
      (mkSt fresh_agent (mkScript 0 [111] [] [] None) []) = (Ok r, s') /\
    reports r (get_tcp srvData (agent s')).
Proof.
  apply (tcp_open_reports_connection script_env).
  - apply script_quiet.
  - apply script_socket_fresh.
  - apply fresh_port_ok.
Defined.

(** C23. [TCPPort::Read] does with the answer of [recv] on the port's descriptor what
    each case calls for: bytes are returned as they came, at most [len] of them, with
    the connection as before; end of stream returns nothing and closes the port; a
    time-out ([EAGAIN]) returns nothing and changes nothing; any other error is thrown
    with its [errno] and changes nothing.  On an unconnected port nothing is called and
    the exception says so.  It is assumed that the system calls return, that no other
    thread touches the port, that [recv] delivers no more than it was asked for, and
    that the port was consistent (C22). *)
Theorem tcp_read_outcomes {W} (E : Env Agent W) `{!Returns E} this len s :
  quiet E this -> recv_bounded E -> port_ok (get_tcp this (agent s)) ->
  read_post this len s (fst (tcp_Read this len s)) (snd (tcp_Read this len s)).
Proof. intros Hq Hrb Hok. by apply wp_tcp_Read. Qed.

(** A connected port whose peer has sent two bytes and closes. *)
Definition connected_agent : Agent :=
  upd_tcp srvControl (fun p => set_bConnected true (set_socketID 5 p)) fresh_agent.

Lemma tcp_read_outcomes_witness :
  let s := mkSt connected_agent (mkScript 0 [] [IoData [6; 1]; IoData []; IoErr 104] [] None) [] in
  let s1 := snd (tcp_Read srvControl 9 s) in
  fst (tcp_Read srvControl 9 s) = Ok [6; 1] /\
  read_post srvControl 9 s (fst (tcp_Read srvControl 9 s)) s1 /\
  conn (get_tcp srvControl (agent (snd (tcp_Read srvControl 9 s1)))) = (-1, false) /\
  read_post srvControl 9 s1 (fst (tcp_Read srvControl 9 s1)) (snd (tcp_Read srvControl 9 s1)).
Proof.
  intros s s1. split; [reflexivity|]. split; [|split; [reflexivity|]];
    apply (tcp_read_outcomes script_env); try apply script_quiet; try apply script_recv_bounded;
    (split; [right; reflexivity|intros _; reflexivity]).
Defined.

(** [SerialPort::IsOpen] is inverted: it answers [true] exactly when there is no
    open descriptor. *)
Theorem serial_IsOpen_inverted {W} (E : Env Agent W) (s : st Agent W) :
  fst (@IsOpen W (ops Serial) s) = Ok true <-> handle (serial (agent s)) = -1.
Proof.
  simpl. unfold bind, ser_get, gets, mret. simpl. split.
  - intros [= H]. by to_prop.
  - intros ->. done.
Qed.

End Channel.
