(* ===== verification/Receive.v ===== *)
(** * Receive: frames over a channel

    [Packet::SendTo], [Packet::ReceiveFrameFrom] and [Packet::ReceiveAckFrom]
    (Packet.cpp), against the virtual interface of [Channel].  The packet is an
    out-parameter that keeps what was received when [Read] throws, so the receive
    functions answer with the new [strCache] and the exception, if any. *)

From S2P Require Import Prelude CRC16 Packet PacketQueue Sys Agent Channel.
Import Packet Sys Agent Channel.

Module Receive.

(** The salvage loop at the end of [ReceiveFrameFrom]:
    [while (!strCache.empty()) { slipToNextStartToken(); if (isFrameCRCOK()) return; }].
    Each turn shortens the cache, so [length] turns are enough ([salvage_fuel]). *)
Fixpoint salvage_loop (sc : bool) (fuel : nat) (p : packet) : packet :=
  match fuel, p with
  | O, _ | _, [] => p
  | S fuel, _ =>
      let p := slipToNextStartToken p in
      if isFrameCRCOK sc p then p else salvage_loop sc fuel p
  end.

Definition salvage (sc : bool) (p : packet) : packet := salvage_loop sc (length p) p.

(** ** What a byte stream holds

    The receive functions as functions of the bytes the channel delivers: the
    rest of the stream is what is left unread. *)

(** The inner loop of [ReceiveFrameFrom] on a stream. *)
Fixpoint body_spec (sc : bool) (p : packet) (bs : list byte) : (packet * list byte) + packet :=
  match bs with
  | [] => inr p
  | b :: bs =>
      let p := p ++ [b] in
      let '(ok, p) := if b =? EOT then isValidFrame sc p else (false, p) in
      if ok : bool then inl (p, bs) else body_spec sc p bs
  end.

(** The whole function on a stream that then runs dry: the packet and the unread rest. *)
Definition frame_spec (sc : bool) (bs : list byte) : packet * list byte :=
  match find_pos (fun b => b =? SOH) bs with
  | None => ([], [])
  | Some k =>
      match body_spec sc [] (drop k bs) with
      | inl r => r
      | inr p => (salvage sc p, [])
      end
  end.

Section Receive.
Context {W : Type} (sc : bool) (port : ChannelOps W).

Abbreviation MA := (M Agent W).

(** [Packet::SendTo]; the number of bytes written is ignored. *)
Definition SendTo (p : packet) : MA unit := Write p;; mret tt.

(** [n = port.Read(&buff, 1)]: the byte when [n] is not 0, or the exception. *)
Definition Read1 : MA (ChannelException + option byte) :=
  r <- attempt (Read 1);
  mret (match r with inl e => inl e | inr l => inr (head l) end).

(** [while (n && buff is not a start symbol) n = port.Read(&buff, 1);] *)
Fixpoint scan_start (start : byte -> bool) (fuel : nat) (r : option byte)
    : MA (ChannelException + option byte) :=
  match r with
  | None => mret (inr None)
  | Some b =>
      if start b then mret (inr (Some b))
      else
        match fuel with
        | O => no_fuel
        | S fuel =>
            r <- Read1;
            match r with
            | inl e => mret (inl e)
            | inr r => scan_start start fuel r
            end
        end
  end.

(** The inner loop of [ReceiveFrameFrom]: [inl] when the function returns (or
    throws) there, [inr] with the cache when the data ends. *)
Fixpoint frame_body (fuel : nat) (p : packet) (b : byte)
    : MA ((option ChannelException * packet) + packet) :=
  let p := p ++ [b] in
  let '(ok, p) := if b =? EOT then isValidFrame sc p else (false, p) in
  if ok : bool then mret (inl (None, p))
  else
    match fuel with
    | O => no_fuel
    | S fuel =>
        r <- Read1;
        match r with
        | inl e => mret (inl (Some e, p))
        | inr None => mret (inr p)
        | inr (Some b) => frame_body fuel p b
        end
    end.

(** [Packet::ReceiveFrameFrom]. *)
Definition ReceiveFrameFrom (fuel : nat) : MA (option ChannelException * packet) :=
  r <- Read1;
  match r with
  | inl e => mret (Some e, [])
  | inr r =>
      r <- scan_start (fun b => b =? SOH) fuel r;
      match r with
      | inl e => mret (Some e, [])
      | inr None => mret (None, [])
      | inr (Some b) =>
          r <- frame_body fuel [] b;
          match r with
          | inl res => mret res
          | inr p => mret (None, salvage sc p)
          end
      end
  end.

(** The inner loop of [ReceiveAckFrom]: append until nothing is read. *)
Fixpoint ack_body (fuel : nat) (p : packet) (b : byte) : MA (option ChannelException * packet) :=
  let p := p ++ [b] in
  match fuel with
  | O => no_fuel
  | S fuel =>
      r <- Read1;
      match r with
      | inl e => mret (Some e, p)
      | inr None => mret (None, p)
      | inr (Some b) => ack_body fuel p b
      end
  end.

(** [Packet::ReceiveAckFrom]. *)
Definition ReceiveAckFrom (fuel : nat) : MA (option ChannelException * packet) :=
  r <- Read1;
  match r with
  | inl e => mret (Some e, [])
  | inr None => mret (None, [])
  | inr r =>
      SetTimeOut 10000000;;
      r <- scan_start (fun b => (b =? ACK) || (b =? NAK)) fuel r;
      match r with
      | inl e => mret (Some e, [])
      | inr None => mret (None, [])
      | inr (Some b) => ack_body fuel [] b
      end
  end.

(** ** Channels as byte streams *)

(** [feeds s bs s']: from [s], successive one-byte reads deliver [bs] and end in [s']. *)
Inductive feeds : st Agent W -> list byte -> st Agent W -> Prop :=
| feeds_nil s : feeds s [] s
| feeds_cons s s1 s2 b bs :
    Read1 s = (Ok (inr (Some b)), s1) -> feeds s1 bs s2 -> feeds s (b :: bs) s2.

(** [ends s e s']: the next read delivers nothing ([e = None]) or throws. *)
Definition ended (e : option ChannelException) : ChannelException + option byte :=
  match e with None => inr None | Some e => inl e end.
Definition ends (s : st Agent W) (e : option ChannelException) (s' : st Agent W) : Prop :=
  Read1 s = (Ok (ended e), s').

Lemma feeds_app s s1 s2 a b : feeds s a s1 -> feeds s1 b s2 -> feeds s (a ++ b) s2.
Proof. induction 1; simpl; eauto using feeds_cons. Qed.

Lemma feeds_app_inv s s2 a b : feeds s (a ++ b) s2 -> exists s1, feeds s a s1 /\ feeds s1 b s2.
Proof.
  revert s. induction a as [|x a IH]; intros s H; [eauto using feeds_nil|].
  inversion H as [|? s1 ? ? ? Hr Hf]; subst. apply IH in Hf as (s3 & Ha & Hb).
  eauto using feeds_cons.
Qed.

(** ** The loops follow the stream *)

Lemma bind_ok {A B} (m : MA A) (f : A -> MA B) (s s' : st Agent W) a :
  m s = (Ok a, s') -> bind m f s = f a s'.
Proof. intros H. unfold bind. by rewrite H. Qed.

Lemma scan_start_feeds start fuel s b bs s' :
  feeds s bs s' -> (length bs <= fuel)%nat ->
  match find_pos start (b :: bs) with
  | Some k => exists x s1, drop k (b :: bs) = x :: drop k bs /\ feeds s1 (drop k bs) s' /\
      scan_start start fuel (Some b) s = (Ok (inr (Some x)), s1)
  | None => True
  end.
Proof.
  intros Hf. revert b fuel. induction Hf as [s|s s1 s2 c bs Hr Hf IH]; intros b fuel Hl.
  - simpl. destruct (start b) eqn:Eb; [|done]. exists b, s. split_and!; [done|constructor|].
    destruct fuel; simpl; by rewrite Eb.
  - cbn [find_pos]. destruct (start b) eqn:Eb.
    + exists b, s. split_and!; [done|by econstructor|]. destruct fuel; simpl; by rewrite Eb.
    + simpl in Hl. destruct fuel as [|fuel]; [lia|].
      specialize (IH c fuel ltac:(lia)). cbn [find_pos] in IH |- *.
      destruct (if start c then Some 0%nat else S <$> find_pos start bs) as [k|]; [|done].
      destruct IH as (x & s3 & Hd & Hf3 & Hs). simpl. exists x, s3.
      split_and!; [done|done|]. simpl. rewrite Eb. by rewrite (bind_ok _ _ _ _ _ Hr).
Qed.

(** Nothing but noise: the scan ends with whatever ends the stream. *)
Lemma scan_start_ends start fuel s b bs s1 e s2 :
  feeds s bs s1 -> ends s1 e s2 -> (length bs < fuel)%nat -> find_pos start (b :: bs) = None ->
  scan_start start fuel (Some b) s = (Ok (ended e), s2).
Proof.
  intros Hf He. revert b fuel. induction Hf as [s|s s3 s1 c bs Hr Hf IH]; intros b fuel Hl Hn;
    cbn [find_pos] in Hn; destruct (start b) eqn:Eb; try done;
    destruct fuel as [|fuel]; simpl in Hl; try lia; simpl; rewrite Eb.
  - rewrite (bind_ok _ _ _ _ _ He). destruct e; simpl; [done|]. by destruct fuel.
  - rewrite (bind_ok _ _ _ _ _ Hr). apply IH; [done|lia|].
    cbn [find_pos] in *. by destruct (if start c then _ else _).
Qed.

Lemma frame_body_feeds fuel p s b bs s1 q rest :
  feeds s bs s1 -> body_spec sc p (b :: bs) = inl (q, rest) -> (length bs <= fuel)%nat ->
  exists s2, frame_body fuel p b s = (Ok (inl (None, q)), s2) /\ feeds s2 rest s1.
Proof.
  intros Hf. revert p b fuel. induction Hf as [s|s s3 s1 c bs Hr Hf IH]; intros p b fuel Hb Hl;
    cbn [body_spec] in Hb; destruct fuel as [|fuel]; simpl in Hl; try lia; cbn [frame_body];
    destruct (if b =? EOT then _ else _) as [[] p'] eqn:Ev; simplify_eq.
  - exists s. split; [done|constructor].
  - exists s. split; [done|constructor].
  - exists s. split; [done|by econstructor].
  - rewrite (bind_ok _ _ _ _ _ Hr). apply IH; [done|lia].
Qed.

Lemma frame_body_ends fuel p s b bs s1 e s2 q :
  feeds s bs s1 -> ends s1 e s2 -> body_spec sc p (b :: bs) = inr q -> (length bs < fuel)%nat ->
  frame_body fuel p b s =
    (Ok (match e with None => inr q | Some e => inl (Some e, q) end), s2).
Proof.
  intros Hf He. revert p b fuel. induction Hf as [s|s s3 s1 c bs Hr Hf IH]; intros p b fuel Hb Hl;
    cbn [body_spec] in Hb; destruct fuel as [|fuel]; simpl in Hl; try lia; cbn [frame_body];
    destruct (if b =? EOT then _ else _) as [[] p'] eqn:Ev; simplify_eq.
  - rewrite (bind_ok _ _ _ _ _ He). by destruct e.
  - rewrite (bind_ok _ _ _ _ _ Hr). apply IH; [done|done|lia].
Qed.

(** A frame found in the stream is returned, and the rest stays unread. *)
Lemma ReceiveFrameFrom_found fuel s bs s1 k q rest :
  feeds s bs s1 -> (length bs <= fuel)%nat ->
  find_pos (fun b => b =? SOH) bs = Some k -> body_spec sc [] (drop k bs) = inl (q, rest) ->
  exists s2, ReceiveFrameFrom fuel s = (Ok (None, q), s2) /\ feeds s2 rest s1.
Proof.
  intros Hf Hl Hk Hb. destruct Hf as [s|s s3 s1 b bs Hr Hf]; [done|]. simpl in Hl.
  unfold ReceiveFrameFrom. rewrite (bind_ok _ _ _ _ _ Hr).
  pose proof (scan_start_feeds (fun b => b =? SOH) fuel _ b _ _ Hf ltac:(lia)) as Hs.
  rewrite Hk in Hs. destruct Hs as (x & s4 & Hd & Hf4 & Hs). rewrite Hd in Hb.
  rewrite (bind_ok _ _ _ _ _ Hs).
  eapply frame_body_feeds in Hb as (s5 & Hfb & Hf5); [|exact Hf4|].
  - exists s5. by rewrite (bind_ok _ _ _ _ _ Hfb).
  - rewrite length_drop. lia.
Qed.

(** No frame in a stream that ends: the salvaged rest of the cache at the end of
    the data, or the exception with the raw cache. *)
Lemma ReceiveFrameFrom_ends fuel s bs s1 e s2 :
  feeds s bs s1 -> ends s1 e s2 -> (length bs <= fuel)%nat ->
  match find_pos (fun b => b =? SOH) bs with
  | None => ReceiveFrameFrom fuel s = (Ok (e, []), s2)
  | Some k => forall q, body_spec sc [] (drop k bs) = inr q ->
      ReceiveFrameFrom fuel s =
        (Ok (match e with None => (None, salvage sc q) | Some e => (Some e, q) end), s2)
  end.
Proof.
  intros Hf He Hl. destruct Hf as [s|s s3 s1 b bs Hr Hf].
  { simpl. unfold ReceiveFrameFrom. rewrite (bind_ok _ _ _ _ _ He). destruct e; [done|].
    simpl. by destruct fuel. }
  simpl length in Hl. unfold ReceiveFrameFrom. rewrite (bind_ok _ _ _ _ _ Hr).
  pose proof (scan_start_feeds (fun b => b =? SOH) fuel _ b _ _ Hf ltac:(lia)) as Hs.
  destruct (find_pos _ (b :: bs)) as [k|] eqn:Hk.
  - destruct Hs as (x & s4 & Hd & Hf4 & Hs). intros q Hb. rewrite Hd in Hb.
    rewrite (bind_ok _ _ _ _ _ Hs).
    eapply frame_body_ends in Hb; [|exact Hf4|exact He|].
    + rewrite (bind_ok _ _ _ _ _ Hb). by destruct e.
    + apply find_pos_lt in Hk. simpl in Hk. rewrite length_drop. lia.
  - erewrite bind_ok by (eapply scan_start_ends; [exact Hf|exact He|lia|done]). by destruct e.
Qed.
End Receive.

(** ** Lemmas on streams *)

Lemma salvage_loop_valid sc fuel p :
  (length p <= fuel)%nat -> salvage_loop sc fuel p = [] \/ isFrameCRCOK sc (salvage_loop sc fuel p) = true.
Proof.
  revert p. induction fuel as [|fuel IH]; intros p Hl; destruct p as [|b p]; [by left|simpl in Hl; lia|by left|].
  cbn [salvage_loop]. destruct (isFrameCRCOK sc _) eqn:Ec; [by right|]. apply IH.
  pose proof (slip_length (b :: p) ltac:(done)). simpl in *. lia.
Qed.

Lemma salvage_valid sc p : salvage sc p = [] \/ isFrameCRCOK sc (salvage sc p) = true.
Proof. by apply salvage_loop_valid. Qed.

Lemma isValidFrame_true sc p q : isValidFrame sc p = (true, q) -> q = p /\ isFrameCRCOK sc p = true.
Proof. unfold isValidFrame. repeat case_bool; intros; simplify_eq; auto. Qed.

Lemma isValidFrame_false sc p :
  isFrameCRCOK sc p = false -> (length p <= 4056)%nat -> isValidFrame sc p = (false, p).
Proof.
  intros Hc Hl. unfold isValidFrame. rewrite Hc, (proj2 (Z.ltb_ge _ _)); [done|].
  unfold GetSize. lia.
Qed.

(** A frame none of whose proper prefixes passes the check is cut out whole. *)
Definition no_early_match (sc : bool) (f : packet) : Prop :=
  forall k, (k < length f)%nat -> isFrameCRCOK sc (take k f) = false.

Lemma body_spec_frame sc p g rest :
  bytes_ok (p ++ g) -> g <> [] -> isFrameCRCOK sc (p ++ g) = true -> no_early_match sc (p ++ g) ->
  (length (p ++ g) <= 4057)%nat -> body_spec sc p (g ++ rest) = inl (p ++ g, rest).
Proof.
  revert p. induction g as [|b g IH]; intros p Hok Hne Hv Hnm Hl; [done|].
  cbn [body_spec app]. destruct (decide (g = [])) as [->|Hg].
  - assert (b = EOT) as ->.
    { apply (isFrameCRCOK_last sc p); [|done]. apply bytes_ok_app in Hok as [_ Hok]. by apply bytes_ok_cons in Hok as [Hok _]. }
    unfold isValidFrame. rewrite Z.eqb_refl, Hv. done.
  - assert (isFrameCRCOK sc (p ++ [b]) = false) as Hc.
    { specialize (Hnm (length (p ++ [b]))). change (b :: g) with ([b] ++ g) in Hnm.
      rewrite app_assoc, take_app_length in Hnm. apply Hnm. rewrite !length_app. simpl.
      destruct g; [done|simpl; lia]. }
    assert (length (p ++ [b]) <= 4056)%nat as Hl'.
    { rewrite !length_app in *. simpl in *. destruct g; [done|simpl in *; lia]. }
    assert ((if b =? EOT then isValidFrame sc (p ++ [b]) else (false, p ++ [b])) = (false, p ++ [b])) as ->.
    { destruct (b =? EOT); [by apply isValidFrame_false|done]. }
    change (b :: g) with ([b] ++ g) in *. rewrite app_assoc in *. by apply IH.
Qed.

Lemma find_pos_noise noise f :
  SOH ∉ noise -> find_pos (fun b => b =? SOH) (noise ++ SOH :: f) = Some (length noise).
Proof.
  induction noise as [|b noise IH]; intros Hn; [done|]. apply not_elem_of_cons in Hn as [Hb Hn].
  simpl. rewrite (proj2 (Z.eqb_neq _ _)) by congruence. by rewrite IH.
Qed.

(** A nine-byte frame has no shorter match. *)
Lemma no_early_match_short sc f : (length f <= 9)%nat -> no_early_match sc f.
Proof.
  intros Hl k Hk. apply not_true_is_false. intros Hv. apply isFrameCRCOK_size in Hv.
  rewrite length_take in Hv. lia.
Qed.

Section Facts.
Context {W : Type} (sc : bool) (port : ChannelOps W).

(** Whatever the channel does, a packet returned without exception is empty or valid. *)
Lemma frame_body_valid fuel p b s r s' :
  frame_body sc port fuel p b s = (Ok (inl (None, r)), s') -> isFrameCRCOK sc r = true.
Proof.
  revert p b s. induction fuel as [|fuel IH]; intros p b s; cbn [frame_body];
    destruct (if b =? EOT then _ else _) as [[] p'] eqn:Ev.
  - intros [= ->]. case_bool; [|done]. by apply isValidFrame_true in Ev as [-> ?].
  - done.
  - intros [= ->]. case_bool; [|done]. by apply isValidFrame_true in Ev as [-> ?].
  - unfold bind. destruct (Read1 port s) as [[[e|[c|]]| | |] s1]; try (by intros; simplify_eq).
    apply IH.
Qed.

Lemma ReceiveFrameFrom_valid fuel s p s' :
  ReceiveFrameFrom sc port fuel s = (Ok (None, p), s') -> p = [] \/ isFrameCRCOK sc p = true.
Proof.
  unfold ReceiveFrameFrom, bind, mret.
  destruct (Read1 port s) as [[[e|r]| | |] s1]; try (by intros; simplify_eq).
  destruct (scan_start _ _ _ _ _) as [[[e|[b|]]| | |] s2]; try (by intros; simplify_eq; auto).
  destruct (frame_body _ _ _ _ _ _) as [[[[e q]|q]| | |] s3] eqn:Eb; intros; simplify_eq.
  - right. by eapply frame_body_valid.
  - apply salvage_valid.
Qed.

Lemma ReceiveFrameFrom_delivers fuel s s1 noise f :
  feeds port s (noise ++ f) s1 -> (length (noise ++ f) <= fuel)%nat ->
  bytes_ok f -> isFrameCRCOK sc f = true -> head f = Some SOH -> SOH ∉ noise ->
  no_early_match sc f -> (length f <= 4057)%nat ->
  ReceiveFrameFrom sc port fuel s = (Ok (None, f), s1).
Proof.
  intros Hf Hfuel Hok Hv Hh Hn Hnm Hl. destruct f as [|x f]; [done|]. injection Hh as ->.
  eapply (ReceiveFrameFrom_found sc port fuel s _ s1 _ (SOH :: f) []) in Hf as (s2 & HR & Hf);
    [|done|by apply find_pos_noise|].
  - rewrite HR. by inversion Hf; subst.
  - rewrite drop_app_length. pose proof (body_spec_frame sc [] (SOH :: f) []) as Hb.
    rewrite app_nil_r in Hb. by apply Hb.
Qed.
End Facts.

(** ** Properties *)

(** Whatever the peer sends and however reads end, a packet that
    [ReceiveFrameFrom] returns without an exception is empty or passes the frame
    check; nothing else reaches the callers. *)
Theorem received_frames_are_valid {W} sc (port : ChannelOps W) fuel s p s' :
  ReceiveFrameFrom sc port fuel s = (Ok (None, p), s') -> p = [] \/ isFrameCRCOK sc p = true.
Proof. apply ReceiveFrameFrom_valid. Qed.

(** C18.  Framing round trip: a frame sent after any noise free of [SOH] is
    returned byte for byte, with nothing after it consumed, provided no proper
    prefix of it passes the check by accident and it has at most 4057 bytes. *)
Theorem framing_round_trip {W} sc (port : ChannelOps W) fuel s s1 noise f :
  feeds port s (noise ++ f) s1 -> (length (noise ++ f) <= fuel)%nat ->
  bytes_ok f -> isFrameCRCOK sc f = true -> head f = Some SOH -> SOH ∉ noise ->
  no_early_match sc f -> (length f <= 4057)%nat ->
  ReceiveFrameFrom sc port fuel s = (Ok (None, f), s1).
Proof. apply ReceiveFrameFrom_delivers. Qed.

(** Every command of the protocol goes through: the frame [SetCommand] builds
    for a command, sent after any noise free of [SOH], is received and decoded to
    the same command. *)
Theorem commands_go_through {W} sc (port : ChannelOps W) fuel s s1 noise e m f :
  e <> CMD_END -> SetCommand (cmdWord e) m = Some f ->
  feeds port s (noise ++ f) s1 -> (length (noise ++ f) <= fuel)%nat -> SOH ∉ noise ->
  ReceiveFrameFrom sc port fuel s = (Ok (None, f), s1) /\ CommandType f = Some e.
Proof.
  intros He Hs Hf Hl Hn. rewrite SetCommand_frame in Hs by done. injection Hs as <-.
  pose proof (cmd_frame_length e m He) as H9. split.
  - apply (ReceiveFrameFrom_delivers sc port fuel s s1 noise); try done.
    + apply cmd_frame_ok.
    + apply isFrameCRCOK_wf; [apply cmd_frame_ok|by apply cmd_frame_wf].
    + apply no_early_match_short. lia.
    + lia.
  - by apply (scan_cmd_frame e [SOH; u8 m; STX]).
Qed.

(** C13.  Termination and functional behaviour on any finite stream: once the
    channel has delivered [bs] and then has nothing more, [ReceiveFrameFrom] with
    at least [length bs] fuel returns the packet that [frame_spec] finds in [bs]:
    the first frame that passes the check, or what the salvage loop finds in the
    cache. *)
Theorem receive_refines_stream_spec {W} sc (port : ChannelOps W) fuel s bs s1 s2 :
  feeds port s bs s1 -> ends port s1 None s2 -> (length bs <= fuel)%nat ->
  exists s', ReceiveFrameFrom sc port fuel s = (Ok (None, fst (frame_spec sc bs)), s').
Proof.
  intros Hf He Hl. pose proof (ReceiveFrameFrom_ends sc port fuel s bs s1 None s2 Hf He Hl) as H.
  unfold frame_spec. destruct (find_pos _ bs) as [k|] eqn:Hk; [|eauto].
  destruct (body_spec sc [] (drop k bs)) as [[q rest]|q] eqn:Hb; [|eauto].
  destruct (ReceiveFrameFrom_found sc port fuel s bs s1 k q rest) as (s' & Hr & _); eauto.
Qed.

(** When [Read] throws in the middle of a frame, the bytes received so far stay
    in the packet: after a start symbol and any bytes without [EOT] the callers
    that catch the exception see a non-empty packet that is no frame. *)
Theorem exception_leaves_partial_frame {W} sc (port : ChannelOps W) fuel s bs s1 e s2 :
  feeds port s (SOH :: bs) s1 -> ends port s1 (Some e) s2 -> (length (SOH :: bs) <= fuel)%nat ->
  EOT ∉ bs ->
  ReceiveFrameFrom sc port fuel s = (Ok (Some e, SOH :: bs), s2).
Proof.
  intros Hf He Hl Hn.
  pose proof (ReceiveFrameFrom_ends sc port fuel s (SOH :: bs) s1 (Some e) s2 Hf He Hl) as H.
  simpl find_pos in H. cbn iota in H. rewrite drop_0 in H. apply H. clear -Hn.
  assert (forall p, body_spec sc p bs = inr (p ++ bs)) as Hb.
  { induction bs as [|b bs IH]; intros p; [simpl; by rewrite app_nil_r|].
    apply not_elem_of_cons in Hn as [Hb Hn]. cbn [body_spec].
    rewrite (proj2 (Z.eqb_neq _ _)) by congruence. rewrite IH by done. by rewrite <- app_assoc. }
  cbn [body_spec]. apply (Hb [SOH]).
Qed.

(** ** Witnesses: the serial port with scripted input *)

Definition tty_state (input : list byte) : st Agent script :=
  mkSt (upd_serial (set_handle 6) fresh_agent) (mkScript 0 [] [] [IoData input] None) [].

Lemma script_serial_read1 a clk cs rs b l f tr :
  handle (serial a) = 6 ->
  Read1 (ops Serial) (mkSt a (mkScript clk cs rs [IoData (b :: l)] f) tr) =
    (Ok (inr (Some b)),
     mkSt a (mkScript clk cs rs (match l with [] => [] | _ => [IoData l] end) f)
       (tr ++ [Ev (sys_read 6 1) (IoData [b])])).
Proof.
  intros Hh. unfold Read1, attempt, try_catch, bind, mret. cbn -[sys].
  unfold ser_Read, ser_reopen, ser_read_loop, ser_get, gets, bind. cbn -[sys]. rewrite Hh. cbn -[sys].
  unfold sys, env_step, script_env. cbn. rewrite ?Hh. change (Z.to_nat 1) with 1%nat. by destruct l.
Qed.

Lemma script_serial_feeds a clk cs rs l f tr :
  handle (serial a) = 6 -> l <> [] ->
  exists tr', feeds (ops Serial) (mkSt a (mkScript clk cs rs [IoData l] f) tr) l
    (mkSt a (mkScript clk cs rs [] f) tr').
Proof.
  intros Hh. revert tr. induction l as [|b l IH]; intros tr Hne; [done|].
  destruct l as [|c l].
  - eexists. eapply feeds_cons; [by apply script_serial_read1|constructor].
  - destruct (IH (tr ++ [Ev (sys_read 6 1) (IoData [b])])) as [tr' Hf]; [done|].
    exists tr'. eapply feeds_cons; [by apply script_serial_read1|done].
Qed.

Lemma received_frames_are_valid_witness :
  [1; 1; 2; 114; 97; 3; 66; 69; 4] = [] \/ isFrameCRCOK false [1; 1; 2; 114; 97; 3; 66; 69; 4] = true.
Proof.
  eapply (received_frames_are_valid false (ops Serial) 20 (tty_state [0; 9; 1; 1; 2; 114; 97; 3; 66; 69; 4; 5])).
  vm_compute. reflexivity.
Defined.

Lemma framing_round_trip_witness :
  exists s1, ReceiveFrameFrom false (ops Serial) 20 (tty_state ([4; 2] ++ [1; 1; 2; 114; 97; 3; 66; 69; 4])) =
    (Ok (None, [1; 1; 2; 114; 97; 3; 66; 69; 4]), s1).
Proof.
  edestruct script_serial_feeds as [tr' Hf]; [..|eexists; eapply (framing_round_trip false (ops Serial) 20); [exact Hf|..]].
  - reflexivity.
  - discriminate.
  - simpl; lia.
  - apply (bool_decide_unpack _). vm_compute. done.
  - vm_compute. reflexivity.
  - reflexivity.
  - apply (bool_decide_unpack _). vm_compute. done.
  - apply no_early_match_short. simpl. lia.
  - simpl; lia.
Defined.

Lemma commands_go_through_witness :
  exists s1, ReceiveFrameFrom false (ops Serial) 20 (tty_state ([7] ++ cmd_frame GetTime 1)) =
    (Ok (None, cmd_frame GetTime 1), s1) /\ CommandType (cmd_frame GetTime 1) = Some GetTime.
Proof.
  edestruct script_serial_feeds as [tr' Hf];
    [..|eexists; eapply (commands_go_through false (ops Serial) 20 _ _ [7] GetTime 1); [..|exact Hf| |]].
  - reflexivity.
  - discriminate.
  - discriminate.
  - vm_compute. reflexivity.
  - vm_compute. lia.
  - apply (bool_decide_unpack _). vm_compute. done.
Defined.

Lemma receive_refines_stream_spec_witness :
  exists s', ReceiveFrameFrom false (ops Serial) 20 (tty_state [1; 1; 1; 2; 114; 97; 3; 66; 69; 4]) =
    (Ok (None, fst (frame_spec false [1; 1; 1; 2; 114; 97; 3; 66; 69; 4])), s').
Proof.
  edestruct script_serial_feeds as [tr' Hf];
    [..|eapply (receive_refines_stream_spec false (ops Serial) 20); [exact Hf| |]].
  - reflexivity.
  - discriminate.
  - unfold ends, ended. reflexivity.
  - simpl; lia.
Defined.

(** A TCP connection that delivers a start symbol and one byte, then fails. *)
Definition tcp_state : st Agent script :=
  mkSt (upd_tcp srvData (fun p => set_bConnected true (set_socketID 5 p)) fresh_agent)
    (mkScript 0 [] [IoData [1; 9]; IoErr 104] [] None) [].

Lemma exception_leaves_partial_frame_witness :
  exists s2, ReceiveFrameFrom false (ops (Tcp srvData)) 20 tcp_state = (Ok (Some (exn_errno 104), [1; 9]), s2).
Proof.
  eexists. eapply (exception_leaves_partial_frame false (ops (Tcp srvData)) 20 tcp_state [9]).
  - eapply feeds_cons; [reflexivity|]. eapply feeds_cons; [reflexivity|]. constructor.
  - unfold ends, ended. reflexivity.
  - simpl; lia.
  - apply (bool_decide_unpack _). vm_compute. done.
Defined.

End Receive.
