(* ===== verification/Traffic.v ===== *)
(** * Traffic: the system calls of the channel operations

    Which system calls the operations of a TCP port, of the serial port and of the
    receive functions may make, which of them can throw, and what the trace says
    was received.  These are the facts the theorems about [Protocol], [Modem] and
    the tasks are assembled from. *)

From S2P Require Import Prelude CRC16 Packet PacketQueue Sys Effects Agent Channel Receive.
Import Packet Sys Effects Agent Channel Receive.

Module Traffic.

(** ** The receive functions keep what reading keeps *)

Section Keeps.
Context {W : Type} {E : Env Agent W} (R : st Agent W -> st Agent W -> Prop) {HR : PreOrder R}.
Context (port : ChannelOps W).
Hypothesis HRead : keeps R (Read 1).

Lemma Read1_keeps : keeps R (Read1 port).
Proof. unfold Read1. effects. Qed.
#[local] Hint Resolve Read1_keeps : effects.

Lemma scan_start_keeps start n r : keeps R (scan_start port start n r).
Proof. revert r. induction n; intros r; simpl; effects. Qed.
#[local] Hint Resolve scan_start_keeps : effects.

Lemma frame_body_keeps sc n p b : keeps R (frame_body sc port n p b).
Proof. revert p b. induction n; intros p b; simpl; effects. Qed.
#[local] Hint Resolve frame_body_keeps : effects.

Lemma ReceiveFrameFrom_keeps sc n : keeps R (ReceiveFrameFrom sc port n).
Proof. unfold ReceiveFrameFrom. effects. Qed.

Lemma ack_body_keeps n p b : keeps R (ack_body port n p b).
Proof. revert p b. induction n; intros p b; simpl; effects. Qed.
#[local] Hint Resolve ack_body_keeps : effects.

Lemma ReceiveAckFrom_keeps n :
  (forall us, keeps R (SetTimeOut us)) -> keeps R (ReceiveAckFrom port n).
Proof. intros HSet. unfold ReceiveAckFrom. effects. Qed.
End Keeps.

(** ** What every channel operation keeps

    A preorder kept by every system call and by every assignment to a port is kept
    by the operations of both classes. *)

(** A channel that is the serial port or one of the given TCP ports. *)
Definition may_change (ok : tcp -> Prop) (c : chan) : Prop :=
  match c with Serial => True | Tcp t => ok t end.

Definition any_port (_ : tcp) : Prop := True.

Lemma any_port_any t : any_port t.
Proof. done. Qed.
Lemma any_port_channel c : may_change any_port c.
Proof. by destruct c. Qed.
#[export] Hint Resolve any_port_any any_port_channel : core.

Section Frame.
Context {W : Type} {E : Env Agent W} (R : st Agent W -> st Agent W -> Prop) {HR : PreOrder R}.
(** The TCP ports that may be changed. *)
Context {ok : tcp -> Prop}.
Hypothesis Hsys : forall T (c : syscall T), keeps R (sys c).
Hypothesis Htcp : forall t f, ok t -> keeps R (tcp_set (W := W) t f).
Hypothesis Hser : forall f, keeps R (ser_set (W := W) f).

Abbreviation okc := (may_change ok).

#[local] Hint Resolve Hsys Htcp Hser : effects.

Lemma tcp_get_frame {A} t (f : TCPPort -> A) : keeps R (tcp_get (W := W) t f).
Proof. apply keeps_gets, _. Qed.
Lemma ser_get_frame {A} (f : SerialPort -> A) : keeps R (ser_get (W := W) f).
Proof. apply keeps_gets, _. Qed.
#[local] Hint Resolve tcp_get_frame ser_get_frame : effects.

Lemma tcp_Close_frame t : ok t -> keeps R (tcp_Close (W := W) t).
Proof. intros Ht. unfold tcp_Close, tcp_touch. effects. Qed.
Lemma tcp_SetTimeOut_frame t n : ok t -> keeps R (tcp_SetTimeOut (W := W) t n).
Proof. intros Ht. unfold tcp_SetTimeOut. effects. Qed.
#[local] Hint Resolve tcp_Close_frame tcp_SetTimeOut_frame : effects.
Lemma tcp_connect_loop_frame t l : ok t -> keeps R (tcp_connect_loop (W := W) t l).
Proof. intros Ht. induction l; simpl; effects. Qed.
#[local] Hint Resolve tcp_connect_loop_frame : effects.
Lemma tcp_Connect_frame t : ok t -> keeps R (tcp_Connect (W := W) t).
Proof. intros Ht. unfold tcp_Connect, tcp_touch. effects. Qed.
#[local] Hint Resolve tcp_Connect_frame : effects.
Lemma tcp_Open_at_frame t h n : ok t -> keeps R (tcp_Open_at (W := W) t h n).
Proof. intros Ht. unfold tcp_Open_at. effects. Qed.
#[local] Hint Resolve tcp_Open_at_frame : effects.

Lemma ser_Close_frame : keeps R (ser_Close (W := W)).
Proof. unfold ser_Close. effects. Qed.
#[local] Hint Resolve ser_Close_frame : effects.
Lemma ser_Open_dev_frame d : keeps R (ser_Open_dev (W := W) d).
Proof. unfold ser_Open_dev, ser_SetCom. effects. Qed.
#[local] Hint Resolve ser_Open_dev_frame : effects.
Lemma ser_read_loop_frame k n : keeps R (ser_read_loop (W := W) k n).
Proof. induction k; simpl; effects. Qed.
#[local] Hint Resolve ser_read_loop_frame : effects.

(** The virtual methods. *)
Lemma Read_frame c n : okc c -> keeps R (@Read W (ops c) n).
Proof.
  intros Hc. destruct c; simpl in *; [unfold ser_Read, ser_reopen|unfold tcp_Read, tcp_touch]; effects.
Qed.
Lemma Write_frame c b : okc c -> keeps R (@Write W (ops c) b).
Proof.
  intros Hc. destruct c; simpl in *; [unfold ser_Write, ser_reopen|unfold tcp_Write, tcp_touch]; effects.
Qed.
Lemma SetTimeOut_frame c n : okc c -> keeps R (@SetTimeOut W (ops c) n).
Proof. intros Hc. destruct c; simpl in *; effects. Qed.
Lemma Lock_frame c : keeps R (@Lock W (ops c)).
Proof. destruct c; simpl; effects. Qed.
Lemma Unlock_frame c : keeps R (@Unlock W (ops c)).
Proof. destruct c; simpl; effects. Qed.
Lemma IsOpen_frame c : keeps R (@IsOpen W (ops c)).
Proof. destruct c; simpl; effects. Qed.
Lemma Open_frame c : okc c -> keeps R (@Open W (ops c)).
Proof. intros Hc. destruct c; simpl in *; effects. Qed.
#[local] Hint Resolve Read_frame Write_frame SetTimeOut_frame Lock_frame Unlock_frame IsOpen_frame
  Open_frame : effects.

Lemma SendTo_frame c p : okc c -> keeps R (SendTo (W := W) (ops c) p).
Proof. intros Hc. unfold SendTo. effects. Qed.
Lemma ReceiveFrameFrom_frame sc c n : okc c -> keeps R (ReceiveFrameFrom (W := W) sc (ops c) n).
Proof. intros Hc. apply ReceiveFrameFrom_keeps; auto with effects. Qed.
Lemma ReceiveAckFrom_frame c n : okc c -> keeps R (ReceiveAckFrom (W := W) (ops c) n).
Proof. intros Hc. apply ReceiveAckFrom_keeps; auto with effects. Qed.
End Frame.

(** ** Families of system calls *)

(** Calls of [TCPPort::Close] and [SetTimeOut]; they are part of every operation. *)
Definition port_call {T} (c : syscall T) : bool :=
  match c with
  | sys_gettimeofday | sys_shutdown _ | sys_set_timeouts _ _ | sys_close _ => true
  | _ => false
  end.

(** Calls of the loop of [TCPPort::Connect], and of [TCPPort::Open] and [Connect]. *)
Definition connect_call {T} (c : syscall T) : bool :=
  match c with sys_socket | sys_connect _ _ => true | _ => port_call c end.
Definition link_call {T} (c : syscall T) : bool :=
  match c with sys_getaddrinfo _ _ => true | _ => connect_call c end.

(** Calls of [SerialPort], locking apart. *)
Definition tty_call {T} (c : syscall T) : bool :=
  match c with
  | sys_open_tty _ | sys_tty_setup _ | sys_tty_flush _ | sys_read _ _ | sys_write _ _
  | sys_tcdrain _ | sys_usleep _ | sys_close _ => true
  | _ => false
  end.

(** [calls ok]: between the two states only calls accepted by [ok] were made. *)
Definition accepted (ok : forall T, syscall T -> bool) (e : event) : Prop :=
  match e with Ev c _ => ok _ c = true end.
Definition calls {S W} (ok : forall T, syscall T -> bool) : st S W -> st S W -> Prop :=
  extends (accepted ok).

#[global] Instance calls_preorder {S W} ok : PreOrder (calls (S := S) (W := W) ok).
Proof. apply extends_preorder. Qed.

Section Calls.
Context {W : Type} {E : Env Agent W}.
Context (ok : forall T, syscall T -> bool).

Abbreviation K := (keeps (S := Agent) (W := W) (calls ok)).

Lemma keeps_sys {T} (c : syscall T) : ok T c = true -> K (sys c).
Proof. intros H. by apply keeps_sys_extends. Qed.

Lemma keeps_modify f : K (modify f).
Proof. apply keeps_modify_extends. Qed.

(** *** TCP ports *)

Section Net.
Hypothesis Hport : forall T (c : syscall T), port_call c = true -> ok T c = true.

#[local] Hint Resolve keeps_modify : effects.
#[local] Hint Extern 1 (keeps _ (sys _)) => (apply keeps_sys, Hport; reflexivity) : effects.

Lemma tcp_touch_calls t : K (tcp_touch t).
Proof. unfold tcp_touch, tcp_set. effects. Qed.
#[local] Hint Resolve tcp_touch_calls : effects.

Lemma tcp_Close_calls t : K (tcp_Close t).
Proof. unfold tcp_Close, tcp_get, tcp_set. effects. Qed.
#[local] Hint Resolve tcp_Close_calls : effects.

Lemma tcp_SetTimeOut_calls t n : K (tcp_SetTimeOut t n).
Proof. unfold tcp_SetTimeOut, tcp_get, tcp_set. effects. Qed.
#[local] Hint Resolve tcp_SetTimeOut_calls : effects.

Lemma tcp_Read_calls t n :
  (forall fd len, ok _ (sys_recv fd len) = true) -> K (tcp_Read t n).
Proof. intros Hrecv. unfold tcp_Read, tcp_get. effects. by apply keeps_sys. Qed.

Lemma tcp_Write_calls t b :
  (forall fd buf, ok _ (sys_send fd buf) = true) -> K (tcp_Write t b).
Proof. intros Hsend. unfold tcp_Write, tcp_get. effects. by apply keeps_sys. Qed.
End Net.

Section Connect.
Hypothesis Hconn : forall T (c : syscall T), connect_call c = true -> ok T c = true.

Lemma connect_port T (c : syscall T) : port_call c = true -> ok T c = true.
Proof. intros H. apply Hconn. by destruct c. Qed.

#[local] Hint Resolve keeps_modify tcp_SetTimeOut_calls connect_port : effects.
#[local] Hint Extern 1 (keeps _ (sys _)) => (apply keeps_sys, Hconn; reflexivity) : effects.

Lemma tcp_connect_loop_calls t l : K (tcp_connect_loop t l).
Proof. induction l; simpl; unfold tcp_get, tcp_set; effects. Qed.
End Connect.

Section Link.
Hypothesis Hlink : forall T (c : syscall T), link_call c = true -> ok T c = true.

Lemma link_connect T (c : syscall T) : connect_call c = true -> ok T c = true.
Proof. intros H. apply Hlink. by destruct c. Qed.

Lemma link_port T (c : syscall T) : port_call c = true -> ok T c = true.
Proof. intros H. apply Hlink. by destruct c. Qed.

#[local] Hint Resolve keeps_modify tcp_touch_calls tcp_Close_calls tcp_SetTimeOut_calls
  tcp_connect_loop_calls link_port link_connect : effects.
#[local] Hint Extern 1 (keeps _ (sys _)) => (apply keeps_sys, Hlink; reflexivity) : effects.

Lemma tcp_Connect_calls t : K (tcp_Connect t).
Proof. unfold tcp_Connect, tcp_get. effects. Qed.
#[local] Hint Resolve tcp_Connect_calls : effects.

Lemma tcp_Open_at_calls t h p : K (tcp_Open_at t h p).
Proof. unfold tcp_Open_at, tcp_get, tcp_set. effects. Qed.
End Link.

(** *** The serial port *)

Section Tty.
Hypothesis Htty : forall T (c : syscall T), tty_call c = true -> ok T c = true.

#[local] Hint Resolve keeps_modify : effects.
#[local] Hint Extern 1 (keeps _ (sys _)) => (apply keeps_sys, Htty; reflexivity) : effects.

Lemma ser_Close_calls : K ser_Close.
Proof. unfold ser_Close, ser_get, ser_set. effects. Qed.
#[local] Hint Resolve ser_Close_calls : effects.

Lemma ser_Open_dev_calls d : K (ser_Open_dev d).
Proof. unfold ser_Open_dev, ser_SetCom, ser_get, ser_set. effects. Qed.
#[local] Hint Resolve ser_Open_dev_calls : effects.

Lemma ser_reopen_calls : K ser_reopen.
Proof. unfold ser_reopen, ser_get. effects. Qed.
#[local] Hint Resolve ser_reopen_calls : effects.

Lemma ser_read_loop_calls n len : K (ser_read_loop n len).
Proof. induction n; simpl; unfold ser_get; effects. Qed.
#[local] Hint Resolve ser_read_loop_calls : effects.

Lemma ser_Read_calls len : K (ser_Read len).
Proof. unfold ser_Read. effects. Qed.

Lemma ser_Write_calls b : K (ser_Write b).
Proof. unfold ser_Write, ser_get. effects. Qed.
End Tty.

(** *** A channel by reference *)

(** What reading and writing through a reference may lead to. *)
Definition read_call (c : chan) {T} (s : syscall T) : bool :=
  match c, s with
  | Serial, s => tty_call s
  | Tcp _, sys_recv _ _ => true
  | Tcp _, s => port_call s
  end.
Definition write_call (c : chan) {T} (s : syscall T) : bool :=
  match c, s with
  | Serial, s => tty_call s
  | Tcp _, sys_send _ _ => true
  | Tcp _, s => port_call s
  end.

Section ChanWrite.
Context (c : chan).
Hypothesis Hc : forall T (s : syscall T), write_call c s = true -> ok T s = true.

Lemma Write_calls b : K (@Write _ (ops c) b).
Proof.
  destruct c; [apply ser_Write_calls; apply Hc|apply tcp_Write_calls].
  - intros T s Hs. apply Hc. by destruct s.
  - intros fd buf. by apply Hc.
Qed.

Lemma SendTo_calls p : K (SendTo (ops c) p).
Proof. unfold SendTo. effects. apply Write_calls. Qed.
End ChanWrite.

Section Chan.
Context (c : chan).
Hypothesis Hc : forall T (s : syscall T), read_call c s = true -> ok T s = true.

Lemma Read_calls n : K (@Read _ (ops c) n).
Proof.
  destruct c; [apply ser_Read_calls; apply Hc|apply tcp_Read_calls].
  - intros T s Hs. apply Hc. by destruct s.
  - intros fd len. by apply Hc.
Qed.

Lemma SetTimeOut_calls n : K (@SetTimeOut _ (ops c) n).
Proof.
  destruct c; [apply keeps_modify|apply tcp_SetTimeOut_calls].
  intros T s Hs. apply Hc. by destruct s.
Qed.

Lemma ReceiveFrameFrom_calls sc n : K (ReceiveFrameFrom sc (ops c) n).
Proof. apply ReceiveFrameFrom_keeps; [apply _|apply Read_calls]. Qed.

Lemma ReceiveAckFrom_calls n : K (ReceiveAckFrom (ops c) n).
Proof. apply ReceiveAckFrom_keeps; [apply _|apply Read_calls|apply SetTimeOut_calls]. Qed.
End Chan.
End Calls.

(** ** Exceptions *)

(** No operation of the serial port throws. *)
Section Throws.
Context {W : Type} {E : Env Agent W} (k : kind) `{!Answers k E}.

Lemma ser_Close_avoids : avoids k (ser_Close (W := W)).
Proof. unfold ser_Close, ser_get, ser_set. effects. Qed.
#[local] Hint Resolve ser_Close_avoids : effects.

Lemma ser_Open_dev_avoids d : avoids k (ser_Open_dev (W := W) d).
Proof. unfold ser_Open_dev, ser_SetCom, ser_get, ser_set. effects. Qed.
#[local] Hint Resolve ser_Open_dev_avoids : effects.

Lemma ser_reopen_avoids : avoids k (ser_reopen (W := W)).
Proof. unfold ser_reopen, ser_get. effects. Qed.
#[local] Hint Resolve ser_reopen_avoids : effects.

Lemma ser_read_loop_avoids n len : avoids k (ser_read_loop (W := W) n len).
Proof. induction n; simpl; unfold ser_get; effects. Qed.
#[local] Hint Resolve ser_read_loop_avoids : effects.

Lemma ser_Read_avoids len : avoids k (ser_Read (W := W) len).
Proof. unfold ser_Read. effects. Qed.

Lemma ser_Write_avoids b : avoids k (ser_Write (W := W) b).
Proof. unfold ser_Write, ser_get. effects. Qed.

Lemma tcp_touch_avoids t : avoids k (tcp_touch (W := W) t).
Proof. unfold tcp_touch, tcp_set. effects. Qed.
#[local] Hint Resolve tcp_touch_avoids : effects.

Lemma tcp_Close_avoids t : avoids k (tcp_Close (W := W) t).
Proof. unfold tcp_Close, tcp_get, tcp_set. effects. Qed.
#[local] Hint Resolve tcp_Close_avoids : effects.

Lemma tcp_SetTimeOut_avoids t n : avoids k (tcp_SetTimeOut (W := W) t n).
Proof. unfold tcp_SetTimeOut, tcp_get, tcp_set. effects. Qed.
#[local] Hint Resolve tcp_SetTimeOut_avoids : effects.

Lemma tcp_connect_loop_avoids t l : avoids k (tcp_connect_loop (W := W) t l).
Proof. induction l; simpl; unfold tcp_get, tcp_set; effects. Qed.
#[local] Hint Resolve tcp_connect_loop_avoids : effects.

Lemma tcp_Connect_avoids t : avoids k (tcp_Connect (W := W) t).
Proof. unfold tcp_Connect, tcp_get. effects. Qed.
#[local] Hint Resolve tcp_Connect_avoids : effects.

Lemma tcp_Open_at_avoids t h p : avoids k (tcp_Open_at (W := W) t h p).
Proof. unfold tcp_Open_at, tcp_get, tcp_set. effects. Qed.

#[local] Hint Resolve avoids_throw ser_Read_avoids ser_Write_avoids : effects.

Lemma tcp_Read_avoids t n : k <> KThrow -> avoids k (tcp_Read (W := W) t n).
Proof. intros Hk. unfold tcp_Read, tcp_get. effects. Qed.

Lemma tcp_Write_avoids t b : k <> KThrow -> avoids k (tcp_Write (W := W) t b).
Proof. intros Hk. unfold tcp_Write, tcp_get. effects. Qed.

#[local] Hint Resolve tcp_Read_avoids tcp_Write_avoids : effects.

(** Reads and writes of a channel can only throw, and not on the serial port. *)
Lemma Read_avoids c n : (c = Serial \/ k <> KThrow) -> avoids k (@Read W (ops c) n).
Proof. intros [->|Hk]; [apply ser_Read_avoids|destruct c; simpl; auto with effects]. Qed.

Lemma SendTo_avoids c p : (c = Serial \/ k <> KThrow) -> avoids k (SendTo (W := W) (ops c) p).
Proof.
  intros [->|Hk]; unfold SendTo; effects.
  destruct c; simpl; auto with effects.
Qed.

Lemma SetTimeOut_avoids c n : avoids k (@SetTimeOut W (ops c) n).
Proof. destruct c; simpl; unfold ser_set; auto with effects. Qed.

Lemma Read1_avoids c : avoids k (Read1 (W := W) (ops c)).
Proof. unfold Read1. effects. apply Read_avoids. auto. Qed.
#[local] Hint Resolve Read1_avoids : effects.

(** The receive functions do not throw, and read nothing out of bounds: they can
    only wait for ever. *)
Lemma scan_start_avoids c start n r : k <> KNoFuel -> avoids k (scan_start (W := W) (ops c) start n r).
Proof.
  intros Hk. revert r. induction n; intros r; simpl; effects; by apply avoids_no_fuel.
Qed.
#[local] Hint Resolve scan_start_avoids : effects.

Lemma frame_body_avoids c sc n p b : k <> KNoFuel -> avoids k (frame_body (W := W) sc (ops c) n p b).
Proof.
  intros Hk. revert p b. induction n; intros p b; simpl; effects; by apply avoids_no_fuel.
Qed.
#[local] Hint Resolve frame_body_avoids : effects.

Lemma ReceiveFrameFrom_avoids c sc n : k <> KNoFuel -> avoids k (ReceiveFrameFrom (W := W) sc (ops c) n).
Proof. intros Hk. unfold ReceiveFrameFrom. effects. Qed.

Lemma ack_body_avoids c n p b : k <> KNoFuel -> avoids k (ack_body (W := W) (ops c) n p b).
Proof.
  intros Hk. revert p b. induction n; intros p b; simpl; effects; by apply avoids_no_fuel.
Qed.
#[local] Hint Resolve ack_body_avoids SetTimeOut_avoids : effects.

Lemma ReceiveAckFrom_avoids c n : k <> KNoFuel -> avoids k (ReceiveAckFrom (W := W) (ops c) n).
Proof. intros Hk. unfold ReceiveAckFrom. effects. Qed.
End Throws.

(** On the serial port no receive function reports an exception. *)
Section Serial.
Context {W : Type} {E : Env Agent W}.

Definition no_exn {A} (r : ChannelException + A) : Prop := is_Some (match r with inl _ => None | inr a => Some a end).

Lemma Read1_serial : yields (no_exn (A := option byte)) (Read1 (W := W) (ops Serial)).
Proof.
  unfold Read1. eapply yields_bind; [apply yields_attempt_safe with (Q := no_exn)|].
  - apply ser_Read_avoids, _.
  - intros a. by eexists.
  - intros [e|l] [x Hx]; [done|]. apply yields_mret. by eexists.
Qed.

Lemma scan_start_serial start n r :
  yields (no_exn (A := option byte)) (scan_start (W := W) (ops Serial) start n r).
Proof.
  revert r. induction n as [|n IH]; intros [b|]; simpl; try (apply yields_mret; by eexists).
  all: destruct (start b); [apply yields_mret; by eexists|].
  - apply yields_no_fuel.
  - eapply yields_bind; [apply Read1_serial|]. intros [e|a] [x Hx]; [done|apply IH].
Qed.

Lemma frame_body_serial sc n p b :
  yields (fun r => match r with inl (Some _, _) => False | _ => True end)
    (frame_body (W := W) sc (ops Serial) n p b).
Proof.
  revert p b. induction n as [|n IH]; intros p b; simpl; case_bool;
    destruct (isValidFrame sc (p ++ [b])) as [ok p']; try destruct ok;
    try apply yields_no_fuel; try (by apply yields_mret).
  all: eapply yields_bind; [apply Read1_serial|]; intros [e|[a|]] [x Hx]; try done;
    try apply IH; by apply yields_mret.
Qed.

Lemma ReceiveFrameFrom_serial sc n :
  yields (fun r => fst r = None) (ReceiveFrameFrom (W := W) sc (ops Serial) n).
Proof.
  unfold ReceiveFrameFrom. eapply yields_bind; [apply Read1_serial|]. intros [e|r] [x Hx]; [done|].
  eapply yields_bind; [apply scan_start_serial|]. intros [e|[b|]] [y Hy]; [done| |by apply yields_mret].
  eapply yields_bind; [apply frame_body_serial|].
  intros [[[e|] p]|p] Hr; try done; by apply yields_mret.
Qed.
End Serial.

(** ** Reading the trace *)

(** What the events of a trace contribute, in order. *)
Definition collect {X} (f : event -> list X) (l : list event) : list X := concat (f <$> l).

Lemma collect_app {X} (f : event -> list X) l k : collect f (l ++ k) = collect f l ++ collect f k.
Proof. unfold collect. by rewrite fmap_app, concat_app. Qed.

(** [collects f s s' xs]: the calls from [s] to [s'] contribute exactly [xs]. *)
Definition collects {X S W} (f : event -> list X) (s s' : st S W) (xs : list X) : Prop :=
  exists new, trace s' = trace s ++ new /\ collect f new = xs.

Lemma collects_refl {X S W} (f : event -> list X) (s : st S W) : collects f s s [].
Proof. exists []. by rewrite app_nil_r. Qed.

Lemma collects_trans {X S W} (f : event -> list X) (s1 s2 s3 : st S W) a b :
  collects f s1 s2 a -> collects f s2 s3 b -> collects f s1 s3 (a ++ b).
Proof.
  intros (n1 & H1 & <-) (n2 & H2 & <-). exists (n1 ++ n2).
  by rewrite H2, H1, app_assoc, collect_app.
Qed.

Lemma collects_nil_l {X S W} (f : event -> list X) (s1 s2 s3 : st S W) b :
  collects f s1 s2 [] -> collects f s2 s3 b -> collects f s1 s3 b.
Proof. intros H1 H2. exact (collects_trans f _ _ _ _ _ H1 H2). Qed.

Lemma collects_nil_r {X S W} (f : event -> list X) (s1 s2 s3 : st S W) a :
  collects f s1 s2 a -> collects f s2 s3 [] -> collects f s1 s3 a.
Proof. intros H1 H2. rewrite <- (app_nil_r a). by eapply collects_trans. Qed.

(** Calls that contribute nothing. *)
Lemma collects_calls {X S W} (f : event -> list X) (ok : forall T, syscall T -> bool) (s s' : st S W) :
  (forall T (c : syscall T) r, ok T c = true -> f (Ev c r) = []) ->
  calls ok s s' -> collects f s s' [].
Proof.
  intros Hf (new & H1 & H2). exists new. split; [done|].
  clear H1. induction H2 as [|[T c r] l Hc _ IH]; [done|].
  unfold collect in *. rewrite fmap_cons. cbn [concat]. rewrite IH. by rewrite Hf.
Qed.

Lemma collects_one {X S W} (f : event -> list X) (s : st S W) a w e :
  collects f s (mkSt a w (trace s ++ [e])) (f e).
Proof.
  eexists. split; [reflexivity|]. unfold collect. cbn [fmap list_fmap concat]. by rewrite app_nil_r.
Qed.

Lemma wp_sys_collects {X S W T} {E : Env S W} (f : event -> list X) (c : syscall T) (s : st S W) Q :
  (forall r a w, env_step c (agent s) (world s) = Some (r, a, w) ->
     collects f s (mkSt a w (trace s ++ [Ev c r])) (f (Ev c r)) ->
     Q (Ok r) (mkSt a w (trace s ++ [Ev c r]))) ->
  Q NoFuel s ->
  wp (sys c) Q s.
Proof.
  intros H HN. apply wp_sys_any; [|done]. intros r a w Hs. apply (H r a w Hs), collects_one.
Qed.

Lemma wp_sys_returns {X S W T} {E : Env S W} `{!Returns E} (f : event -> list X) (c : syscall T) (s : st S W) Q :
  (forall r a w, env_step c (agent s) (world s) = Some (r, a, w) ->
     collects f s (mkSt a w (trace s ++ [Ev c r])) (f (Ev c r)) ->
     Q (Ok r) (mkSt a w (trace s ++ [Ev c r]))) ->
  wp (sys c) Q s.
Proof.
  intros H. apply wp_sys. intros r a w Hs. apply (H r a w Hs), collects_one.
Qed.

(** ** What was received *)

(** The bytes a system call delivered from a TCP connection. *)
Definition ev_received (e : event) : list byte :=
  match e with
  | Ev c r =>
      match c in syscall T return T -> list byte with
      | sys_recv _ _ => fun r => match r with IoData l => l | IoErr _ => [] end
      | _ => fun _ => []
      end r
  end.

Abbreviation gains := (collects ev_received).

(** Everything but [recv]. *)
Definition not_recv (T : Type) (c : syscall T) : bool :=
  match c with sys_recv _ _ => false | _ => true end.

Lemma gains_calls {S W} (s s' : st S W) : calls not_recv s s' -> gains s s' [].
Proof. apply collects_calls. by intros ? []. Qed.

Section Received.
Context {W : Type} {E : Env Agent W} (t : tcp).
Hypothesis Hb : recv_bounded E.

(** The bytes behind the answer of [Read1]. *)
Definition read_bytes (r : ChannelException + option byte) : list byte :=
  match r with inr (Some b) => [b] | _ => [] end.

(** Normal results; the receive functions have no other but waiting for ever. *)
Definition if_ok {A} (Q : A -> Prop) (o : outcome A) : Prop :=
  match o with Ok a => Q a | _ => True end.

Lemma wp_tcp_Read_gains s :
  wp (tcp_Read t 1) (fun o s' =>
    match o with
    | Ok l => gains s s' l /\ (length l <= 1)%nat
    | Throw _ => gains s s' []
    | _ => True
    end) s.
Proof.
  apply wp_bind. cbn. destruct (negb _); [apply collects_refl|].
  apply wp_bind. cbn. apply wp_bind. apply (wp_sys_collects ev_received); [|done].
  intros [l|err] a w Hs Hg.
  - apply Hb in Hs. cbn in Hg. apply wp_bind.
    apply wp_keeps_run with (R := calls not_recv); [| | |intros _ s1 H1; apply gains_calls in H1|done].
    { effects. apply tcp_Close_calls. by intros ? []. }
    1,2: effects; apply tcp_Close_avoids, _.
    apply wp_bind.
    apply wp_keeps_run with (R := calls not_recv); [| | |intros _ s2 H2; apply gains_calls in H2|done].
    { apply tcp_touch_calls. by intros ? []. }
    1,2: apply tcp_touch_avoids, _.
    apply wp_mret. split; [|simpl in Hs; lia].
    eapply collects_nil_r; [exact Hg|]. by eapply collects_nil_l.
  - case_bool; [split; [apply Hg|simpl; auto with arith]|apply Hg].
Qed.

Lemma wp_Read1_gains s :
  wp (Read1 (ops (Tcp t))) (fun o s' => if_ok (fun r => gains s s' (read_bytes r)) o) s.
Proof.
  apply wp_bind, wp_attempt. eapply wp_mono; [|apply wp_tcp_Read_gains].
  intros [l|e| |] s1; try done. intros [Hg Hl]. destruct l as [|b [|]]; simpl in *; [done..|lia].
Qed.

Lemma wp_scan_start_gains start n r s :
  wp (scan_start (ops (Tcp t)) start n r) (fun o s' =>
    if_ok (fun r' => exists pre, gains s s' pre /\
      read_bytes r' `suffix_of` read_bytes (inr r) ++ pre) o) s.
Proof.
  revert r s. induction n as [|n IH]; intros [b|] s; simpl.
  all: try (apply wp_mret; exists []; split; [apply collects_refl|]; by apply suffix_nil).
  all: destruct (start b); [apply wp_mret; exists []; split; [apply collects_refl|done]|].
  { done. }
  apply wp_bind. eapply wp_mono; [|apply wp_Read1_gains]. intros [r|e| |] s1 Hg; try done.
  destruct r as [e|r].
  - apply wp_mret. exists []. split; [done|]. by apply suffix_nil.
  - eapply wp_mono; [|apply IH]. intros [r'|e| |] s2; try done.
    intros (pre & Hg2 & Hs). exists (read_bytes (inr r) ++ pre).
    split; [by eapply collects_trans|]. by apply suffix_cons_r.
Qed.

Lemma wp_ack_body_gains n p b s :
  wp (ack_body (ops (Tcp t)) n p b) (fun o s' =>
    if_ok (fun r => exists bs, gains s s' bs /\ snd r = p ++ b :: bs) o) s.
Proof.
  revert p b s. induction n as [|n IH]; intros p b s; simpl; [done|].
  apply wp_bind. eapply wp_mono; [|apply wp_Read1_gains]. intros [r|e| |] s1 Hg; try done.
  destruct r as [e|[b'|]]; [apply wp_mret; by exists []| |apply wp_mret; by exists []].
  eapply wp_mono; [|apply IH]. intros [r'|e| |] s2; try done.
  intros (bs & Hg2 & Hs). exists ([b'] ++ bs). split; [by eapply collects_trans|].
  rewrite Hs. by rewrite <- app_assoc.
Qed.

(** An acknowledgement is the last thing received. *)
Lemma wp_ReceiveAckFrom_gains n s :
  wp (ReceiveAckFrom (ops (Tcp t)) n) (fun o s' =>
    if_ok (fun r => exists pre, gains s s' (pre ++ snd r)) o) s.
Proof.
  apply wp_bind. eapply wp_mono; [|apply wp_Read1_gains]. intros [r|e| |] s1 Hg; try done.
  destruct r as [e|[b|]]; [apply wp_mret; by exists []| |apply wp_mret; by exists []].
  apply wp_bind.
  apply wp_keeps_run with (R := calls not_recv); [| | |intros _ s2 H2; apply gains_calls in H2|done].
  { apply tcp_SetTimeOut_calls. by intros ? []. }
  1,2: apply tcp_SetTimeOut_avoids, _.
  apply wp_bind. eapply wp_mono; [|apply wp_scan_start_gains]. intros [r'|e| |] s3; try done.
  intros (pre & Hg3 & q & Hq).
  assert (Hg' : gains s s3 ([b] ++ pre)).
  { eapply collects_trans; [exact Hg|]. by eapply collects_nil_l. }
  destruct r' as [e|[b'|]].
  - apply wp_mret. exists ([b] ++ pre). by rewrite app_nil_r.
  - eapply wp_mono; [|apply wp_ack_body_gains]. intros [r|e| |] s4; try done.
    intros (bs & Hg4 & Hr). exists q. rewrite Hr. simpl in *.
    change (q ++ b' :: bs) with (q ++ [b'] ++ bs). rewrite app_assoc, <- Hq.
    by eapply collects_trans.
  - apply wp_mret. exists ([b] ++ pre). by rewrite app_nil_r.
Qed.
End Received.

(** ** What was sent *)

(** A buffer handed to [send] and the result. *)
Definition ev_sent (e : event) : list (list byte * Z) :=
  match e with
  | Ev c r =>
      match c in syscall T return T -> list (list byte * Z) with
      | sys_send _ buf => fun n => [(buf, n)]
      | _ => fun _ => []
      end r
  end.

Abbreviation sent := (collects ev_sent).

Definition no_send (T : Type) (c : syscall T) : bool :=
  match c with sys_send _ _ => false | _ => true end.

Lemma sent_calls {S W} (s s' : st S W) : calls no_send s s' -> sent s s' [].
Proof. apply collects_calls. by intros ? []. Qed.

Lemma port_no_send T (c : syscall T) : port_call c = true -> no_send T c = true.
Proof. by destruct c. Qed.

Section Sent.
Context {W : Type} {E : Env Agent W} (t : tcp).

(** How a write to the server ends. *)
Definition failed (p : packet) (x : list byte * Z) : Prop := fst x = p /\ snd x < 0.

Lemma wp_tcp_Write_sent b (s : st Agent W) :
  wp (tcp_Write t b) (fun o s' =>
    match o with
    | Ok n => 0 <= n /\ sent s s' [(b, n)]
    | Throw _ => exists l, sent s s' l /\ (length l <= 1)%nat /\ Forall (failed b) l
    | Undef => False
    | NoFuel => exists l, sent s s' l /\ (length l <= 1)%nat
    end) s.
Proof.
  apply wp_bind, wp_gets. case_bool.
  { exists []. split; [apply collects_refl|]. split; [simpl; lia|done]. }
  assert (Htouch : forall s1, wp (tcp_touch t) (fun o s' => (o = NoFuel \/ o = Ok tt) /\ sent s1 s' []) s1).
  { intros s1. apply (wp_keeps_run (calls no_send));
      [apply tcp_touch_calls; apply port_no_send|apply tcp_touch_avoids, _..|intros []|]; intros s' H';
      (split; [auto|by apply sent_calls]). }
  apply wp_bind. eapply wp_mono; [|apply Htouch]. intros o s1 [[->| ->] H1].
  { exists []. split; [done|simpl; lia]. }
  apply wp_bind, wp_gets, wp_bind. apply (wp_sys_collects ev_sent); [|exists []; split; [done|simpl; lia]].
  intros n a w _ H2. cbn [ev_sent] in H2.
  set (s2 := mkSt a w _) in H2 |- *. clearbody s2.
  assert (H3 : sent s s2 [(b, n)]) by (by eapply collects_nil_l). case_bool; to_prop.
  - exists [(b, n)]. split_and!; [done|simpl; lia|by repeat constructor].
  - apply wp_bind. eapply wp_mono; [|apply Htouch]. intros o s3 [[->| ->] H4].
    { exists [(b, n)]. split; [by eapply collects_nil_r|simpl; lia]. }
    apply wp_mret. split; [done|]. by eapply collects_nil_r.
Qed.

End Sent.

(** ** Ports in order *)

(** From a state [TCPPort] can be in, the port goes to such a state. *)
Definition port_kept {W} (t : tcp) (s s' : st Agent W) : Prop :=
  port_ok (get_tcp t (agent s)) -> port_ok (get_tcp t (agent s')).

#[global] Instance port_kept_preorder {W} t : PreOrder (port_kept (W := W) t).
Proof. split; unfold port_kept; [by intros s|intros s1 s2 s3; auto]. Qed.

Section Ports.
Context {W : Type} {E : Env Agent W} `{!Returns E} (t : tcp) (Hq : quiet E t).

Abbreviation port s := (get_tcp t (agent s)).

Lemma port_kept_conn s s' : conn (port s') = conn (port s) -> port_kept (W := W) t s s'.
Proof. intros H Hok. by eapply port_ok_conn. Qed.

Lemma sys_port {T} (c : syscall T) : keeps (port_kept t) (sys c).
Proof.
  intros s. apply (wp_sys_tcp t Hq c (fun _ s' => port_kept t s s')). intros r s' Hp _ _.
  apply port_kept_conn. by rewrite Hp.
Qed.

Lemma tcp_SetTimeOut_port us : keeps (port_kept t) (tcp_SetTimeOut (W := W) t us).
Proof.
  intros s. apply (wp_tcp_SetTimeOut t Hq us (fun _ s' => port_kept t s s')).
  intros s' H. by apply port_kept_conn.
Qed.

Lemma tcp_Close_port : keeps (port_kept t) (tcp_Close (W := W) t).
Proof.
  intros s Hok. apply (wp_tcp_Close_ok t Hq (fun _ s' => port_ok (port s'))); [done|].
  intros s' [= Hi Hb]. apply port_ok_disconnected; auto.
Qed.

Lemma tcp_Write_port b : keeps (port_kept t) (tcp_Write (W := W) t b).
Proof. intros s Hok. apply (wp_tcp_Write t Hq b s Hok). Qed.

Lemma tcp_Read_port n : recv_bounded E -> keeps (port_kept t) (tcp_Read (W := W) t n).
Proof. intros Hrb s Hok. apply (wp_tcp_Read t Hq n s Hrb Hok). Qed.

Lemma tcp_Open_at_port h n : socket_fresh E -> keeps (port_kept t) (tcp_Open_at (W := W) t h n).
Proof.
  intros Hs s Hok. apply (wp_tcp_Open_at t Hq Hs h n (fun _ s' => port_ok (port s'))); [done|].
  intros r s' H. apply H.
Qed.
End Ports.

End Traffic.
