(* ===== verification/Protocol.v ===== *)
(** * Protocol: the conversations with the post and with the server

    The class [Protocol] (device-agent/src/Protocol.h, Protocol.cpp).  Its fields
    are the record [Protocol] of [Agent]; its methods are computations of the
    monad, run by the data thread, the reading thread and the control thread.

    Arithmetic on [int] and [long] (32 bits on the target) that the code does
    without a check is [checked]: overflow of a signed type and division by zero
    are undefined behaviour.  Arguments of log calls are evaluated, so reads they
    make are kept. *)

From S2P Require Import Prelude CRC16 Packet PacketQueue Sys Effects Agent Channel Receive.
Import PacketQueue Packet Sys Effects Agent Channel Receive.

Module Protocol.

(** A signed 32-bit result. *)
Definition checked (z : Z) : option Z :=
  if (- 2 ^ 31 <=? z) && (z <? 2 ^ 31) then Some z else None.

(** [a / b] on signed integers: truncated, undefined for [b = 0]. *)
Definition div_int (a b : Z) : option Z := if b =? 0 then None else checked (Z.quot a b).

(** The two expressions on times the class uses:
    [t.tv_sec * 1000000 + t.tv_usec] and [((t.tv_sec / n) + 1) * n]. *)
Definition tv_micros (t : timeval) : option Z :=
  s ← checked (tv_sec t * 1000000); checked (s + tv_usec t).

Definition align_up (sec n : Z) : option Z :=
  q ← div_int sec n; q1 ← checked (q + 1); checked (q1 * n).

Section Methods.
Context {W : Type} {E : Env Agent W}.
(** [sc]: plain [char] is signed; [gmtoff]: the time zone of [mktime]; [fuel] bounds
    the loops that only the peers end. *)
Context (sc : bool) (gmtoff : Z) (fuel : nat).

Abbreviation MA := (M Agent W).

Definition pget {A} (f : Agent.Protocol -> A) : MA A := gets (fun a => f (protocol a)).
Definition pset (f : Agent.Protocol -> Agent.Protocol) : MA unit := modify (upd_protocol f).

(** [Modem::IsPowerOff]. *)
Definition IsPowerOff : MA bool := gets (fun a => bPowerOff (modem a)).

(** A frame received into a packet that dies with the exception. *)
Definition receive (c : chan) : MA packet :=
  r <- ReceiveFrameFrom sc (ops c) fuel;
  match r with
  | (Some e, _) => throw e
  | (None, p) => mret p
  end.

Definition send (c : chan) (p : packet) : MA unit := SendTo (ops c) p.

(** ** Timers *)

(** [Protocol::setReservedTime]: the new value of the timer. *)
Definition setReservedTime (n : Z) (bAlign : bool) : MA timeval :=
  tmNow <- sys sys_gettimeofday;
  if bAlign then
    sec <- lift (align_up (tv_sec tmNow) n);
    mret (mkTv sec 0)
  else
    sec <- lift (checked (tv_sec tmNow + n));
    mret (mkTv sec (tv_usec tmNow)).

(** [Protocol::isTimeForAction]. *)
Definition isTimeForAction (timer : timeval) : MA bool :=
  tmNow <- sys sys_gettimeofday;
  mret (negb (timer_lt tmNow timer)).

(** [Protocol::setLastActionTime]. *)
Definition setLastActionTime (t : timeval) : MA unit :=
  last <- pget tmLastActive;
  if timer_gt t last then pset (set_tmLastActive t) else mret tt.

(** [Protocol::IsTimeForSleep]. *)
Definition IsTimeForSleep : MA bool :=
  tmNow <- sys sys_gettimeofday;
  t <- @GetActiveTime _ (ops (Tcp srvData)); setLastActionTime t;;
  t <- @GetActiveTime _ (ops (Tcp srvControl)); setLastActionTime t;;
  last <- pget tmLastActive;
  idle <- pget nIdleTimeSetting;
  mret (u32 idle <? u32 (tv_sec (timersub tmNow last))).

(** [Protocol::PatrolRest]. *)
Definition PatrolRest : MA unit :=
  tmNow <- sys sys_gettimeofday;
  data <- pget tmCurrentDataActive;
  health <- pget tmHealthCheckActive;
  n1 <- lift (tv_micros (timersub data tmNow));
  n2 <- lift (tv_micros (timersub health tmNow));
  let n1 := if n1 <? 0 then 0 else n1 in
  let n2 := if n2 <? 0 then 0 else n2 in
  sys (sys_usleep (if n2 <? n1 then n2 else n1)).

(** [Protocol::SleepForPowerOn]. *)
Definition SleepForPowerOn : MA unit :=
  tmNow <- sys sys_gettimeofday;
  n <- pget nIntervalSetting;
  sec <- lift (align_up (tv_sec tmNow) n);
  us <- lift (tv_micros (timersub (mkTv sec 0) tmNow));
  sys (sys_usleep (u32 us)).

(** [Protocol::Sleep]. *)
Definition Sleep : MA Z := mret 0.

(** ** Negotiating a port with the server *)

(** The state of the loop of [negoiateChannel]. *)
Record nego := mkNego { start_port : Z; retry : Z; retry_data : Z }.

Definition toggle_port (nStartPort port : Z) : Z :=
  if port =? nStartPort then port + 1 else nStartPort.

(** One turn of the loop: [inl] to go round again, [inr] the value returned. *)
Definition nego_step (port : tcp) (nStartPort : Z) (x : nego) : MA (nego + Z) :=
  tmStart <- sys sys_gettimeofday;
  server <- pget strServerName;
  r <- tcp_Open_at port server (start_port x);
  if r <? 0 then
    tmNow <- sys sys_gettimeofday;
    let retry := retry x + 1 in
    if retry =? 6 then mret (inr 0)
    else
      let sp := if Z.rem retry 3 =? 0 then toggle_port nStartPort (start_port x) else start_port x in
      uSleep <- lift (tv_micros (timersub tmNow tmStart));
      (if 0 <? uSleep then sys (sys_usleep uSleep) else mret tt);;
      mret (inl (mkNego sp retry (retry_data x)))
  else
    tcp_SetTimeOut port 20000000;;
    r <- ReceiveFrameFrom sc (ops (Tcp port)) fuel;
    let cmd := snd r in
    if Packet.GetSize cmd =? 0 then
      let retry_data := retry_data x + 1 in
      if retry_data =? 4 then mret (inr 0)
      else mret (inl (mkNego (toggle_port nStartPort (start_port x)) 0 retry_data))
    else
      machine <- pget Machine;
      eCmd <- lift (CommandType cmd);
      nNum <- lift (GetAssignedPort cmd);
      ack <- lift (Ack true machine eCmd nNum);
      attempt (send (Tcp port) ack);;
      tcp_Close port;;
      mret (inr nNum).

(** The [do ... while (true)] of [Protocol::negoiateChannel], followed for [turns]
    turns. *)
Definition nego_loop (turns : nat) (port : tcp) (nStartPort : Z) : MA Z :=
  loop turns (nego_step port nStartPort) (mkNego nStartPort 0 0).

(** [Protocol::negoiateChannel].  The loop makes at most 24 turns, however long it is
    followed: each of the four empty answers is preceded by at most five failed
    connections ([nego_loop_spec], [negotiation_terminates]). *)
Definition nego_fuel : nat := 24.

Definition negoiateChannel (port : tcp) (nStartPort : Z) : MA Z := nego_loop nego_fuel port nStartPort.

(** [if (diff < nNegotialTimeOut*1000000) usleep(...)] after a failed connection. *)
Definition sleep_rest (tmStart : timeval) (us : Z) : MA unit :=
  tmNow <- sys sys_gettimeofday;
  let tmDiff := timersub tmNow tmStart in
  d <- lift (tv_micros tmDiff);
  if d <? us then
    r <- lift (s ← checked (tv_sec tmDiff * 1000000); u ← checked (us - s); checked (u - tv_usec tmDiff));
    sys (sys_usleep (u32 r))
  else mret tt.

(** One connection attempt: [Some start] when it failed. *)
Definition try_connect (port : tcp) (nPort : Z) : MA (option (timeval * Z)) :=
  SetRemotePort port nPort;;
  n <- pget nNegotialTimeOut;
  us <- lift (checked (n * 1000000));
  tcp_SetTimeOut port us;;
  tmStart <- sys sys_gettimeofday;
  r <- tcp_Connect port;
  mret (if r =? 0 then None else Some (tmStart, us)).

(** The inner loop of [NegoiateControlChannel]: [true] when connected. *)
Fixpoint control_tries (port : tcp) (nPort : Z) (retry : nat) : MA bool :=
  match retry with
  | O => mret false
  | S retry =>
      r <- try_connect port nPort;
      match r with
      | None =>
          pset (set_bExtCommunicationError false);;
          pset (set_bControlDone true);;
          mret true
      | Some (tmStart, us) => sleep_rest tmStart us;; control_tries port nPort retry
      end
  end.

(** The outer loop, [retry_connect] rounds. *)
Fixpoint control_rounds (port : tcp) (nPort : Z) (retry_connect : nat) : MA unit :=
  let failed := pset (set_bExtCommunicationError true) in
  if nPort =? 0 then failed
  else
    match retry_connect with
    | O => failed
    | S retry_connect =>
        connected <- control_tries port nPort 3;
        if connected : bool then mret tt
        else
          cp <- pget nCommandPort;
          nPort <- negoiateChannel port cp;
          control_rounds port nPort retry_connect
    end.

(** [Protocol::NegoiateControlChannel]. *)
Definition NegoiateControlChannel (port : tcp) : MA unit :=
  cp <- pget nCommandPort;
  nPort <- negoiateChannel port cp;
  control_rounds port nPort 1.

(** The inner loop of [NegoiateDataChannel]: [Some r] when the method returns [r]. *)
Fixpoint data_tries (port : tcp) (nPort : Z) (retry : nat) : MA (option Z) :=
  match retry with
  | O => mret None
  | S retry =>
      r <- try_connect port nPort;
      match r with
      | None => pset (set_bExtCommunicationError false);; mret (Some nPort)
      | Some (tmStart, us) =>
          off <- IsPowerOff;
          if off : bool then mret (Some 0)
          else sleep_rest tmStart us;; data_tries port nPort retry
      end
  end.

Fixpoint data_rounds (port : tcp) (nPort : Z) (retry_connect : nat) : MA Z :=
  let failed :=
    off <- IsPowerOff;
    (if off : bool then mret tt else pset (set_bExtCommunicationError true));;
    mret (-1) in
  if nPort =? 0 then failed
  else
    match retry_connect with
    | O => failed
    | S retry_connect =>
        r <- data_tries port nPort 3;
        match r with
        | Some v => mret v
        | None =>
            off <- IsPowerOff;
            if off : bool then mret 0
            else
              dp <- pget nDataPort;
              nPort <- negoiateChannel port dp;
              data_rounds port nPort retry_connect
        end
    end.

(** [while (!bControlDone) { sleep(1); if (modem.IsPowerOff()) return 0; }]: [false]
    when the modem went off; only the control thread ends the wait. *)
Definition wait_control : MA bool :=
  loop fuel (fun _ : unit =>
    b <- pget bControlDone;
    if b : bool then mret (inr true)
    else
      sys (sys_sleep 1);;
      off <- IsPowerOff;
      mret (if off : bool then inr false else inl tt)) tt.

(** [Protocol::NegoiateDataChannel]. *)
Definition NegoiateDataChannel (port : tcp) : MA Z :=
  ready <- wait_control;
  if negb ready then mret 0
  else
    dp <- pget nDataPort;
    nPort <- negoiateChannel port dp;
    data_rounds port nPort 1.

(** ** Reading the post *)

(** [Protocol::GetMPTime]. *)
Definition GetMPTime : MA Z :=
  machine <- pget Machine;
  cmd <- lift (SetCommand (cmdWord GetTime) machine);
  send Serial cmd;;
  @SetTimeOut _ (ops Serial) 3000000;;
  answer <- receive Serial;
  if Packet.GetSize answer =? 0 then mret 0
  else lift (Packet.GetMPTime gmtoff answer).

(** [Protocol::GetMPIntervalSecond]. *)
Definition GetMPIntervalSecond : MA Z :=
  machine <- pget Machine;
  cmd <- lift (SetCommand (cmdWord GetCondition) machine);
  send Serial cmd;;
  @SetTimeOut _ (ops Serial) 10000000;;
  answer <- receive Serial;
  if Packet.GetSize answer =? 0 then mret 120
  else n <- lift (GetInterval answer); mret (n * 60).

(** The clock of the agent follows the post's when they differ by more than 5 s. *)
Definition sync_clock (nowMP : Z) : MA unit :=
  if nowMP =? 0 then mret tt
  else
    nowLocal <- sys sys_time;
    if nowLocal =? -1 then mret tt
    else
      dt <- lift (checked (if nowLocal <? nowMP then nowMP - nowLocal else nowLocal - nowMP));
      if 5 <? dt then sys (sys_settimeofday (mkTv nowMP 0));; mret tt else mret tt.

(** Less than 10 s before the reserved time: sleep past it. *)
Definition wait_reserved (nowMP : Z) : MA unit :=
  t <- pget tmCurrentDataActive;
  if negb (nowMP =? 0) && (nowMP <? tv_sec t) then
    dt <- lift (checked (tv_sec t - nowMP));
    if (0 <? dt) && (dt <? 10) then sys (sys_sleep (dt + 1)) else mret tt
  else mret tt.

(** One turn of the request loop: [true] when it leaves the loop by [break]; the
    answer survives an exception. *)
Definition request_step (port : chan) (request data : packet) : MA (bool * packet) :=
  r <- attempt (send port request);
  match r with
  | inl _ => mret (false, data)
  | inr _ =>
      r <- ReceiveFrameFrom sc (ops port) fuel;
      match r with
      | (Some _, data) => mret (false, data)
      | (None, data) =>
          eCmd <- lift (FrameCommandType data);
          r <- (if decide (eCmd = DataRequest) then mret (None, data)
                else ReceiveFrameFrom sc (ops port) fuel);
          match r with
          | (Some _, data) => mret (false, data)
          | (None, data) => mret (negb (Packet.GetSize data =? 0), data)
          end
      end
  end.

(** The loop, [retry] turns left: the final value of [retry] and the answer. *)
Fixpoint request_loop (port : chan) (request : packet) (retry : nat) (data : packet)
    : MA (nat * packet) :=
  match retry with
  | O => mret (O, data)
  | S retry' =>
      r <- request_step port request data;
      if fst r : bool then mret (retry, snd r)
      else request_loop port request retry' (snd r)
  end.

(** [Protocol::RequestCurrentData]; [data] is the out-parameter. *)
Definition RequestCurrentData (port : chan) (data : packet) : MA packet :=
  timer <- pget tmCurrentDataActive;
  due <- isTimeForAction timer;
  if negb due then mret data
  else
    nowMP <- GetMPTime;
    sync_clock nowMP;;
    wait_reserved nowMP;;
    n <- GetMPIntervalSecond;
    let n := if n =? 0 then 120 else n in
    timer <- setReservedTime n true;
    pset (set_tmCurrentDataActive timer);;
    machine <- pget Machine;
    request <- lift (SetCommand (cmdWord DataRequest) machine);
    @SetTimeOut _ (ops port) 1000000;;
    @Lock _ (ops port);;
    r <- request_loop port request 3 data;
    @Unlock _ (ops port);;
    let '(retry, data) := r in
    pset (set_bInCommunicationError ((retry =? 0)%nat && (Packet.GetSize data =? 0)));;
    lift (GetDataNo data);;
    mret data.

(** ** Sending queued data *)

(** [pthread_mutex_lock] on the mutex of a shared queue: while another thread holds it,
    the thread sleeps in the kernel and tries again.  Afterwards the mutex is free to
    be taken. *)
Definition acquire (get : Agent -> DataPacketQueue) : MA unit :=
  loop fuel (fun _ : unit =>
    q <- gets get;
    if mutex q then sys sys_mutex_wait;; mret (inl tt) else mret (inr tt)) tt.

(** [queue.GetSize()], [Front()], [Push()] and [Pop()] of the data queue. *)
Definition dq_get {A} (f : DataPacketQueue -> A) : MA A := gets (fun a => f (dataQueue a)).
Definition dq_pop : MA unit :=
  acquire dataQueue;;
  q <- dq_get id; q <- lift (PacketQueue.Pop q); modify (set_dataQueue q).
Definition dq_push (p : packet) : MA unit :=
  acquire dataQueue;;
  q <- dq_get id; q <- lift (Push q p); modify (set_dataQueue q).

(** The exchange of one packet: [port.Write] of [sizeof(DataPacketFrame)] bytes of
    it, then the acknowledgement; the exception, if any, and what was received. *)
Definition send_data (port : chan) (p : packet) : MA (option ChannelException * packet) :=
  buf <- lift (read_mem (p ++ [0]) sizeof_DataPacketFrame);
  w <- attempt (@Write _ (ops port) buf);
  match w with
  | inl e => mret (Some e, [])
  | inr _ => ReceiveAckFrom (ops port) fuel
  end.

(** What follows an exception "not connected": [true] to go on, [false] to return. *)
Definition reconnect (port : chan) : MA bool :=
  r <- match port with
       | Tcp t => n <- NegoiateDataChannel t; mret (negb (n =? 0))
       | Serial => @Open _ (ops port);; mret true
       end;
  if negb r then mret false
  else
    ext <- pget bExtCommunicationError;
    if ext : bool then mret false
    else off <- IsPowerOff; mret (negb off).

(** The test on the acknowledgement and what it decides: [inl] the new [retry],
    [inr] to return. *)
Definition judge_ack (p ack : packet) (retry : Z) : MA (Z + unit) :=
  ok <- (if IsAck ack then no <- lift (GetDataNo p); lift (IsAckNo ack no) else mret false);
  if ok : bool then
    lift (GetAckNo ack);;
    dq_pop;;
    mret (inl 0)
  else if 3 <? retry then
    off <- IsPowerOff;
    (if off : bool then mret tt else pset (set_bExtCommunicationError true));;
    mret (inr tt)
  else mret (inl (retry + 1)).

(** One turn of the loop of [SendCurrentData]. *)
Definition send_step (port : chan) (retry : Z) : MA (Z + unit) :=
  n <- dq_get PacketQueue.GetSize;
  if n =? 0 then mret (inr tt)
  else
    p <- (q <- dq_get id; lift (Front q));
    lift (GetDataNo p);;
    eCmd <- lift (FrameCommandType p);
    if decide (eCmd <> DataRequest) then dq_pop;; mret (inl retry)
    else
      r <- send_data port p;
      let '(e, ack) := r in
      if match e with Some e => bUnConnected e | None => false end then
        go <- reconnect port;
        mret (if go : bool then inl retry else inr tt)
      else
        off <- IsPowerOff;
        if off : bool then mret (inr tt)
        else judge_ack p ack retry.

(** [Protocol::SendCurrentData] on the data queue. *)
Definition SendCurrentData (port : chan) : MA unit :=
  n <- pget nIntervalSetting;
  timer <- setReservedTime n true;
  pset (set_tmSendDataActive timer);;
  loop fuel (send_step port) 0.

(** ** Health checks *)

(** [statusQueue.Push(status)] and [statusQueue.Pop()]. *)
Definition the_statusQueue (a : Agent) : DataPacketQueue := statusQueue (protocol a).
Definition status_push (status : packet) : MA unit :=
  acquire the_statusQueue;;
  q <- pget statusQueue; q <- lift (Push q status); pset (set_statusQueue q).
Definition status_pop : MA unit :=
  acquire the_statusQueue;;
  q <- pget statusQueue; q <- lift (PacketQueue.Pop q); pset (set_statusQueue q).

(** [Protocol::HealthCheck]. *)
Definition HealthCheck (dev : chan) (status : packet) : MA packet :=
  timer <- pget tmHealthCheckActive;
  due <- isTimeForAction timer;
  if negb due then mret status
  else
    timer <- setReservedTime 30 true;
    pset (set_tmHealthCheckActive timer);;
    last <- pget nLastStatus;
    machine <- pget Machine;
    int_err <- pget bInCommunicationError;
    ext_err <- pget bExtCommunicationError;
    cmd <- lift (MPHealthCheckCmdPacket last machine int_err ext_err);
    send dev cmd;;
    status <- receive dev;
    nNewStatus <- lift (GetStatus status);
    lift (GetDataNo status);;
    valid <- lift (IsValidStatus status);
    if negb valid then mret status
    else
      last <- pget nLastStatus;
      if nNewStatus =? last then mret status
      else
        pset (set_nLastStatus nNewStatus);;
        status_push status;;
        mret status.

(** One turn of the loop of [HealthCheckReport]; [retry] counts twice a failure that
    threw. *)
Definition report_step (port : chan) (retry : Z) : MA (Z + unit) :=
  q <- pget statusQueue;
  if PacketQueue.GetSize q =? 0 then mret (inr tt)
  else
    statusAnswer <- lift (Front q);
    lift (GetStatus statusAnswer);;
    w <- attempt (send port statusAnswer);
    r <- match w with
         | inl e => mret (Some e, [])
         | inr _ => ReceiveAckFrom (ops port) fuel
         end;
    let '(e, ack) := r in
    let retry := match e with Some _ => retry + 1 | None => retry end in
    ok <- (if IsAck ack then no <- lift (GetDataNo statusAnswer); lift (IsAckNo ack no) else mret false);
    if ok : bool then
      status_pop;;
      mret (inl 0)
    else if 2 <? retry then
      pset (set_bExtCommunicationError true);;
      mret (inr tt)
    else mret (inl (retry + 1)).

(** [Protocol::HealthCheckReport]. *)
Definition HealthCheckReport (port : chan) : MA unit :=
  ext <- pget bExtCommunicationError;
  closed <- (if ext : bool then mret true else b <- @IsOpen _ (ops port); mret (negb b));
  if closed : bool then mret tt
  else loop fuel (report_step port) 0.

(** The value [write] returns. *)
Definition write_result (r : io_result) : Z :=
  match r with IoData l => Z.of_nat (length l) | IoErr _ => -1 end.

(** The loop of [DataPacketQueue::Save] over the list. *)
Fixpoint save_packets (fd : Z) (l : list packet) : MA unit :=
  match l with
  | [] => mret tt
  | p :: l =>
      let n := Packet.GetSize p in
      if n =? 0 then save_packets fd l
      else
        r <- sys (sys_write fd (le32_bytes n));
        if negb (write_result r =? 4) then mret tt
        else
          r <- sys (sys_write fd p);
          if negb (n =? write_result r) then mret tt
          else save_packets fd l
  end.

(** [pthread_mutex_lock(&mutex)] and [pthread_mutex_unlock(&mutex)] around the loop. *)
Definition lock_queue (get : Agent -> DataPacketQueue) (set : DataPacketQueue -> Agent -> Agent) : MA unit :=
  acquire get;;
  q <- gets get; q <- lift (lock q); modify (set q).
Definition unlock_queue (get : Agent -> DataPacketQueue) (set : DataPacketQueue -> Agent -> Agent) : MA unit :=
  q <- gets get; modify (set (unlock q)).

(** [DataPacketQueue::Save] on a shared queue.  The mutex is held from before the first
    [write] until after [close]; meanwhile no other thread changes the list
    (see [Exclusion]), so that the iterator visits what was there when
    the mutex was taken. *)
Definition save_queue (get : Agent -> DataPacketQueue) (set : DataPacketQueue -> Agent -> Agent)
    (name : cstring) : MA unit :=
  fd <- sys (sys_create name);
  if fd <? 0 then mret tt
  else
    lock_queue get set;;
    q <- gets get;
    save_packets fd (queue q);;
    sys (sys_close fd);;
    unlock_queue get set.

(** [Protocol::SaveStatus] and [Protocol::LoadStatus]. *)

(** "./status.data". *)
Definition status_data : cstring := [46; 47; 115; 116; 97; 116; 117; 115; 46; 100; 97; 116; 97].

Definition SaveStatus : MA unit :=
  q <- pget statusQueue;
  if PacketQueue.GetSize q =? 0 then mret tt
  else save_queue the_statusQueue (fun q => upd_protocol (set_statusQueue q)) status_data.

Definition LoadStatus : MA unit :=
  f <- sys (sys_read_file status_data);
  q <- pget statusQueue;
  q <- lift (Load sc f q);
  pset (set_statusQueue q).

(** ** Commands of the server *)

(** [Protocol::GetCommand]. *)
Definition GetCommand (port : chan) : MA (CommunicationCommand * packet) :=
  cmd <- receive port;
  eCmd <- lift (CommandType cmd);
  mret (eCmd, cmd).

(** One turn of the loop of [TransferCmd] on [retry] and [answer]; [inr] when the loop
    is left. *)
Definition transfer_step (dev port : chan) (cmd : packet) (x : Z * packet)
    : MA ((Z * packet) + (Z * packet)) :=
  let '(retry, answer) := x in
  let again answer :=
    let retry := retry + 1 in
    mret (if retry <? 3 then inl (retry, answer) else inr (retry, answer)) in
  let empty := Packet.GetSize answer =? 0 in
  (if empty then attempt (send dev cmd);; mret tt else mret tt);;
  r <- (if empty then ReceiveFrameFrom sc (ops dev) fuel else mret (None, answer));
  let '(e, answer) := r in
  match e with
  | Some _ => again answer
  | None =>
      if Packet.GetSize answer =? 0 then again answer
      else
        w <- attempt (send port answer);
        match w with
        | inl _ => again answer
        | inr _ => mret (inr (0, answer))
        end
  end.

(** [Protocol::TransferCmd]: at most three turns. *)
Definition TransferCmd (dev port : chan) (cmd : packet) : MA unit :=
  @Lock _ (ops dev);;
  @SetTimeOut _ (ops dev) 5000000;;
  r <- loop 3 (transfer_step dev port cmd) (0, []);
  let '(retry, answer) := r in
  @Unlock _ (ops dev);;
  if Packet.GetSize answer =? 0 then pset (set_bInCommunicationError true)
  else if retry =? 3 then pset (set_bExtCommunicationError true)
  else
    pset (set_bExtCommunicationError false);;
    pset (set_bInCommunicationError false).

(** ** History data *)

(** [for (i = 0; i < queue.GetSize(); i++) queue.GetAt(i).SendTo(port);] on a queue no
    other thread sees. *)
Fixpoint send_all (port : chan) (l : list packet) : MA unit :=
  match l with
  | [] => mret tt
  | p :: l => send port p;; send_all port l
  end.

(** [while (queue.GetSize() && ackNo >= queue.Front().GetDataNo()) queue.Pop();] *)
Fixpoint pop_acked (ackNo : Z) (l : list packet) : option (list packet) :=
  match l with
  | [] => Some []
  | p :: k => no ← GetDataNo p; if no <=? ackNo then pop_acked ackNo k else Some l
  end.

(** [Protocol::SendQueueData] on the elements of the queue. *)
Definition SendQueueData (l : list packet) (port : chan) : MA (list packet) :=
  loop fuel (fun l =>
    send_all port l;;
    r <- ReceiveAckFrom (ops port) fuel;
    match r with
    | (Some e, _) => throw e
    | (None, ack) =>
        l <- (if IsValidAck ack && IsAck ack then
                ackNo <- lift (GetAckNo ack); lift (pop_acked ackNo l)
              else mret l);
        mret (match l with [] => inr [] | _ => inl l end)
    end) l.

(** The loop of [HistoryDataTransfer], [n] turns left. *)
Fixpoint history_loop (dev port : chan) (n : nat) (nStart count : Z)
    (q : DataPacketQueue) (cmd : packet) : MA unit :=
  match n with
  | O => mret tt
  | S n =>
      @Lock _ (ops dev);;
      send dev cmd;;
      answer <- receive dev;
      @Unlock _ (ops dev);;
      let count := count + 1 in
      q <- lift (Push q answer);
      q <- (if count =? 10 then
              l <- SendQueueData (queue q) port; mret (mkQueue l (mutex q))
            else mret q);
      cmd <- lift (SetStartNum cmd (nStart + 1));
      history_loop dev port n (nStart + 1) count q cmd
  end.

(** [Protocol::HistoryDataTransfer]: [while (nStart <= nEnd)] makes
    [nEnd - nStart + 1] turns. *)
Definition HistoryDataTransfer (dev port : chan) (cmd : packet) : MA unit :=
  nStart <- lift (GetStartNum cmd);
  nEnd <- lift (GetEndNum cmd);
  history_loop dev port (Z.to_nat (nEnd - nStart + 1)) nStart 0 newQueue cmd.
End Methods.

End Protocol.
