(* ===== verification/Negotiation.v ===== *)
(** * Negotiation: timers and the negotiation of ports

    Theorems about the timers of [Protocol] and about [negoiateChannel],
    [NegoiateControlChannel] and [NegoiateDataChannel]: which ports are dialled and
    how often, that the negotiation ends, what the answer means and what the flags
    say afterwards. *)

From S2P Require Import Prelude CRC16 Packet PacketQueue Sys Effects Agent Channel Receive Traffic Protocol.
Import Packet Sys Effects Agent Channel Receive Traffic Protocol.

Module Negotiation.

(** ** Timers *)

Lemma checked_small z : - 2 ^ 31 <= z < 2 ^ 31 -> checked z = Some z.
Proof.
  intros H. unfold checked.
  by rewrite (proj2 (Z.leb_le _ _)), (proj2 (Z.ltb_lt _ _)) by lia.
Qed.

Lemma checked_large z : 2 ^ 31 <= z -> checked z = None.
Proof. intros H. unfold checked. rewrite (proj2 (Z.ltb_ge _ _)) by lia. by rewrite andb_false_r. Qed.

Lemma align_up_pos sec n :
  0 <= sec -> 0 < n -> sec + n < 2 ^ 31 -> align_up sec n = Some ((sec / n + 1) * n).
Proof.
  intros Hs Hn Hr. unfold align_up, div_int. rewrite (proj2 (Z.eqb_neq n 0)) by lia.
  rewrite Z.quot_div_nonneg by lia.
  pose proof (Z.div_pos sec n Hs Hn). pose proof (Z.mul_div_le sec n Hn).
  assert (sec / n <= sec) by (apply Z.div_le_upper_bound; nia).
  rewrite (checked_small (sec / n)) by lia. simpl.
  rewrite (checked_small (sec / n + 1)) by nia. simpl. apply checked_small. nia.
Qed.

Lemma align_up_next sec n : 0 < n -> sec < (sec / n + 1) * n <= sec + n.
Proof. intros Hn. pose proof (Z.div_mod sec n). pose proof (Z.mod_pos_bound sec n). lia. Qed.

(** A duration of less than 2147 seconds either way fits the arithmetic. *)
Lemma tv_micros_small t : tv_ok t -> -2147 <= tv_sec t < 2147 -> tv_micros t = Some (usecs t).
Proof.
  unfold tv_ok, tv_micros, usecs. intros Hok Hs. rewrite checked_small by lia. simpl.
  apply checked_small. lia.
Qed.

Lemma tv_micros_large t : 2148 <= tv_sec t -> tv_micros t = None.
Proof. intros H. unfold tv_micros. by rewrite checked_large by lia. Qed.

Section Timers.
Context {W : Type} {E : Env Agent W} `{!Returns E}.

Lemma sys_run {T} (c : syscall T) (s : st Agent W) r a w :
  env_step c (agent s) (world s) = Some (r, a, w) -> sys c s = (Ok r, mkSt a w (trace s ++ [Ev c r])).
Proof. unfold sys. by intros ->. Qed.

(** The first multiple of [n] seconds after [now]. *)
Definition next_slot (now : timeval) (n : Z) : Z := (tv_sec now / n + 1) * n.

(** A reserved time is the next multiple of the interval: [setReservedTime] with
    alignment returns normally, the timer it sets is a whole multiple of [n]
    seconds, lies strictly after the present and at most [n] seconds ahead; until
    then the action is not due ([isTimeForAction]) and from then on it is.
    The clock must not be within [n] seconds of its 32-bit end. *)
Theorem reserved_time_is_next_slot (s : st Agent W) now a w n :
  env_step sys_gettimeofday (agent s) (world s) = Some (now, a, w) ->
  0 <= tv_sec now -> 0 < n -> tv_sec now + n < 2 ^ 31 ->
  let t := next_slot now n in
  fst (setReservedTime n true s) = Ok (mkTv t 0) /\
  t mod n = 0 /\ tv_sec now < t <= tv_sec now + n /\
  forall s1 later a1 w1, env_step sys_gettimeofday (agent s1) (world s1) = Some (later, a1, w1) ->
    0 <= tv_usec later -> fst (isTimeForAction (mkTv t 0) s1) = Ok (t <=? tv_sec later).
Proof.
  intros Hnow Hs Hn Hr t. unfold t, next_slot.
  pose proof (align_up_next (tv_sec now) n Hn). split_and!; try lia.
  - unfold setReservedTime, bind. rewrite (sys_run _ _ _ _ _ Hnow).
    by rewrite align_up_pos by done.
  - by rewrite Z.mod_mul by lia.
  - intros s1 later a1 w1 Hl Hu. unfold isTimeForAction, bind. rewrite (sys_run _ _ _ _ _ Hl).
    cbn. f_equal. unfold timer_lt, timercmp. cbn [tv_sec tv_usec].
    apply eq_true_iff_eq. rewrite negb_true_iff, Z.leb_le.
    destruct (Z.eqb_spec (tv_sec later) ((tv_sec now / n + 1) * n)); rewrite Z.ltb_ge; lia.
Qed.

(** The rest between two patrols: up to the earlier of the two timers. *)
Definition rest_us (p : Agent.Protocol) (now : timeval) : Z :=
  Z.max 0 (Z.min (usecs (tmCurrentDataActive p) - usecs now) (usecs (tmHealthCheckActive p) - usecs now)).

(** [PatrolRest] sleeps exactly until the earlier of the data timer and the
    health timer, and not at all when one is due, as long as both are less than
    2147 seconds away; when the data timer is 2148 seconds ahead or more its
    microseconds overflow an [int] and the behaviour is undefined. *)
Theorem patrol_rest_until_next_action (s : st Agent W) now a w :
  env_step sys_gettimeofday (agent s) (world s) = Some (now, a, w) ->
  tv_ok now -> tv_ok (tmCurrentDataActive (protocol a)) -> tv_ok (tmHealthCheckActive (protocol a)) ->
  (-2147 <= tv_sec (timersub (tmCurrentDataActive (protocol a)) now) < 2147 ->
   -2147 <= tv_sec (timersub (tmHealthCheckActive (protocol a)) now) < 2147 ->
   fst (PatrolRest s) = Ok tt /\
   trace (snd (PatrolRest s)) =
     trace s ++ [Ev sys_gettimeofday now; Ev (sys_usleep (rest_us (protocol a) now)) tt]) /\
  (2148 <= tv_sec (timersub (tmCurrentDataActive (protocol a)) now) -> fst (PatrolRest s) = Undef).
Proof.
  intros Hnow Hn Hd Hh. unfold PatrolRest, bind, pget, gets. rewrite (sys_run _ _ _ _ _ Hnow).
  cbn [agent world trace]. split.
  - intros H1 H2. rewrite !tv_micros_small by auto using timersub_ok. cbn [lift mret].
    rewrite !timersub_usecs. unfold sys. cbn [agent world trace].
    replace (if _ <? _ then _ else _) with (rest_us (protocol a) now).
    + destruct (returns _ (sys_usleep (rest_us (protocol a) now)) a w) as [[[[] a1] w1] ->].
      simpl. by rewrite <- app_assoc.
    + unfold rest_us. repeat case_bool; to_prop; lia.
  - intros H1. by rewrite tv_micros_large.
Qed.

Lemma tv_sec_usecs t : tv_ok t -> tv_sec t = usecs t / 1000000.
Proof.
  intros Ht. unfold usecs. rewrite Z.add_comm, Z.div_add by lia. unfold tv_ok in Ht.
  by rewrite Z.div_small by lia.
Qed.

(** The last activity on the two server connections or before. *)
Definition last_activity (p : Agent.Protocol) : Z :=
  Z.max (usecs (tmLastActive p))
    (Z.max (usecs (tcp_tmLastAction (srvData_ p))) (usecs (tcp_tmLastAction (srvControl_ p)))).

Lemma timer_gt_usecs a b : tv_ok a -> tv_ok b -> timer_gt a b = (usecs b <? usecs a).
Proof.
  intros Ha Hb. rewrite <- (timer_lt_usecs b a) by done. unfold timer_gt, timer_lt, timercmp.
  rewrite (Z.eqb_sym (tv_sec b)). case_bool; by rewrite Z.gtb_ltb.
Qed.

Lemma setLastActionTime_run t (s : st Agent W) :
  exists s1, setLastActionTime t s = (Ok tt, s1) /\
    srvControl_ (protocol (agent s1)) = srvControl_ (protocol (agent s)) /\
    nIdleTimeSetting (protocol (agent s1)) = nIdleTimeSetting (protocol (agent s)) /\
    (tv_ok t -> tv_ok (tmLastActive (protocol (agent s))) ->
     tv_ok (tmLastActive (protocol (agent s1))) /\
     usecs (tmLastActive (protocol (agent s1))) =
       Z.max (usecs (tmLastActive (protocol (agent s)))) (usecs t)).
Proof.
  unfold setLastActionTime, bind, pget, gets.
  destruct (timer_gt t _) eqn:Hg; eexists; (split; [reflexivity|]); simpl;
    (split_and!; [done..|]); intros Ht Hl; rewrite timer_gt_usecs in Hg by done; to_prop;
    (split; [done|lia]).
Qed.

(** [IsTimeForSleep] compares the whole seconds since the last activity with the
    idle setting; but when the clock is behind the last activity, as after the
    agent itself sets it back to the post's time, the difference is converted to
    a huge unsigned number and the answer is always [true]. *)
Theorem sleep_when_idle_or_clock_set_back (s : st Agent W) now a w :
  env_step sys_gettimeofday (agent s) (world s) = Some (now, a, w) ->
  tv_ok now -> tv_ok (tmLastActive (protocol a)) ->
  tv_ok (tcp_tmLastAction (srvData_ (protocol a))) ->
  tv_ok (tcp_tmLastAction (srvControl_ (protocol a))) ->
  0 <= nIdleTimeSetting (protocol a) < 2 ^ 31 ->
  - 2 ^ 31 * 1000000 <= usecs now - last_activity (protocol a) < 2 ^ 31 * 1000000 ->
  fst (IsTimeForSleep s) =
    Ok (if last_activity (protocol a) <=? usecs now
        then nIdleTimeSetting (protocol a) <? (usecs now - last_activity (protocol a)) / 1000000
        else true).
Proof.
  intros Hnow Hn Hl Hd Hc Hi Hr. unfold IsTimeForSleep, bind. rewrite (sys_run _ _ _ _ _ Hnow).
  cbn [ops GetActiveTime TCPPort_ops tcp_get gets agent get_tcp].
  set (s0 := mkSt a w _).
  destruct (setLastActionTime_run (tcp_tmLastAction (srvData_ (protocol a))) s0)
    as (s1 & -> & Hc1 & Hi1 & Hl1).
  destruct (setLastActionTime_run (tcp_tmLastAction (srvControl_ (protocol (agent s1)))) s1)
    as (s2 & -> & _ & Hi2 & Hl2).
  destruct Hl1 as [Hok1 Hu1]; [done..|]. rewrite Hc1 in Hl2. destruct Hl2 as [Hok2 Hu2]; [done..|].
  cbn. f_equal. rewrite Hi2, Hi1. cbn [agent s0] in *.
  rewrite tv_sec_usecs by auto using timersub_ok. rewrite timersub_usecs, Hu2, Hu1.
  replace (Z.max (Z.max _ _) _) with (last_activity (protocol a)) by (unfold last_activity; lia).
  set (d := usecs now - last_activity (protocol a)) in *. unfold u32. rewrite (Z.mod_small (nIdleTimeSetting _)) by lia.
  destruct (Z.leb_spec (last_activity (protocol a)) (usecs now)).
  - rewrite Z.mod_small; [done|]. split; [apply Z.div_pos; lia|apply Z.div_lt_upper_bound; lia].
  - assert (- 2 ^ 31 <= d / 1000000 < 0).
    { split; [apply Z.div_le_lower_bound|apply Z.div_lt_upper_bound]; lia. }
    rewrite <- (Z.mod_add _ 1), Z.mod_small by lia. apply Z.ltb_lt. lia.
Qed.
End Timers.

(** ** Dialling *)

(** What [Connect] does to reach the server: an address lookup for a TCP port, with its
    answer, and calls of [connect], with their results. *)
Inductive dial :=
| Lookup (port : Z) (answer : option (list address))
| Conn (fd : Z) (a : address) (e : Z).

Definition ev_dial (e : event) : list dial :=
  match e with
  | Ev c r =>
      match c in syscall T return T -> list dial with
      | sys_getaddrinfo _ port => fun r => [Lookup port r]
      | sys_connect fd a => fun e => [Conn fd a e]
      | _ => fun _ => []
      end r
  end.

Abbreviation dials := (collects ev_dial).

Definition no_dial (T : Type) (c : syscall T) : bool :=
  match c with sys_getaddrinfo _ _ | sys_connect _ _ => false | _ => true end.

Lemma port_no_dial T (c : syscall T) : port_call c = true -> no_dial T c = true.
Proof. by destruct c. Qed.

Lemma dials_calls {S W} (s s' : st S W) : calls no_dial s s' -> dials s s' [].
Proof. apply collects_calls. by intros ? []. Qed.

(** The addresses found are tried in order, each at most once, until one answers. *)
Inductive dialled : list address -> list dial -> Prop :=
| dialled_end addrs : dialled addrs []
| dialled_no_socket a addrs ds : dialled addrs ds -> dialled (a :: addrs) ds
| dialled_failed a addrs fd e ds : e <> 0 -> dialled addrs ds -> dialled (a :: addrs) (Conn fd a e :: ds)
| dialled_done a addrs fd : dialled (a :: addrs) [Conn fd a 0].

(** One attempt to reach TCP port [n] of the server. *)
Definition attempt_at (n : Z) (ds : list dial) : Prop :=
  exists answer cs, ds = Lookup n answer :: cs /\ dialled (default [] answer) cs.

(** The last word of an attempt is a connection on [fd]. *)
Definition reached (fd : Z) (ds : list dial) : Prop := exists a, last ds = Some (Conn fd a 0).

Section Dials.
Context {W : Type} {E : Env Agent W} `{!Returns E} (t : tcp) (Hq : quiet E t).

Abbreviation port s := (get_tcp t (agent s)).

(** Steps that dial nothing and end normally. *)
Lemma wp_no_dial {A} (m : M Agent W A) Q s :
  keeps (calls no_dial) m -> (forall k, avoids k m) ->
  (forall a s', dials s s' [] -> Q (Ok a) s') -> wp m Q s.
Proof.
  intros Hk Ha HQ. apply (wp_keeps_ok (calls no_dial)); [done..|].
  intros a s' H. by apply HQ, dials_calls.
Qed.

(** One [Open] makes at most one attempt, at the port it was asked for. *)
Definition one_dial (n : Z) (s s' : st Agent W) : Prop :=
  exists ds, dials s s' ds /\ (ds = [] \/ attempt_at n ds).

Lemma one_dial_none n s s' : dials s s' [] -> one_dial n s s'.
Proof. intros H. exists []. auto. Qed.

Lemma one_dial_after n s s1 s' : dials s s1 [] -> one_dial n s1 s' -> one_dial n s s'.
Proof. intros H (ds & Hd & Hl). exists ds. split; [by eapply collects_nil_l|done]. Qed.

Lemma wp_connect_loop_dials addrs s :
  wp (tcp_connect_loop t addrs) (fun o s' => exists cs, dials s s' cs /\ dialled addrs cs /\
    (o = Ok true -> reached (socketID (port s')) cs)) s.
Proof.
  revert s. induction addrs as [|rp addrs IH]; intros s; cbn [tcp_connect_loop].
  { apply wp_mret. exists []. split_and!; [apply collects_refl|constructor|done]. }
  apply wp_bind, wp_tcp_get, wp_bind, wp_no_dial.
  { unfold tcp_get, tcp_set. effects; try apply keeps_modify; [by apply keeps_sys|].
    apply tcp_SetTimeOut_calls, port_no_dial. }
  { intros k. unfold tcp_get, tcp_set. effects. apply tcp_SetTimeOut_avoids, _. }
  intros _ s1 H1. apply wp_bind, wp_tcp_get. case_bool.
  { eapply wp_mono; [|apply IH]. intros o s' (cs & Hcs & Ht & Ho). exists cs.
    split_and!; [by eapply collects_nil_l|by constructor|done]. }
  apply wp_bind, wp_sys. intros e a w He. pose proof (Hq _ _ _ _ _ _ _ He) as Hp.
  set (s2 := mkSt a w _). assert (H2 : dials s s2 [Conn (socketID (port s1)) rp e]).
  { eapply collects_nil_l; [exact H1|]. apply (collects_one ev_dial s1). }
  destruct (Z.eqb_spec e 0) as [->|Hne].
  - apply wp_bind, wp_tcp_set. intros s3 Hp3 Ht3. apply wp_bind, wp_tcp_set. intros s4 Hp4 Ht4. apply wp_mret.
    exists [Conn (socketID (port s1)) rp 0]. split_and!; [|apply dialled_done|].
    + destruct H2 as (evs & H2 & H2'). exists evs. split; [by rewrite Ht4, Ht3|done].
    + intros _. exists rp. rewrite Hp4, Hp3. simpl. by rewrite Hp.
  - apply wp_bind, wp_no_dial; [unfold tcp_set; effects; apply keeps_modify|unfold tcp_set; effects|].
    intros _ s3 H3. apply wp_bind, wp_tcp_get, wp_bind, wp_no_dial; [by apply keeps_sys|effects|].
    intros _ s4 H4. apply wp_bind, wp_tcp_set. intros s5 _ Ht5.
    eapply wp_mono; [|apply IH]. intros o s' (cs & Hcs & Ht & Ho).
    assert (H5 : dials s s5 [Conn (socketID (port s1)) rp e]).
    { eapply collects_nil_r; [exact H2|]. eapply collects_nil_r; [exact H3|].
      eapply collects_nil_r; [exact H4|]. exists []. by rewrite app_nil_r. }
    exists (Conn (socketID (port s1)) rp e :: cs). split_and!; [exact (collects_trans _ _ _ _ _ _ H5 Hcs)|by apply dialled_failed|].
    intros Hok. destruct (Ho Hok) as [a' Ha]. exists a'. by rewrite last_cons, Ha.
Qed.

(** [Connect] makes one attempt at the port set, and returns 0 only when it succeeded. *)
Lemma tcp_Connect_dials s :
  wp (tcp_Connect t) (fun o s' => exists ds, dials s s' ds /\ attempt_at (tcp_nPort (port s)) ds /\
    (o = Ok 0 -> reached (socketID (port s')) ds)) s.
Proof.
  apply wp_bind. unfold tcp_touch at 1. apply wp_bind. apply (wp_sys_tcp t Hq). intros now s1 Hp1 Ht1 _.
  apply wp_tcp_set. intros s2 Hp2 Ht2.
  apply wp_bind, wp_tcp_get, wp_bind, wp_tcp_get, wp_bind.
  assert (H2 : dials s s2 []) by (exists [Ev sys_gettimeofday now]; split; [congruence|done]).
  assert (Hn : tcp_nPort (port s2) = tcp_nPort (port s)) by (by rewrite Hp2, Hp1).
  apply (wp_sys_returns ev_dial). intros r a w _ Hd. cbn [ev_dial] in Hd.
  set (s3 := mkSt a w _) in Hd |- *. clearbody s3. rewrite Hn in Hd.
  pose proof (collects_nil_l _ _ _ _ _ H2 Hd) as H3. destruct r as [addrs|].
  2: { apply wp_mret. eexists. split_and!; [exact H3| |done]. eexists _, []. split; [done|constructor]. }
  apply wp_bind. eapply wp_mono; [|apply wp_connect_loop_dials]. intros o s4 (cs & Hcs & Ht & Ho).
  pose proof (collects_trans _ _ _ _ _ _ H3 Hcs) as H4.
  assert (Hat : attempt_at (tcp_nPort (port s)) (Lookup (tcp_nPort (port s)) (Some addrs) :: cs)) by (by eexists _, cs).
  destruct o as [[|]|e| |]; try (eexists; by split_and!). cbn [negb].
  apply wp_bind, (wp_and_keeps (calls no_dial) _ (fun _ s5 => conn (port s5) = conn (port s4))).
  { apply tcp_touch_calls, port_no_dial. }
  { by apply (wp_tcp_touch t Hq). }
  intros o s5 Hc%dials_calls Hconn. pose proof (collects_nil_r _ _ _ _ _ H4 Hc) as H5.
  destruct o as [[]|e| |]; try (eexists; by split_and!). apply wp_bind, wp_tcp_get, wp_mret.
  eexists. split_and!; [exact H5|done|]. intros _. destruct (Ho eq_refl) as [x Hx].
  injection Hconn as Hi _. exists x.
  change (last (Lookup (tcp_nPort (port s)) (Some addrs) :: cs) = Some (Conn (socketID (port s5)) x 0)).
  by rewrite Hi, last_cons, Hx.
Qed.

(** [Close] and [SetTimeOut] leave the configured port number alone. *)
Abbreviation nport := (fun a => tcp_nPort (get_tcp t a)).

Lemma nport_untouched : untouched E nport.
Proof. intros T c a w r a' w' H. by rewrite (Hq _ _ _ _ _ _ _ H). Qed.
#[local] Hint Resolve nport_untouched : core.

Lemma tcp_set_nport f :
  (forall p, tcp_nPort (f p) = tcp_nPort p) -> keeps (stable nport) (tcp_set (W := W) t f).
Proof. intros H. apply keeps_stable_modify. intros a. unfold upd_tcp. by rewrite get_set_tcp. Qed.
#[local] Hint Extern 1 (keeps (stable _) (tcp_set _ _)) => (apply tcp_set_nport; done) : effects.
#[local] Hint Extern 1 (keeps (stable _) (sys _)) => (apply keeps_stable_sys; apply nport_untouched) : effects.

Lemma tcp_Close_nport : keeps (stable nport) (tcp_Close (W := W) t).
Proof. unfold tcp_Close, tcp_touch, tcp_get. effects. Qed.

Lemma tcp_SetTimeOut_nport us : keeps (stable nport) (tcp_SetTimeOut (W := W) t us).
Proof. unfold tcp_SetTimeOut, tcp_get. effects. Qed.

Lemma tcp_Connect_nport : keeps (stable nport) (tcp_Connect (W := W) t).
Proof.
  pose proof tcp_SetTimeOut_nport.
  assert (forall l, keeps (stable nport) (tcp_connect_loop (W := W) t l)) by (induction l; simpl; unfold tcp_get; effects).
  unfold tcp_Connect, tcp_touch, tcp_get. effects.
Qed.

(** A step of [Open] before the lookup. *)
Lemma wp_open_step {A} (m : M Agent W A) Q s :
  keeps (calls no_dial) m -> keeps (stable nport) m -> (forall k, avoids k m) ->
  (forall a s', dials s s' [] -> tcp_nPort (port s') = tcp_nPort (port s) -> Q (Ok a) s') -> wp m Q s.
Proof.
  intros Hk Hs Ha HQ. apply (wp_and_keeps (stable nport) m (fun o s' => exists a, o = Ok a /\ dials s s' [])); [done| |].
  - apply wp_no_dial; eauto.
  - intros o s' Hn (a & -> & Hd). by apply HQ.
Qed.

Lemma tcp_Open_at_dials h n s : wp (tcp_Open_at t h n) (fun _ s' => one_dial n s s') s.
Proof.
  apply wp_bind, wp_tcp_set. intros s1 Hp1 Ht1. apply wp_bind, wp_tcp_set. intros s2 Hp2 Ht2.
  assert (H2 : dials s s2 []) by (exists []; split; [rewrite app_nil_r; congruence|done]).
  assert (Hn2 : tcp_nPort (port s2) = n) by (by rewrite Hp2).
  apply wp_bind, wp_tcp_get, wp_bind.
  apply wp_open_step.
  { effects. apply tcp_Close_calls. by intros ? []. }
  { effects. apply tcp_Close_nport. }
  { effects. apply tcp_Close_avoids, _. }
  intros _ s3 Hd3 Hn3. apply wp_bind, wp_open_step; [by apply keeps_sys|effects|effects|].
  intros fd s4 Hd4 Hn4. apply wp_bind, wp_tcp_set. intros s5 Hp5 Ht5.
  assert (H5 : dials s s5 []).
  { eapply collects_nil_l; [exact H2|]. eapply collects_nil_l; [exact Hd3|].
    eapply collects_nil_l; [exact Hd4|]. exists []. rewrite app_nil_r. by split. }
  destruct (fd <? 0); [by apply one_dial_none|].
  apply wp_bind, wp_tcp_get, wp_bind.
  apply wp_open_step; [apply tcp_SetTimeOut_calls; by intros ? []|apply tcp_SetTimeOut_nport| |].
  { intros k. apply tcp_SetTimeOut_avoids, _. }
  intros _ s6 Hd6 Hn6. eapply wp_mono; [|apply tcp_Connect_dials]. intros o s7 (ds & H7 & Ha & _).
  eapply one_dial_after; [eapply collects_nil_l; [exact H5|exact Hd6]|]. exists ds. split; [done|]. right.
  replace n with (tcp_nPort (port s6)); [done|]. by rewrite Hn6, Hp5; simpl; rewrite Hn4, Hn3.
Qed.
End Dials.

(** ** One turn of the negotiation *)

Section Counters.
Context {W : Type} {E : Env Agent W} (t : tcp) (sc : bool) (fuel : nat).

(** The counters of the loop. *)
Definition nego_inv (x : nego) : Prop := 0 <= retry x < 6 /\ 0 <= retry_data x < 4.
Definition nego_turns (x : nego) : nat := Z.to_nat (23 - (6 * retry_data x + retry x)).

Lemma nego_step_decreases n x :
  nego_inv x ->
  yields (fun r => match r with
                   | inl y => nego_inv y /\ (nego_turns y < nego_turns x)%nat
                   | inr _ => True
                   end) (nego_step (W := W) sc fuel t n x).
Proof.
  intros [H1 H2]. unfold nego_step, nego_inv, nego_turns.
  apply yields_bind_any; intros now. apply yields_bind_any; intros server.
  apply yields_bind_any; intros r. case_bool.
  - apply yields_bind_any; intros now2. cbn zeta. case_bool; [by apply yields_mret|]. to_prop.
    do 2 (apply yields_bind_any; intros ?). apply yields_mret. cbn. lia.
  - do 2 (apply yields_bind_any; intros ?). cbn zeta. case_bool.
    + case_bool; apply yields_mret; [done|]. to_prop. cbn. lia.
    + do 6 (apply yields_bind_any; intros ?). by apply yields_mret.
Qed.
End Counters.

Section Nego.
Context {W : Type} {E : Env Agent W} `{!Returns E} (t : tcp) (Hq : quiet E t) (Hsock : socket_fresh E).
Context (Hrb : recv_bounded E) (sc : bool) (fuel : nat).

Abbreviation port s := (get_tcp t (agent s)).

Abbreviation port_kept := (Traffic.port_kept (W := W) t).

Lemma keeps_port_wp {A} (m : M Agent W A) :
  (forall s, port_ok (port s) -> wp m (fun _ s' => port_ok (port s')) s) -> keeps port_kept m.
Proof. intros H s Hs. by apply H. Qed.

Lemma send_port p : keeps port_kept (send (Tcp t) p).
Proof.
  unfold send, SendTo. apply keeps_bind; [apply _| |intros; apply keeps_mret, _].
  by apply tcp_Write_port.
Qed.

Lemma receive_port : keeps port_kept (ReceiveFrameFrom sc (ops (Tcp t)) fuel).
Proof. apply ReceiveFrameFrom_keeps; [apply _|by apply tcp_Read_port]. Qed.

(** The system calls of a turn after the connection is open. *)
Lemma send_no_dial p : keeps (calls no_dial) (send (W := W) (Tcp t) p).
Proof. apply SendTo_calls. by intros ? []. Qed.

Lemma receive_no_dial : keeps (calls no_dial) (ReceiveFrameFrom (W := W) sc (ops (Tcp t)) fuel).
Proof. apply ReceiveFrameFrom_calls. by intros ? []. Qed.

Lemma nego_step_dials n x s :
  wp (nego_step sc fuel t n x) (fun _ s' => one_dial (start_port x) s s') s.
Proof.
  apply wp_bind, wp_no_dial; [by apply keeps_sys|effects|]. intros now s1 H1.
  apply wp_bind, wp_gets, wp_bind.
  apply (wp_mono _ (fun o s' => one_dial (start_port x) s s' /\ exists r, o = Ok r)).
  2: { split; [eapply one_dial_after; [exact H1|by apply tcp_Open_at_dials]|].
       pose proof (fun k => tcp_Open_at_avoids (E := E) k t (strServerName (protocol (agent s1))) (start_port x) s1) as Ha.
       pose proof (Ha KThrow). pose proof (Ha KUndef). pose proof (Ha KNoFuel).
       destruct (tcp_Open_at _ _ _ s1) as [[r|e| |] s2]; eauto; done. }
  intros o s2 [(ds & Hd & Hl) [r ->]].
  apply (wp_keeps (calls no_dial)).
  2: { intros o s' H'. exists ds. split; [|done]. eapply collects_nil_r; [exact Hd|by apply dials_calls]. }
  pose proof receive_no_dial. pose proof send_no_dial.
  pose proof (tcp_SetTimeOut_calls (E := E) no_dial port_no_dial t).
  pose proof (tcp_Close_calls (E := E) no_dial port_no_dial t).
  unfold pget. effects; try (by apply keeps_sys); try done.
Qed.

(** The ports a negotiation may dial. *)
Definition candidate (n : Z) (p : Z) : Prop := p = n \/ p = n + 1.

Lemma toggle_candidate n p : candidate n p -> candidate n (toggle_port n p).
Proof. unfold candidate, toggle_port. intros [->| ->]; case_bool; to_prop; auto with zarith. Qed.

Lemma GetAssignedPort_range p n : GetAssignedPort p = Some n -> 0 <= n < 65536.
Proof.
  unfold GetAssignedPort. case_bool; [intros [= <-]; lia|].
  intros (m & _ & ->)%fmap_Some. unfold ntohs, swap16.
  pose proof (Z.mod_pos_bound m 256). pose proof (Z.mod_pos_bound (m / 256) 256). lia.
Qed.

(** How a turn ends. *)
Definition nego_post (n : Z) (o : outcome (nego + Z)) (s' : st Agent W) : Prop :=
  match o with
  | Ok (inl y) => candidate n (start_port y) /\ port_ok (port s')
  | Ok (inr v) => 0 <= v < 65536 /\ port_ok (port s') /\ (v <> 0 -> conn (port s') = (-1, false))
  | Throw _ => False
  | _ => True
  end.

(** Sleeping between turns. *)
Lemma wp_port_sys {T} (c : syscall T) Q s :
  (forall r s', port s' = port s -> Q (Ok r) s') -> wp (sys c) Q s.
Proof. intros H. apply (wp_sys_tcp t Hq). intros r s' Hp _ _. by apply H. Qed.

(** A call that only keeps the port in order. *)
Lemma wp_port_kept {A} (m : M Agent W A) Q s :
  keeps port_kept m -> avoids KThrow m -> port_ok (port s) ->
  Q Undef (snd (m s)) -> Q NoFuel (snd (m s)) ->
  (forall a s', port_ok (port s') -> Q (Ok a) s') -> wp m Q s.
Proof.
  intros Hk Ha Hs HU HN HQ. unfold wp. specialize (Hk s Hs). specialize (Ha s).
  destruct (m s) as [[a|e| |] s']; simpl in *; try done. by apply HQ.
Qed.

(** The acknowledgement of the assigned port and the end of a successful turn. *)
Lemma nego_ack_post n cmd s :
  port_ok (port s) ->
  wp (machine <- pget Machine; eCmd <- lift (CommandType cmd); nNum <- lift (GetAssignedPort cmd);
      ack <- lift (Ack true machine eCmd nNum); attempt (send (Tcp t) ack);; tcp_Close t;;
      mret (inr nNum)) (nego_post n) s.
Proof.
  intros Hok. apply wp_bind, wp_gets, wp_bind, wp_lift. destruct (CommandType cmd); [|done].
  apply wp_bind, wp_lift. destruct (GetAssignedPort cmd) as [v|] eqn:Hv; [|done].
  apply GetAssignedPort_range in Hv. apply wp_bind, wp_lift. destruct (Ack _ _ _ _) as [ack|]; [|done].
  apply wp_bind. apply wp_port_kept; try done; [apply keeps_attempt; [apply _|apply send_port]|by apply avoids_attempt|].
  intros _ s2 Hok2. apply wp_bind. apply (wp_tcp_Close_ok t Hq); [done|]. intros s3 H3. apply wp_mret.
  split; [done|]. split; [|done]. injection H3 as Hi Hb. apply port_ok_disconnected; auto.
Qed.

Lemma nego_step_post n x s :
  candidate n (start_port x) -> port_ok (port s) -> wp (nego_step sc fuel t n x) (nego_post n) s.
Proof.
  intros Hx Hok. apply wp_bind, wp_port_sys. intros now s1 H1. apply wp_bind, wp_gets.
  apply wp_bind. apply (wp_tcp_Open_at t Hq Hsock); [by rewrite H1|]. intros r s2 [Hok2 _]. cbn beta iota.
  case_bool.
  - apply wp_bind, wp_port_sys. intros now2 s3 H3. cbn beta iota zeta. case_bool; [apply wp_mret; split; [lia|by rewrite H3]|].
    to_prop. apply wp_bind, wp_lift. destruct (tv_micros _) as [us|]; [|done]. apply wp_bind.
    apply wp_port_kept; try done; [|effects|by rewrite H3|].
    { case_bool; [|apply keeps_mret, _]. apply keeps_port_wp. intros s4 Hs4.
      apply wp_port_sys. intros _ s5 H5. by rewrite H5. }
    intros _ s4 Hok4. apply wp_mret. cbn. split; [|done].
    case_bool; [by apply toggle_candidate|done].
  - apply wp_bind. apply wp_tcp_SetTimeOut; [exact Hq|]. intros s3 Hc3.
    apply (port_ok_conn _ _ Hc3) in Hok2 as Hok3. apply wp_bind.
    apply wp_port_kept; try done; [apply receive_port|by apply ReceiveFrameFrom_avoids|].
    intros [e cmd] s4 Hok4. cbn beta iota zeta. cbn [snd]. case_bool; [|by apply nego_ack_post].
    case_bool; apply wp_mret; [by split; [lia|]|]. to_prop. cbn.
    by split; [apply toggle_candidate|].
Qed.

(** ** The whole negotiation *)

(** The attempts [dss], one after the other, each at a candidate port. *)
Definition attempts (n : Z) (dss : list (list dial)) : Prop :=
  Forall (fun ds => exists p, candidate n p /\ attempt_at p ds) dss.

(** How many turns are left bounds the attempts, not how long the loop is followed. *)
Lemma nego_loop_spec n k x s :
  nego_inv x -> candidate n (start_port x) -> port_ok (port s) ->
  wp (loop k (nego_step sc fuel t n) x) (fun o s' =>
    (exists dss, dials s s' (concat dss) /\ (length dss <= S (nego_turns x))%nat /\ attempts n dss) /\
    match o with
    | Ok v => 0 <= v < 65536 /\ port_ok (port s') /\ (v <> 0 -> conn (port s') = (-1, false))
    | Throw _ => False
    | _ => True
    end) s.
Proof.
  revert x s. induction k as [|k IH]; intros x s Hi Hx Hok; simpl.
  { split; [|done]. exists []. split; [apply collects_refl|]. split; [simpl; lia|constructor]. }
  pose proof (nego_step_post n x s Hx Hok) as Hpost.
  pose proof (nego_step_decreases t sc fuel n x Hi s) as Hdec.
  assert (Hone : exists dss, dials s (snd (nego_step sc fuel t n x s)) (concat dss) /\ (length dss <= 1)%nat /\ attempts n dss).
  { destruct (nego_step_dials n x s) as (ds & Hd & [->|Ha]).
    - exists []. split_and!; [done|simpl; lia|constructor].
    - exists [ds]. simpl. rewrite app_nil_r. split_and!; [done|lia|]. apply Forall_singleton. eauto. }
  apply wp_bind. unfold wp in Hpost |- *. destruct (nego_step sc fuel t n x s) as [o s1]. simpl in *.
  destruct Hone as (dss & Hd & Hl & Hf).
  destruct o as [[y|v]|e| |]; simpl in Hpost; try done;
    try (split; [|done]; exists dss; split_and!; [done|lia|done]).
  destruct Hpost as [Hy Hok1], Hdec as [Hiy Hlt]. destruct (IH y s1 Hiy Hy Hok1) as [(dss' & Hd' & Hl' & Hf') Ho].
  split; [|exact Ho]. exists (dss ++ dss'). unfold attempts. rewrite concat_app, length_app, Forall_app.
  split_and!; [by eapply collects_trans|lia|done|done].
Qed.

Lemma nego_start n : nego_inv (mkNego n 0 0) /\ nego_turns (mkNego n 0 0) = 23%nat.
Proof. by vm_compute. Qed.

(** C8. However long the loop of [negoiateChannel] is followed, it makes at most 24
    attempts to reach the server.  Each looks up the configured start port or the one
    after it and then connects to the addresses found, in order and each at most once,
    until one answers.  It never throws; the port number it answers with is below
    65536, and when it is not 0 the connection used for the negotiation has been
    closed.  It is assumed that the system calls return, that no other thread touches
    the port, that [socket] does not return descriptor 0, that [recv] delivers no more
    than it was asked for and that the port was consistent (C22). *)
Theorem negotiation_contract turns n (s : st Agent W) :
  port_ok (port s) ->
  wp (nego_loop sc fuel turns t n) (fun o s' =>
    (exists dss, dials s s' (concat dss) /\ (length dss <= 24)%nat /\ attempts n dss) /\
    match o with
    | Ok v => 0 <= v < 65536 /\ (v <> 0 -> conn (port s') = (-1, false))
    | Throw _ => False
    | Undef | NoFuel => True
    end) s.
Proof.
  intros Hok. destruct (nego_start n) as [Hi Ht].
  eapply wp_mono; [|apply (nego_loop_spec n turns (mkNego n 0 0)); [done|by left|done]].
  intros o s' [Hd Ho]. rewrite Ht in Hd. split; [exact Hd|]. destruct o; try done. tauto.
Qed.
End Nego.

(** ** Opening the assigned port *)

Section Assigned.
Context {W : Type} {E : Env Agent W} `{!Returns E} (t : tcp) (Hq : quiet E t) (Hsock : socket_fresh E).
Context (Hrb : recv_bounded E) (sc : bool) (fuel : nat).

Abbreviation port s := (get_tcp t (agent s)).

(** Connected, and the server is known to be reachable. *)
Definition linked (s : st Agent W) : Prop :=
  bConnected (port s) = true /\ bExtCommunicationError (protocol (agent s)) = false.

(** The last the agent dialled was TCP port [n] of the server, and the connection it got
    is on the descriptor the port has. *)
Definition linked_to (n : Z) (s : st Agent W) : Prop :=
  tcp_nPort (port s) = n /\
  exists before ds, collect ev_dial (trace s) = before ++ ds /\ attempt_at n ds /\ reached (socketID (port s)) ds.

Lemma linked_to_same n s s' : port s' = port s -> trace s' = trace s -> linked_to n s -> linked_to n s'.
Proof. unfold linked_to. by intros -> ->. Qed.

Definition idle (s : st Agent W) : Prop := port_ok (port s) /\ bConnected (port s) = false.

Lemma wp_both {A} (m : M Agent W A) Q1 Q2 s : wp m Q1 s -> wp m Q2 s -> wp m (fun o s' => Q1 o s' /\ Q2 o s') s.
Proof. by split. Qed.

Lemma idle_port s s' : port s' = port s -> idle s -> idle s'.
Proof. unfold idle. by intros ->. Qed.

Lemma wp_try_connect n Q (s : st Agent W) :
  idle s ->
  (forall r s', port_ok (port s') /\ bConnected (port s') = (if r is Some _ then false else true) ->
     (r = None -> linked_to n s') -> Q (Ok r) s') ->
  (forall s', Q Undef s') ->
  wp (try_connect t n) Q s.
Proof.
  intros [Hok Hb] HQ HU. unfold try_connect, SetRemotePort.
  apply wp_bind, wp_tcp_set. intros s1 Hp1 _. apply wp_bind, wp_gets, wp_bind, wp_lift.
  destruct (checked _) as [us|]; [|apply HU].
  apply wp_bind, (wp_and_keeps (stable (fun a => tcp_nPort (get_tcp t a))) _ (fun o s2 => o = Ok tt /\ conn (port s2) = conn (port s1)));
    [by apply tcp_SetTimeOut_nport|by apply wp_tcp_SetTimeOut|].
  intros o s2 Hn2 [-> Hc2]. unfold stable in Hn2.
  apply wp_bind, (wp_port_sys t Hq). intros now s3 Hp3.
  assert (Hi : idle s3).
  { apply (idle_port s2); [done|]. split; [|injection Hc2 as Hi' Hb'; rewrite Hb', Hp1; done].
    eapply port_ok_conn; [exact Hc2|]. eapply port_ok_conn; [|exact Hok]. by rewrite Hp1. }
  assert (Hn3 : tcp_nPort (port s3) = n) by (by rewrite Hp3, Hn2, Hp1).
  destruct Hi as [Hok3 Hb3]. apply wp_bind.
  eapply (wp_and_keeps (stable (fun a => tcp_nPort (get_tcp t a)))); [by apply tcp_Connect_nport| |].
  { apply (wp_both _ (fun o s4 => exists r, o = Ok r /\ reports r (port s4))); [|by apply tcp_Connect_dials].
    apply (wp_tcp_Connect t Hq Hsock); eauto. }
  intros o s4 Hn4 [(r & -> & Hok4 & Hr) (ds & Hd & Hat & Hrd)]. unfold stable in Hn4.
  apply wp_mret, HQ; [split; [done|]; destruct Hr as [[-> ->]|[-> ->]]; done|].
  destruct Hr as [[-> _]|[-> _]]; [intros _|done]. rewrite Hn3 in Hat. split; [congruence|].
  destruct Hd as (evs & Ht & <-). eexists _, _. rewrite Ht, collect_app. split_and!; [done|done|]. by apply Hrd.
Qed.

Lemma wp_sleep_rest start us Q (s : st Agent W) :
  (forall s', port s' = port s -> Q (Ok tt) s') -> (forall s', Q Undef s') ->
  wp (sleep_rest start us) Q s.
Proof.
  intros HQ HU. apply wp_bind, (wp_port_sys t Hq). intros now s1 H1. cbn zeta.
  apply wp_bind, wp_lift. destruct (tv_micros _); [|apply HU]. case_bool; [|by apply wp_mret, HQ].
  apply wp_bind, wp_lift. destruct (_ ≫= _); [|apply HU].
  apply (wp_port_sys t Hq). intros [] s2 H2. apply HQ. congruence.
Qed.

(** Setting a flag changes no port. *)
Lemma wp_flag f Q (s : st Agent W) :
  (forall p, srvData_ (f p) = srvData_ p /\ srvControl_ (f p) = srvControl_ p) ->
  (forall s', port s' = port s -> protocol (agent s') = f (protocol (agent s)) -> trace s' = trace s -> Q (Ok tt) s') ->
  wp (pset f) Q s.
Proof.
  intros Hf HQ. apply HQ; [|done..]. simpl. destruct (Hf (protocol (agent s))).
  by destruct t; simpl.
Qed.

(** How the attempts to reach the assigned port end; [done] is the last word of the
    method that tries. *)
Lemma wp_negotiated n Q (s : st Agent W) :
  port_ok (port s) ->
  (forall v s', 0 <= v < 65536 -> (v <> 0 -> idle s') -> port_ok (port s') -> Q (Ok v) s') ->
  (forall s', Q Undef s') -> (forall s', Q NoFuel s') ->
  wp (negoiateChannel sc fuel t n) Q s.
Proof.
  intros Hok HQ HU HN. eapply wp_mono; [|apply (nego_loop_spec t Hq Hsock Hrb); [apply nego_start|by left|done]].
  intros [v|e| |] s' [_ H]; try done. destruct H as (Hv & Hok' & Hc). apply HQ; [done| |done].
  intros Hn. split; [done|]. by injection (Hc Hn) as ? ->.
Qed.

Lemma control_tries_spec n k (s : st Agent W) :
  idle s ->
  wp (control_tries t n k) (fun o s' =>
    match o with
    | Ok true => linked s' /\ bControlDone (protocol (agent s')) = true
    | Ok false => idle s'
    | Throw _ => False
    | _ => True
    end) s.
Proof.
  revert s. induction k as [|k IH]; intros s Hi; simpl; [done|].
  apply wp_bind, wp_try_connect; [done| |done]. intros [[start us]|] s1 [Hok1 Hb1] Hl1.
  - apply wp_bind, wp_sleep_rest; [|done]. intros s2 H2. apply IH. by apply (idle_port s1).
  - apply wp_bind, wp_flag; [done|]. intros s2 H2 Hf2 _. apply wp_bind, wp_flag; [done|].
    intros s3 H3 Hf3 _. apply wp_mret. unfold linked. rewrite H3, H2, Hf3, Hf2. simpl. auto.
Qed.

(** What the control thread may rely on after the negotiation. *)
Definition control_post (o : outcome unit) (s' : st Agent W) : Prop :=
  match o with
  | Ok _ => (linked s' /\ bControlDone (protocol (agent s')) = true) \/
            bExtCommunicationError (protocol (agent s')) = true
  | Throw _ => False
  | _ => True
  end.

Lemma control_rounds_spec k v (s : st Agent W) :
  port_ok (port s) -> (v <> 0 -> idle s) -> wp (control_rounds sc fuel t v k) control_post s.
Proof.
  revert v s. induction k as [|k IH]; intros v s Hok Hi; cbn [control_rounds]; case_bool; try (by right).
  to_prop. apply wp_bind. eapply wp_mono; [|by apply control_tries_spec, Hi].
  intros [[|]|e| |] s2 H2; try done; [by left|].
  apply wp_bind, wp_gets, wp_bind, wp_negotiated; [apply H2| |done..]. auto.
Qed.


Lemma data_tries_spec n k (s : st Agent W) :
  idle s ->
  wp (data_tries t n k) (fun o s' =>
    match o with
    | Ok (Some v) => v = 0 /\ bPowerOff (modem (agent s')) = true \/ v = n /\ linked s' /\ linked_to n s'
    | Ok None => idle s'
    | Throw _ => False
    | _ => True
    end) s.
Proof.
  revert s. induction k as [|k IH]; intros s Hi; simpl; [done|].
  apply wp_bind, wp_try_connect; [done| |done]. intros [[start us]|] s1 [Hok1 Hb1] Hl1.
  - apply wp_bind, wp_gets. destruct (bPowerOff _) eqn:Hoff; [by left|].
    apply wp_bind, wp_sleep_rest; [|done]. intros s2 H2. apply IH. by apply (idle_port s1).
  - apply wp_bind, wp_flag; [done|]. intros s2 H2 Hf2 Ht2. apply wp_mret. right. split_and!; [done| |].
    + unfold linked. rewrite H2, Hf2. simpl. auto.
    + eapply linked_to_same; eauto.
Qed.

Lemma wait_control_spec k (s : st Agent W) :
  wp (wait_control k) (fun o s' =>
    match o with
    | Ok true => port s' = port s
    | Ok false => bPowerOff (modem (agent s')) = true
    | NoFuel => True
    | _ => False
    end) s.
Proof.
  unfold wait_control. revert s. induction k as [|k IH]; intros s; [done|].
  cbn [loop]. apply wp_bind, wp_bind, wp_gets. case_bool; [done|].
  apply wp_bind, (wp_port_sys t Hq). intros [] s1 H1. apply wp_bind, wp_gets, wp_mret.
  destruct (bPowerOff _) eqn:Hoff; [done|].
  eapply wp_mono; [|apply IH]. intros [[|]|e| |] s2 H2; try done. congruence.
Qed.

(** What a caller of [NegoiateDataChannel] is told. *)
Definition data_post (o : outcome Z) (s' : st Agent W) : Prop :=
  match o with
  | Ok v => (0 < v < 65536 /\ linked s' /\ linked_to v s') \/
      v = 0 /\ bPowerOff (modem (agent s')) = true \/
      v = -1 /\ (bExtCommunicationError (protocol (agent s')) = true \/ bPowerOff (modem (agent s')) = true)
  | Throw _ => False
  | _ => True
  end.

Lemma data_rounds_spec k v (s : st Agent W) :
  port_ok (port s) -> 0 <= v < 65536 -> (v <> 0 -> idle s) -> wp (data_rounds sc fuel t v k) data_post s.
Proof.
  revert v s. induction k as [|k IH]; intros v s Hok Hv Hi; cbn [data_rounds];
    (destruct (v =? 0) eqn:Hv0;
     [apply wp_bind, wp_gets, wp_bind; destruct (bPowerOff _) eqn:Hoff; right; right; auto|]).
  - apply wp_bind, wp_gets, wp_bind; destruct (bPowerOff _) eqn:Hoff; right; right; auto.
  - to_prop. apply wp_bind. eapply wp_mono; [|by apply data_tries_spec, Hi].
    intros [[r|]|e| |] s2 H2; try done.
    + apply wp_mret. destruct H2 as [H2|[-> H2]]; [right; by left|left; split; [lia|done]].
    + apply wp_bind, wp_gets. destruct (bPowerOff _) eqn:Hoff; [right; by left|].
      apply wp_bind, wp_gets, wp_bind, wp_negotiated; [apply H2| |done..]. auto.
Qed.

(** C10. The result of [NegoiateDataChannel] says what happened.  A positive number is
    the port now connected: the last the agent dialled was that port of the server, the
    connection it got is on the port's descriptor, and the external communication error
    is cleared.  0 says that the modem is off; -1 that the server could not be reached,
    and then the error is set unless the modem went off.  It never throws.  It is
    assumed that the system calls return, that no other thread touches the port, that
    [socket] does not return descriptor 0, that [recv] delivers no more than it was
    asked for and that the port was consistent (C22). *)
Theorem data_channel_outcome (s : st Agent W) :
  port_ok (port s) -> wp (NegoiateDataChannel sc fuel t) data_post s.
Proof.
  intros Hok. apply wp_bind. eapply wp_mono; [|by apply (wait_control_spec fuel)].
  intros [[|]|e| |] s1 H1; try done; [|right; by left].
  apply wp_bind, wp_gets, wp_bind, wp_negotiated; [by rewrite H1| |done..].
  auto using data_rounds_spec.
Qed.
End Assigned.

(** ** Termination *)

Section Ends.
Context {W : Type} {E : Env Agent W} `{!Returns E} (t : tcp) (sc : bool) (fuel : nat).

Lemma nego_step_avoids k n x :
  k <> KUndef -> avoids k (ReceiveFrameFrom (W := W) sc (ops (Tcp t)) fuel) ->
  avoids k (nego_step (W := W) sc fuel t n x).
Proof.
  intros Hk Hr. unfold nego_step, pget.
  pose proof (fun h p => tcp_Open_at_avoids (E := E) k t h p).
  pose proof (tcp_SetTimeOut_avoids (E := E) k t). pose proof (tcp_Close_avoids (E := E) k t).
  effects; try done. apply SendTo_avoids; auto with typeclass_instances.
Qed.

(** [m] ends in every environment state, with the fuel it is given. *)
Definition ends_in_time {A} (m : M Agent W A) : Prop := avoids KNoFuel m.

(** C25. Negotiations end: when waiting for one command ends (the connection times out
    or the peer stops sending), so does [negoiateChannel], within its 24 turns. It is
    assumed that the system calls return. *)
Theorem negotiation_terminates n :
  ends_in_time (ReceiveFrameFrom sc (ops (Tcp t)) fuel) ->
  ends_in_time (negoiateChannel sc fuel t n).
Proof.
  intros Hr. unfold negoiateChannel, nego_loop.
  apply (avoids_loop_measure KNoFuel nego_turns nego_inv); [done|cbv; lia|..].
  - intros x _. by apply nego_step_avoids.
  - intros x s y s' Hx Hb. pose proof (nego_step_decreases t sc fuel n x Hx s) as H. by rewrite Hb in H.
Qed.
End Ends.

(** ** Concrete runs *)

(** An agent at 600 s and 7 us, with nothing from the peers. *)
Definition at_600 (cs : list Z) (rs : list io_result) : st Agent script :=
  mkSt fresh_agent (mkScript 600000007 cs rs [] None) [].

Lemma reserved_time_is_next_slot_witness :
  fst (setReservedTime 120 true (at_600 [] [])) = Ok (mkTv 720 0) /\
  720 mod 120 = 0 /\ 600 < 720 <= 720 /\
  forall s1 later a1 w1, env_step sys_gettimeofday (agent s1) (world s1) = Some (later, a1, w1) ->
    0 <= tv_usec later -> fst (isTimeForAction (W := script) (mkTv 720 0) s1) = Ok (720 <=? tv_sec later).
Proof.
  eapply (reserved_time_is_next_slot (at_600 [] []) (mkTv 600 7) _ _ 120); [reflexivity|simpl; lia..].
Defined.

Lemma patrol_rest_until_next_action_witness :
  trace (snd (PatrolRest (at_600 [] []))) =
    [Ev sys_gettimeofday (mkTv 600 7); Ev (sys_usleep 0) tt].
Proof.
  edestruct (patrol_rest_until_next_action (at_600 [] []) (mkTv 600 7)) as [H _];
    [reflexivity|unfold tv_ok; simpl; lia..|].
  apply H; vm_compute; split; congruence.
Defined.

Lemma sleep_when_idle_or_clock_set_back_witness :
  fst (IsTimeForSleep (at_600 [] [])) = Ok true.
Proof.
  etrans; [eapply (sleep_when_idle_or_clock_set_back (at_600 [] []) (mkTv 600 7)); [reflexivity|..]|reflexivity];
    unfold tv_ok; simpl; try lia. vm_compute. split; congruence.
Defined.

(** The server assigns port 50010. *)
Definition assigned : packet := default [] (BuildPacket ([112; 65] ++ put_be16 50010) 4 1).

Lemma negotiation_contract_witness :
  let s := at_600 [111] [IoData assigned] in
  let r := nego_loop false 100 1000 srvData 50001 s in
  fst r = Ok 50010 /\ (exists dss, dials s (snd r) (concat dss) /\ (length dss <= 24)%nat /\ attempts 50001 dss).
Proof.
  intros s r. split; [vm_compute; reflexivity|].
  exact (proj1 (negotiation_contract srvData (script_quiet _) script_socket_fresh script_recv_bounded false 100
    1000 50001 s (fresh_port_ok _))).
Defined.


Definition ready : st Agent script :=
  mkSt (upd_protocol (set_bControlDone true) fresh_agent) (mkScript 600000007 [111] [IoData assigned] [] None) [].

Lemma data_channel_outcome_witness :
  let m := NegoiateDataChannel false 100 srvData in
  fst (m ready) = Ok 50010 /\ wp m (data_post srvData) ready.
Proof.
  intros m. split; [vm_compute; reflexivity|].
  exact (data_channel_outcome srvData (script_quiet _) script_socket_fresh script_recv_bounded false 100
    ready (fresh_port_ok srvData)).
Defined.

(** A network on which every connection is accepted and nothing is ever received. *)
#[local] Instance silent : Env Agent unit :=
  fun T c a _ => Some (fst (script_answer c (mkScript 0 [] [] [] None)), a, tt).
#[local] Instance silent_returns : Returns silent.
Proof. intros T c a w. by eexists. Qed.

Lemma silent_receive t sc fuel : avoids KNoFuel (ReceiveFrameFrom (W := unit) sc (ops (Tcp t)) fuel).
Proof.
  intros s. unfold ReceiveFrameFrom, Read1, attempt, try_catch, bind. simpl.
  unfold tcp_Read, tcp_get, bind, gets. destruct (bConnected _); [|done]. simpl. by destruct fuel.
Qed.

Lemma negotiation_terminates_witness :
  ends_in_time (negoiateChannel (W := unit) false 7 srvData 50001).
Proof. apply (negotiation_terminates srvData false 7 50001), silent_receive. Defined.

End Negotiation.
