(* ===== verification/Delivery.v ===== *)
(** * Delivery: data, status and commands reach the other side

    Theorems about the methods of [Protocol] that move packets: [SendCurrentData],
    [HealthCheck], [HealthCheckReport], [RequestCurrentData], [TransferCmd],
    [HistoryDataTransfer] and [GetCommand]. *)

From S2P Require Import Prelude CRC16 Packet PacketQueue Sys Effects Agent Channel Receive Traffic Protocol.
Import PacketQueue Packet Sys Effects Agent Channel Receive Traffic Protocol.

Module Delivery.

(** ** What every method keeps

    A preorder kept by every system call and by every assignment to a port or to a
    field of [Protocol] other than the status queue is kept by the conversations
    that only do that. *)

(** The objects inside the [Protocol] object. *)
Definition parts (p : Agent.Protocol) : DataPacketQueue * TCPPort * TCPPort := (statusQueue p, srvData_ p, srvControl_ p).

Section Frame.
Context {W : Type} {E : Env Agent W} (R : st Agent W -> st Agent W -> Prop) {HR : PreOrder R}.
Context {ok : tcp -> Prop}.
Hypothesis Hsys : forall T (c : syscall T), keeps R (sys c).
Hypothesis Htcp : forall t f, ok t -> keeps R (tcp_set (W := W) t f).
Hypothesis Hser : forall f, keeps R (ser_set (W := W) f).
Hypothesis Hpro : forall f, (forall p, parts (f p) = parts p) -> keeps R (pset (W := W) f).
Context (sc : bool) (gmtoff : Z) (fuel : nat).

Abbreviation okc := (may_change ok).

#[local] Hint Resolve Hsys Htcp Hser : effects.
#[local] Hint Extern 0 (may_change _ Serial) => (exact I) : effects.
#[local] Hint Extern 0 (may_change _ (Tcp _)) => assumption : effects.
#[local] Hint Extern 1 (keeps _ (pset _)) => (apply Hpro; intros; reflexivity) : effects.

Lemma pget_frame {A} (f : Agent.Protocol -> A) : keeps R (pget (W := W) f).
Proof. apply keeps_gets, _. Qed.
Lemma IsPowerOff_frame : keeps R (IsPowerOff (W := W)).
Proof. apply keeps_gets, _. Qed.
#[local] Hint Resolve @tcp_get_frame @ser_get_frame pget_frame IsPowerOff_frame tcp_Close_frame
  tcp_SetTimeOut_frame tcp_Connect_frame tcp_Open_at_frame Write_frame SetTimeOut_frame Lock_frame
  Unlock_frame IsOpen_frame Open_frame ReceiveFrameFrom_frame ReceiveAckFrom_frame : effects.

Lemma send_frame c p : okc c -> keeps R (send (W := W) c p).
Proof. apply SendTo_frame; auto. Qed.
#[local] Hint Resolve send_frame : effects.
Lemma receive_frame c : okc c -> keeps R (receive (W := W) sc fuel c).
Proof. unfold receive. effects. Qed.

Lemma negoiateChannel_frame t n : ok t -> keeps R (negoiateChannel (W := W) sc fuel t n).
Proof. unfold negoiateChannel, nego_loop, nego_step. effects. Qed.
#[local] Hint Resolve negoiateChannel_frame : effects.
Lemma try_connect_frame t n : ok t -> keeps R (try_connect (W := W) t n).
Proof. unfold try_connect, SetRemotePort. effects. Qed.
Lemma sleep_rest_frame a n : keeps R (sleep_rest (W := W) a n).
Proof. unfold sleep_rest. effects. Qed.
#[local] Hint Resolve try_connect_frame sleep_rest_frame : effects.
Lemma data_tries_frame t n k : ok t -> keeps R (data_tries (W := W) t n k).
Proof. induction k; simpl; effects. Qed.
#[local] Hint Resolve data_tries_frame : effects.
Lemma data_rounds_frame t n k : ok t -> keeps R (data_rounds (W := W) sc fuel t n k).
Proof. revert n. induction k; intros n; simpl; effects. Qed.
#[local] Hint Resolve data_rounds_frame : effects.
Lemma NegoiateDataChannel_frame t : ok t -> keeps R (NegoiateDataChannel (W := W) sc fuel t).
Proof. unfold NegoiateDataChannel, wait_control. effects. Qed.
#[local] Hint Resolve NegoiateDataChannel_frame : effects.

Lemma setReservedTime_frame n b : keeps R (setReservedTime (W := W) n b).
Proof. unfold setReservedTime. effects. Qed.
Lemma reconnect_frame c : okc c -> keeps R (reconnect (W := W) sc fuel c).
Proof. unfold reconnect. effects. Qed.
Lemma send_data_frame c p : okc c -> keeps R (send_data (W := W) fuel c p).
Proof. unfold send_data. effects. Qed.
#[local] Hint Resolve setReservedTime_frame receive_frame reconnect_frame send_data_frame : effects.

Lemma control_tries_frame t n k : ok t -> keeps R (control_tries (W := W) t n k).
Proof. induction k; simpl; effects. Qed.
#[local] Hint Resolve control_tries_frame : effects.
Lemma control_rounds_frame t n k : ok t -> keeps R (control_rounds (W := W) sc fuel t n k).
Proof. revert n. induction k; intros n; simpl; effects. Qed.
#[local] Hint Resolve control_rounds_frame : effects.
Lemma NegoiateControlChannel_frame t : ok t -> keeps R (NegoiateControlChannel (W := W) sc fuel t).
Proof. unfold NegoiateControlChannel. effects. Qed.

Lemma GetMPTime_frame : keeps R (Protocol.GetMPTime (W := W) sc gmtoff fuel).
Proof. unfold GetMPTime. effects. Qed.
Lemma GetMPIntervalSecond_frame : keeps R (GetMPIntervalSecond (W := W) sc fuel).
Proof. unfold GetMPIntervalSecond. effects. Qed.
Lemma request_loop_frame c r k d : okc c -> keeps R (request_loop (W := W) sc fuel c r k d).
Proof. revert d. induction k; intros d; simpl; unfold request_step; effects. Qed.
#[local] Hint Resolve GetMPTime_frame GetMPIntervalSecond_frame request_loop_frame : effects.
Lemma RequestCurrentData_frame c d : okc c -> keeps R (RequestCurrentData (W := W) sc gmtoff fuel c d).
Proof. unfold RequestCurrentData, isTimeForAction, sync_clock, wait_reserved. effects. Qed.

Lemma IsTimeForSleep_frame : keeps R (IsTimeForSleep (W := W)).
Proof. unfold IsTimeForSleep, setLastActionTime. simpl. effects. Qed.
Lemma PatrolRest_frame : keeps R (PatrolRest (W := W)).
Proof. unfold PatrolRest. effects. Qed.
Lemma SleepForPowerOn_frame : keeps R (SleepForPowerOn (W := W)).
Proof. unfold SleepForPowerOn. effects. Qed.

Lemma GetCommand_frame c : okc c -> keeps R (GetCommand (W := W) sc fuel c).
Proof. unfold GetCommand. effects. Qed.
Lemma TransferCmd_frame d c p : okc d -> okc c -> keeps R (TransferCmd (W := W) sc fuel d c p).
Proof. unfold TransferCmd, transfer_step. effects. Qed.
Lemma send_all_frame c l : okc c -> keeps R (send_all (W := W) c l).
Proof. induction l; simpl; effects. Qed.
#[local] Hint Resolve send_all_frame : effects.
Lemma SendQueueData_frame l c : okc c -> keeps R (SendQueueData (W := W) fuel l c).
Proof. unfold SendQueueData. effects. Qed.
#[local] Hint Resolve SendQueueData_frame : effects.
Lemma history_loop_frame d c n a b q p : okc d -> okc c -> keeps R (history_loop (W := W) sc fuel d c n a b q p).
Proof. revert a b q p. induction n; intros a b q p; simpl; effects. Qed.
#[local] Hint Resolve history_loop_frame : effects.
Lemma HistoryDataTransfer_frame d c p : okc d -> okc c -> keeps R (HistoryDataTransfer (W := W) sc fuel d c p).
Proof. unfold HistoryDataTransfer. effects. Qed.
End Frame.

(** ** The data queue is only shortened by acknowledgements *)

Section Data.
Context {W : Type} {E : Env Agent W} (t : tcp).

Abbreviation dq s := (queue (dataQueue (agent s))).

(** Acknowledgement [ack], with the number of [p], is part of what was received. *)
Definition acknowledged (p : packet) (evs : list event) : Prop :=
  exists pre ack post no,
    collect ev_received evs = pre ++ ack ++ post /\
    IsAck ack = true /\ GetDataNo p = Some no /\ IsAckNo ack no = Some true.

(** [p] may leave the queue: it is no data frame, or the server has it. *)
Definition excused (evs : list event) (p : packet) : Prop :=
  FrameCommandType p <> Some DataRequest \/ acknowledged p evs.

Lemma excused_weaken a evs b p : excused evs p -> excused (a ++ evs ++ b) p.
Proof.
  intros [H|(pre & ack & post & no & H & Ha)]; [by left|right].
  exists (collect ev_received a ++ pre), ack, (post ++ collect ev_received b), no.
  split; [|done]. rewrite !collect_app, H. by rewrite <- !app_assoc.
Qed.

Lemma all_excused_weaken a evs b l : Forall (excused evs) l -> Forall (excused (a ++ evs ++ b)) l.
Proof. intros H. eapply Forall_impl; [exact H|]. intros p. apply excused_weaken. Qed.

(** The world keeps count of the packets the other threads have pushed, as long as
    they did nothing else to the data queue ([compliant]). *)
Context (pushed : W -> list packet) (compliant : W -> Prop).

Definition others_push : Prop :=
  forall T (c : syscall T) a w r a' w', env_step c a w = Some (r, a', w') -> compliant w' ->
    compliant w /\
    exists new, queue (dataQueue a') = queue (dataQueue a) ++ new /\ pushed w' = pushed w ++ new.

(** From [s] to [s'] every packet that was in the queue or was pushed is still there,
    in order, or was removed from the front and is excused. *)
Definition advances (s s' : st Agent W) : Prop :=
  compliant (world s') -> compliant (world s) /\
  exists evs new removed,
    trace s' = trace s ++ evs /\ pushed (world s') = pushed (world s) ++ new /\
    dq s ++ new = removed ++ dq s' /\ Forall (excused evs) removed.

#[local] Instance advances_preorder : PreOrder advances.
Proof.
  split.
  - intros s Hc. split; [done|]. exists [], [], []. by rewrite !app_nil_r.
  - intros s1 s2 s3 H12 H23 Hc.
    destruct H23 as (Hc2 & e2 & n2 & r2 & Ht2 & Hp2 & Hq2 & Hf2); [done|].
    destruct H12 as (Hc1 & e1 & n1 & r1 & Ht1 & Hp1 & Hq1 & Hf1); [done|]. split; [done|].
    exists (e1 ++ e2), (n1 ++ n2), (r1 ++ r2). split_and!.
    + by rewrite Ht2, Ht1, app_assoc.
    + by rewrite Hp2, Hp1, app_assoc.
    + by rewrite app_assoc, Hq1, <- !app_assoc, Hq2.
    + apply Forall_app. split; [by apply (all_excused_weaken [])|].
      rewrite <- (app_nil_r e2). by apply all_excused_weaken.
Qed.

Hypothesis Hpush : others_push.
Hypothesis Hrb : recv_bounded E.
Context (sc : bool) (fuel : nat).

(** Nothing left the queue. *)
Definition appended (s s' : st Agent W) : Prop :=
  compliant (world s') -> compliant (world s) /\
  exists evs new, trace s' = trace s ++ evs /\ pushed (world s') = pushed (world s) ++ new /\ dq s' = dq s ++ new.

#[local] Instance appended_preorder : PreOrder appended.
Proof.
  split.
  - intros s Hc. split; [done|]. exists [], []. by rewrite !app_nil_r.
  - intros s1 s2 s3 H12 H23 Hc.
    destruct H23 as (Hc2 & e2 & n2 & Ht2 & Hp2 & Hq2); [done|].
    destruct H12 as (Hc1 & e1 & n1 & Ht1 & Hp1 & Hq1); [done|]. split; [done|].
    exists (e1 ++ e2), (n1 ++ n2). by rewrite Ht2, Ht1, Hp2, Hp1, Hq2, Hq1, !app_assoc.
Qed.

Lemma appended_advances s s' : appended s s' -> advances s s'.
Proof.
  intros H Hc. destruct H as (Hc' & e & n & Ht & Hp & Hq); [done|]. split; [done|].
  exists e, n, []. by rewrite Hq.
Qed.

Lemma keeps_appended_advances {A} (m : M Agent W A) : keeps appended m -> keeps advances m.
Proof. intros Hm s. by apply appended_advances, Hm. Qed.

Lemma sys_appended T (c : syscall T) : keeps appended (sys c).
Proof.
  intros s. unfold sys. destruct (env_step c _ _) as [[[r a] w]|] eqn:He; [|reflexivity].
  intros Hc. destruct (Hpush _ _ _ _ _ _ _ He Hc) as (Hc' & new & Hq & Hp). split; [done|].
  by exists [Ev c r], new.
Qed.

Lemma modify_appended f : (forall a, dataQueue (f a) = dataQueue a) -> keeps appended (modify f).
Proof. intros Hf s Hc. split; [done|]. exists [], []. simpl. by rewrite Hf, !app_nil_r. Qed.

Lemma tcp_set_appended t' f : keeps appended (tcp_set t' f).
Proof. apply modify_appended. by destruct t'. Qed.
Lemma ser_set_appended f : keeps appended (ser_set f).
Proof. by apply modify_appended. Qed.
Lemma pset_appended f : keeps appended (pset f).
Proof. by apply modify_appended. Qed.

#[local] Hint Resolve sys_appended tcp_set_appended ser_set_appended pset_appended : core.

(** One exchange: the queue keeps its packets, and the answer was received. *)
Lemma wp_send_data p (s : st Agent W) :
  wp (send_data fuel (Tcp t) p) (fun o s' => appended s s' /\
    if_ok (fun r => exists pre, collects ev_received s s' (pre ++ snd r)) o) s.
Proof.
  apply (wp_and_keeps appended _ (fun o s' =>
    if_ok (fun r => exists pre, collects ev_received s s' (pre ++ snd r)) o)); [|..].
  { apply (send_data_frame _ (ok := any_port)); auto with typeclass_instances. }
  2: { auto. }
  unfold send_data. apply wp_bind, wp_lift. destruct (read_mem _ _) as [buf|]; [|done].
  apply wp_bind, wp_attempt.
  apply (wp_and_keeps (calls not_recv) _ (fun _ _ => True)); [|done|].
  { apply tcp_Write_calls; [by intros ? []|done]. }
  intros [n|e| |] s1 Hc _; try done; apply gains_calls in Hc.
  - eapply wp_mono; [|apply (wp_ReceiveAckFrom_gains t Hrb)].
    intros [r|e| |] s2; try done. intros [pre Hg]. exists pre. by eapply collects_nil_l.
  - apply wp_mret. by exists [].
Qed.

(** Removing the front packet, when it is excused. *)
Lemma wp_dq_pop p rest evs Q (s0 s : st Agent W) :
  dq s0 = p :: rest -> trace s = trace s0 ++ evs -> appended s0 s -> excused evs p ->
  (forall o s', advances s0 s' -> Q o s') ->
  wp (dq_pop fuel) Q s.
Proof.
  intros H0 Ht Hs Hp HQ. apply wp_bind, (wp_keeps appended).
  { unfold acquire. effects; auto. }
  intros o s1 Hw. pose proof (transitivity Hs Hw) as Hs1. pose proof (appended_advances _ _ Hs1) as Ha.
  destruct o as [[]|e| |]; try (by apply HQ).
  apply wp_bind, wp_gets, wp_bind, wp_lift. unfold PacketQueue.Pop, lock. simpl.
  destruct (mutex _); simpl; [by apply HQ|]. destruct (dq s1) as [|x l] eqn:Hq; [by apply HQ|].
  apply HQ. intros Hc. destruct (Hw Hc) as (Hc1 & e1 & n1 & Ht1 & _ & _).
  destruct (Hs1 Hc) as (Hc0 & e & new & _ & Hn & Hq'). split; [done|].
  exists (evs ++ e1), new, [p]. split_and!.
  - simpl. by rewrite Ht1, Ht, app_assoc.
  - done.
  - rewrite Hq, H0 in Hq'. injection Hq' as -> ->. by rewrite H0.
  - apply Forall_singleton. by apply (excused_weaken []).
Qed.

Lemma wp_judge_ack p ack retry rest evs (s0 s : st Agent W) :
  dq s0 = p :: rest -> trace s = trace s0 ++ evs -> appended s0 s ->
  (exists pre, collect ev_received evs = pre ++ ack) ->
  wp (judge_ack fuel p ack retry) (fun _ s' => advances s0 s') s.
Proof.
  intros H0 Ht Hs [pre Hrec]. pose proof (appended_advances _ _ Hs) as Ha.
  assert (Hrest : forall m : M Agent W (Z + unit), keeps appended m -> wp m (fun _ s' => advances s0 s') s).
  { intros m Hm. apply (wp_keeps appended); [done|]. intros o s' H'.
    etrans; [exact Ha|by apply appended_advances]. }
  unfold judge_ack. apply wp_bind. destruct (IsAck ack) eqn:Hack.
  - apply wp_bind, wp_lift. destruct (GetDataNo p) as [no|] eqn:Hno; [|done].
    apply wp_lift. destruct (IsAckNo ack no) as [[|]|] eqn:Hn; [| |done].
    + apply wp_bind, wp_lift. destruct (GetAckNo ack); [|done].
      apply wp_bind. apply (wp_dq_pop p rest evs _ s0); [done..| |by intros [] s' ?].
      right. exists pre, ack, [], no. by rewrite app_nil_r.
    + apply Hrest. unfold IsPowerOff. effects; auto.
  - apply wp_mret, Hrest. unfold IsPowerOff. effects; auto.
Qed.

Lemma send_step_advances retry : keeps advances (send_step sc fuel (Tcp t) retry).
Proof.
  intros s. change (wp (send_step sc fuel (Tcp t) retry) (fun _ s' => advances s s') s).
  unfold send_step. apply wp_bind, wp_gets. case_bool; [apply wp_mret; reflexivity|].
  apply wp_bind, wp_bind, wp_gets, wp_lift. unfold Front, id.
  destruct (dq s) as [|p rest] eqn:H0; simpl; [reflexivity|].
  apply wp_bind, wp_lift. destruct (GetDataNo p); [|reflexivity].
  apply wp_bind, wp_lift. destruct (FrameCommandType p) as [eCmd|] eqn:Hcmd; [|reflexivity].
  case_decide as Hd.
  - apply wp_bind. apply (wp_dq_pop p rest [] _ s); [done| |done| |by intros [] s' ?].
    + by rewrite app_nil_r.
    + left. congruence.
  - apply wp_bind. eapply wp_mono; [|apply wp_send_data]. intros o s1 [Hap Hg].
    pose proof (appended_advances _ _ Hap) as Hadv.
    destruct o as [[e ack]|e| |]; try done. destruct Hg as (pre & evs & Ht & Hrec). case_bool.
    + apply (wp_keeps appended); [|intros o s' H'; etrans; [exact Hadv|by apply appended_advances]].
      effects. apply (reconnect_frame _ (ok := any_port)); auto with typeclass_instances.
    + apply wp_bind, wp_gets. case_bool; [done|]. apply (wp_judge_ack p ack retry rest evs); eauto.
Qed.

(** Whatever the server answers or fails to answer, and whatever the other threads
    push meanwhile, [SendCurrentData] removes packets only from the front of the
    queue, and every packet it removes is no data frame or had an acknowledgement
    with its number among the bytes received from the server. *)
Lemma SendCurrentData_advances : keeps advances (SendCurrentData sc fuel (Tcp t)).
Proof.
  unfold SendCurrentData, pget. apply keeps_bind; [apply _|auto with effects|intros n].
  apply keeps_bind; [apply _|apply keeps_appended_advances, setReservedTime_frame; auto with typeclass_instances|intros tm].
  apply keeps_bind; [apply _|apply keeps_appended_advances, pset_appended|intros _].
  apply keeps_loop; [apply _|]. apply send_step_advances.
Qed.
End Data.

(** ** Passing a command of the server to the post *)

Lemma frame_nonempty sc p : isFrameCRCOK sc p = true -> (Packet.GetSize p =? 0) = false.
Proof. intros H%isFrameCRCOK_size. apply Z.eqb_neq. unfold Packet.GetSize. lia. Qed.

(** A frame received from the serial port is whole or missing. *)
Definition whole (sc : bool) (p : packet) : Prop := p = [] \/ isFrameCRCOK sc p = true.

Section Transfer.
Context {W : Type} {E : Env Agent W} (t : tcp) (sc : bool) (fuel : nat).

Lemma wp_serial_receive Q (s : st Agent W) :
  (forall p s', sent s s' [] -> whole sc p -> Q (Ok (None, p)) s') -> (forall s', sent s s' [] -> Q NoFuel s') ->
  wp (ReceiveFrameFrom sc (ops Serial) fuel) Q s.
Proof.
  intros HQ HN.
  pose proof (ReceiveFrameFrom_serial (E := E) sc fuel s) as Hs.
  pose proof (ReceiveFrameFrom_avoids (E := E) KThrow Serial sc fuel ltac:(done) s) as Ht.
  pose proof (ReceiveFrameFrom_avoids (E := E) KUndef Serial sc fuel ltac:(done) s) as Hu.
  assert (Hc : sent s (snd (ReceiveFrameFrom sc (ops Serial) fuel s)) []).
  { apply sent_calls, ReceiveFrameFrom_calls. by intros ? []. }
  unfold wp. destruct (ReceiveFrameFrom sc (ops Serial) fuel s) as [[[e p]|e| |] s'] eqn:Hr; simpl in *; try done.
  - subst e. apply HQ; [done|]. by eapply ReceiveFrameFrom_valid.
  - by apply HN.
Qed.

(** The state of the loop: what was sent since [s0]. *)
Definition transfer_inv (s0 : st Agent W) (x : Z * packet) (s : st Agent W) : Prop :=
  0 <= fst x < 3 /\ whole sc (snd x) /\
  exists l, sent s0 s l /\ Z.of_nat (length l) <= fst x /\ Forall (failed (snd x)) l /\
    (snd x = [] -> l = []).

(** How the loop is left: no answer, an answer the server did not take, or one it took. *)
Inductive transfer_end (s0 s : st Agent W) : Z * packet -> Prop :=
| TNoAnswer : sent s0 s [] -> transfer_end s0 s (3, [])
| TNotTaken answer l :
    isFrameCRCOK sc answer = true -> sent s0 s l -> (length l <= 3)%nat -> Forall (failed answer) l ->
    transfer_end s0 s (3, answer)
| TTaken answer l n :
    isFrameCRCOK sc answer = true -> sent s0 s (l ++ [(answer, n)]) -> 0 <= n ->
    (length l <= 2)%nat -> Forall (failed answer) l -> transfer_end s0 s (0, answer).

(** Another turn, or the end after three. *)
Lemma transfer_again s0 (s : st Agent W) retry answer l :
  0 <= retry < 3 -> whole sc answer -> sent s0 s l -> Z.of_nat (length l) <= retry + 1 ->
  Forall (failed answer) l -> (answer = [] -> l = []) ->
  if retry + 1 <? 3 then transfer_inv s0 (retry + 1, answer) s else transfer_end s0 s (retry + 1, answer).
Proof.
  intros Hr Hw Hl Hn Hf He. case_bool; to_prop.
  - split_and!; simpl; [lia|lia|done|]. exists l. by split_and!.
  - replace (retry + 1) with 3 by lia. destruct Hw as [->|Hw].
    + apply TNoAnswer. by rewrite <- He.
    + apply (TNotTaken _ _ _ l); try done. lia.
Qed.

Lemma wp_again s0 (s : st Agent W) retry answer l :
  0 <= retry < 3 -> whole sc answer -> sent s0 s l -> Z.of_nat (length l) <= retry + 1 ->
  Forall (failed answer) l -> (answer = [] -> l = []) ->
  wp (mret (if retry + 1 <? 3 then inl (retry + 1, answer) else inr (retry + 1, answer))) (fun o s' =>
    match o with
    | Ok (inl y) => transfer_inv s0 y s' /\ fst y = retry + 1
    | Ok (inr y) => transfer_end s0 s' y
    | NoFuel => True
    | _ => False
    end) s.
Proof.
  intros. apply wp_mret. pose proof (transfer_again s0 s retry answer l) as H'.
  destruct (retry + 1 <? 3); auto.
Qed.

Lemma transfer_step_spec cmd x s0 (s : st Agent W) :
  transfer_inv s0 x s ->
  wp (transfer_step sc fuel Serial (Tcp t) cmd x) (fun o s' =>
    match o with
    | Ok (inl y) => transfer_inv s0 y s' /\ fst y = fst x + 1
    | Ok (inr y) => transfer_end s0 s' y
    | NoFuel => True
    | _ => False
    end) s.
Proof.
  destruct x as [retry answer]. intros (Hr & Hw & l & Hl & Hn & Hf & He). simpl in *.
  unfold transfer_step. apply wp_bind.
  apply (wp_keeps_run (calls no_send)); [| | | |done].
  { effects. apply SendTo_calls. by intros ? []. }
  1,2: effects; apply SendTo_avoids; [apply _|by left].
  intros _ s1 H1%sent_calls.
  assert (Hl1 : sent s0 s1 l) by (by eapply collects_nil_r).
  (* the answer is there from this turn on *)
  assert (Hsend : forall p s2, p <> [] -> whole sc p -> sent s0 s2 l -> Forall (failed p) l ->
    wp (w <- attempt (send (Tcp t) p);
        match w with
        | inl _ => mret (if retry + 1 <? 3 then inl (retry + 1, p) else inr (retry + 1, p))
        | inr _ => mret (inr (0, p))
        end) (fun o s' =>
      match o with
      | Ok (inl y) => transfer_inv s0 y s' /\ fst y = retry + 1
      | Ok (inr y) => transfer_end s0 s' y
      | NoFuel => True
      | _ => False
      end) s2).
  { intros p s2 Hp Hwp Hl2 Hfp. apply wp_bind, wp_attempt, wp_bind.
    eapply wp_mono; [|apply wp_tcp_Write_sent]. intros [n|e| |] s3 H3; try done.
    - destruct H3 as [Hn3 H3]. apply wp_mret, wp_mret. destruct Hwp as [->|Hwp]; [done|].
      apply (TTaken _ _ _ l n); [done|by eapply collects_trans|done|lia|done].
    - destruct H3 as (k & H3 & Hk & Hfk).
      apply (wp_again _ _ _ _ (l ++ k)); [done|done|by eapply collects_trans|rewrite length_app; lia| |done].
      by apply Forall_app. }
  destruct (Packet.GetSize answer =? 0) eqn:Hsz.
  - apply wp_bind, wp_serial_receive; [|done]. intros p s2 H2 Hwp.
    assert (answer = []) as -> by (unfold Packet.GetSize in Hsz; destruct answer; done).
    rewrite (He eq_refl) in *. assert (sent s0 s2 []) by (by eapply collects_nil_r).
    case_bool; [|by apply Hsend; [intros ->| |..]].
    apply (wp_again _ _ _ _ []); try done. simpl. lia.
  - apply wp_bind, wp_mret. rewrite Hsz. apply Hsend; try done. by intros ->.
Qed.

Lemma transfer_loop_spec cmd k x s0 (s : st Agent W) :
  transfer_inv s0 x s -> 3 <= fst x + Z.of_nat k ->
  wp (loop k (transfer_step sc fuel Serial (Tcp t) cmd) x) (fun o s' =>
    match o with Ok y => transfer_end s0 s' y | NoFuel => True | _ => False end) s.
Proof.
  revert x s. induction k as [|k IH]; intros x s Hx Hk; [done|]. cbn [loop]. apply wp_bind.
  eapply wp_mono; [|by apply transfer_step_spec]. intros [[y|y]|e| |] s1 H1; try done.
  destruct H1 as [H1 Hy]. apply IH; [done|lia].
Qed.

Lemma flock_no_send : keeps (calls no_send) (@Lock W (ops Serial)) /\ keeps (calls no_send) (@Unlock W (ops Serial)).
Proof. split; simpl; unfold ser_get; effects; by apply keeps_sys. Qed.

Lemma flock_avoids k `{!Answers k E} : avoids k (@Lock W (ops Serial)) /\ avoids k (@Unlock W (ops Serial)).
Proof. split; simpl; unfold ser_get; effects. Qed.

(** A step that sends nothing and ends normally if at all. *)
Lemma wp_sends_nothing {A} (m : M Agent W A) Q s :
  keeps (calls no_send) m -> avoids KThrow m -> avoids KUndef m ->
  (forall a s', sent s s' [] -> Q (Ok a) s') -> (forall s', Q NoFuel s') -> wp m Q s.
Proof.
  intros Hk Ht Hu HQ HN. apply (wp_keeps_run (calls no_send)); [done..| |done].
  intros a s' H. by apply HQ, sent_calls.
Qed.

(** The flags after [TransferCmd] and what they mean. *)
Inductive transferred (s s' : st Agent W) : Prop :=
| NoAnswer : sent s s' [] -> bInCommunicationError (protocol (agent s')) = true -> transferred s s'
| NotTaken answer l :
    isFrameCRCOK sc answer = true -> sent s s' l -> (length l <= 3)%nat -> Forall (failed answer) l ->
    bExtCommunicationError (protocol (agent s')) = true -> transferred s s'
| Taken answer l n :
    isFrameCRCOK sc answer = true -> sent s s' (l ++ [(answer, n)]) -> 0 <= n ->
    (length l <= 2)%nat -> Forall (failed answer) l ->
    bExtCommunicationError (protocol (agent s')) = false ->
    bInCommunicationError (protocol (agent s')) = false -> transferred s s'.

(** C11. [TransferCmd] never throws, and when it returns the flags say what happened:
    with the internal error set nothing was sent to the server; with both errors
    clear one whole, CRC-checked frame of the post was sent after at most two
    failed attempts to send that same frame; otherwise the external error is set
    and the frame was refused at most three times. *)
Theorem transfer_outcome cmd (s : st Agent W) :
  wp (TransferCmd sc fuel Serial (Tcp t) cmd) (fun o s' =>
    match o with Ok _ => transferred s s' | NoFuel => True | _ => False end) s.
Proof.
  unfold TransferCmd. apply wp_bind, wp_sends_nothing; [apply flock_no_send|apply flock_avoids, _..| |done].
  intros [] s1 H1. apply wp_bind, wp_sends_nothing; [apply keeps_modify|apply avoids_modify..| |done].
  intros [] s2 H2. apply wp_bind.
  eapply wp_mono; [|apply (transfer_loop_spec cmd 3 (0, []) s)]; [|split; simpl; [lia|]|done].
  2: { split; [by left|]. exists []. split_and!; [|simpl; lia|done|done].
       by eapply collects_nil_r. }
  intros [[retry answer]|e| |] s3 H3; try done.
  apply wp_bind, wp_sends_nothing; [apply flock_no_send|apply flock_avoids, _..| |done]. intros [] s4 H4.
  assert (Hs : forall l, sent s s3 l -> forall f, sent s (snd (pset f s4)) l).
  { intros l Hl f. eapply collects_nil_r; [by eapply collects_nil_r|]. exists []. by rewrite app_nil_r. }
  inversion H3 as [Hn|a l Hc Hl Hk Hf|a l n Hc Hl Hn Hk Hf]; subst.
  - apply NoAnswer; [by apply Hs|done].
  - rewrite (frame_nonempty sc) by done. apply (NotTaken _ _ answer l); try done. by apply Hs.
  - rewrite (frame_nonempty sc) by done. apply wp_bind.
    apply (Taken _ _ answer l n); try done. exact (Hs _ Hl id).
Qed.
End Transfer.

(** ** Asking the post for its current data *)

Section Request.
Context {W : Type} {E : Env Agent W} (sc : bool) (gmtoff : Z) (fuel : nat).

(** Normal and non-terminating outcomes only. *)
Definition ok_or_fuel {A} (Q : A -> st Agent W -> Prop) (o : outcome A) (s : st Agent W) : Prop :=
  match o with Ok a => Q a s | NoFuel => True | _ => False end.

Lemma FrameCommandType_whole p : whole sc p -> exists e, FrameCommandType p = Some e.
Proof.
  intros [->|H%isFrameCRCOK_size]; [by eexists|]. unfold FrameCommandType. case_bool; [|by eexists].
  assert (Hes : Forall (fun e => e <> CMD_END) commands) by (by repeat constructor).
  induction Hes as [|e es He _ IH]; simpl; [by eexists|]. unfold IsCommand. destruct (lookup_lt_is_Some_2 (p ++ [0]) off_cmd) as [b0 Hb0].
  { rewrite length_app. unfold off_cmd. simpl. lia. }
  destruct (lookup_lt_is_Some_2 (p ++ [0]) (S off_cmd)) as [b1 Hb1].
  { rewrite length_app. unfold off_cmd. simpl. lia. }
  unfold byte_at. rewrite Hb0, Hb1. simpl. unfold off_cmd in *.
  destruct e; try done; simpl; repeat (case_bool; simpl); eauto.
Qed.

Lemma request_step_spec request data (s : st Agent W) :
  wp (request_step sc fuel Serial request data)
    (ok_or_fuel (fun r _ => whole sc (snd r) /\ fst r = negb (Packet.GetSize (snd r) =? 0))) s.
Proof.
  unfold request_step. apply wp_bind.
  apply (wp_mono _ (fun o _ => o = NoFuel \/ o = Ok (inr tt))).
  2: { pose proof (SendTo_avoids (E := E) KThrow Serial request ltac:(by left) s).
       pose proof (SendTo_avoids (E := E) KUndef Serial request ltac:(by left) s).
       apply wp_attempt. unfold wp, send.
       destruct (SendTo (ops Serial) request s) as [[[]|e| |] s1]; simpl in *; auto; done. }
  intros o s1 [->| ->]; [done|]. apply wp_bind, wp_serial_receive; [|done]. intros p s2 _ Hp.
  apply wp_bind, wp_lift. destruct (FrameCommandType_whole p Hp) as [e ->].
  apply wp_bind. case_decide; [apply wp_mret, wp_mret; done|].
  apply wp_serial_receive; [|done]. intros p' s3 _ Hp'. apply wp_mret. done.
Qed.

Lemma request_loop_spec request k data (s : st Agent W) :
  (k <> O \/ data = []) ->
  wp (request_loop sc fuel Serial request k data)
    (ok_or_fuel (fun r _ => whole sc (snd r) /\ ((fst r =? 0)%nat = (Packet.GetSize (snd r) =? 0)))) s.
Proof.
  revert data s. induction k as [|k IH]; intros data s Hk; simpl.
  { destruct Hk as [Hk| ->]; [done|]. by split; [left|]. }
  apply wp_bind. eapply wp_mono; [|apply request_step_spec].
  intros [[b d]|e| |] s1 H1; try done. destruct H1 as [Hw Hb]. simpl in *. subst b.
  destruct (Packet.GetSize d =? 0) eqn:Hd; simpl.
  - apply IH. right. unfold Packet.GetSize in Hd. by destruct d.
  - split; simpl; auto.
Qed.

Lemma wp_sys_step {T} (c : syscall T) r a w Q (s : st Agent W) :
  env_step c (agent s) (world s) = Some (r, a, w) -> Q (Ok r) (mkSt a w (trace s ++ [Ev c r])) -> wp (sys c) Q s.
Proof. intros He HQ. unfold wp, sys. by rewrite He. Qed.

(** Nothing that talks to the post throws. *)
Lemma receive_serial_safe : avoids KThrow (receive (W := W) sc fuel Serial).
Proof.
  intros s. unfold receive, bind.
  pose proof (ReceiveFrameFrom_serial (E := E) sc fuel s) as Hs.
  pose proof (ReceiveFrameFrom_avoids (E := E) KThrow Serial sc fuel ltac:(done) s) as Ht.
  destruct (ReceiveFrameFrom sc (ops Serial) fuel s) as [[[e p]|e| |] s']; simpl in *; try done.
  by subst e.
Qed.

Lemma send_serial_safe k `{!Answers k E} p : avoids k (send (W := W) Serial p).
Proof. apply SendTo_avoids; [done|by left]. Qed.

Lemma timeout_serial_safe k n : avoids k (@SetTimeOut W (ops Serial) n).
Proof. apply avoids_modify. Qed.

#[local] Hint Resolve receive_serial_safe send_serial_safe timeout_serial_safe : effects.

Lemma GetMPTime_safe : avoids KThrow (Protocol.GetMPTime (W := W) sc gmtoff fuel).
Proof. unfold GetMPTime, pget. effects. Qed.

Lemma GetMPIntervalSecond_safe : avoids KThrow (GetMPIntervalSecond (W := W) sc fuel).
Proof. unfold GetMPIntervalSecond, pget. effects. Qed.

Lemma sync_clock_safe n : avoids KThrow (sync_clock (W := W) n).
Proof. unfold sync_clock. effects. Qed.

Lemma wait_reserved_safe n : avoids KThrow (wait_reserved (W := W) n).
Proof. unfold wait_reserved, pget. effects. Qed.

Lemma setReservedTime_safe n b : avoids KThrow (setReservedTime (W := W) n b).
Proof. unfold setReservedTime. effects. Qed.

(** A step about which nothing is needed but that it does not throw. *)
Lemma wp_any {A} (m : M Agent W A) Q s :
  avoids KThrow m -> (forall a s', Q (Ok a) s') -> (forall s', Q Undef s') -> (forall s', Q NoFuel s') ->
  wp m Q s.
Proof.
  intros Ha H1 H2 H3. specialize (Ha s). unfold wp. destruct (m s) as [[]]; simpl in *; auto; done.
Qed.

(** C12. A request for current data looks at the clock first.  When it is not yet due it
    does nothing else: the packet, the objects and the trace are as the clock call left
    them.  When it is due it returns a whole, CRC-checked frame or nothing, and
    [bInCommunicationError] is set exactly when it returns nothing.  Whatever the post
    does, no exception leaves [RequestCurrentData]. *)
Theorem request_outcome data (s : st Agent W) now a w :
  env_step sys_gettimeofday (agent s) (world s) = Some (now, a, w) ->
  wp (RequestCurrentData sc gmtoff fuel Serial data) (fun o s' =>
    if timer_lt now (tmCurrentDataActive (protocol (agent s)))
    then o = Ok data /\ s' = mkSt a w (trace s ++ [Ev sys_gettimeofday now])
    else
      match o with
      | Ok d => whole sc d /\ bInCommunicationError (protocol (agent s')) = bool_decide (d = [])
      | Throw _ => False
      | Undef | NoFuel => True
      end) s.
Proof.
  intros Hnow. unfold RequestCurrentData. apply wp_bind, wp_gets, wp_bind. unfold isTimeForAction.
  apply wp_bind, (wp_sys_step _ now a w); [exact Hnow|]. apply wp_mret.
  destruct (timer_lt now _) eqn:Hdue; cbn [negb]; [by apply wp_mret|].
  apply wp_bind, wp_any; [apply GetMPTime_safe| |done..]. intros nowMP s1.
  apply wp_bind, wp_any; [apply sync_clock_safe| |done..]. intros _ s2.
  apply wp_bind, wp_any; [apply wait_reserved_safe| |done..]. intros _ s3.
  apply wp_bind, wp_any; [apply GetMPIntervalSecond_safe| |done..]. intros n s4.
  apply wp_bind, wp_any; [apply setReservedTime_safe| |done..]. intros tm s5.
  apply wp_bind, wp_any; [apply avoids_modify| |done..]. intros _ s6.
  apply wp_bind, wp_gets, wp_bind, wp_lift. destruct (SetCommand _ _) as [request|]; [|done].
  apply wp_bind, wp_any; [apply timeout_serial_safe| |done..]. intros _ s7.
  apply wp_bind, wp_any; [apply flock_avoids, _| |done..]. intros _ s8.
  apply wp_bind. eapply wp_mono; [|apply request_loop_spec; by left].
  intros [[k d]|e| |] s9 H9; try done. destruct H9 as [Hw Hk]. simpl in *.
  apply wp_bind, wp_any; [apply flock_avoids, _| |done..]. intros _ s10.
  apply wp_bind, wp_bind, wp_lift.
  destruct (GetDataNo d); [|done]. apply wp_mret. split; [done|]. simpl.
  rewrite Hk, andb_diag. unfold Packet.GetSize. by destruct d.
Qed.
End Request.

(** ** The lock on the serial line *)

(** Lock ([true]) and unlock requests. *)
Definition ev_flock (e : event) : list bool :=
  match e with
  | Ev c r => match c with sys_flock _ b => [b] | _ => [] end
  end.

Abbreviation flocks := (collects ev_flock).

Definition no_flock (T : Type) (c : syscall T) : bool :=
  match c with sys_flock _ _ => false | _ => true end.

Lemma flocks_calls {S W} (s s' : st S W) : calls no_flock s s' -> flocks s s' [].
Proof. apply collects_calls. by intros ? []. Qed.

(** [n] times lock and unlock. *)
Fixpoint pairs (n : nat) : list bool :=
  match n with O => [] | S n => true :: false :: pairs n end.

Lemma pairs_app n m : pairs n ++ pairs m = pairs (n + m).
Proof. induction n; simpl; by rewrite ?IHn. Qed.

Section Locks.
Context {W : Type} {E : Env Agent W}.

(** [locks held m]: however [m] ends, the requests it made, after one lock when the
    line is [held] at its start, are pairs of lock and unlock. *)
Definition locks {A} (held : bool) (m : M Agent W A) : Prop :=
  forall s, match fst (m s) with
    | Ok _ | Throw _ => exists n, flocks s (snd (m s)) (if held then false :: pairs n else pairs n)
    | _ => True
    end.

Lemma locks_quiet {A} (m : M Agent W A) : keeps (calls no_flock) m -> locks false m.
Proof.
  intros Hm s. specialize (Hm s). apply flocks_calls in Hm.
  destruct (fst (m s)); try done; by exists O.
Qed.

Lemma locks_bind {A B} (m : M Agent W A) (f : A -> M Agent W B) :
  locks false m -> (forall a, locks false (f a)) -> locks false (bind m f).
Proof.
  intros Hm Hf s. specialize (Hm s). unfold bind.
  destruct (m s) as [[a|e| |] s1]; simpl in *; try done. destruct Hm as [n1 H1].
  specialize (Hf a s1). destruct (f a s1) as [[b|e| |] s2]; simpl in *; try done.
  all: destruct Hf as [n2 H2]; exists (n1 + n2)%nat; rewrite <- pairs_app; by eapply collects_trans.
Qed.

Lemma locks_bind_held {A B} (m : M Agent W A) (f : A -> M Agent W B) :
  keeps (calls no_flock) m -> avoids KThrow m -> (forall a, locks true (f a)) -> locks true (bind m f).
Proof.
  intros Hm Ha Hf s. specialize (Hm s). specialize (Ha s). apply flocks_calls in Hm. unfold bind.
  destruct (m s) as [[a|e| |] s1]; simpl in *; try done.
  specialize (Hf a s1). destruct (f a s1) as [[b|e| |] s2]; simpl in *; try done.
  all: destruct Hf as [n2 H2]; exists n2; by eapply collects_nil_l.
Qed.

(** One request. *)
Lemma flock_run b (s : st Agent W) :
  let m := (fd <- ser_get handle; sys (sys_flock fd b)) in
  fst (m s) = NoFuel \/ exists s1, m s = (Ok tt, s1) /\ flocks s s1 [b].
Proof.
  unfold bind, ser_get, gets, sys. destruct (env_step _ _ _) as [[[[] a] w]|]; [right|by left].
  eexists. split; [reflexivity|]. eexists. split; [reflexivity|]. done.
Qed.

Lemma locks_request {A} b (m : M Agent W unit) (k : M Agent W A) (held : bool) :
  (forall s, fst (m s) = NoFuel \/ exists s1, m s = (Ok tt, s1) /\ flocks s s1 [b]) ->
  (forall n, [b] ++ (if held then pairs n else false :: pairs n) = if held then false :: pairs n else pairs (S n)) ->
  locks (negb held) k -> locks held (m;; k).
Proof.
  intros Hm Hb Hk s. unfold bind. destruct (Hm s) as [Hn|(s1 & -> & H1)].
  { destruct (m s) as [[] s1]; simpl in *; done. }
  specialize (Hk s1). destruct (k s1) as [[x|e| |] s2]; simpl in *; try done.
  all: destruct Hk as [n H2]; pose proof (collects_trans _ _ _ _ _ _ H1 H2) as H3;
    specialize (Hb n); destruct held; simpl in H3, Hb; rewrite Hb in H3; eauto.
  all: by exists (S n).
Qed.

Lemma locks_lock {A} (k : M Agent W A) : locks true k -> locks false (@Lock W (ops Serial);; k).
Proof. apply (locks_request true _ k false (flock_run true)). done. Qed.

Lemma locks_unlock {A} (k : M Agent W A) : locks false k -> locks true (@Unlock W (ops Serial);; k).
Proof. apply (locks_request false _ k true (flock_run false)). done. Qed.

Context (sc : bool) (gmtoff : Z) (fuel : nat) (t : tcp).

(** Sending and receiving do not lock. *)
Lemma send_no_flock c p : keeps (calls no_flock) (send (W := W) c p).
Proof. apply SendTo_calls. by destruct c; intros ? []. Qed.
Lemma ReceiveFrameFrom_no_flock c : keeps (calls no_flock) (ReceiveFrameFrom (W := W) sc (ops c) fuel).
Proof. apply ReceiveFrameFrom_calls. by destruct c; intros ? []. Qed.
Lemma ReceiveAckFrom_no_flock c : keeps (calls no_flock) (ReceiveAckFrom (W := W) (ops c) fuel).
Proof. apply ReceiveAckFrom_calls. by destruct c; intros ? []. Qed.
Lemma SetTimeOut_no_flock c n : keeps (calls no_flock) (@SetTimeOut W (ops c) n).
Proof. apply SetTimeOut_calls. by destruct c; intros ? []. Qed.
#[local] Hint Resolve keeps_modify send_no_flock ReceiveFrameFrom_no_flock ReceiveAckFrom_no_flock
  SetTimeOut_no_flock : effects.
#[local] Hint Extern 1 (keeps (calls _) (sys _)) => (apply keeps_sys; reflexivity) : effects.

Lemma receive_no_flock c : keeps (calls no_flock) (receive (W := W) sc fuel c).
Proof. unfold receive. effects. Qed.
Lemma request_loop_no_flock c r k d : keeps (calls no_flock) (request_loop (W := W) sc fuel c r k d).
Proof. revert d. induction k; intros d; simpl; unfold request_step; effects. Qed.
Lemma send_all_no_flock c l : keeps (calls no_flock) (send_all (W := W) c l).
Proof. induction l; simpl; effects. Qed.
#[local] Hint Resolve receive_no_flock request_loop_no_flock send_all_no_flock : effects.
Lemma SendQueueData_no_flock c l : keeps (calls no_flock) (SendQueueData (W := W) fuel l c).
Proof. unfold SendQueueData. effects. Qed.
Lemma transfer_loop_no_flock cmd k x : keeps (calls no_flock) (loop (W := W) k (transfer_step sc fuel Serial (Tcp t) cmd) x).
Proof. unfold transfer_step. effects. Qed.
#[local] Hint Resolve SendQueueData_no_flock transfer_loop_no_flock : effects.

(** Only the serial port is written and read while it is locked, so nothing throws. *)
Lemma request_loop_safe r k d : avoids KThrow (request_loop (W := W) sc fuel Serial r k d).
Proof.
  pose proof (ReceiveFrameFrom_avoids (E := E) KThrow Serial sc fuel ltac:(done)).
  revert d. induction k; intros d; simpl; unfold request_step; effects; done.
Qed.

Lemma transfer_loop_safe cmd k x :
  avoids KThrow (loop (W := W) k (transfer_step sc fuel Serial (Tcp t) cmd) x).
Proof.
  pose proof (ReceiveFrameFrom_avoids (E := E) KThrow Serial sc fuel ltac:(done)).
  apply avoids_loop; [done|]. intros y. unfold transfer_step. effects; done.
Qed.

Lemma TransferCmd_locks cmd : locks false (TransferCmd (W := W) sc fuel Serial (Tcp t) cmd).
Proof.
  apply locks_lock, locks_bind_held; [auto with effects|apply timeout_serial_safe|intros _].
  apply locks_bind_held; [auto with effects|apply transfer_loop_safe|]. intros [retry answer].
  apply locks_unlock, locks_quiet. unfold pset. effects.
Qed.

Lemma RequestCurrentData_locks data : locks false (RequestCurrentData (W := W) sc gmtoff fuel Serial data).
Proof.
  unfold RequestCurrentData.
  assert (Hq : forall A (m : M Agent W A), keeps (calls no_flock) m -> locks false m)
    by (intros; by apply locks_quiet).
  apply locks_bind; [apply Hq, keeps_gets, _|intros timer].
  apply locks_bind; [apply Hq; unfold isTimeForAction; effects|intros due].
  destruct due; cbn [negb]; [|apply Hq; effects].
  do 3 (apply locks_bind;
    [apply Hq; unfold GetMPTime, sync_clock, wait_reserved, pget; effects|intros ?]).
  do 3 (apply locks_bind;
    [apply Hq; unfold GetMPIntervalSecond, setReservedTime, pget, pset; effects|intros ?]).
  apply locks_bind; [apply Hq, keeps_gets, _|intros machine].
  apply locks_bind; [apply Hq; effects|intros request].
  apply locks_bind; [apply Hq; auto with effects|intros _].
  apply locks_lock, locks_bind_held; [auto with effects|apply request_loop_safe|intros [k d]].
  apply locks_unlock, Hq. unfold pset. effects.
Qed.

Lemma history_loop_locks n nStart count q cmd :
  locks false (history_loop (W := W) sc fuel Serial (Tcp t) n nStart count q cmd).
Proof.
  revert nStart count q cmd. induction n as [|n IH]; intros nStart count q cmd; cbn [history_loop].
  { apply locks_quiet. effects. }
  apply locks_lock, locks_bind_held; [auto with effects|apply send_serial_safe, _|intros _].
  apply locks_bind_held; [auto with effects|apply receive_serial_safe|intros answer].
  apply locks_unlock. apply locks_bind; [apply locks_quiet; effects|intros q1].
  apply locks_bind; [apply locks_quiet; effects|intros q2].
  apply locks_bind; [apply locks_quiet; effects|intros cmd'; apply IH].
Qed.

End Locks.

(** ** History data *)

Section History.
Context {W : Type} {E : Env Agent W} (sc : bool) (fuel : nat) (t : tcp).

Lemma history_loop_no_send n nStart count q cmd :
  0 <= count -> (10 <= count \/ count + Z.of_nat n < 10) ->
  keeps (calls no_send) (history_loop (W := W) sc fuel Serial (Tcp t) n nStart count q cmd).
Proof.
  revert nStart count q cmd. induction n as [|n IH]; intros nStart count q cmd Hc Hn; cbn [history_loop].
  { effects. }
  apply keeps_bind; [apply _|apply flock_no_send|intros _].
  apply keeps_bind; [apply _|apply SendTo_calls; by intros ? []|intros _].
  apply keeps_bind; [apply _|unfold receive; effects; apply ReceiveFrameFrom_calls; by intros ? []|intros answer].
  apply keeps_bind; [apply _|apply flock_no_send|intros _]. cbn zeta.
  rewrite (proj2 (Z.eqb_neq (count + 1) 10)) by lia.
  effects. apply IH; lia.
Qed.

(** History data is lost when fewer than ten records are asked for: the answers
    of the post are collected in a queue that is sent only when it holds exactly
    ten, so [HistoryDataTransfer] of a range of less than ten numbers reads the
    records and sends nothing to the server; nor does any turn after the tenth. *)
Theorem short_history_is_not_sent cmd a b (s : st Agent W) :
  GetStartNum cmd = Some a -> GetEndNum cmd = Some b -> b - a + 1 < 10 ->
  sent s (snd (HistoryDataTransfer sc fuel Serial (Tcp t) cmd s)) [].
Proof.
  intros Ha Hb Hn. apply sent_calls. unfold HistoryDataTransfer, bind. rewrite Ha, Hb. simpl.
  apply history_loop_no_send; lia.
Qed.

(** An idle control connection is undefined behaviour: when no byte arrives
    before the time-out, [GetCommand] looks for a command word at offset 3 of an
    empty string. *)
Theorem idle_control_poll_is_undefined c (s s' : st Agent W) :
  ends (ops c) s None s' -> GetCommand sc fuel c s = (Undef, s').
Proof.
  intros H. unfold GetCommand, receive, ReceiveFrameFrom, bind at 1 2 3. rewrite H. simpl.
  by destruct fuel.
Qed.
End History.

(** ** A concrete run *)

(** Data frame 7 is queued, the link is up, and the server acknowledges. *)
Definition frame_7 : packet :=
  default [] (BuildPacket ([114; 97; 0; 63] ++ put_be16 7 ++ replicate 61 0) 67 1).
Definition ack_7 : packet := default [] (Ack true 1 DataRequest 7).

Definition sending : st Agent script :=
  mkSt (set_dataQueue (mkQueue [frame_7] false) (upd_modem (set_bPowerOff false)
         (upd_tcp srvData (fun p => set_bConnected true (set_socketID 5 p)) fresh_agent)))
    (mkScript 0 [] [IoData ack_7] [] None) [].

Lemma script_step {S T} (c : syscall T) (a : S) w :
  env_step c a w = Some (fst (script_answer c w), a, snd (script_answer c w)).
Proof. unfold env_step, script_env. by destruct (script_answer c w). Qed.

(** The post answers; a second request right after that is not due. *)
Definition asking : st Agent script :=
  mkSt fresh_agent (mkScript 600000007 [] [] (replicate 3 (IoData frame_7)) None) [].
Definition asked : st Agent script := snd (RequestCurrentData false 0 100 Serial [] asking).

Definition timer_runs (s : st Agent script) : bool :=
  timer_lt (fst (script_answer sys_gettimeofday (world s))) (tmCurrentDataActive (protocol (agent s))).

Lemma request_outcome_witness :
  whole false frame_7 /\ bInCommunicationError (protocol (agent asked)) = bool_decide (frame_7 = []) /\
  fst (RequestCurrentData false 0 100 Serial [] asked) = Ok [].
Proof.
  assert (Hr : fst (RequestCurrentData false 0 100 Serial [] asking) = Ok frame_7) by (vm_compute; reflexivity).
  assert (H0 : timer_runs asking = false) by (vm_compute; reflexivity).
  assert (H1 : timer_runs asked = true) by (vm_compute; reflexivity).
  pose proof (request_outcome false 0 100 [] asking _ _ _ (script_step _ _ _)) as Ha.
  pose proof (request_outcome false 0 100 [] asked _ _ _ (script_step _ _ _)) as Hb.
  unfold wp in Ha, Hb. fold (timer_runs asking) in Ha. fold (timer_runs asked) in Hb.
  rewrite H0, Hr in Ha. rewrite H1 in Hb. split; [apply Ha|]. split; [apply Ha|apply Hb].
Defined.

End Delivery.
