(* ===== verification/Liveness.v ===== *)
(** * Liveness: the queued data does get through

    [data_is_conserved] says that nothing is lost; here the server is one that
    acknowledges what it is sent, and then the queue is emptied.  The other threads
    may push packets all the while, as long as they stop some time. *)

From S2P Require Import Prelude CRC16 Packet PacketQueue Sys Effects Agent Channel Receive Traffic Protocol Negotiation Delivery.
Import PacketQueue Packet Sys Effects Agent Channel Receive Traffic Protocol Negotiation Delivery.

Module Liveness.

(** A packet [SendCurrentData] can send: a data frame of the size it writes. *)
Record deliverable (p : packet) : Prop := {
  del_bytes : bytes_ok p;
  del_no : is_Some (GetDataNo p);
  del_cmd : FrameCommandType p = Some DataRequest;
  del_size : sizeof_DataPacketFrame <= Z.of_nat (length (p ++ [0])) }.

(** What is written of it. *)
Definition written_of (p : packet) : list byte := take (Z.to_nat sizeof_DataPacketFrame) (p ++ [0]).

(** A short acknowledgement of the number of [p]. *)
Record acks (p ack : packet) : Prop := {
  acks_start : IsAck ack = true;
  acks_no : forall no, GetDataNo p = Some no -> IsAckNo ack no = Some true;
  acks_short : (length ack <= 6)%nat }.

(** Calls other than [send] and [recv]. *)
Definition silent_call {T} (c : syscall T) : bool :=
  match c with sys_send _ _ | sys_recv _ _ => false | _ => true end.

Definition seconds_per_day : Z := 86400.

Section Live.
Context {W : Type} {E : Env Agent W} `{!Returns E}.
(** The bytes the server has sent and the agent has not received, and a bound on the
    packets the other threads are still to push. *)
Context (owed : W -> list byte) (budget : W -> nat).

Abbreviation dq a := (queue (dataQueue a)).
Abbreviation port a := (get_tcp srvData a).

(** The other threads leave the data connection, the modem and the interval alone and
    push deliverable packets within their budget; they may hold the mutex. *)
Record others_done (a a' : Agent) (w w' : W) (new : list packet) : Prop := {
  od_port : conn (port a') = conn (port a);
  od_on : bPowerOff (modem a') = bPowerOff (modem a);
  od_interval : nIntervalSetting (protocol a') = nIntervalSetting (protocol a);
  od_queue : dq a' = dq a ++ new;
  od_new : Forall deliverable new;
  od_budget : (length new + budget w' <= budget w)%nat }.

(** The environment: a connection on which a data frame is answered by its
    acknowledgement, delivered byte by byte, a mutex that is free when the wait for it
    ends, and a clock a day before its end. *)
Record cooperative : Prop := {
  co_others : forall T (c : syscall T) a w r a' w',
    env_step c a w = Some (r, a', w') -> exists new, others_done a a' w w' new;
  co_silent : forall T (c : syscall T) a w r a' w',
    env_step c a w = Some (r, a', w') -> silent_call c = true -> owed w' = owed w;
  co_recv : forall fd a w r a' w',
    env_step (sys_recv fd 1) a w = Some (r, a', w') ->
    match owed w with
    | [] => r = IoErr EAGAIN /\ owed w' = []
    | b :: l => r = IoData [b] /\ owed w' = l
    end;
  co_send : forall fd p a w n a' w',
    env_step (sys_send fd (written_of p)) a w = Some (n, a', w') -> deliverable p ->
    0 <= n /\ acks p (owed w');
  co_wait : forall a w r a' w',
    env_step sys_mutex_wait a w = Some (r, a', w') -> mutex (dataQueue a') = false;
  co_time : forall a w r a' w',
    env_step sys_gettimeofday a w = Some (r, a', w') ->
    0 <= tv_sec r /\ tv_sec r + seconds_per_day < 2 ^ 31 }.

Hypothesis Hco : cooperative.

(** From [s] to [s'] nothing happened but pushes, and [l] is owed. *)
Definition goes (l : list byte) (s s' : st Agent W) : Prop :=
  owed (world s') = l /\ exists new, others_done (agent s) (agent s') (world s) (world s') new.

Lemma others_refl a w : others_done a a w w [].
Proof. split; rewrite ?app_nil_r; done. Qed.

Lemma others_trans a1 a2 a3 w1 w2 w3 n1 n2 :
  others_done a1 a2 w1 w2 n1 -> others_done a2 a3 w2 w3 n2 -> others_done a1 a3 w1 w3 (n1 ++ n2).
Proof.
  intros [] []. split; try congruence.
  - by rewrite od_queue1, od_queue0, app_assoc.
  - by apply Forall_app.
  - rewrite length_app. lia.
Qed.

Lemma goes_trans l l' s1 s2 s3 : goes l s1 s2 -> goes l' s2 s3 -> goes l' s1 s3.
Proof. intros [_ [n1 H1]] [Hl [n2 H2]]. split; [done|]. eexists. by eapply others_trans. Qed.

(** Nothing received and nothing sent. *)
Definition calm (s s' : st Agent W) : Prop := goes (owed (world s)) s s'.

Lemma goes_calm l s1 s2 s3 : goes l s1 s2 -> calm s2 s3 -> goes l s1 s3.
Proof. intros H1 H2. assert (owed (world s2) = l) as <- by apply H1. by eapply goes_trans. Qed.

#[local] Instance calm_preorder : PreOrder calm.
Proof.
  split.
  - intros s. split; [done|]. exists []. apply others_refl.
  - intros s1 s2 s3 H1 H2. pose proof (goes_trans _ _ _ _ _ H1 H2) as [Hl H]. split; [|done].
    rewrite Hl. apply H1.
Qed.

Lemma sys_calm T (c : syscall T) : silent_call c = true -> keeps calm (sys c).
Proof.
  intros Hc s. unfold sys. destruct (env_step c _ _) as [[[r a] w]|] eqn:He; [|reflexivity].
  split; [by eapply (co_silent Hco)|]. by eapply (co_others Hco).
Qed.

Lemma modify_calm f :
  (forall a, conn (port (f a)) = conn (port a) /\ bPowerOff (modem (f a)) = bPowerOff (modem a) /\
     dataQueue (f a) = dataQueue a /\ nIntervalSetting (protocol (f a)) = nIntervalSetting (protocol a)) ->
  keeps calm (modify f).
Proof.
  intros Hf s. split; [done|]. exists []. destruct (Hf (agent s)) as (H1 & H2 & H3 & H4). simpl.
  split; rewrite ?H3, ?app_nil_r; done.
Qed.

#[local] Hint Extern 1 (keeps calm (sys _)) => (apply sys_calm; reflexivity) : effects.
#[local] Hint Extern 1 (keeps calm (tcp_set _ _)) => (apply modify_calm; done) : effects.
#[local] Hint Extern 1 (keeps calm (pset _)) => (apply modify_calm; done) : effects.

Lemma touch_calm : keeps calm (tcp_touch srvData).
Proof. unfold tcp_touch. effects. Qed.
Lemma timeout_calm us : keeps calm (tcp_SetTimeOut srvData us).
Proof. unfold tcp_SetTimeOut, tcp_get. effects. Qed.
#[local] Hint Resolve touch_calm timeout_calm : effects.

(** A calm step that ends. *)
Lemma wp_calm {A} (m : M Agent W A) Q s :
  keeps calm m -> (forall k, avoids k m) -> (forall a s', calm s s' -> Q (Ok a) s') -> wp m Q s.
Proof. apply wp_keeps_ok. Qed.

Lemma goes_connected l s s' : goes l s s' -> bConnected (port (agent s)) = true -> bConnected (port (agent s')) = true.
Proof. intros [_ [new []]] H. unfold conn in *. congruence. Qed.

(** Reading: the next byte owed, or nothing. *)
Lemma wp_Read1_owed (s : st Agent W) :
  bConnected (port (agent s)) = true ->
  wp (Read1 (ops (Tcp srvData))) (fun o s' =>
    o = Ok (inr (head (owed (world s)))) /\ goes (tail (owed (world s))) s s') s.
Proof.
  intros Hc. apply wp_bind, wp_attempt. cbn [Read ops TCPPort_ops]. unfold tcp_Read, tcp_get.
  apply wp_bind, wp_gets. rewrite Hc. cbn [negb].
  apply wp_bind, wp_gets, wp_bind, wp_sys. intros r a w He.
  pose proof (co_recv Hco _ _ _ _ _ _ He) as Hr. pose proof (co_others Hco _ _ _ _ _ _ _ He) as Ho.
  destruct (owed (world s)) as [|b l]; destruct Hr as [-> Hw]; simpl.
  - split; [done|]. by split.
  - set (s1 := mkSt a w _). assert (Hg : goes l s s1) by (by split).
    apply wp_bind, wp_mret, wp_bind, wp_calm; [apply touch_calm|intros k; apply tcp_touch_avoids, _|].
    intros [] s' Hs'. split; [done|]. by eapply goes_calm.
Qed.

Lemma wp_ack_body_owed fuel p b (s : st Agent W) :
  bConnected (port (agent s)) = true -> (length (owed (world s)) < fuel)%nat ->
  wp (ack_body (ops (Tcp srvData)) fuel p b) (fun o s' =>
    o = Ok (None, p ++ b :: owed (world s)) /\ goes [] s s') s.
Proof.
  revert p b s. induction fuel as [|fuel IH]; intros p b s Hc Hf; [lia|]. cbn [ack_body].
  apply wp_bind. eapply wp_mono; [|by apply wp_Read1_owed]. intros o s1 [-> Hg].
  destruct (owed (world s)) as [|b' l] eqn:Ho; simpl in *.
  - apply wp_mret. by split.
  - assert (Hl : owed (world s1) = l) by apply Hg.
    eapply wp_mono; [|apply IH; [by eapply goes_connected|rewrite Hl; lia]].
    intros o s2 [-> Hg2]. rewrite Hl, <- app_assoc. split; [done|]. by eapply goes_trans.
Qed.

(** An acknowledgement that is owed is received whole. *)
Lemma wp_ReceiveAck_owed fuel l (s : st Agent W) :
  bConnected (port (agent s)) = true -> owed (world s) = ACK :: l -> (length l < fuel)%nat ->
  wp (ReceiveAckFrom (ops (Tcp srvData)) fuel) (fun o s' =>
    o = Ok (None, ACK :: l) /\ goes [] s s') s.
Proof.
  intros Hc Ho Hf. apply wp_bind. eapply wp_mono; [|by apply wp_Read1_owed]. rewrite Ho.
  intros o s1 [-> Hg1]. apply wp_bind, wp_calm; [apply timeout_calm|intros k; apply tcp_SetTimeOut_avoids, _|].
  intros [] s2 Hs2. assert (Hg2 : goes l s s2) by (by eapply goes_calm).
  apply wp_bind. assert (Hscan : forall n (s : st Agent W),
    scan_start (ops (Tcp srvData)) (fun b => (b =? ACK) || (b =? NAK)) n (Some ACK) s = (Ok (inr (Some ACK)), s)) by (by intros []).
  unfold wp at 1. rewrite Hscan. simpl.
  eapply wp_mono; [|apply wp_ack_body_owed; [by eapply goes_connected|destruct Hg2 as [-> _]; done]].
  intros o s3 [-> Hg3]. destruct (Hg2) as [-> _]. split; [done|]. by eapply goes_trans.
Qed.
Lemma read_written p : deliverable p -> read_mem (p ++ [0]) sizeof_DataPacketFrame = Some (written_of p).
Proof. intros [_ _ _ Hs]. unfold read_mem. apply Z.leb_le in Hs. by rewrite Hs. Qed.

Lemma acks_cons p ack : acks p ack -> exists l, ack = ACK :: l /\ (length l < 6)%nat.
Proof.
  intros [Hs _ Hl]. destruct ack as [|b l]; [done|]. unfold IsAck in Hs. simpl in *. to_prop. subst.
  exists l. split; [done|lia].
Qed.

Context (sc : bool) (fuel : nat) (Hfuel : (6 <= fuel)%nat).

(** One exchange. *)
Lemma wp_send_data_acked p (s : st Agent W) :
  bConnected (port (agent s)) = true -> deliverable p ->
  wp (send_data fuel (Tcp srvData) p) (fun o s' =>
    exists ack, o = Ok (None, ack) /\ acks p ack /\ goes [] s s') s.
Proof.
  intros Hc Hp. unfold send_data. rewrite read_written by done.
  apply wp_bind, wp_lift, wp_bind, wp_attempt. cbn [Write ops TCPPort_ops]. unfold tcp_Write, tcp_get.
  apply wp_bind, wp_gets. rewrite Hc. cbn [negb].
  assert (Ht : forall k, avoids k (tcp_touch (E := E) srvData)) by (intros k; apply tcp_touch_avoids, _).
  apply wp_bind, wp_calm; [apply touch_calm|done|]. intros [] s1 H1.
  apply wp_bind, wp_gets, wp_bind, wp_sys. intros n a w He.
  destruct (co_send Hco _ _ _ _ _ _ _ He Hp) as [Hn Ha]. rewrite (proj2 (Z.ltb_ge _ _)) by done.
  set (s2 := mkSt a w _).
  assert (H2 : goes (owed w) s s2).
  { eapply goes_trans; [exact H1|]. split; [done|]. by eapply (co_others Hco). }
  apply wp_bind, wp_calm; [apply touch_calm|done|]. intros [] s3 H3. apply wp_mret.
  pose proof (goes_calm _ _ _ _ H2 H3) as Hg. destruct (acks_cons _ _ Ha) as (l & Hl & Hlen).
  eapply wp_mono; [|apply (wp_ReceiveAck_owed fuel l)]; [|by eapply goes_connected| |lia].
  - intros o s4 [-> H4]. exists (owed w). rewrite Hl in *. split_and!; [done|done|]. by eapply goes_trans.
  - destruct Hg as [-> _]. done.
Qed.

(** The thread is sending, over a link that is up. *)
Record serving (s : st Agent W) : Prop := {
  sv_connected : bConnected (port (agent s)) = true;
  sv_on : bPowerOff (modem (agent s)) = false;
  sv_queue : Forall deliverable (dq (agent s));
  sv_owed : owed (world s) = [] }.

Lemma goes_serving s s' : goes [] s s' -> serving s -> serving s'.
Proof.
  intros [Ho [new H]] []. destruct H. unfold conn in *. split; try congruence.
  rewrite od_queue0. by apply Forall_app.
Qed.

(** The mutex is had after one wait at most. *)
Lemma wp_acquire (s : st Agent W) :
  wp (acquire fuel dataQueue) (fun o s' => o = Ok tt /\ mutex (dataQueue (agent s')) = false /\ calm s s') s.
Proof.
  assert (Hfree : forall n (s : st Agent W), mutex (dataQueue (agent s)) = false ->
    wp (acquire (S n) dataQueue) (fun o s' => o = Ok tt /\ mutex (dataQueue (agent s')) = false /\ calm s s') s).
  { intros n s' H. apply wp_bind, wp_bind, wp_gets. rewrite H. split_and!; [done|done|reflexivity]. }
  destruct fuel as [|[|n]]; [lia..|]. destruct (mutex (dataQueue (agent s))) eqn:Hm; [|by apply Hfree].
  apply wp_bind, wp_bind, wp_gets. rewrite Hm. apply wp_bind, wp_sys. intros r a w He. set (s1 := mkSt a w _).
  assert (H1 : calm s s1) by (split; [by eapply (co_silent Hco)|by eapply (co_others Hco)]).
  apply wp_mret. cbn beta iota. fold (acquire (W := W) (S n) dataQueue).
  eapply wp_mono; [|apply (Hfree n s1); by eapply (co_wait Hco)].
  intros o s2 (-> & Hm2 & H2). split_and!; [done..|]. by etrans.
Qed.

(** What is left to do. *)
Definition left_over (s : st Agent W) : nat := (length (dq (agent s)) + budget (world s))%nat.

(** Every turn delivers a packet. *)
Lemma wp_send_step_acked retry p rest (s : st Agent W) :
  serving s -> dq (agent s) = p :: rest ->
  wp (send_step sc fuel (Tcp srvData) retry) (fun o s' =>
    o = Ok (inl 0) /\ serving s' /\ (left_over s' < left_over s)%nat) s.
Proof.
  intros Hs Hq. pose proof (sv_queue _ Hs) as Hd. rewrite Hq in Hd. apply Forall_cons in Hd as [Hp _].
  destruct (Hp) as [_ [no Hno] Hcmd _].
  unfold send_step. apply wp_bind, wp_gets. unfold PacketQueue.GetSize. rewrite Hq.
  apply wp_bind, wp_bind, wp_gets, wp_lift. unfold Front, id. rewrite Hq. cbn [head].
  apply wp_bind, wp_lift. rewrite Hno. apply wp_bind, wp_lift. rewrite Hcmd.
  destruct (decide (DataRequest <> DataRequest)); [done|].
  apply wp_bind. eapply wp_mono; [|apply wp_send_data_acked; [apply Hs|done]].
  intros o s1 (ack & -> & Hack & Hg). pose proof (goes_serving _ _ Hg Hs) as Hs1.
  apply wp_bind, wp_gets. rewrite (sv_on _ Hs1). unfold judge_ack.
  rewrite (acks_start _ _ Hack). apply wp_bind, wp_bind, wp_lift. rewrite Hno. apply wp_lift.
  rewrite (acks_no _ _ Hack no Hno). apply wp_bind, wp_lift.
  assert (is_Some (GetAckNo ack)) as [k ->].
  { pose proof (acks_no _ _ Hack no Hno) as Hn. unfold IsAckNo, GetAckNo in *. case_bool; [done|].
    destruct (byte_at ack 0); [|done]. simpl in Hn. case_bool; [|done].
    destruct (load16 ack off_dataNumber); [by eexists|done]. }
  apply wp_bind, wp_bind. eapply wp_mono; [|apply wp_acquire]. intros o s2 (-> & Hfree & Hc).
  pose proof (goes_calm _ _ _ _ Hg Hc) as Hg2. pose proof (goes_serving _ _ Hg2 Hs) as Hs2.
  apply wp_bind, wp_gets, wp_bind, wp_lift. unfold PacketQueue.Pop, lock, id.
  rewrite Hfree. destruct Hg2 as [Ho1 [new Hod]].
  simpl. rewrite (od_queue _ _ _ _ _ Hod), Hq. simpl. apply wp_modify, wp_mret.
  split; [done|]. destruct Hs2. split.
  - split; try done. simpl. rewrite (od_queue _ _ _ _ _ Hod), Hq in sv_queue0. by apply Forall_cons in sv_queue0 as [_ ?].
  - unfold left_over. simpl. rewrite Hq, length_app. pose proof (od_budget _ _ _ _ _ Hod). simpl. lia.
Qed.

Lemma wp_send_loop_acked n retry (s : st Agent W) :
  serving s -> (left_over s < n)%nat ->
  wp (loop n (send_step sc fuel (Tcp srvData)) retry) (fun o s' =>
    o = Ok tt /\ dq (agent s') = [] /\ serving s') s.
Proof.
  revert retry s. induction n as [|n IH]; intros retry s Hs Hn; [lia|]. cbn [loop]. apply wp_bind.
  destruct (dq (agent s)) as [|p rest] eqn:Hq.
  - unfold send_step. apply wp_bind, wp_gets. unfold PacketQueue.GetSize. rewrite Hq. simpl.
    by apply wp_mret, wp_mret.
  - eapply wp_mono; [|by eapply wp_send_step_acked]. intros o s1 (-> & Hs1 & Hl). apply IH; [done|lia].
Qed.

(** C4. The queue is emptied: with a link that is up and a server that answers every
    data frame with its acknowledgement, [SendCurrentData] returns, and it returns with
    an empty queue, although the other threads go on pushing up to [budget] more packets
    while it runs; as many turns as packets are enough.  It is assumed that every packet
    queued or pushed is a data frame of the size that [SendCurrentData] writes (of a
    shorter one it would read past the end), that the interval is between one second
    and a day and the clock a day before the end of its 32 bits, that the other threads
    leave the data connection, the modem and the interval alone, that the mutex is free
    when a wait for it ends, and that the system calls return. *)
Theorem queue_is_emptied (s : st Agent W) :
  serving s -> 0 < nIntervalSetting (protocol (agent s)) <= seconds_per_day -> (left_over s < fuel)%nat ->
  wp (SendCurrentData sc fuel (Tcp srvData)) (fun o s' =>
    o = Ok tt /\ dq (agent s') = [] /\ serving s') s.
Proof.
  intros Hs Hi Hl. unfold SendCurrentData, pget. apply wp_bind, wp_gets. unfold setReservedTime.
  apply wp_bind, wp_bind, wp_sys. intros now a w He. destruct (co_time Hco _ _ _ _ _ He) as [H0 Hr].
  rewrite align_up_pos by lia. apply wp_bind, wp_lift, wp_mret, wp_bind, wp_modify.
  set (s1 := mkSt _ _ _). destruct (co_others Hco _ _ _ _ _ _ _ He) as [new Hod].
  assert (Hg : goes [] s s1).
  { pose proof (co_silent Hco _ _ _ _ _ _ _ He eq_refl) as Ho. rewrite (sv_owed _ Hs) in Ho.
    split; [exact Ho|]. exists new. by destruct Hod. }
  apply wp_send_loop_acked; [by eapply goes_serving|].
  unfold left_over in *. simpl. rewrite (od_queue _ _ _ _ _ Hod), length_app.
  pose proof (od_budget _ _ _ _ _ Hod). lia.
Qed.
End Live.

(** ** A concrete server *)

(** The server answers a data frame with its number; while the agent works, the post
    delivers [arriving] more. *)
Record obliging := mkObliging { ob_owed : list byte; arriving : nat }.

Definition reply_to (buf : list byte) : list byte := [ACK; 1; 114; 97] ++ take 2 (drop 7 buf).

Definition push_one (a : Agent) : Agent :=
  set_dataQueue (mkQueue (queue (dataQueue a) ++ [frame_7]) (mutex (dataQueue a))) a.

(** The pushing thread saves the queue, holding the mutex, until it is waited for. *)
Definition hold (b : bool) (a : Agent) : Agent := set_dataQueue (mkQueue (queue (dataQueue a)) b) a.

#[local] Instance obliging_env : Env Agent obliging := fun T c a w =>
  match c in syscall T return T -> option (T * Agent * obliging) with
  | sys_recv _ _ => fun _ =>
      match ob_owed w with
      | [] => Some (IoErr EAGAIN, a, w)
      | b :: l => Some (IoData [b], a, mkObliging l (arriving w))
      end
  | sys_send _ buf => fun n => Some (n, a, mkObliging (reply_to buf) (arriving w))
  | sys_set_timeouts _ _ => fun r =>
      match arriving w with
      | O => Some (r, hold false a, w)
      | S n => Some (r, hold true (push_one a), mkObliging (ob_owed w) n)
      end
  | sys_mutex_wait => fun r => Some (r, hold false a, w)
  | _ => fun r => Some (r, a, w)
  end (fst (script_answer c (mkScript 600000000 [] [] [] None))).

#[local] Instance obliging_returns : Returns obliging_env.
Proof.
  intros T c a w. unfold env_step, obliging_env.
  destruct c; try (by eexists); [destruct (ob_owed w)|destruct (arriving w)]; by eexists.
Qed.

Lemma frame_7_deliverable : deliverable frame_7.
Proof. split; [apply (bool_decide_unpack _); vm_compute; exact I|by eexists|done|done]. Qed.

Lemma reply_acks p : deliverable p -> acks p (reply_to (written_of p)).
Proof.
  intros [Hb [no Hno] _ Hs]. unfold written_of, sizeof_DataPacketFrame in *. rewrite length_app in Hs. simpl in Hs.
  destruct (split_at 7 2 p) as (x & y & z & -> & Hx & Hy); [lia|].
  destruct y as [|b7 [|b8 []]]; try done. clear Hy.
  do 7 (destruct x as [|? x]; [done|]). destruct x; [|done].
  change (reply_to _) with [ACK; 1; 114; 97; b7; b8]. split; [done| |done]. intros no' Hno'.
  rewrite !bytes_ok_app, !bytes_ok_cons in Hb. destruct Hb as (_ & (H7 & H8 & _) & _).
  unfold GetDataNo in Hno'. rewrite (proj2 (Z.ltb_ge _ _)) in Hno' by (unfold Packet.GetSize; simpl length; lia).
  injection Hno' as <-.
  change (Some (b7 + 256 * b8 =? htons (ntohs (b7 + 256 * b8))) = Some true).
  rewrite htons_load, ntohs_load by (done || apply swap16_range). by rewrite Z.eqb_refl.
Qed.

Lemma obliging_cooperative : cooperative (E := obliging_env) ob_owed arriving.
Proof.
  split.
  - intros T c a w r a' w' H. unfold env_step, obliging_env in H.
    assert (Hq : forall w1, arriving w1 = arriving w -> others_done arriving a a w w1 []).
    { intros w1 Hw. split; rewrite ?app_nil_r, ?Hw; done. }
    assert (Hh : forall b, others_done arriving a (hold b a) w w []).
    { intros b. split; rewrite ?app_nil_r; done. }
    destruct c; try (injection H as _ <- <-; exists []; first [apply Hh|by apply Hq]).
    + destruct (ob_owed w); injection H as _ <- <-; exists []; by apply Hq.
    + destruct (arriving w) eqn:Ha; injection H as _ <- <-; [exists []; apply Hh|].
      exists [frame_7]. split; try done; [apply Forall_singleton, frame_7_deliverable|simpl; lia].
  - intros T c a w r a' w' H Hc. unfold env_step, obliging_env in H.
    destruct c; try done; try (by injection H as _ _ <-). destruct (arriving w); by injection H as _ _ <-.
  - intros fd a w r a' w' H. unfold env_step, obliging_env in H. destruct (ob_owed w) eqn:Ho; by injection H as <- _ <-.
  - intros fd p a w n a' w' H Hp. unfold env_step, obliging_env in H. injection H as <- _ <-.
    split; [simpl; lia|]. by apply reply_acks.
  - intros a w r a' w' H. unfold env_step, obliging_env in H. by injection H as _ <- _.
  - intros a w r a' w' H. unfold env_step, obliging_env in H. injection H as <- _ _. by vm_compute.
Qed.

(** Two packets wait when the thread starts to send and three more arrive. *)
Definition waiting : st Agent obliging :=
  mkSt (set_dataQueue (mkQueue [frame_7; frame_7] false) (agent sending)) (mkObliging [] 3) [].

Lemma queue_is_emptied_witness :
  wp (SendCurrentData false 20 (Tcp srvData)) (fun o s' =>
    o = Ok tt /\ queue (dataQueue (agent s')) = [] /\ serving ob_owed s') waiting.
Proof.
  apply (queue_is_emptied ob_owed arriving obliging_cooperative false 20).
  - lia.
  - split; try done. by apply Forall_cons_2, Forall_singleton; apply frame_7_deliverable.
  - vm_compute. split; [reflexivity|discriminate].
  - vm_compute. lia.
Defined.

End Liveness.
