(* ===== verification/Text.v ===== *)
(** * Text: C strings and the library functions on them

    Byte strings are lists of byte values.  [str] writes a literal; [cstr] is the C
    string a buffer holds; [find_sub], [atoi], [dec] and [fgets] are the parts of
    [strstr]/[std::string::find], [atoi], [printf("%d")] and [fgets] the program
    uses, as the C library documents them. *)

From Stdlib Require Import Strings.Ascii Strings.String.
From S2P Require Import Prelude.

Module Text.

(** A literal. *)
Fixpoint str (s : string) : list byte :=
  match s with
  | EmptyString => []
  | String c s => Z.of_nat (nat_of_ascii c) :: str s
  end.
Arguments str s%_string_scope.

Definition NL : byte := 10.
Definition SPACE : byte := 32.

(** The string in a buffer: up to the first NUL. *)
Fixpoint cstr (l : list byte) : list byte :=
  match l with
  | [] => []
  | b :: l => if b =? 0 then [] else b :: cstr l
  end.

(** Bytes a C string can hold. *)
Definition no_nul (l : list byte) : Prop := Forall (fun b => b <> 0) l.

Lemma cstr_no_nul l k : no_nul l -> cstr (l ++ 0 :: k) = l.
Proof.
  induction 1 as [|b l Hb _ IH]; [done|]. cbn [cstr app].
  rewrite (proj2 (Z.eqb_neq b 0)) by done. by rewrite IH.
Qed.

Lemma cstr_all l : no_nul l -> cstr l = l.
Proof.
  induction 1 as [|b l Hb _ IH]; [done|]. simpl.
  rewrite (proj2 (Z.eqb_neq b 0)) by done. by rewrite IH.
Qed.

(** ** Searching *)

Definition has_prefix (p l : list byte) : bool := bool_decide (p = take (length p) l).

(** [strstr(s, p)] and [s.find(p)]: where [p] first occurs in [s]. *)
Fixpoint find_sub (p s : list byte) : option nat :=
  if has_prefix p s then Some O
  else match s with
       | [] => None
       | _ :: s => S <$> find_sub p s
       end.

Definition contains (p s : list byte) : bool := bool_decide (is_Some (find_sub p s)).

Lemma has_prefix_app p l : has_prefix p (p ++ l) = true.
Proof. apply bool_decide_eq_true. by rewrite take_app_length. Qed.

Lemma has_prefix_iff p l : has_prefix p l = true <-> exists k, l = p ++ k.
Proof.
  unfold has_prefix. rewrite bool_decide_eq_true. split.
  - intros H. exists (drop (length p) l). by rewrite H at 1; rewrite take_drop.
  - intros [k ->]. by rewrite take_app_length.
Qed.

Lemma find_sub_some p s n : find_sub p s = Some n -> exists k, drop n s = p ++ k.
Proof.
  revert n. induction s as [|b s IH]; intros n; cbn [find_sub];
    destruct (has_prefix p _) eqn:Hp; try done.
  1,2: intros [= <-]; by apply has_prefix_iff in Hp.
  intros (m & Hm & ->)%fmap_Some. by apply IH.
Qed.

Lemma contains_iff p s : contains p s = true <-> exists a b, s = a ++ p ++ b.
Proof.
  unfold contains. rewrite bool_decide_eq_true. split.
  - intros [n Hn]. apply find_sub_some in Hn as [k Hk]. exists (take n s), k.
    by rewrite <- Hk, take_drop.
  - intros (a & b & ->). induction a as [|x a IH]; cbn [app find_sub].
    + destruct (p ++ b) eqn:Hpb; cbn [find_sub]; rewrite <- Hpb, has_prefix_app; by eexists.
    + case_bool; [by eexists|]. destruct IH as [n Hn]. rewrite Hn. by eexists.
Qed.

(** ** Numbers *)

Definition is_digit (b : byte) : bool := (48 <=? b) && (b <=? 57).
Definition is_space (b : byte) : bool := (b =? 32) || ((9 <=? b) && (b <=? 13)).

Fixpoint skip_spaces (l : list byte) : list byte :=
  match l with
  | [] => []
  | b :: l => if is_space b then skip_spaces l else b :: l
  end.

Fixpoint digits (acc : Z) (l : list byte) : Z :=
  match l with
  | [] => acc
  | b :: l => if is_digit b then digits (acc * 10 + (b - 48)) l else acc
  end.

Definition clamp32 (z : Z) : Z := Z.max (- 2 ^ 31) (Z.min (2 ^ 31 - 1) z).

(** [atoi]: [strtol] in base 10, whose 32-bit result is clamped. *)
Definition atoi (l : list byte) : Z :=
  match skip_spaces l with
  | 45 :: l => clamp32 (- digits 0 l)
  | 43 :: l => clamp32 (digits 0 l)
  | l => clamp32 (digits 0 l)
  end.

(** [printf("%d")]; ten digits are enough for 32 bits. *)
Fixpoint dec_digits (fuel : nat) (n : Z) (acc : list byte) : list byte :=
  match fuel with
  | O => acc
  | S fuel =>
      let acc := (48 + n mod 10) :: acc in
      if n <? 10 then acc else dec_digits fuel (n / 10) acc
  end.

Definition dec (n : Z) : list byte :=
  if n <? 0 then 45 :: dec_digits 10 (- n) [] else dec_digits 10 n [].

Lemma dec_digits_value fuel n a acc :
  0 <= n < 10 ^ Z.of_nat fuel -> fuel <> O ->
  exists k, 0 <= k /\ digits a (dec_digits fuel n acc) = digits (a * 10 ^ k + n) acc.
Proof.
  revert n acc. induction fuel as [|fuel IH]; intros n acc Hn Hf; [done|]. cbn [dec_digits].
  assert (Hd : forall b, digits b ((48 + n mod 10) :: acc) = digits (b * 10 + n mod 10) acc).
  { intros b. cbn [digits]. unfold is_digit. pose proof (Z.mod_pos_bound n 10).
    rewrite !(proj2 (Z.leb_le _ _)) by lia. cbn. f_equal; lia. }
  destruct (Z.ltb_spec n 10).
  - exists 1. split; [lia|]. rewrite Hd, Z.mod_small by lia. f_equal; lia.
  - destruct fuel as [|fuel']; [cbn in Hn; lia|].
    destruct (IH (n / 10) ((48 + n mod 10) :: acc)) as (k & Hk & ->); [|done|].
    + split; [apply Z.div_pos; lia|]. apply Z.div_lt_upper_bound; [lia|].
      rewrite <- Z.pow_succ_r by lia. rewrite <- Nat2Z.inj_succ. apply Hn.
    + exists (k + 1). split; [lia|]. rewrite Hd. f_equal. rewrite Z.pow_add_r by lia.
      pose proof (Z.div_mod n 10). lia.
Qed.

Lemma dec_digits_head fuel n acc : 0 <= n -> fuel <> O ->
  exists d l, dec_digits fuel n acc = d :: l /\ 48 <= d <= 57.
Proof.
  revert n acc. induction fuel as [|fuel IH]; intros n acc Hn Hf; [done|]. cbn [dec_digits].
  pose proof (Z.mod_pos_bound n 10). case_bool; [eexists _, _; split; [done|lia]|].
  destruct fuel; [eexists _, _; split; [done|lia]|]. apply IH; [apply Z.div_pos; lia|done].
Qed.

Lemma clamp32_small z : - 2 ^ 31 <= z < 2 ^ 31 -> clamp32 z = z.
Proof. unfold clamp32. lia. Qed.

(** [atoi] reads back what [%d] prints. *)
Lemma atoi_dec n : - 2 ^ 31 <= n < 2 ^ 31 -> atoi (dec n) = n.
Proof.
  intros Hn. assert (Hp : 10 ^ Z.of_nat 10 = 10000000000) by reflexivity.
  unfold dec, atoi. destruct (Z.ltb_spec n 0).
  - cbn [skip_spaces is_space].
    destruct (dec_digits_value 10 (- n) 0 []) as (k & Hk & Hv); [lia|done|].
    cbn -[dec_digits digits]. rewrite Hv. cbn [digits]. rewrite clamp32_small; lia.
  - destruct (dec_digits_value 10 n 0 []) as (k & Hk & Hv); [lia|done|].
    destruct (dec_digits_head 10 n []) as (d & l & Hd & Hr); [lia|done|].
    rewrite Hd in *. cbn [skip_spaces]. unfold is_space.
    rewrite (proj2 (Z.eqb_neq d 32)), (proj2 (Z.leb_gt d 13)) by lia. rewrite andb_false_r. cbn [orb].
    transitivity (clamp32 (digits 0 (d :: l))); [|rewrite Hv; cbn [digits]; rewrite clamp32_small; lia].
    destruct d as [|p|p]; [done| |done]. repeat (destruct p as [p|p|]; try done); lia.
Qed.

(** ** Lines *)

(** [fgets(line, size, f)] on the unread bytes: what is stored, what is left, and
    whether the end-of-file indicator is set. *)
Definition fgets (size : nat) (f : list byte) : list byte * list byte * bool :=
  match find_pos (fun b => b =? NL) (take (size - 1) f) with
  | Some k => (take (S k) f, drop (S k) f, false)
  | None =>
      if (length f <? size - 1)%nat then (f, [], true)
      else (take (size - 1) f, drop (size - 1) f, false)
  end.

Lemma fgets_line size l f :
  NL ∉ l -> (length l + 2 <= size)%nat -> fgets size (l ++ NL :: f) = (l ++ [NL], f, false).
Proof.
  intros Hl Hs. unfold fgets.
  assert (Hf : forall k, find_pos (fun b => b =? NL) (l ++ NL :: k) = Some (length l)).
  { intros k. clear Hs. induction l as [|b l IH]; [done|]. apply not_elem_of_cons in Hl as [Hb Hl].
    cbn [app find_pos length]. rewrite (proj2 (Z.eqb_neq b NL)) by auto. by rewrite IH. }
  rewrite take_app_ge by lia.
  destruct (size - 1 - length l)%nat as [|m] eqn:Hm; [lia|]. cbn [take]. rewrite Hf.
  change (NL :: f) with ([NL] ++ f). rewrite app_assoc.
  rewrite take_app_length', drop_app_length'; [done|..]; rewrite length_app; simpl; lia.
Qed.

End Text.
