(* ===== verification/Config.v ===== *)
(** * Config: the configuration file

    [GetValue] and the class [Config] (device-agent/src/Config.h, Config.cpp): every
    getter opens the file anew and scans it for a line [KEY=value].

    A file is its bytes, [None] when it cannot be opened.  [GetValue] reads memory
    below its buffer [line] in two places ([line[nLine-1]] of an empty line, and the
    walk over leading spaces that goes backwards); [below] is that memory, [below]'s
    head being [line[-1]], and reading beyond what it gives is undefined ([None]). *)

From Stdlib Require Import Strings.String.
From S2P Require Import Prelude Text.
Import Text.

Module Config.

Definition HASH : byte := 35.
Definition EQUALS : byte := 61.

(** [while ( *moveEof == ' ') { nSpace++; moveEof--; }] from [mem]'s head on: the
    number of spaces passed. *)
Fixpoint walk_back (mem : list byte) : option Z :=
  match mem with
  | [] => None
  | b :: mem => if b =? SPACE then Z.succ <$> walk_back mem else Some 0
  end.

(** [strtok(line, "\n")] on a line of [fgets], where a newline can only be last:
    whether there is a token, and the string left in the buffer. *)
Fixpoint until_nl (l : list byte) : list byte :=
  match l with
  | [] => []
  | b :: l => if b =? NL then [] else b :: until_nl l
  end.
Definition strtok_nl (l : list byte) : bool * list byte :=
  match l with
  | [] => (false, l)
  | b :: _ => if b =? NL then (false, l) else (true, until_nl l)
  end.

(** [line[nLine-1] == '\n']. *)
Definition ends_line (below l : list byte) : option bool :=
  match last l with
  | Some b => Some (b =? NL)
  | None => b ← head below; Some (b =? NL)
  end.

(** The loop of [GetValue]: [None] when the fuel runs out, [Some None] undefined,
    [Some (Some (nRet, pBuf))] the result and the bytes stored. *)
Fixpoint GetValue_loop (below key : list byte) (nLen : Z) (fuel : nat)
    (f : list byte) (eof : bool) (nSpace : Z) : option (option (Z * list byte)) :=
  match fuel with
  | O => None
  | S fuel =>
      if eof then Some (Some (-2, []))
      else
        let '(line, f, eof) := fgets 1024 f in
        if bool_decide (head line = Some HASH) then GetValue_loop below key nLen fuel f eof nSpace
        else
          let s := cstr line in
          let nLine := Z.of_nat (length s) in
          match ends_line below s with
          | None => Some None
          | Some nEnd =>
              let '(token, s) := strtok_nl s in
              match (if token : bool then walk_back (default 0 (head s) :: below) else Some 0) with
              | None => Some None
              | Some walked =>
                  let nSpace := nSpace + walked in
                  let nLine := if nSpace =? 0 then nLine else nLine - nSpace - 1 in
                  if has_prefix (key ++ [EQUALS]) s then
                    let temp := nLine - Z.of_nat (length key) in
                    if nLen <? temp then Some (Some (temp, []))
                    else
                      let n := if nEnd : bool then temp - 1 else temp in
                      Some (Some (0, take (Z.to_nat n) (drop (length key + 1) (s ++ [0]))))
                  else GetValue_loop below key nLen fuel f eof nSpace
              end
          end
  end.

(** [GetValue(szFile, szKey, pBuf, nLen)].  Every turn but the last consumes a byte,
    so [length f + 2] turns are enough ([GetValue_loop_total]). *)
Definition GetValue (below key : list byte) (nLen : Z) (file : option (list byte))
    : option (Z * list byte) :=
  match file with
  | None => Some (-1, [])
  | Some f => default None (GetValue_loop below key nLen (length f + 2) f false 0)
  end.

(** ** The getters *)

Section Getters.
Context (below : list byte) (file : option (list byte)).

(** [char tmp[1024] = {0}; if (GetValue(..., tmp, 1024) == 0) return tmp; return def;] *)
Definition conf_str (key def : list byte) : option (list byte) :=
  r ← GetValue below key 1024 file;
  Some (if fst r =? 0 then cstr (snd r) else def).

(** The same with [return atoi(tmp);]. *)
Definition conf_int (key : list byte) (def : Z) : option Z :=
  r ← GetValue below key 1024 file;
  Some (if fst r =? 0 then atoi (cstr (snd r)) else def).

Definition LP_INFO : Z := 3.

Definition GetServerName := conf_str (str "SERVER") [].
Definition GetMPdev := conf_str (str "MP_PORT") [].
Definition GetMachine := conf_int (str "MACHINE") 1.
Definition GetModemDelay := conf_int (str "MODEM_DELAY") 60.
Definition GetPowerOnDelay := conf_int (str "POWERON_DELAY") 90.
Definition GetDataPort := conf_int (str "DATA_PORT") 50001.
Definition GetTraceLevel := conf_int (str "LOG_LEVEL") LP_INFO.
Definition GetCommandPort := conf_int (str "COMMAND_PORT") 50101.
Definition GetAPN := conf_str (str "APN") (str "bgan.inmarsat.com").
Definition GetIP := conf_str (str "LOCAL_IP") [].
Definition GetModemIP := conf_str (str "MODEM_IP") (str "192.168.1.35").
Definition GetUserName := conf_str (str "USERNAME") [].
(** The [float] returned has the value of an [int]. *)
Definition GetMinSignalLevel := conf_int (str "MIN_SIGNAL") 45.
Definition GetIntervalSecond := conf_int (str "INTERVAL") 600.
Definition GetIdelSecond := conf_int (str "IDELTIME") 20.
Definition GetPassword := conf_str (str "PASSWORD") [].
End Getters.

(** ** Well-formed files *)

Inductive item :=
| Comment (text : list byte)
| Blank
| Setting (key value : list byte).

Definition render (i : item) : list byte :=
  match i with
  | Comment text => HASH :: text ++ [NL]
  | Blank => [NL]
  | Setting key value => key ++ EQUALS :: value ++ [NL]
  end.

Definition render_all (l : list item) : list byte := concat (render <$> l).

Definition key_ok (k : list byte) : Prop :=
  Forall (fun b => b <> 0 /\ b <> NL /\ b <> EQUALS) k /\
  head k <> Some HASH /\ head k <> Some SPACE /\ k <> [].

Definition value_ok (v : list byte) : Prop := Forall (fun b => b <> 0 /\ b <> NL) v.

Definition item_ok (i : item) : Prop :=
  match i with
  | Comment text => (NL ∉ text) /\ (length text <= 1021)%nat
  | Blank => True
  | Setting k v => key_ok k /\ value_ok v /\ (length k + length v <= 1021)%nat
  end.

(** What the file sets [key] to: the first such line. *)
Fixpoint setting (key : list byte) (l : list item) : option (list byte) :=
  match l with
  | [] => None
  | Setting k v :: l => if decide (k = key) then Some v else setting key l
  | _ :: l => setting key l
  end.

(** *** One line *)

Lemma not_nl l : Forall (fun b => b <> NL) l -> NL ∉ l.
Proof. intros H Hin. by eapply Forall_forall in H. Qed.

Lemma until_nl_line l : NL ∉ l -> until_nl (l ++ [NL]) = l.
Proof.
  induction l as [|b l IH]; intros H; [done|]. apply not_elem_of_cons in H as [Hb Hl].
  cbn [until_nl app]. rewrite (proj2 (Z.eqb_neq b NL)) by auto. by rewrite IH.
Qed.

Lemma prefix_setting key k v :
  key_ok key -> key_ok k -> has_prefix (key ++ [EQUALS]) (k ++ EQUALS :: v) = bool_decide (k = key).
Proof.
  intros [Hk _] [Hk' _]. apply eq_true_iff_eq. rewrite has_prefix_iff, bool_decide_eq_true.
  split; [|intros ->; exists v; by rewrite <- app_assoc].
  intros [r Hr]. rewrite <- app_assoc in Hr. simpl in Hr.
  revert key Hk Hr. induction k as [|b k IH]; intros [|c key] Hk Hr; simpl in Hr.
  - done.
  - injection Hr as Hc _. apply Forall_cons in Hk as [[_ [_ H']] _]. congruence.
  - injection Hr as Hc _. apply Forall_cons in Hk' as [[_ [_ H']] _]. congruence.
  - injection Hr as -> Hr. apply Forall_cons in Hk as [_ Hk], Hk' as [_ Hk'].
    f_equal. by apply IH.
Qed.

Lemma setting_no_nul k v : key_ok k -> value_ok v -> no_nul (k ++ EQUALS :: v).
Proof.
  intros [Hk _] Hv. apply Forall_app. split; [eapply Forall_impl; [exact Hk|by intros b (? & ? & ?)]|].
  apply Forall_cons. split; [done|]. eapply Forall_impl; [exact Hv|by intros b (? & ?)].
Qed.

Lemma setting_no_nl k v : key_ok k -> value_ok v -> NL ∉ k ++ EQUALS :: v.
Proof.
  intros [Hk _] Hv. apply not_nl, Forall_app. split; [eapply Forall_impl; [exact Hk|by intros b (? & ? & ?)]|].
  apply Forall_cons. split; [done|]. eapply Forall_impl; [exact Hv|by intros b (? & ?)].
Qed.

(** A setting as [fgets] delivers it. *)
Lemma setting_line k v f :
  key_ok k -> value_ok v -> (length k + length v <= 1021)%nat ->
  fgets 1024 (render (Setting k v) ++ f) = (k ++ EQUALS :: v ++ [NL], f, false).
Proof.
  intros Hk Hv Hl. unfold render.
  replace ((k ++ EQUALS :: v ++ [NL]) ++ f) with ((k ++ EQUALS :: v) ++ NL :: f)
    by (rewrite <- !app_assoc; simpl; by rewrite <- app_assoc).
  rewrite fgets_line; [|by apply setting_no_nl|rewrite length_app; simpl; lia].
  by rewrite <- app_assoc.
Qed.

(** The turn of the loop on such a line, after [n] leading spaces were passed. *)
Lemma turn_setting_at below key k v fuel f n :
  key_ok key -> key_ok k -> value_ok v -> (length k + length v <= 1021)%nat -> 0 <= n ->
  GetValue_loop below key 1024 (S fuel) (render (Setting k v) ++ f) false n =
    if decide (k = key) then
      Some (Some (0, take (Z.to_nat (Z.of_nat (length v) + (if n =? 0 then 1 else - n))) (v ++ [0])))
    else GetValue_loop below key 1024 fuel f false n.
Proof.
  intros Hkey Hk Hv Hl Hn. cbn [GetValue_loop]. rewrite setting_line by done.
  assert (Hne : k <> []) by apply Hk. destruct k as [|c k'] eqn:Ek; [done|].
  rewrite <- Ek in *. assert (Hc : head k = Some c) by (by rewrite Ek).
  rewrite bool_decide_eq_false_2.
  2: { rewrite Ek. simpl. destruct Hk as (_ & Hh & _). by rewrite Ek in Hh. }
  replace (k ++ EQUALS :: v ++ [NL]) with ((k ++ EQUALS :: v) ++ [NL])
    by (rewrite <- app_assoc; done).
  set (l := k ++ EQUALS :: v) in *.
  assert (Hnn : no_nul (l ++ [NL])).
  { apply Forall_app. split; [by apply setting_no_nul|by repeat constructor]. }
  rewrite (cstr_all _ Hnn). unfold ends_line. rewrite last_snoc.
  assert (Hlc : l = c :: k' ++ EQUALS :: v) by (unfold l; by rewrite Ek).
  assert (Hcn : (c =? NL) = false).
  { apply Z.eqb_neq. destruct Hk as (Hf & _). rewrite Ek in Hf. by apply Forall_cons in Hf as [(? & ? & ?) _]. }
  assert (Htok : strtok_nl (l ++ [NL]) = (true, l)).
  { unfold strtok_nl. rewrite Hlc at 1. simpl. rewrite Hcn. f_equal.
    apply until_nl_line. by apply setting_no_nl. }
  rewrite Htok. cbn [Z.eqb]. change (NL =? NL) with true. cbn iota.
  assert (Hw : walk_back (default 0 (head l) :: below) = Some 0).
  { rewrite Hlc. simpl. destruct Hk as (_ & _ & Hs & _). rewrite Hc in Hs.
    rewrite (proj2 (Z.eqb_neq c SPACE)); [done|congruence]. }
  rewrite Hw. cbn zeta. rewrite Z.add_0_r.
  unfold l at 1. rewrite prefix_setting by done.
  case_decide as Hd; [rewrite bool_decide_eq_true_2 by done|by rewrite bool_decide_eq_false_2 by done].
  assert (Hlen : length (l ++ [NL]) = (length key + length v + 2)%nat).
  { unfold l. rewrite !length_app, Hd. simpl. lia. }
  rewrite Hlen. rewrite (proj2 (Z.ltb_ge _ _)) by (rewrite Hd in Hl; case_bool; lia).
  do 3 f_equal.
  assert (Hdrop : drop (length key + 1) (l ++ [0]) = v ++ [0]).
  { unfold l. rewrite Hd, <- app_assoc. simpl. rewrite drop_app_add. cbn [drop]. by rewrite drop_0. }
  rewrite Hdrop. f_equal. f_equal. case_bool; lia.
Qed.

Lemma turn_setting below key k v fuel f :
  key_ok key -> key_ok k -> value_ok v -> (length k + length v <= 1021)%nat ->
  GetValue_loop below key 1024 (S fuel) (render (Setting k v) ++ f) false 0 =
    if decide (k = key) then Some (Some (0, v ++ [0]))
    else GetValue_loop below key 1024 fuel f false 0.
Proof.
  intros. rewrite turn_setting_at by done. case_decide; [|done].
  rewrite take_ge; [done|]. rewrite length_app. simpl. lia.
Qed.

Lemma turn_comment below key fuel text f n :
  (NL ∉ text) -> (length text <= 1021)%nat ->
  GetValue_loop below key 1024 (S fuel) (render (Comment text) ++ f) false n =
    GetValue_loop below key 1024 fuel f false n.
Proof.
  intros Ht Hl. cbn [GetValue_loop]. unfold render.
  replace ((HASH :: text ++ [NL]) ++ f) with ((HASH :: text) ++ NL :: f)
    by (simpl; by rewrite <- app_assoc).
  rewrite fgets_line; [|by apply not_elem_of_cons|simpl; lia]. by rewrite bool_decide_eq_true_2.
Qed.

Lemma turn_blank below key fuel f :
  key_ok key ->
  GetValue_loop below key 1024 (S fuel) (render Blank ++ f) false 0 =
    GetValue_loop below key 1024 fuel f false 0.
Proof.
  intros [Hk (_ & _ & Hn)]. cbn [GetValue_loop]. unfold render.
  change ([NL] ++ f) with ([] ++ NL :: f). rewrite fgets_line; [|apply not_elem_of_nil|simpl; lia].
  rewrite bool_decide_eq_false_2 by done. cbn -[GetValue_loop has_prefix].
  destruct (has_prefix (key ++ [EQUALS]) [NL]) eqn:Hp; [|done].
  apply has_prefix_iff in Hp as [r Hr]. destruct key as [|b key]; [done|].
  apply Forall_cons in Hk as [(_ & Hb & _) _]. injection Hr as Hr _. congruence.
Qed.

Lemma turn_end below key fuel :
  key_ok key ->
  GetValue_loop below key 1024 (S (S fuel)) [] false 0 =
    Some (if below is [] then None else Some (-2, [])).
Proof.
  intros [_ (_ & _ & Hn)]. destruct below as [|b below]; [done|].
  cbn -[has_prefix]. destruct (has_prefix (key ++ [EQUALS]) []) eqn:Hp; [|done].
  apply has_prefix_iff in Hp as [r Hr]. by destruct key.
Qed.

Lemma lookup_config below key items :
  key_ok key -> Forall item_ok items ->
  GetValue below key 1024 (Some (render_all items)) =
    match setting key items with
    | Some v => Some (0, v ++ [0])
    | None => if below is [] then None else Some (-2, [])
    end.
Proof.
  intros Hkey Hi. unfold GetValue.
  assert (Hf : (length items + 2 <= length (render_all items) + 2)%nat).
  { clear. unfold render_all. induction items as [|i l IH]; [simpl; lia|].
    rewrite fmap_cons. cbn [concat length]. rewrite length_app.
    assert (1 <= length (render i))%nat; [|lia]. destruct i; simpl; rewrite ?length_app; simpl; lia. }
  revert Hf. generalize (length (render_all items) + 2)%nat. intros fuel Hf.
  revert fuel Hf. induction Hi as [|i l Hi _ IH]; intros fuel Hf.
  { destruct fuel as [|[|fuel]]; [simpl in Hf; lia..|]. cbn [render_all fmap list_fmap concat].
    rewrite turn_end by done. done. }
  simpl in Hf. destruct fuel as [|fuel]; [lia|].
  unfold render_all in *. rewrite fmap_cons. cbn [concat].
  destruct i as [text| |k v]; simpl in Hi.
  - destruct Hi. rewrite turn_comment by done. apply IH. lia.
  - rewrite turn_blank by done. apply IH. lia.
  - destruct Hi as (? & ? & ?). rewrite turn_setting by done. cbn [setting].
    case_decide; [done|]. apply IH. lia.
Qed.


(** C27. The configuration file means what it says: in a file of comments, blank lines
    and lines [KEY=value] of less than 1023 bytes, [GetValue] finds the value of
    the first line for the key, complete and terminated.  When the key is missing
    the answer is -2, after a read below the line buffer that is harmless where
    memory allows it ([below] not empty) and undefined otherwise. *)
Theorem config_file_means_what_it_says below key items :
  key_ok key -> Forall item_ok items ->
  GetValue below key 1024 (Some (render_all items)) =
    match setting key items with
    | Some v => Some (0, v ++ [0])
    | None => if below is [] then None else Some (-2, [])
    end.
Proof. apply lookup_config. Qed.

Lemma config_file_means_what_it_says_witness :
  GetValue [0] (str "DATA_PORT") 1024
    (Some (render_all [Comment (str "ports"); Blank; Setting (str "SERVER") (str "h"); Setting (str "DATA_PORT") (str "6000")])) =
    Some (0, str "6000" ++ [0]).
Proof.
  apply (config_file_means_what_it_says [0]).
  - unfold key_ok. apply (bool_decide_unpack _). vm_compute. done.
  - unfold item_ok, key_ok, value_ok. repeat (apply Forall_cons; split); try apply Forall_nil;
      first [exact I|apply (bool_decide_unpack _); vm_compute; done].
Defined.

(** ** Termination *)

Lemma fgets_progress f line r eof :
  fgets 1024 f = (line, r, eof) -> eof = true \/ (length r < length f)%nat.
Proof.
  unfold fgets. destruct (find_pos _ _) as [k|] eqn:Hk.
  - intros [= <- <- <-]. right. apply find_pos_lt in Hk. rewrite length_take in Hk. rewrite length_drop. lia.
  - case_bool; [intros [= <- <- <-]; by left|]. apply Nat.ltb_ge in E.
    intros [= <- <- <-]. right. rewrite length_drop. lia.
Qed.

Lemma GetValue_loop_total below key nLen fuel f eof n :
  (eof = true /\ 1 <= fuel \/ length f + 2 <= fuel)%nat ->
  is_Some (GetValue_loop below key nLen fuel f eof n).
Proof.
  revert f eof n. induction fuel as [|fuel IH]; intros f eof n Hf; [lia|]. cbn [GetValue_loop].
  destruct eof; [by eexists|]. destruct Hf as [[? _]|Hf]; [done|].
  destruct (fgets 1024 f) as [[line r] eof] eqn:Hg. apply fgets_progress in Hg.
  assert (Hn : (eof = true /\ 1 <= fuel \/ length r + 2 <= fuel)%nat) by (destruct Hg; [left; split; [done|lia]|right; lia]).
  case_bool; [by apply IH|]. destruct (ends_line _ _); [|by eexists].
  destruct (strtok_nl _) as [tok s]. destruct (if tok then _ else _); [|by eexists]. cbn zeta.
  destruct (has_prefix _ s); [|by apply IH]. case_bool; by eexists.
Qed.

(** ** A line that starts with a space *)

Lemma turn_space b below key junk fuel f :
  b <> SPACE -> key_ok key -> value_ok junk -> (length junk <= 1021)%nat ->
  GetValue_loop (b :: below) key 1024 (S fuel) ((SPACE :: junk) ++ NL :: f) false 0 =
    GetValue_loop (b :: below) key 1024 fuel f false 1.
Proof.
  intros Hb [_ (_ & Hs & Hne)] Hj Hlj.
  assert (Hjn : (NL ∉ SPACE :: junk)).
  { apply not_nl, Forall_cons. split; [done|]. eapply Forall_impl; [exact Hj|by intros x (? & ?)]. }
  assert (Hnn : no_nul ((SPACE :: junk) ++ [NL])).
  { apply Forall_app. split; [|by repeat constructor]. apply Forall_cons. split; [done|].
    eapply Forall_impl; [exact Hj|by intros x (? & ?)]. }
  cbn [GetValue_loop]. rewrite fgets_line by (done || simpl; lia).
  rewrite bool_decide_eq_false_2 by done. rewrite (cstr_all _ Hnn).
  unfold ends_line. rewrite last_snoc.
  replace (strtok_nl ((SPACE :: junk) ++ [NL])) with (true, SPACE :: junk).
  2: { cbn [app strtok_nl]. change (SPACE =? NL) with false. cbn iota. f_equal.
       by rewrite app_comm_cons, until_nl_line. }
  cbn [head hd_error default walk_back fmap option_fmap option_map].
  change (SPACE =? SPACE) with true. rewrite (proj2 (Z.eqb_neq b SPACE)) by done. cbn iota.
  destruct (has_prefix (key ++ [EQUALS]) (SPACE :: junk)) eqn:Hp; [|done].
  apply has_prefix_iff in Hp as [r Hr]. destruct key as [|c key]; [done|].
  injection Hr as Hc _. by rewrite <- Hc in Hs.
Qed.

(** After a line that starts with a space the values of all later lines are cut
    short: [nSpace] is never reset, and [nLine] loses [nSpace + 1], so the last
    character of the next setting is dropped. *)
Theorem leading_space_cuts_values b below key v junk f :
  b <> SPACE -> key_ok key -> value_ok v -> (length key + length v <= 1021)%nat ->
  value_ok junk -> (length junk <= 1021)%nat ->
  GetValue (b :: below) key 1024 (Some ((SPACE :: junk) ++ NL :: render (Setting key v) ++ f)) =
  Some (0, take (length v - 1) v).
Proof.
  intros Hb Hk Hv Hl Hj Hlj. unfold GetValue.
  rewrite length_app. cbn [length]. rewrite !Nat.add_succ_r, !Nat.add_succ_l.
  rewrite turn_space by done. rewrite turn_setting_at by (done || lia). rewrite decide_True by done. cbn [default].
  change (1 =? 0) with false. cbn iota. do 2 f_equal.
  rewrite take_app_le by lia. unfold id. do 3 f_equal. lia.
Qed.

End Config.
