(* ===== verification/ConfigCgi.v ===== *)
(** * ConfigCgi: the configuration page

    The CGI program config/src/config.cpp: it decodes the form posted by the
    browser, writes /app/bin/agent.conf and prints the settings the agent will
    read, as XML.

    [None] is undefined behaviour: a read or write outside the 1024-byte buffers. *)

From Stdlib Require Import Strings.String.
From S2P Require Import Prelude Text Config.
Import Text Config.

Module ConfigCgi.

Definition PLUS : byte := 43.
Definition PERCENT : byte := 37.
Definition QUESTION : byte := 63.
Definition AMP : byte := 38.
Definition BUFSIZE : nat := 1024.

(** ** Decoding *)

Definition hex_val (b : byte) : option Z :=
  if (48 <=? b) && (b <=? 57) then Some (b - 48)
  else if (65 <=? b) && (b <=? 70) then Some (b - 55)
  else if (97 <=? b) && (b <=? 102) then Some (b - 87)
  else None.

(** Up to [n] hexadecimal digits; [None] when there is none. *)
Fixpoint hex_digits (n : nat) (acc : option Z) (l : list byte) : option Z :=
  match n, l with
  | S n, b :: l =>
      match hex_val b with
      | Some d => hex_digits n (Some (default 0 acc * 16 + d)) l
      | None => acc
      end
  | _, _ => acc
  end.

(** [sscanf(l, "%2x", &code)]: leading white space, a sign, and a prefix [0x] are
    accepted within the two characters. *)
Definition scan_2x (l : list byte) : option Z :=
  match skip_spaces l with
  | 45 :: l => Z.opp <$> hex_digits 1 None l
  | 43 :: l => hex_digits 1 None l
  | l => hex_digits 2 None l
  end.

(** The loop of [urldecode]: [mem] is the buffer [src] and [last] point into; [dest]
    is what has been stored. *)
Fixpoint urldecode_loop (mem : list byte) (fuel : nat) (src last : nat) (dest : list byte)
    : option (list byte) :=
  if (src =? last)%nat then
    if (length dest + 2 <=? BUFSIZE)%nat then Some (dest ++ [NL; 0]) else None
  else
    match fuel with
    | O => None
    | S fuel =>
        c ← mem !! src;
        if (BUFSIZE <=? length dest)%nat then None
        else if c =? PLUS then urldecode_loop mem fuel (S src) last (dest ++ [SPACE])
        else if c =? PERCENT then
          if (length mem <=? S src)%nat then None
          else
            let code := default QUESTION (scan_2x (cstr (drop (S src) mem))) in
            urldecode_loop mem fuel (src + 3) last (dest ++ [u8 code])
        else urldecode_loop mem fuel (S src) last (dest ++ [c])
    end.

(** [urldecode]: every turn advances [src], so the size of the buffer bounds the
    turns. *)
Definition urldecode (mem : list byte) (src last : nat) : option (list byte) :=
  urldecode_loop mem (length mem) src last [].

(** [get_key(szKey, strVal, szBuf)]. *)
Definition get_key (key mem : list byte) : option (list byte) :=
  let s := cstr mem in
  match find_sub key s with
  | None => Some []
  | Some found =>
      let last := match find_sub [AMP] (drop found s) with
                  | Some k => (found + k)%nat
                  | None => length s
                  end in
      cstr <$> urldecode mem (found + length key + 1) last
  end.

(** ** Writing the file *)

(** The two [print_config]: the default is a string or an [int]. *)
Definition print_config (mem key def desc : list byte) : option (list byte) :=
  v ← get_key key mem;
  let v := match v with [] => def | _ => v end in
  Some (HASH :: desc ++ NL :: key ++ EQUALS :: v ++ [NL]).
Definition print_config_int (mem key : list byte) (def : Z) (desc : list byte) : option (list byte) :=
  print_config mem key (dec def) desc.

(** The settings in the order [save_config] writes them: key, default, description.
    The defaults are those of [Config cDef("")], a file that cannot be opened. *)
Definition settings : list (list byte * list byte * list byte) :=
  [ (str "SERVER", [], str "Server address");
    (str "DATA_PORT", dec 50001, str "TCP port for data transmit");
    (str "COMMAND_PORT", dec 50101, str "TCP port for control command port");
    (str "INTERVAL", dec 600, str "communication interval in seconds");
    (str "POWERON_DELAY", dec 90, str "waiting second for MP self test");
    (str "LOG_LEVEL", dec LP_INFO, str "log message detail level, 0-9, 0 for more, 9 for less detail");
    (str "MP_PORT", [], str "device file name for MP");
    (str "MACHINE", dec 1, str "Part No. of  MP");
    (str "APN", str "bgan.inmarsat.com", str "satellite access APN");
    (str "LOCAL_IP", [], str "public IP for satellite modem");
    (str "MODEM_IP", str "192.168.1.35", str "satellite modem access IP");
    (str "USERNAME", [], str "satellite modem user name");
    (str "PASSWORD", [], str "access password");
    (str "MODEM_DELAY", dec 60, str "modem AT command response waiting second");
    (str "MIN_SINGAL", dec 45, str "minimum satellite signal level") ].

Fixpoint print_all (mem : list byte) (l : list (list byte * list byte * list byte)) : option (list byte) :=
  match l with
  | [] => Some []
  | (key, def, desc) :: l => a ← print_config mem key def desc; b ← print_all mem l; Some (a ++ b)
  end.

(** [save_config]: the new content of the file, when it could be opened. *)
Definition save_config (mem : list byte) : option (list byte) := print_all mem settings.

(** ** The page *)

(** [cout << s << endl]. *)
Definition line (s : list byte) : list byte := s ++ [NL].

Definition outItem (name val def desc : list byte) : list byte :=
  line (str "<item>") ++
  line (str "<key>" ++ name ++ str "</key>") ++
  line (str "<value>" ++ val ++ str "</value>") ++
  line (str "<default>" ++ (match def with [] => str "-" | _ => def end) ++ str "</default>") ++
  line (str "<descript>" ++ desc ++ str "</descript>") ++
  line (str "</item>").

Definition outItem_int (name : list byte) (val def : Z) (desc : list byte) : list byte :=
  line (str "<item>") ++
  line (str "<key>" ++ name ++ str "</key>") ++
  line (str "<value>" ++ dec val ++ str "</value>") ++
  line (str "<default>" ++ dec def ++ str "</default>") ++
  line (str "<descript>" ++ desc ++ str "</descript>") ++
  line (str "</item>").

(** The document for the settings in [conf]; [below] is the stack memory [GetValue]
    may look at. *)
Definition page (below : list byte) (conf : option (list byte)) (msg : list byte) : option (list byte) :=
  server ← GetServerName below conf; dport ← GetDataPort below conf;
  cport ← GetCommandPort below conf; interval ← GetIntervalSecond below conf;
  delay ← GetPowerOnDelay below conf; level ← GetTraceLevel below conf;
  mpdev ← GetMPdev below conf; machine ← GetMachine below conf;
  apn ← GetAPN below conf; ip ← GetIP below conf; modem_ip ← GetModemIP below conf;
  user ← GetUserName below conf; password ← GetPassword below conf;
  mdelay ← GetModemDelay below conf; sig ← GetMinSignalLevel below conf;
  Some (
    line (str "Content-type: text/xml") ++ line [] ++
    line (str "<?xml version=" ++ [34] ++ str "1.0" ++ [34] ++ str " encoding=" ++ [34] ++ str "utf-8" ++ [34] ++ str "?>") ++
    line (str "<?xml-stylesheet type=" ++ [34] ++ str "text/xsl" ++ [34] ++ str " href=" ++ [34] ++ str "config.xsl" ++ [34] ++ str "?>") ++
    line (str "<device_agent_config>") ++
    line (str "<prompt>" ++ msg ++ str "</prompt>") ++
    outItem (str "SERVER") server [] (str "Server address") ++
    outItem_int (str "DATA_PORT") dport 50001 (str "TCP port for data transmit") ++
    outItem_int (str "COMMAND_PORT") cport 50101 (str "TCP port for control command") ++
    outItem_int (str "INTERVAL") interval 600 (str "communication interval in seconds") ++
    outItem_int (str "POWERON_DELAY") delay 90 (str "waiting seconds for MP self test") ++
    outItem_int (str "LOG_LEVEL") level LP_INFO (str "log message detail level, 0-9, 0 for more, 9 for less detail") ++
    outItem (str "MP_PORT") mpdev [] (str "device file name for MP") ++
    outItem_int (str "MACHINE") machine 1 (str "Part No. of  MP") ++
    outItem (str "APN") apn (str "bgan.inmarsat.com") (str "satellite access APN") ++
    outItem (str "LOCAL_IP") ip [] (str "public IP for satellite modem") ++
    outItem (str "MODEM_IP") modem_ip (str "192.168.1.35") (str "satellite modem access IP") ++
    outItem (str "USERNAME") user [] (str "satellite modem user name") ++
    outItem (str "PASSWORD") password [] (str "access password") ++
    outItem_int (str "MODEM_DELAY") mdelay 60 (str "modem AT command response waiting second") ++
    outItem_int (str "MIN_SINGAL") sig 45 (str "minimum satellite signal level") ++
    line (str "</device_agent_config>")).

(** [sscanf(l, "%ld", &len)]. *)
Definition scan_ld (l : list byte) : option Z :=
  let number sign l :=
    match l with
    | b :: _ => if is_digit b then Some (clamp32 (sign * digits 0 l)) else None
    | [] => None
    end in
  match skip_spaces l with
  | 45 :: l => number (-1) l
  | 43 :: l => number 1 l
  | l => number 1 l
  end.

(** The request body: what [fgets(buf, len + 1, stdin)] leaves in [buf], and the
    message set when the length is missing or too large. *)
Definition read_form (content_length : option (list byte)) (stdin : list byte)
    : option (list byte * list byte) :=
  let err lenstr := str "Content length error:" ++ lenstr in
  match content_length with
  | None => Some ([], [])
  | Some lenstr =>
      match scan_ld lenstr with
      | None => Some ([], err lenstr)
      | Some len =>
          if 1024 <? len then Some ([], err lenstr)
          else
            let body := fst (fst (fgets (Z.to_nat (len + 1)) stdin)) in
            if (length body + 1 <=? BUFSIZE)%nat then Some (body, []) else None
      end
  end.

(** A run of the program: the page, the new file if one was written, and whether the
    system is rebooted.  [writable]: the file could be opened; [now]: [ctime]. *)
Record cgi_result := mkCgi { out : list byte; saved : option (list byte); reboot : bool }.

Definition cgi_main (below : list byte) (content_length : option (list byte)) (stdin : list byte)
    (conf : option (list byte)) (writable : bool) (now : list byte) : option cgi_result :=
  form ← read_form content_length stdin;
  let '(body, msg) := form in
  let mem := body ++ replicate (BUFSIZE - length body) 0 in
  match cstr mem with
  | [] => p ← page below conf msg; Some (mkCgi p None false)
  | s =>
      _ ← get_key (str "Submit") mem;
      if contains (str "reboot") s then
        p ← page below conf (str "System will reboot in 5 seconds."); Some (mkCgi p None true)
      else if writable then
        file ← save_config mem;
        p ← page below (Some file)
              (str "Parameters saved at I/F UNIT local time:" ++ now ++
               str ". Please press reboot button to make them effect ");
        Some (mkCgi p (Some file) false)
      else
        p ← page below conf (str "open file error"); Some (mkCgi p None false)
  end.

(** ** What browsers send *)

Definition hexd (d : Z) : byte := if d <? 10 then 48 + d else 55 + d.

(** Characters a form field keeps as they are. *)
Definition plain (b : byte) : bool :=
  is_digit b || ((65 <=? b) && (b <=? 90)) || ((97 <=? b) && (b <=? 122)) ||
  (b =? 42) || (b =? 45) || (b =? 46) || (b =? 95).

Definition encode_byte (b : byte) : list byte :=
  if plain b then [b]
  else if b =? SPACE then [PLUS]
  else [PERCENT; hexd (b / 16); hexd (b mod 16)].

Definition urlencode (v : list byte) : list byte := concat (encode_byte <$> v).

Lemma hexd_range d : 0 <= d < 16 -> 48 <= hexd d <= 57 \/ 65 <= hexd d <= 70.
Proof. unfold hexd. intros H. case_bool; to_prop; lia. Qed.

Lemma hex_val_hexd d : 0 <= d < 16 -> hex_val (hexd d) = Some d.
Proof.
  intros H. unfold hex_val, hexd.
  repeat case_bool; to_prop; try (f_equal; lia); try lia;
    repeat match goal with H : _ \/ _ |- _ => destruct H; to_prop; try lia end.
Qed.

Lemma scan_2x_hexd a b l : 0 <= a < 16 -> 0 <= b < 16 -> scan_2x (hexd a :: hexd b :: l) = Some (a * 16 + b).
Proof.
  intros Ha Hb. unfold scan_2x. pose proof (hexd_range a Ha) as Hr.
  assert (Hs : skip_spaces (hexd a :: hexd b :: l) = hexd a :: hexd b :: l).
  { cbn [skip_spaces]. unfold is_space. destruct (hexd a =? 32) eqn:E1; [to_prop; lia|].
    destruct (hexd a <=? 13) eqn:E2; [to_prop; lia|]. by rewrite andb_false_r. }
  rewrite Hs.
  transitivity (hex_digits 2 None (hexd a :: hexd b :: l)).
  - destruct (hexd a) as [|p|p]; [done| |done]. repeat (destruct p as [p|p|]; try done); lia.
  - cbn [hex_digits]. rewrite !hex_val_hexd by done. done.
Qed.

(** The two digits of an encoded byte. *)
Lemma scan_encoded b l : byte_ok b -> scan_2x (cstr (hexd (b / 16) :: hexd (b mod 16) :: l)) = Some b.
Proof.
  unfold byte_ok. intros Hb. assert (0 <= b / 16 < 16) by (split; [apply Z.div_pos; lia|apply Z.div_lt_upper_bound; lia]).
  pose proof (Z.mod_pos_bound b 16).
  assert (Hc : forall d, 0 <= d < 16 -> (hexd d =? 0) = false).
  { intros d Hd'. apply Z.eqb_neq. pose proof (hexd_range d Hd'). lia. }
  cbn [cstr]. rewrite !Hc by lia. rewrite scan_2x_hexd by lia. f_equal. pose proof (Z.div_mod b 16). lia.
Qed.

(** Decoding reads back an encoded field. *)
Lemma urldecode_loop_encoded mem v rest fuel src dest :
  bytes_ok v -> no_nul v -> drop src mem = urlencode v ++ rest ->
  (length (urlencode v) <= fuel)%nat -> (length dest + length v + 2 <= BUFSIZE)%nat ->
  urldecode_loop mem fuel src (src + length (urlencode v)) dest = Some (dest ++ v ++ [NL; 0]).
Proof.
  revert fuel src dest. induction v as [|b v IH]; intros fuel src dest Hb Hn Hm Hf Hd.
  { cbn [urlencode fmap list_fmap concat length app]. rewrite Nat.add_0_r.
    destruct fuel; cbn [urldecode_loop]; rewrite Nat.eqb_refl;
      (rewrite (proj2 (Nat.leb_le _ _)); [done|simpl in Hd; lia]). }
  apply bytes_ok_cons in Hb as [Hb0 Hb]. apply Forall_cons in Hn as [Hn0 Hn].
  assert (He : urlencode (b :: v) = encode_byte b ++ urlencode v) by done. rewrite He in *.
  rewrite <- app_assoc in Hm. rewrite length_app in *. simpl in Hd.
  assert (Hnext : forall n, length (encode_byte b) = n ->
    drop (src + n) mem = urlencode v ++ rest).
  { intros n Hl. rewrite <- drop_drop, Hm. by rewrite drop_app_length'. }
  assert (Hgo : forall n c fuel', length (encode_byte b) = n -> c = b -> (length (urlencode v) <= fuel')%nat ->
    urldecode_loop mem fuel' (src + n) (src + (n + length (urlencode v))) (dest ++ [c]) =
    Some (dest ++ (b :: v) ++ [NL; 0])).
  { intros n c fuel' Hl -> Hf'. rewrite Nat.add_assoc, IH; try done; [|by apply Hnext|rewrite length_app; simpl; lia].
    by rewrite <- app_assoc. }
  assert (Hlook : forall c l, encode_byte b = c :: l -> mem !! src = Some c).
  { intros c l Hc. rewrite Hc in Hm. pose proof (lookup_drop mem src 0) as H. rewrite Hm, Nat.add_0_r in H.
    by symmetry. }
  destruct fuel as [|fuel].
  { unfold encode_byte in Hf. repeat case_bool; simpl in Hf; lia. }
  cbn [urldecode_loop].
  rewrite (proj2 (Nat.eqb_neq src _)) by (unfold encode_byte; repeat case_bool; simpl; lia).
  unfold encode_byte in *. destruct (plain b) eqn:Hp; [|destruct (b =? SPACE) eqn:Hsp].
  - rewrite (Hlook b []) by done. cbn [mbind option_bind].
    rewrite (proj2 (Nat.leb_gt _ _)) by lia.
    assert (b <> PLUS /\ b <> PERCENT) as [Hb1 Hb2].
    { unfold plain, is_digit, PLUS, PERCENT in *. split; intros ->; done. }
    rewrite !(proj2 (Z.eqb_neq _ _)) by done. simpl. rewrite <- Nat.add_1_r.
    apply (Hgo 1%nat); [done|done|simpl in Hf; lia].
  - rewrite (Hlook PLUS []) by done. cbn [mbind option_bind].
    rewrite (proj2 (Nat.leb_gt _ _)) by lia. rewrite Z.eqb_refl. simpl. rewrite <- Nat.add_1_r.
    apply (Hgo 1%nat); [done|to_prop; congruence|simpl in Hf; lia].
  - rewrite (Hlook PERCENT [hexd (b / 16); hexd (b mod 16)]) by done. cbn [mbind option_bind].
    rewrite (proj2 (Nat.leb_gt _ _)) by lia. rewrite Z.eqb_refl. change (PERCENT =? PLUS) with false. cbn iota.
    assert (Hm1 : drop (S src) mem = hexd (b / 16) :: hexd (b mod 16) :: urlencode v ++ rest).
    { rewrite <- Nat.add_1_r, <- drop_drop, Hm. done. }
    assert (Hlen : (S src < length mem)%nat).
    { assert (0 < length (drop (S src) mem))%nat by (rewrite Hm1; simpl; lia).
      rewrite length_drop in *. lia. }
    rewrite (proj2 (Nat.leb_gt _ _)), Hm1, scan_encoded by done. cbn [default]. simpl length. apply (Hgo 3%nat); [done|by apply u8_small|simpl in Hf; lia].
Qed.

(** ** Looking up a field *)

Lemma has_prefix_single b l : has_prefix [b] l = bool_decide (head l = Some b).
Proof.
  apply eq_true_iff_eq. rewrite has_prefix_iff, bool_decide_eq_true. split.
  - by intros [k ->].
  - destruct l as [|c l]; intros [= ->]. by exists l.
Qed.

Lemma find_sub_single b l r : (b ∉ l) -> find_sub [b] (l ++ b :: r) = Some (length l).
Proof.
  induction l as [|c l IH]; intros H; cbn [app find_sub]; rewrite has_prefix_single.
  - by rewrite bool_decide_eq_true_2.
  - apply not_elem_of_cons in H as [Hc Hl]. rewrite bool_decide_eq_false_2 by (simpl; congruence).
    by rewrite IH.
Qed.

Lemma find_sub_absent b l : (b ∉ l) -> find_sub [b] l = None.
Proof.
  induction l as [|c l IH]; intros H; cbn [find_sub]; rewrite has_prefix_single.
  - by rewrite bool_decide_eq_false_2.
  - apply not_elem_of_cons in H as [Hc Hl]. rewrite bool_decide_eq_false_2 by (simpl; congruence).
    by rewrite IH.
Qed.

Lemma urlencode_no_amp v : bytes_ok v -> AMP ∉ urlencode v.
Proof.
  induction v as [|b v IH]; intros Hb; [apply not_elem_of_nil|].
  apply bytes_ok_cons in Hb as [Hb0 Hb]. unfold urlencode. rewrite fmap_cons. cbn [concat].
  apply not_elem_of_app. split; [|by apply IH]. unfold encode_byte, byte_ok in *.
  assert (0 <= b / 16 < 16) by (split; [apply Z.div_pos; lia|apply Z.div_lt_upper_bound; lia]).
  pose proof (Z.mod_pos_bound b 16). pose proof (hexd_range (b / 16)). pose proof (hexd_range (b mod 16)).
  destruct (plain b) eqn:Hp; [|destruct (b =? SPACE)].
  - intros H'%list_elem_of_singleton. subst b. done.
  - by intros ?%list_elem_of_singleton.
  - rewrite !not_elem_of_cons. unfold AMP. split_and!; [done|lia..|apply not_elem_of_nil].
Qed.

Lemma length_urlencode v : (length v <= length (urlencode v))%nat.
Proof.
  induction v as [|b v IH]; [done|]. unfold urlencode in *. rewrite fmap_cons. cbn [concat length].
  rewrite length_app. assert (1 <= length (encode_byte b))%nat; [|lia].
  unfold encode_byte. repeat case_bool; simpl; lia.
Qed.

(** The buffer after [fgets]. *)
Definition buffer (body : list byte) : list byte := body ++ replicate (BUFSIZE - length body) 0.

Lemma cstr_buffer body : no_nul body -> (length body < BUFSIZE)%nat -> cstr (buffer body) = body.
Proof.
  intros Hn Hl. unfold buffer. destruct (BUFSIZE - length body)%nat eqn:E; [lia|]. cbn [replicate].
  by apply cstr_no_nul.
Qed.

(** A field of the form, found where it stands. *)
Lemma get_key_field pre key v rest :
  let body := pre ++ key ++ EQUALS :: urlencode v ++ rest in
  bytes_ok v -> no_nul v -> no_nul body -> (AMP ∉ key) -> (rest = [] \/ head rest = Some AMP) ->
  (length body < BUFSIZE)%nat -> find_sub key body = Some (length pre) ->
  get_key key (buffer body) = Some (v ++ [NL]).
Proof.
  intros body Hb Hn Hnb Ha Hrest Hl Hf. unfold get_key. rewrite cstr_buffer by done. rewrite Hf.
  set (e := urlencode v) in *.
  assert (Hlast : match find_sub [AMP] (drop (length pre) body) with
      | Some k => (length pre + k)%nat | None => length body end =
    (length pre + length key + 1 + length e)%nat).
  { unfold body. rewrite drop_app_length.
    assert (Hna : AMP ∉ key ++ EQUALS :: e).
    { apply not_elem_of_app. split; [done|]. apply not_elem_of_cons. split; [done|by apply urlencode_no_amp]. }
    replace (key ++ EQUALS :: e ++ rest) with ((key ++ EQUALS :: e) ++ rest) by (by rewrite <- app_assoc).
    destruct Hrest as [->|Hr].
    - rewrite app_nil_r, find_sub_absent by done. rewrite !length_app. simpl. lia.
    - destruct rest as [|c rest]; [done|]. injection Hr as ->. rewrite find_sub_single by done.
      rewrite length_app. simpl. lia. }
  rewrite Hlast. unfold urldecode.
  assert (Hmem : drop (length pre + length key + 1) (buffer body) =
    e ++ (rest ++ replicate (BUFSIZE - length body) 0)).
  { unfold buffer, body at 1. rewrite <- !app_assoc. rewrite <- !drop_drop, drop_app_length, drop_app_length.
    simpl. by rewrite ?drop_0, <- ?app_assoc. }
  assert (Hlen : length body = (length pre + length key + 1 + length e + length rest)%nat).
  { unfold body. rewrite !length_app. simpl. rewrite length_app. lia. }
  assert (Hbuf : length (buffer body) = BUFSIZE) by (unfold buffer; rewrite length_app, length_replicate; lia).
  pose proof (length_urlencode v). unfold e in *.
  erewrite urldecode_loop_encoded; [|done|done|exact Hmem|lia|simpl; lia].
  simpl. f_equal. change [NL; 0] with ([NL] ++ [0]). rewrite app_assoc.
  apply cstr_no_nul, Forall_app. split; [done|by repeat constructor].
Qed.

(** ** What was saved is what the agent reads *)

(** A field as the form gives it: absent, or a value of one line. *)
Definition field_ok (mem key : list byte) : Prop :=
  get_key key mem = Some [] \/
  exists v, get_key key mem = Some (v ++ [NL]) /\ value_ok v /\ (length key + length v <= 1021)%nat.

(** The value that takes effect. *)
Definition effective (mem key def : list byte) : list byte :=
  match get_key key mem with
  | Some ((_ :: _) as g) => removelast g
  | _ => def
  end.

(** The lines [print_config] writes for an entry. *)
Definition entry (mem : list byte) (x : list byte * list byte * list byte) : list item :=
  let '(key, def, desc) := x in
  Comment desc :: Setting key (effective mem key def) ::
  match get_key key mem with Some (_ :: _) => [Blank] | _ => [] end.

Definition default_ok (x : list byte * list byte * list byte) : Prop :=
  let '(key, def, desc) := x in
  key_ok key /\ value_ok def /\ (length key + length def <= 1021)%nat /\
  (NL ∉ desc) /\ (length desc <= 1021)%nat.

Lemma print_config_entry mem key def desc :
  field_ok mem key -> print_config mem key def desc = Some (render_all (entry mem (key, def, desc))).
Proof.
  intros [H|(v & H & _)]; unfold print_config, entry, effective, render_all; rewrite H.
  - cbn -[str]. by rewrite <- !app_assoc, app_nil_r.
  - destruct (v ++ [NL]) as [|c l] eqn:E; [by destruct v|].
    assert (removelast (c :: l) = v) as -> by (rewrite <- E; apply removelast_last).
    cbn [mbind option_bind]. rewrite <- E. f_equal. cbn. rewrite <- !app_assoc. simpl.
    by rewrite <- !app_assoc.
Qed.

Lemma entry_ok mem x :
  default_ok x -> field_ok mem (fst (fst x)) -> Forall item_ok (entry mem x).
Proof.
  destruct x as [[key def] desc]. intros (Hk & Hd & Hl & Hc & Hlc) [H|(v & H & Hv & Hlv)];
    unfold entry, effective; simpl in H; rewrite H.
  - by repeat (apply Forall_cons; split; [done|]).
  - destruct (v ++ [NL]) as [|c l] eqn:E; [by destruct v|].
    assert (removelast (c :: l) = v) as -> by (rewrite <- E; apply removelast_last).
    by repeat (apply Forall_cons; split; [done|]).
Qed.

Definition key_of (x : list byte * list byte * list byte) : list byte := fst (fst x).

Lemma print_all_items mem l :
  Forall (fun x => field_ok mem (key_of x)) l ->
  print_all mem l = Some (render_all (concat (entry mem <$> l))).
Proof.
  induction 1 as [|[[key def] desc] l Hx _ IH]; [done|]. cbn [print_all].
  rewrite print_config_entry by done. rewrite IH. cbn [mbind option_bind]. f_equal.
  rewrite fmap_cons. cbn [concat]. unfold render_all. by rewrite fmap_app, concat_app.
Qed.

Lemma setting_app key l k :
  setting key (l ++ k) = match setting key l with Some v => Some v | None => setting key k end.
Proof.
  induction l as [|[text| |k' v] l IH]; simpl; try done. by case_decide.
Qed.

Lemma setting_entry mem key x :
  setting key (entry mem x) =
    if decide (key_of x = key) then Some (effective mem (key_of x) (snd (fst x))) else None.
Proof.
  destruct x as [[k def] desc]. cbn [entry setting key_of fst snd]. case_decide; [done|].
  by destruct (get_key k mem) as [[|]|].
Qed.

Lemma setting_entries mem l x :
  NoDup (key_of <$> l) -> x ∈ l ->
  setting (key_of x) (concat (entry mem <$> l)) = Some (effective mem (key_of x) (snd (fst x))).
Proof.
  induction l as [|y l IH]; intros Hn Hx; [by apply not_elem_of_nil in Hx|].
  rewrite fmap_cons in *. apply NoDup_cons in Hn as [Hy Hn]. cbn [concat].
  rewrite setting_app, setting_entry. apply elem_of_cons in Hx as [->|Hx].
  - by rewrite decide_True.
  - rewrite decide_False; [by apply IH|]. intros He. apply Hy. rewrite He.
    by apply list_elem_of_fmap_2.
Qed.

Lemma setting_absent mem l key :
  (key ∉ key_of <$> l) -> setting key (concat (entry mem <$> l)) = None.
Proof.
  induction l as [|y l IH]; intros H; [done|]. rewrite fmap_cons in *.
  apply not_elem_of_cons in H as [Hy Hl]. cbn [concat].
  rewrite setting_app, setting_entry, decide_False by congruence. by apply IH.
Qed.

#[local] Instance default_ok_dec x : Decision (default_ok x).
Proof. destruct x as [[key def] desc]. unfold default_ok, key_ok, value_ok. apply _. Defined.

Lemma settings_ok : Forall default_ok settings.
Proof. apply (bool_decide_unpack _). vm_compute. done. Qed.

Lemma settings_keys : NoDup (key_of <$> settings) /\ str "MIN_SIGNAL" ∉ key_of <$> settings.
Proof. split; apply (bool_decide_unpack _); vm_compute; done. Qed.

Lemma min_signal_key : key_ok (str "MIN_SIGNAL").
Proof. unfold key_ok. apply (bool_decide_unpack _). vm_compute. done. Qed.

(** *** Forms

    A form is the list of its fields, name and value, as the user filled them in; the
    browser posts them encoded, separated by [&]. *)

Abbreviation form := (list (list byte * list byte)).

Definition posted_field (f : list byte * list byte) : list byte := fst f ++ EQUALS :: urlencode (snd f).

Fixpoint form_body (fs : form) : list byte :=
  match fs with
  | [] => []
  | [f] => posted_field f
  | f :: fs => posted_field f ++ AMP :: form_body fs
  end.

(** The value of the field [key], or the default when the form has none. *)
Fixpoint form_value (fs : form) (key def : list byte) : list byte :=
  match fs with
  | [] => def
  | (k, v) :: fs => if decide (k = key) then v else form_value fs key def
  end.

(** Where the field after [fs] begins. *)
Definition field_start (fs : form) : nat := length (concat ((fun f => posted_field f ++ [AMP]) <$> fs)).

(** [strstr] finds the key at its own field, or not at all if there is no such field. *)
Definition found_by_name (fs : form) (key : list byte) : Prop :=
  (exists before v after, fs = before ++ (key, v) :: after /\ find_sub key (form_body fs) = Some (field_start before)) \/
  (key ∉ fs.*1 /\ find_sub key (form_body fs) = None).

(** A form that fits the buffer, with values of one line. *)
Record form_ok (fs : form) : Prop := {
  form_names : NoDup fs.*1;
  form_plain : Forall (fun f => no_nul (fst f) /\ AMP ∉ fst f) fs;
  form_values : Forall (fun f => bytes_ok (snd f) /\ no_nul (snd f) /\ value_ok (snd f) /\
    (length (fst f) + length (snd f) <= 1021)%nat) fs;
  form_length : (length (form_body fs) < BUFSIZE)%nat;
  form_found : Forall (fun x => found_by_name fs (key_of x)) settings }.

Lemma form_body_split before key v after :
  exists rest, form_body (before ++ (key, v) :: after) =
      concat ((fun f => posted_field f ++ [AMP]) <$> before) ++ key ++ EQUALS :: urlencode v ++ rest /\
    (rest = [] \/ head rest = Some AMP).
Proof.
  induction before as [|f before IH].
  - destruct after as [|f' after].
    + exists []. rewrite app_nil_r. by split; [|left].
    + exists (AMP :: form_body (f' :: after)). split; [|by right]. simpl app at 1. cbn [form_body]. unfold posted_field at 1. simpl.
      by rewrite <- app_assoc.
  - destruct IH as (rest & IH & Hr). exists rest. split; [|done]. simpl app at 1.
    assert (Hb : forall l, l <> [] -> form_body (f :: l) = posted_field f ++ AMP :: form_body l) by (by intros []).
    rewrite Hb, IH by (by destruct before). simpl. by rewrite <- !app_assoc.
Qed.

Lemma urlencode_no_nul v : bytes_ok v -> no_nul v -> no_nul (urlencode v).
Proof.
  intros Hb. induction v as [|b v IH]; intros Hn; [constructor|].
  apply bytes_ok_cons in Hb as [Hb0 Hb]. apply Forall_cons in Hn as [Hn0 Hn].
  apply Forall_app. split; [|by apply IH]. unfold encode_byte, byte_ok in *.
  assert (0 <= b / 16 < 16) by (split; [apply Z.div_pos; lia|apply Z.div_lt_upper_bound; lia]).
  pose proof (Z.mod_pos_bound b 16). pose proof (hexd_range (b / 16)). pose proof (hexd_range (b mod 16)).
  repeat case_bool; repeat (apply Forall_cons; split); try apply Forall_nil; try done; unfold PLUS, PERCENT; lia.
Qed.

Lemma form_body_no_nul fs :
  Forall (fun f => no_nul (fst f) /\ AMP ∉ fst f) fs ->
  Forall (fun f => bytes_ok (snd f) /\ no_nul (snd f) /\ value_ok (snd f) /\
    (length (fst f) + length (snd f) <= 1021)%nat) fs ->
  no_nul (form_body fs).
Proof.
  intros Hp. induction Hp as [|f fs [Hf _] Hp IH]; intros Hv; [constructor|].
  apply Forall_cons in Hv as [(Hb & Hn & _) Hv].
  assert (no_nul (posted_field f)).
  { apply Forall_app. split; [done|]. apply Forall_cons. split; [done|by apply urlencode_no_nul]. }
  destruct fs as [|f' fs]; [done|]. apply Forall_app. split; [done|]. apply Forall_cons. split; [done|by apply IH].
Qed.

Lemma form_value_split before key v after def :
  NoDup (before ++ (key, v) :: after).*1 -> form_value (before ++ (key, v) :: after) key def = v.
Proof.
  induction before as [|[k w] before IH]; simpl; [by rewrite decide_True|].
  intros [Hk Hn]%NoDup_cons. rewrite decide_False; [by apply IH|]. intros ->. apply Hk.
  rewrite fmap_app. apply elem_of_app. right. apply elem_of_cons. by left.
Qed.

Lemma form_value_absent fs key def : key ∉ fs.*1 -> form_value fs key def = def.
Proof.
  induction fs as [|[k w] fs IH]; [done|]. simpl. intros [Hk Hn]%not_elem_of_cons.
  rewrite decide_False by congruence. by apply IH.
Qed.

(** The page looks a field up by the text of its name. *)
Lemma form_field fs key def :
  form_ok fs -> found_by_name fs key ->
  field_ok (buffer (form_body fs)) key /\ effective (buffer (form_body fs)) key def = form_value fs key def.
Proof.
  intros [Hn Hp Hv Hl _] [(before & v & after & -> & Hf)|[Ha Hf]].
  - destruct (form_body_split before key v after) as (rest & Hb & Hr).
    pose proof (form_body_no_nul _ Hp Hv) as Hnul. rewrite Forall_app, Forall_cons in Hp, Hv.
    destruct Hp as (_ & [_ Hk] & _), Hv as (_ & (Hb8 & Hn0 & Hval & Hlen) & _).
    assert (Hg : get_key key (buffer (form_body (before ++ (key, v) :: after))) = Some (v ++ [NL])).
    { rewrite Hb in *. by apply get_key_field. }
    split; [right; by exists v|]. unfold effective. rewrite Hg, (form_value_split _ _ _ _ _ Hn).
    destruct (v ++ [NL]) as [|c l] eqn:E; [by destruct v|]. rewrite <- E. apply removelast_last.
  - assert (Hg : get_key key (buffer (form_body fs)) = Some []).
    { unfold get_key. by rewrite cstr_buffer, Hf by auto using form_body_no_nul. }
    split; [by left|]. unfold effective. by rewrite Hg, form_value_absent.
Qed.

Lemma saved_file mem below :
  Forall (fun x => field_ok mem (key_of x)) settings ->
  exists file, save_config mem = Some file /\
    (forall x, x ∈ settings ->
       GetValue below (key_of x) 1024 (Some file) =
         Some (0, effective mem (key_of x) (snd (fst x)) ++ [0])) /\
    (below <> [] -> GetMinSignalLevel below (Some file) = Some 45).
Proof.
  intros Hf. eexists. split; [by apply print_all_items|]. destruct settings_keys as [Hn Hm].
  assert (Hi : Forall item_ok (concat (entry mem <$> settings))).
  { apply Forall_concat, Forall_fmap, Forall_forall. intros x Hx.
    apply entry_ok; [by apply (proj1 (Forall_forall _ _) settings_ok)|].
    by apply (proj1 (Forall_forall _ _) Hf). }
  split.
  - intros x Hx. rewrite lookup_config; [by rewrite setting_entries| |done].
    pose proof (proj1 (Forall_forall _ _) settings_ok x Hx) as Ho. destruct x as [[key def] desc]. apply Ho.
  - intros Hb. unfold GetMinSignalLevel, conf_int. rewrite lookup_config; [|apply min_signal_key|done].
    rewrite setting_absent by done. by destruct below.
Qed.

(** C28. What the user fills in takes effect: of a form posted to the page,
    [save_config] writes a file in which [GetValue] finds, for each of the 15 keys, the
    value of the field with that name, or the default when the form has no such field.
    It is assumed that the form, encoded as browsers do, fits the buffer, that names are
    distinct and free of [&] and NUL, that values are of one line, and that the text of
    a key stands in the posted data first as the name of its own field, if at all:
    [get_key] takes it wherever it first occurs, also inside a value.  The one setting
    that does not take effect is the minimum signal level: the page writes
    [MIN_SINGAL], the agent reads [MIN_SIGNAL], so [GetMinSignalLevel] stays 45. *)
Theorem saved_settings_take_effect fs below :
  form_ok fs ->
  exists file, save_config (buffer (form_body fs)) = Some file /\
    (forall key def desc, (key, def, desc) ∈ settings ->
       GetValue below key 1024 (Some file) = Some (0, form_value fs key def ++ [0])) /\
    (below <> [] -> GetMinSignalLevel below (Some file) = Some 45).
Proof.
  intros Hok. pose proof (form_found _ Hok) as Hf.
  destruct (saved_file (buffer (form_body fs)) below) as (file & Hs & Hv & Hm).
  { eapply Forall_impl; [exact Hf|]. intros x Hx. by apply (form_field fs _ []). }
  exists file. split; [done|]. split; [|done]. intros key def desc Hx. etransitivity; [exact (Hv _ Hx)|].
  cbn [key_of fst snd]. do 3 f_equal. apply form_field; [done|]. by apply (proj1 (Forall_forall _ _) Hf _ Hx).
Qed.

(** A form that sets two values; the second needs encoding. *)
Definition filled : form :=
  [(str "SERVER", str "10.0.0.9"); (str "PASSWORD", str "a b&c%"); (str "Submit", str "Save")].

Lemma filled_found : Forall (fun x => found_by_name filled (key_of x)) settings.
Proof.
  assert (Habs : forall key, bool_decide (key ∉ filled.*1) = true -> find_sub key (form_body filled) = None ->
    found_by_name filled key) by (intros key Hk%bool_decide_eq_true Hn; by right).
  unfold settings. repeat apply Forall_cons_2; try apply Forall_nil_2;
    try (apply Habs; vm_compute; reflexivity); left.
  - exists [], (str "10.0.0.9"), (drop 1 filled). split; vm_compute; reflexivity.
  - exists (take 1 filled), (str "a b&c%"), (drop 2 filled). split; vm_compute; reflexivity.
Qed.

Lemma filled_ok : form_ok filled.
Proof.
  split; [..|apply filled_found];
    [apply (bool_decide_unpack _); vm_compute; done..|apply (bool_decide_unpack _); vm_compute; done].
Qed.

Lemma saved_settings_take_effect_witness :
  exists file, save_config (buffer (form_body filled)) = Some file /\
    GetValue [0] (str "PASSWORD") 1024 (Some file) = Some (0, str "a b&c%" ++ [0]) /\
    GetValue [0] (str "APN") 1024 (Some file) = Some (0, str "bgan.inmarsat.com" ++ [0]).
Proof.
  destruct (saved_settings_take_effect filled [0] filled_ok) as (file & Hs & Hv & _).
  exists file. split; [exact Hs|]. split.
  - apply (Hv (str "PASSWORD") [] (str "access password")). apply (bool_decide_unpack _). vm_compute. done.
  - apply (Hv (str "APN") (str "bgan.inmarsat.com") (str "satellite access APN")).
    apply (bool_decide_unpack _). vm_compute. done.
Defined.

(** A key inside the value of another field is taken for the field. *)
Example key_inside_a_value :
  form_body [(str "APN", str "MACHINEX5"); (str "MACHINE", str "7")] = str "APN=MACHINEX5&MACHINE=7" /\
  get_key (str "MACHINE") (buffer (str "APN=MACHINEX5&MACHINE=7")) = Some (str "5" ++ [NL]).
Proof. split; vm_compute; reflexivity. Qed.

(** ** Where the page overruns its buffers *)

Lemma urldecode_loop_past mem fuel src last dest :
  (last < src)%nat -> urldecode_loop mem fuel src last dest = None.
Proof.
  revert src dest. induction fuel as [|fuel IH]; intros src dest H; cbn [urldecode_loop];
    rewrite (proj2 (Nat.eqb_neq src last)) by lia; [done|].
  destruct (mem !! src); [|done]. cbn [mbind option_bind].
  repeat case_bool; try done; apply IH; lia.
Qed.

(** A field that ends in [%] or [%x] runs over: [src] is advanced past [last], and the
    loop, which stops only at [last], reads and writes beyond the buffers. *)
Theorem stray_percent_overruns mem src last :
  mem !! src = Some PERCENT -> (src < last < src + 3)%nat -> urldecode mem src last = None.
Proof.
  intros Hc Hl. unfold urldecode. destruct (length mem) as [|fuel] eqn:E.
  { apply nil_length_inv in E as ->. done. }
  cbn [urldecode_loop]. rewrite (proj2 (Nat.eqb_neq src last)) by lia. rewrite Hc. cbn [mbind option_bind].
  repeat case_bool; try done. apply urldecode_loop_past. lia.
Qed.

(** The length check accepts 1024, one more than the buffer holds with its NUL. *)
Example full_form_overflows : read_form (Some (dec 1024)) (replicate 1024 97) = None.
Proof. vm_compute. reflexivity. Qed.

End ConfigCgi.
