(* ===== verification/Atof.v ===== *)
(** * Atof: decimal text to floating point

    [atof] of the C library, [(float)] of its result and the comparison [<], as
    [Modem::GetSignalLevel] and [Modem::CheckSignalLevel] use them.  IEEE numbers
    are those of the Standard Library's [SpecFloat]; a decimal literal is read
    exactly and rounded once, to binary64, which is what [strtod] promises. *)

From Stdlib Require Import Floats.SpecFloat Strings.String.
From S2P Require Import Prelude Text.
Import Text.

Module Atof.

(** ** Rounding *)

(** The binary64 number nearest to [m * 10^e]. *)
Definition of_decimal (neg : bool) (m e : Z) : spec_float :=
  match m with
  | Zpos p =>
      if 0 <=? e then
        match m * 10 ^ e with Zpos q => binary_round 53 1024 neg q 0 | _ => S754_zero neg end
      else
        match 10 ^ (- e) with
        | Zpos d => SFdiv 53 1024 (S754_finite neg p 0) (S754_finite false d 0)
        | _ => S754_zero neg
        end
  | _ => S754_zero neg
  end.

(** [(float)] of a [double]. *)
Definition to_float (x : spec_float) : spec_float :=
  match x with
  | S754_finite s m e => binary_round 24 128 s m e
  | x => x
  end.

(** [(float)n] of an [int]. *)
Definition float_of_int (n : Z) : spec_float :=
  match n with
  | Z0 => S754_zero false
  | Zpos p => binary_round 24 128 false p 0
  | Zneg p => binary_round 24 128 true p 0
  end.

(** [a < b]; false when either is not a number. *)
Definition float_lt (a b : spec_float) : bool := SFltb a b.

(** ** Reading *)

(** Leading digits: their value, their number, the rest. *)
Fixpoint span_digits (acc : Z) (n : nat) (l : list byte) : Z * nat * list byte :=
  match l with
  | b :: k => if is_digit b then span_digits (acc * 10 + (b - 48)) (S n) k else (acc, n, l)
  | [] => (acc, n, l)
  end.

(** [e[+-]digits] with the letter [e] or [E], 0 when it is not there. *)
Definition exponent (e E : byte) (l : list byte) : Z :=
  match l with
  | c :: l =>
      if (c =? e) || (c =? E) then
        match l with
        | 45 :: l => - fst (fst (span_digits 0 0 l))
        | 43 :: l => fst (fst (span_digits 0 0 l))
        | l => fst (fst (span_digits 0 0 l))
        end
      else 0
  | [] => 0
  end.

(** A decimal literal: digits, a point, digits, an exponent; 0 without a digit. *)
Definition read_decimal (neg : bool) (l : list byte) : spec_float :=
  let '(m, n, l) := span_digits 0 0 l in
  let '(m, k, l) :=
    match l with
    | 46 :: l' => let '(m', k, l') := span_digits m 0 l' in
                  if (n + k =? 0)%nat then (m, O, l) else (m', k, l')
    | _ => (m, O, l)
    end in
  if (n + k =? 0)%nat then S754_zero false
  else of_decimal neg m (exponent 101 69 l - Z.of_nat k).

Definition lower (b : byte) : byte := if (65 <=? b) && (b <=? 90) then b + 32 else b.

Definition hex_val (b : byte) : option Z :=
  if is_digit b then Some (b - 48)
  else if (97 <=? lower b) && (lower b <=? 102) then Some (lower b - 87)
  else None.

Fixpoint span_hex (acc : Z) (n : nat) (l : list byte) : Z * nat * list byte :=
  match l with
  | b :: k => match hex_val b with Some d => span_hex (acc * 16 + d) (S n) k | None => (acc, n, l) end
  | [] => (acc, n, l)
  end.

(** What follows [0x]; without a digit the literal is the leading 0. *)
Definition read_hex (neg : bool) (l : list byte) : spec_float :=
  let '(m, n, l) := span_hex 0 0 l in
  let '(m, k, l) :=
    match l with
    | 46 :: l' => let '(m', k, l') := span_hex m 0 l' in
                  if (n + k =? 0)%nat then (m, O, l) else (m', k, l')
    | _ => (m, O, l)
    end in
  match m with
  | Zpos p => binary_round 53 1024 neg p (exponent 112 80 l - 4 * Z.of_nat k)
  | _ => S754_zero neg
  end.

(** [atof]. *)
Definition atof (l : list byte) : spec_float :=
  let number neg l :=
    if has_prefix (str "inf") (lower <$> l) then S754_infinity neg
    else if has_prefix (str "nan") (lower <$> l) then S754_nan
    else if has_prefix (str "0x") (lower <$> l) then read_hex neg (drop 2 l)
    else read_decimal neg l in
  match skip_spaces l with
  | 45 :: l => number true l
  | 43 :: l => number false l
  | l => number false l
  end.

(** *** Checks *)

Example atof_45 : to_float (atof (str " 45.0")) = float_of_int 45.
Proof. vm_compute. reflexivity. Qed.

Example atof_below : float_lt (to_float (atof (str "44.9"))) (float_of_int 45) = true.
Proof. vm_compute. reflexivity. Qed.

(** Rounding to [float] can lift a level to the limit. *)
Example atof_rounds_up : float_lt (to_float (atof (str "44.9999999"))) (float_of_int 45) = false.
Proof. vm_compute. reflexivity. Qed.

(** Text after the number does not change its value. *)
Lemma span_digits_stop acc n l b r :
  Forall (fun c => is_digit c = true) l -> is_digit b = false ->
  exists v, span_digits acc n (l ++ b :: r) = (v, (n + length l)%nat, b :: r) /\
    span_digits acc n l = (v, (n + length l)%nat, []).
Proof.
  intros Hl Hb. revert acc n. induction Hl as [|c l Hc _ IH]; intros acc n; cbn [app span_digits].
  - rewrite Hb. exists acc. by rewrite Nat.add_0_r.
  - rewrite Hc. destruct (IH (acc * 10 + (c - 48)) (S n)) as (v & H1 & H2). exists v.
    rewrite H1, H2. simpl. by rewrite Nat.add_succ_r.
Qed.

End Atof.
