(* ===== verification/ModemAT.v ===== *)
(** * ModemAT: the satellite terminal and its AT commands

    The class [Modem] (device-agent/src/Modem.h, Modem.cpp): powering the link to
    the satellite network on and off by AT commands over the TCP connection
    [UT_ATPort].  Its fields are the record [Modem] of [Agent].  The methods read
    the configuration file anew on every call; [below] is the memory [GetValue] may
    look at (see [Config]). *)

From Stdlib Require Import Floats.SpecFloat Strings.String.
From S2P Require Import Prelude CRC16 Packet PacketQueue Sys Effects Agent Channel Receive Traffic Text Config Atof.
Import Sys Effects Agent Channel Traffic Text Config Atof.

Module ModemAT.

(** [CONF_FILENAME]. *)
Definition conf_name : cstring := str "./agent.conf".

(** Carriage return and line feed, the end of an AT command. *)
Definition CRLF : list byte := [13; 10].

(** What [GetSignalLevel] takes from the cache: the text it converts and the cache
    left.  [substr(pos + 6, end)] takes [end] characters, not the characters up to
    [end]; [npos] means up to the end. *)
Definition find_from (p s : list byte) (from : nat) : option nat :=
  (fun k => (from + k)%nat) <$> find_sub p (drop from s).

Definition signal_text (cache : list byte) : option (list byte * list byte) :=
  pos ← find_sub (str "_ISIG:") cache;
  Some (match find_from [NL] cache (pos + 6) with
        | Some e => (take e (drop (pos + 6) cache), drop e cache)
        | None => (drop (pos + 6) cache, [])
        end).

Section Methods.
Context {W : Type} {E : Env Agent W} (below : list byte) (fuel : nat).

Abbreviation MA := (M Agent W).
Abbreviation AT := UT_ATPort.

Definition mget {A} (f : Agent.Modem -> A) : MA A := gets (fun a => f (modem a)).
Definition mset (f : Agent.Modem -> Agent.Modem) : MA unit := modify (upd_modem f).

(** [Config config(CONF_FILENAME); config.GetX()]. *)
Definition conf {A} (f : list byte -> option (list byte) -> option A) : MA A :=
  file <- sys (sys_read_file conf_name);
  lift (f below file).

(** One turn of the loop of [WaitATResponse].  The trace call prints the 256-byte
    buffer as a C string; when 255 or 256 bytes arrive it is not terminated, and
    unless a NUL is among them the read runs past it. *)
Definition traced (buf : list byte) : option unit :=
  if (255 <=? Z.of_nat (length buf)) && negb (existsb (Z.eqb 0) buf) then None else Some tt.

Definition wait_step (szWait : list byte) (timeout : Z) (start : timeval) (_ : unit) : MA (unit + Z) :=
  buf <- tcp_Read AT 256;
  lift (traced buf);;
  mset (fun m => set_modem_strCache (modem_strCache m ++ buf) m);;
  cache <- mget modem_strCache;
  if contains szWait cache then mret (inr 1)
  else if contains (str "ERROR:") cache then mret (inr 0)
  else
    now <- sys sys_gettimeofday;
    mret (if timeout <? tv_sec (timersub now start) then inr 0 else inl tt).

(** [Modem::WaitATResponse]; the product is an [int]. *)
Definition WaitATResponse (szWait : list byte) (timeout : Z) (bClear : bool) : MA Z :=
  (if bClear then mset (set_modem_strCache []) else mret tt);;
  us <- lift (if (timeout * 1000000 <? 2 ^ 31) && (- 2 ^ 31 <=? timeout * 1000000)
              then Some (timeout * 1000000) else None);
  tcp_SetTimeOut AT us;;
  start <- sys sys_gettimeofday;
  loop fuel (wait_step szWait timeout start) tt.

Definition at_write (cmd : list byte) : MA unit := tcp_Write AT cmd;; mret tt.

(** [do { Write(cmd); if (WaitATResponse(...)) return 1; } while (--retry); return 0;],
    [retry] turns left. *)
Fixpoint command (cmd szWait : list byte) (timeout : Z) (bClear : bool) (retry : nat) : MA Z :=
  match retry with
  | O => mret 0
  | S retry =>
      at_write cmd;;
      r <- WaitATResponse szWait timeout bClear;
      if r =? 0 then command cmd szWait timeout bClear retry else mret 1
  end.

Definition OK : list byte := str "OK".

(** [Modem::UT_Reset]. *)
Definition UT_Reset : MA unit :=
  at_write (str "AT+CFUN=1,1" ++ CRLF);;
  WaitATResponse OK 5 true;;
  mret tt.

(** [Modem::LogonIP]: the command is cut to 255 bytes by [snprintf]. *)
Definition logon_text (apn ip user password : list byte) : list byte :=
  let q s := [34] ++ s ++ [34] in
  take 255 (str "AT+CGDCONT=10," ++ q (str "IP") ++ str "," ++ q apn ++ str "," ++ q ip ++
    str ",0,0," ++ q user ++ str "," ++ q password ++ CRLF).

Definition LogonIP : MA Z :=
  sys (sys_sleep 1);;
  apn <- conf GetAPN; ip <- conf GetIP; user <- conf GetUserName; password <- conf GetPassword;
  command (logon_text apn ip user password) OK 5 true 3.

(** [Modem::CheckContext]: the answer decides at once, the command is repeated only
    when none comes. *)
Fixpoint check_context (retry : nat) : MA Z :=
  match retry with
  | O => mret 0
  | S retry =>
      at_write (str "AT+CGDCONT?" ++ CRLF);;
      mset (set_modem_strCache []);;
      r <- WaitATResponse OK 5 true;
      if r =? 0 then check_context retry
      else
        user <- conf GetUserName;
        cache <- mget modem_strCache;
        if contains user cache then
          ip <- conf GetIP;
          cache <- mget modem_strCache;
          mret (if contains ip cache then 1 else 0)
        else mret 0
  end.
Definition CheckContext : MA Z := sys (sys_sleep 1);; check_context 3.

(** [Modem::ConnectIP]. *)
Definition connect_command : list byte := str "AT_IAPPPCONNECT=1,10" ++ CRLF.

Fixpoint connect_ip (retry : nat) : MA Z :=
  match retry with
  | O => mret 0
  | S retry =>
      at_write connect_command;;
      delay <- conf GetModemDelay;
      r <- WaitATResponse OK delay true;
      if negb (r =? 0) then mret 1
      else
        cache <- mget modem_strCache;
        if contains (str "ERROR:") cache then mret 0 else connect_ip retry
  end.
Definition ConnectIP : MA Z := mset (set_modem_strCache []);; connect_ip 3.

(** [Modem::UT_PowerOn]: 14 bytes are written, the terminating NUL included. *)
Definition UT_PowerOn : MA Z :=
  waitTime <- conf GetModemDelay;
  command (str "AT_IPOINT=1" ++ CRLF ++ [0]) OK waitTime true 3.

(** [Modem::AttachNet]. *)
Fixpoint attach_net (retry : nat) : MA Z :=
  match retry with
  | O => mret 0
  | S retry =>
      at_write (str "AT+CGATT?" ++ CRLF);;
      r <- WaitATResponse OK 5 true;
      cache <- mget modem_strCache;
      if negb (r =? 0) && contains (str "+CGATT: 1,3") cache then mret 1
      else sys (sys_sleep 20);; attach_net retry
  end.
Definition AttachNet : MA Z := attach_net 3.

(** [Modem::OpenSignalLevel] and [Modem::CloseSignalLevel]. *)
Definition OpenSignalLevel : MA Z := command (str "AT_ISIG=1" ++ CRLF) OK 5 true 3.
Definition CloseSignalLevel : MA Z := command (str "AT_ISIG=0" ++ CRLF) OK 5 true 3.

(** [Modem::GetSignalLevel]. *)
Definition GetSignalLevel : MA spec_float :=
  r <- WaitATResponse (str "_ISIG:") 10 false;
  if r =? 0 then mret (S754_zero false)
  else
    r <- WaitATResponse [NL] 1 false;
    if r =? 0 then mret (S754_zero false)
    else
      cache <- mget modem_strCache;
      r <- lift (signal_text cache);
      mset (set_modem_strCache (snd r));;
      mret (to_float (atof (cstr (fst r)))).

(** One turn of the loop of [CheckSignalLevel]. *)
Definition signal_step (minSIG : spec_float) (maxCheckTime : Z) (start : timeval) (_ : unit)
    : MA (unit + Z) :=
  level <- GetSignalLevel;
  if negb (float_lt level minSIG) then mret (inr 1)
  else
    mset (set_modem_strCache []);;
    now <- sys sys_gettimeofday;
    mret (if tv_sec (timersub now start) <? maxCheckTime then inl tt else inr 0).

(** [Modem::CheckSignalLevel]. *)
Definition CheckSignalLevel : MA Z :=
  minSIG <- conf GetMinSignalLevel;
  maxCheckTime <- conf GetModemDelay;
  opened <- OpenSignalLevel;
  if opened =? 0 then mret 0
  else
    start <- sys sys_gettimeofday;
    ret <- loop fuel (signal_step (float_of_int minSIG) maxCheckTime start) tt;
    closed <- CloseSignalLevel;
    mret (if closed =? 0 then 0 else ret).

(** ** Power *)

(** [Modem::IsPowerOff] is [Protocol.IsPowerOff].  The first loop of [PowerOn]: [true]
    when the AT port is open. *)
Fixpoint open_at (retry : nat) : MA bool :=
  match retry with
  | O => mret false
  | S retry =>
      r <- @Open _ (ops (Tcp AT));
      if r =? 0 then mret true
      else sys (sys_sleep 2);; open_at retry
  end.

(** The routine for a modem that is not open yet: [inl] when it breaks out to the
    error exit, [inr] the new [bOpenContext]. *)
Definition build_context (first open_context : bool) : MA (unit + bool) :=
  (if first then at_write (str "ATE0" ++ CRLF);; WaitATResponse OK 5 true;; mret tt else mret tt);;
  sig <- CheckSignalLevel;
  if sig =? 0 then mret (inl tt)
  else
    r <- (if first then
            c <- CheckContext;
            if c =? 0 then
              sig <- CheckSignalLevel;
              mret (if sig =? 0 then inl tt else inr open_context)
            else mret (inr false)
          else mret (inr open_context));
    match r with
    | inl _ => mret (inl tt)
    | inr open_context =>
        ok <- (if open_context then
                 r <- UT_PowerOn;
                 if r =? 0 then mret false
                 else
                   r <- AttachNet;
                   if r =? 0 then mret false
                   else
                     r <- LogonIP;
                     if r =? 0 then mret false
                     else r <- CheckContext; mret (negb (r =? 0))
               else mret true);
        if negb ok then mret (inl tt)
        else
          sig <- CheckSignalLevel;
          mret (if sig =? 0 then inl tt else inr open_context)
    end.

(** One turn of the main loop of [PowerOn] on [bModemOnFirstTime] and [bOpenContext]:
    [inr true] when it returns with the link up, [inr false] at the error exit. *)
Definition power_step (x : bool * bool) : MA ((bool * bool) + bool) :=
  let '(first, open_context) := x in
  isopen <- mget bModemOpen;
  r <- (if negb isopen then
          r <- build_context first open_context;
          mret (match r with inl _ => Some (inr false) | inr oc => None end)
        else
          c <- CheckContext;
          if c =? 0 then
            mset (set_bModemOpen false);;
            mret (Some (inl (false, open_context)))
          else mret None);
  match r with
  | Some r => mret r
  | None =>
      sys (sys_sleep 5);;
      c <- ConnectIP;
      if c =? 0 then mret (inr false)
      else
        mset (set_bModemOpen true);;
        tcp_Close AT;;
        mset (set_bPowerOff false);;
        mret (inr true)
  end.

(** [Modem::PowerOn]: the loop is repeated only after it has cleared [bModemOpen], so
    it makes at most two turns. *)
Definition PowerOn : MA unit :=
  mset (set_bPowerOff true);;
  try_catch
    (opened <- open_at 3;
     if negb opened then mret tt
     else
       sys (sys_sleep 5);;
       up <- loop 2 power_step (true, true);
       if up : bool then mret tt
       else
         UT_Reset;;
         tcp_Close AT;;
         mset (set_bModemOpen false))
    (fun _ =>
       mset (set_bModemOpen false);;
       tcp_Close AT).

(** The inner loop of [PowerOff], [retry] turns left: the exception, if one ended it,
    and [retry] then. *)
Fixpoint disconnect (retry : nat) : MA (option ChannelException * nat) :=
  match retry with
  | O => mret (None, O)
  | S left_ =>
      r <- attempt (at_write (str "AT_IAPPPCONNECT=0" ++ CRLF ++ [0]);; WaitATResponse OK 5 true);
      match r with
      | inl e => mret (Some e, retry)
      | inr v => if v =? 0 then disconnect left_ else mret (None, retry)
      end
  end.

(** [Modem::PowerOff]: inner and outer loop count the same [retry]. *)
Definition off_step (retry : nat) : MA (nat + unit) :=
  r <- attempt (@Open _ (ops (Tcp AT)));
  r <- match r with inl e => mret (Some e, retry) | inr _ => disconnect retry end;
  mret (match r with
        | (None, _) => inr tt
        | (Some _, S (S k)) => inl (S k)
        | (Some _, _) => inr tt
        end).

Definition PowerOff : MA unit :=
  mset (set_bPowerOff true);;
  loop 5 off_step 5%nat;;
  tcp_Close AT.
End Methods.

(** ** What the AT routines keep *)

Section Frame.
Context {W : Type} {E : Env Agent W} (below : list byte) (fuel : nat).
Context (R : st Agent W -> st Agent W -> Prop) {HR : PreOrder R}.
Hypothesis Hsys : forall T (c : syscall T), keeps R (sys c).
Hypothesis Hread : forall n, keeps R (tcp_Read UT_ATPort n).
Hypothesis Hwrite : forall b, keeps R (tcp_Write UT_ATPort b).
Hypothesis Htime : forall n, keeps R (tcp_SetTimeOut UT_ATPort n).
Hypothesis Hcache : forall g : Agent.Modem -> list byte, keeps R (mset (W := W) (fun m => set_modem_strCache (g m) m)).

Lemma mset_cache c : keeps R (mset (W := W) (set_modem_strCache c)).
Proof. apply (Hcache (fun _ => c)). Qed.
Lemma mget_frame {A} (f : Agent.Modem -> A) : keeps R (mget (W := W) f).
Proof. apply keeps_gets, _. Qed.
#[local] Hint Resolve Hsys Hread Hwrite Htime Hcache mset_cache mget_frame : effects.

Lemma conf_frame {A} (f : list byte -> option (list byte) -> option A) : keeps R (conf (W := W) below f).
Proof. unfold conf. effects. Qed.
Lemma at_write_frame c : keeps R (at_write (W := W) c).
Proof. unfold at_write. effects. Qed.
Lemma WaitATResponse_frame w n b : keeps R (WaitATResponse (W := W) fuel w n b).
Proof. unfold WaitATResponse, wait_step. effects. Qed.
#[local] Hint Resolve @conf_frame at_write_frame WaitATResponse_frame : effects.

Lemma command_frame c w n b k : keeps R (command (W := W) fuel c w n b k).
Proof. induction k; simpl; effects. Qed.
Lemma check_context_frame k : keeps R (check_context (W := W) below fuel k).
Proof. induction k; simpl; effects. Qed.
Lemma connect_ip_frame k : keeps R (connect_ip (W := W) below fuel k).
Proof. induction k; simpl; effects. Qed.
Lemma attach_net_frame k : keeps R (attach_net (W := W) fuel k).
Proof. induction k; simpl; effects. Qed.
#[local] Hint Resolve command_frame check_context_frame connect_ip_frame attach_net_frame : effects.

Lemma CheckContext_frame : keeps R (CheckContext (W := W) below fuel).
Proof. unfold CheckContext. effects. Qed.
Lemma ConnectIP_frame : keeps R (ConnectIP (W := W) below fuel).
Proof. unfold ConnectIP. effects. Qed.
Lemma GetSignalLevel_frame : keeps R (GetSignalLevel (W := W) fuel).
Proof. unfold GetSignalLevel. effects. Qed.
#[local] Hint Resolve CheckContext_frame ConnectIP_frame GetSignalLevel_frame : effects.
Lemma CheckSignalLevel_frame : keeps R (CheckSignalLevel (W := W) below fuel).
Proof. unfold CheckSignalLevel, OpenSignalLevel, CloseSignalLevel, signal_step. effects. Qed.
#[local] Hint Resolve CheckSignalLevel_frame : effects.
Lemma build_context_frame a b : keeps R (build_context (W := W) below fuel a b).
Proof. unfold build_context, UT_PowerOn, AttachNet, LogonIP. effects. Qed.
Lemma UT_Reset_frame : keeps R (UT_Reset (W := W) fuel).
Proof. unfold UT_Reset. effects. Qed.
Lemma disconnect_frame k : keeps R (disconnect (W := W) fuel k).
Proof. induction k; simpl; effects. Qed.
End Frame.

(** ** Powering the link on and off *)

Section Power.
Context {W : Type} {E : Env Agent W} `{!Returns E} (below : list byte) (fuel : nat).

Abbreviation port s := (get_tcp UT_ATPort (agent s)).

(** The state of the link as the agent sees it. *)
Definition flags (a : Agent) : bool * bool := (bPowerOff (modem a), bModemOpen (modem a)).

(** Only the control thread drives the modem. *)
Hypothesis Hmodem : untouched E modem.
Hypothesis Hsock : socket_fresh E.
Hypothesis Hrb : recv_bounded E.

Lemma Hq : quiet E UT_ATPort.
Proof. intros T c a w r a' w' H. simpl. by rewrite (Hmodem _ _ _ _ _ _ _ H). Qed.
Lemma Hflags : untouched E flags.
Proof. intros T c a w r a' w' H. unfold flags. by rewrite (Hmodem _ _ _ _ _ _ _ H). Qed.
#[local] Hint Resolve Hq Hflags : core.

(** Talking to the modem changes neither flag and leaves the port in order. *)
Definition talks (s s' : st Agent W) : Prop := port_kept UT_ATPort s s' /\ stable flags s s'.

#[local] Instance talks_preorder : PreOrder talks.
Proof.
  split; [split; reflexivity|]. intros s1 s2 s3 [H1 H2] [H3 H4].
  split; [by etrans|by eapply stable_preorder].
Qed.

Lemma talks_intro {A} (m : M Agent W A) :
  keeps (port_kept UT_ATPort) m -> keeps (stable flags) m -> keeps talks m.
Proof. intros H1 H2 s. by split. Qed.

Lemma sys_stable T (c : syscall T) : keeps (stable flags) (sys (W := W) c).
Proof. by apply keeps_stable_sys. Qed.
Lemma tcp_set_stable t f : keeps (stable flags) (tcp_set (W := W) t f).
Proof. apply keeps_stable_modify. by destruct t. Qed.
Lemma ser_set_stable f : keeps (stable flags) (ser_set (W := W) f).
Proof. by apply keeps_stable_modify. Qed.
#[local] Hint Resolve sys_stable tcp_set_stable ser_set_stable : core.

Lemma sys_talks T (c : syscall T) : keeps talks (sys c).
Proof. apply talks_intro; [by apply sys_port|done]. Qed.
Lemma Read_talks n : keeps talks (tcp_Read UT_ATPort n).
Proof. apply talks_intro; [by apply tcp_Read_port|by apply (Read_frame _ (ok := any_port) sys_stable (fun t f _ => tcp_set_stable t f) ser_set_stable (Tcp UT_ATPort))]. Qed.
Lemma Write_talks b : keeps talks (tcp_Write UT_ATPort b).
Proof. apply talks_intro; [by apply tcp_Write_port|by apply (Write_frame _ (ok := any_port) sys_stable (fun t f _ => tcp_set_stable t f) ser_set_stable (Tcp UT_ATPort))]. Qed.
Lemma SetTimeOut_talks n : keeps talks (tcp_SetTimeOut UT_ATPort n).
Proof. apply talks_intro; [by apply tcp_SetTimeOut_port|by apply (SetTimeOut_frame _ (ok := any_port) sys_stable (fun t f _ => tcp_set_stable t f) ser_set_stable (Tcp UT_ATPort))]. Qed.
Lemma cache_talks g : keeps talks (mset (W := W) (fun m => set_modem_strCache (g m) m)).
Proof. intros s. split; [by intros Hok|done]. Qed.
Lemma Open_talks : keeps talks (@Open W (ops (Tcp UT_ATPort))).
Proof.
  apply talks_intro; [|by apply (Open_frame _ (ok := any_port) sys_stable (fun t f _ => tcp_set_stable t f) ser_set_stable (Tcp UT_ATPort))].
  simpl. unfold tcp_get. effects. by apply tcp_Open_at_port.
Qed.
#[local] Hint Resolve sys_talks Read_talks Write_talks SetTimeOut_talks cache_talks Open_talks : core.

(** A conversation inside [PowerOn]. *)
Lemma wp_talks {A} (m : M Agent W A) Q s off isopen :
  keeps talks m -> port_ok (port s) -> flags (agent s) = (off, isopen) ->
  (forall o s', port_ok (port s') -> flags (agent s') = (off, isopen) -> Q o s') -> wp m Q s.
Proof.
  intros Hk Hok Hf HQ. apply (wp_keeps talks); [done|]. intros o s' [Hp Hs].
  apply HQ; [by apply Hp|]. by rewrite Hs.
Qed.

(** *** What is said to the modem and heard from it *)

Inductive talk := Said (fd : Z) (buf : list byte) (n : Z) | Heard (fd : Z) (buf : list byte).

Definition heard (fd : Z) (buf : list byte) : list talk :=
  match buf with [] => [] | _ => [Heard fd buf] end.

Definition ev_talk (e : event) : list talk :=
  match e with
  | Ev c r =>
      match c in syscall T return T -> list talk with
      | sys_send fd buf => fun n => [Said fd buf n]
      | sys_recv fd _ => fun r => match r with IoData l => heard fd l | IoErr _ => [] end
      | _ => fun _ => []
      end r
  end.

Definition no_talk (T : Type) (c : syscall T) : bool :=
  match c with sys_send _ _ | sys_recv _ _ => false | _ => true end.

Lemma talk_calls {S} (s s' : st S W) : calls no_talk s s' -> collects ev_talk s s' [].
Proof. apply collects_calls. by intros ? []. Qed.

Lemma port_no_talk T (c : syscall T) : port_call c = true -> no_talk T c = true.
Proof. by destruct c. Qed.

(** The last thing said was the connect command, which was sent, and the answers heard
    on the same connection since then contain [OK]. *)
Definition answered_ok (l : list talk) : Prop :=
  exists before fd n answers, l = before ++ Said fd connect_command n :: (Heard fd <$> answers) /\
    0 <= n /\ contains OK (concat answers) = true.

Definition online (s : st Agent W) : Prop := answered_ok (collect ev_talk (trace s)).

Lemma online_quiet s s' : collects ev_talk s s' [] -> online s -> online s'.
Proof. unfold online. intros (evs & -> & He). by rewrite collect_app, He, app_nil_r. Qed.

Definition cache (a : Agent) : list byte := modem_strCache (modem a).

Lemma Hcache_other : untouched E cache.
Proof. intros T c a w r a' w' H. unfold cache. by rewrite (Hmodem _ _ _ _ _ _ _ H). Qed.

(** A step that says and hears nothing and leaves the cache alone. *)
Definition silent (s s' : st Agent W) : Prop := collects ev_talk s s' [] /\ cache (agent s') = cache (agent s).

Lemma wp_silent {A} (m : M Agent W A) Q Q' s :
  keeps (calls no_talk) m -> keeps (stable cache) m -> wp m Q s ->
  (forall o s', silent s s' -> Q o s' -> Q' o s') -> wp m Q' s.
Proof. intros H1 H2 HQ H. apply H; [split; [by apply talk_calls|apply H2]|apply HQ]. Qed.

Lemma tcp_set_cache t f : keeps (stable cache) (tcp_set (W := W) t f).
Proof. apply keeps_stable_modify. by destruct t. Qed.
#[local] Hint Resolve tcp_set_cache Hcache_other : core.
#[local] Hint Resolve tcp_set_cache : effects.
#[local] Hint Extern 1 (keeps (stable cache) (sys _)) => (apply keeps_stable_sys; exact Hcache_other) : effects.

Lemma tcp_touch_cache : keeps (stable cache) (tcp_touch UT_ATPort).
Proof. unfold tcp_touch. effects. Qed.
Lemma tcp_Close_cache : keeps (stable cache) (tcp_Close UT_ATPort).
Proof. unfold tcp_Close, tcp_touch, tcp_get. effects. Qed.
Lemma tcp_SetTimeOut_cache n : keeps (stable cache) (tcp_SetTimeOut UT_ATPort n).
Proof. unfold tcp_SetTimeOut, tcp_get. effects. Qed.

Lemma silent_trans s1 s2 s3 : silent s1 s2 -> silent s2 s3 -> silent s1 s3.
Proof. intros [H1 H2] [H3 H4]. split; [by eapply collects_nil_r|congruence]. Qed.

(** Reading on a live connection: what is heard is returned. *)
Lemma wp_read_talk fd (s : st Agent W) :
  conn (port s) = (fd, true) -> port_ok (port s) ->
  wp (tcp_Read UT_ATPort 256) (fun o s' =>
    match o with
    | Ok l => collects ev_talk s s' (heard fd l) /\ cache (agent s') = cache (agent s) /\ port_ok (port s') /\
        (conn (port s') = (fd, true) \/ bConnected (port s') = false)
    | _ => True
    end) s.
Proof.
  intros Hconn Hok. assert (Hfd : socketID (port s) = fd) by (by injection Hconn).
  assert (Hb : bConnected (port s) = true) by (by injection Hconn).
  unfold tcp_Read. apply wp_bind, wp_tcp_get. rewrite Hb. cbn [negb].
  apply wp_bind, wp_tcp_get, wp_bind, wp_sys. intros r a w He. rewrite Hfd in *.
  pose proof (Hq _ _ _ _ _ _ _ He) as Hp. pose proof (Hcache_other _ _ _ _ _ _ _ He) as Hc.
  pose proof (collects_one ev_talk s a w (Ev (sys_recv fd 256) r)) as Ht. cbn [ev_talk] in Ht.
  set (s1 := mkSt a w _) in *. change (port s1 = port s) in Hp.
  assert (Hok1 : port_ok (port s1)) by (by rewrite Hp).
  assert (Hc1 : conn (port s1) = (fd, true)) by (by rewrite Hp). destruct r as [l|e].
  - apply wp_bind, (wp_silent _ (fun o s' => o = Ok tt /\ port_ok (port s') /\ (conn (port s') = (fd, true) \/ bConnected (port s') = false))).
    { effects. apply tcp_Close_calls, port_no_talk. }
    { effects. apply tcp_Close_cache. }
    { case_bool; [|apply wp_mret; auto]. apply (wp_tcp_Close_ok UT_ATPort Hq); [done|].
      intros s' [= Hi' Hb']. split_and!; [done| |by right]. apply port_ok_disconnected; auto. }
    intros o s2 H2 (-> & Hok2 & Hc2).
    apply wp_bind, (wp_silent _ (fun o s' => o = Ok tt /\ conn (port s') = conn (port s2)));
      [apply tcp_touch_calls, port_no_talk|apply tcp_touch_cache|by apply (wp_tcp_touch UT_ATPort Hq)|].
    intros o s3 H3 (-> & Hc3). destruct (silent_trans _ _ _ H2 H3) as [H4 H5]. apply wp_mret.
    split_and!; [by eapply collects_nil_r|by rewrite H5|by eapply port_ok_conn|].
    destruct Hc2 as [Hc2|Hb2]; [left; congruence|right]. unfold conn in Hc3. congruence.
  - case_bool; [|done]. apply wp_mret. split_and!; [exact Ht|done|done|by left].
Qed.

(** The loop of [WaitATResponse]: the cache is what was heard since the start [s0]. *)
Definition hearing (fd : Z) (s0 s : st Agent W) (answers : list (list byte)) : Prop :=
  collects ev_talk s0 s (Heard fd <$> answers) /\ cache (agent s) = concat answers /\ port_ok (port s) /\
  (conn (port s) = (fd, true) \/ bConnected (port s) = false).

Lemma wait_loop_heard fd szWait timeout start k s0 answers (s : st Agent W) :
  hearing fd s0 s answers ->
  wp (loop k (wait_step szWait timeout start) tt) (fun o s' =>
    match o with
    | Ok r => r = 0 \/ r = 1 /\ exists answers', collects ev_talk s0 s' (Heard fd <$> answers') /\
        contains szWait (concat answers') = true /\ cache (agent s') = concat answers'
    | _ => True
    end) s.
Proof.
  revert answers s. induction k as [|k IH]; intros answers s (Ht & Hc & Hok & Hconn); [done|]. cbn [loop].
  apply wp_bind. unfold wait_step. apply wp_bind. destruct Hconn as [Hconn|Hb].
  2: { unfold tcp_Read. apply wp_bind, wp_tcp_get. by rewrite Hb. }
  eapply wp_mono; [|by eapply wp_read_talk]. intros [buf|e| |] s1 H1; try done.
  destruct H1 as (Ht1 & Hc1 & Hok1 & Hconn1).
  apply wp_bind, wp_lift. destruct (traced buf) as [[]|]; [|done]. apply wp_bind, wp_modify.
  set (answers1 := answers ++ match buf with [] => [] | _ => [buf] end). set (s2 := mkSt _ _ _).
  assert (Ht2 : collects ev_talk s0 s2 (Heard fd <$> answers1)).
  { unfold answers1. rewrite fmap_app. destruct (collects_trans _ _ _ _ _ _ Ht Ht1) as (evs & He & Hl).
    exists evs. split; [done|]. rewrite Hl. by destruct buf. }
  assert (Hc2 : cache (agent s2) = concat answers1).
  { unfold answers1. rewrite concat_app. unfold cache in *. simpl. rewrite Hc1, Hc.
    destruct buf; simpl; by rewrite ?app_nil_r. }
  apply wp_bind, wp_gets. change (modem_strCache (modem (agent s2))) with (cache (agent s2)).
  destruct (contains szWait _) eqn:Hw; [right; split; [done|]; exists answers1; by rewrite <- Hc2|].
  case_bool; [by left|]. apply wp_bind, (wp_sys_tcp UT_ATPort Hq). intros now s3 Hp3 Ht3 [w' He].
  apply wp_mret. case_bool; [by left|]. apply (IH answers1). split_and!.
  - destruct Ht2 as (evs & Hevs & Hl). exists (evs ++ [Ev sys_gettimeofday now]).
    rewrite Ht3, Hevs, app_assoc. split; [done|]. by rewrite collect_app, Hl, app_nil_r.
  - by rewrite (Hcache_other _ _ _ _ _ _ _ He).
  - by rewrite Hp3.
  - by rewrite Hp3.
Qed.

Lemma WaitATResponse_heard fd szWait timeout (s : st Agent W) :
  conn (port s) = (fd, true) -> port_ok (port s) ->
  wp (WaitATResponse fuel szWait timeout true) (fun o s' =>
    match o with
    | Ok r => r = 0 \/ r = 1 /\ exists answers, collects ev_talk s s' (Heard fd <$> answers) /\
        contains szWait (concat answers) = true /\ cache (agent s') = concat answers
    | _ => True
    end) s.
Proof.
  intros Hconn Hok. unfold WaitATResponse. apply wp_bind, wp_modify. set (s1 := mkSt _ _ _).
  assert (H1 : conn (port s1) = (fd, true) /\ port_ok (port s1)) by done. destruct H1 as [Hc1 Hok1].
  assert (Ht1 : collects ev_talk s s1 []) by (exists []; by rewrite app_nil_r).
  assert (Hcache1 : cache (agent s1) = []) by done. clearbody s1.
  apply wp_bind, wp_lift. case_bool; [|done].
  apply wp_bind, (wp_silent _ (fun o s' => o = Ok tt /\ conn (port s') = conn (port s1)));
    [apply tcp_SetTimeOut_calls, port_no_talk|apply tcp_SetTimeOut_cache|by apply (wp_tcp_SetTimeOut UT_ATPort Hq)|].
  intros o s2 [Ht2 Hca2] [-> Hc2]. apply wp_bind, (wp_sys_tcp UT_ATPort Hq). intros start s3 Hp3 Ht3 [w' He].
  apply (wait_loop_heard fd szWait timeout start fuel s []). split_and!.
  - destruct (collects_nil_l _ _ _ _ _ Ht1 Ht2) as (evs & Hevs & Hl). exists (evs ++ [Ev sys_gettimeofday start]).
    rewrite Ht3, Hevs, app_assoc. split; [done|]. by rewrite collect_app, Hl.
  - by rewrite (Hcache_other _ _ _ _ _ _ _ He), Hca2.
  - rewrite Hp3. eapply port_ok_conn; [exact Hc2|done].
  - left. by rewrite Hp3, Hc2.
Qed.

(** Writing on a live connection; otherwise it throws. *)
Lemma wp_write_talk buf (s : st Agent W) :
  port_ok (port s) ->
  wp (at_write buf) (fun o s' =>
    match o with
    | Ok _ => exists fd n, 0 <= n /\ collects ev_talk s s' [Said fd buf n] /\ conn (port s') = (fd, true) /\ port_ok (port s')
    | _ => True
    end) s.
Proof.
  intros Hok. unfold at_write, tcp_Write. apply wp_bind, wp_bind, wp_tcp_get.
  destruct (bConnected (port s)) eqn:Hb; cbn [negb]; [|done].
  assert (Htouch : forall s1, wp (tcp_touch UT_ATPort) (fun o s' => o = Ok tt /\ collects ev_talk s1 s' [] /\ conn (port s') = conn (port s1)) s1).
  { intros s1. apply (wp_silent _ (fun o s' => o = Ok tt /\ conn (port s') = conn (port s1)));
      [apply tcp_touch_calls, port_no_talk|apply tcp_touch_cache|by apply (wp_tcp_touch UT_ATPort Hq)|].
    intros o s' [H _] [-> Hc]. done. }
  apply wp_bind. eapply wp_mono; [|apply Htouch]. intros o s1 (-> & Ht1 & Hc1).
  apply wp_bind, wp_tcp_get, wp_bind, wp_sys. intros n a w He. pose proof (Hq _ _ _ _ _ _ _ He) as Hp.
  pose proof (collects_one ev_talk s1 a w (Ev (sys_send (socketID (port s1)) buf) n)) as Ht2. cbn [ev_talk] in Ht2.
  set (s2 := mkSt a w _) in *. change (port s2 = port s1) in Hp. case_bool; [done|]. to_prop.
  apply wp_bind. eapply wp_mono; [|apply Htouch]. intros o s3 (-> & Ht3 & Hc3). apply wp_mret, wp_mret.
  exists (socketID (port s1)), n. rewrite Hp in Hc3. split_and!; [done| | |].
  - eapply collects_nil_r; [by eapply collects_nil_l|done].
  - rewrite Hc3. unfold conn in *. congruence.
  - eapply port_ok_conn; [exact Hc3|]. by eapply port_ok_conn.
Qed.

(** When [ConnectIP] succeeds, the connect command was sent last and answered. *)
Lemma ConnectIP_found (s : st Agent W) :
  port_ok (port s) ->
  wp (ConnectIP below fuel) (fun o s' =>
    match o with
    | Ok r => r = 0 \/ online s' /\ contains OK (cache (agent s')) = true
    | _ => True
    end) s.
Proof.
  intros Hok. unfold ConnectIP. apply wp_bind, wp_modify. generalize 3%nat. intros k.
  set (s0 := mkSt _ _ _). assert (Hok0 : port_ok (port s0)) by done. clearbody s0. clear s Hok. revert s0 Hok0.
  induction k as [|k IH]; intros s Hok; cbn [connect_ip]; [by left|].
  apply wp_bind. eapply wp_mono; [|by apply wp_write_talk]. intros [[]|e| |] s1 H1; try done.
  destruct H1 as (fd & n & Hn & Ht1 & Hc1 & Hok1).
  apply wp_bind. unfold conf. apply wp_bind, (wp_sys_tcp UT_ATPort Hq). intros file s2 Hp2 Ht2 _.
  assert (H2 : collects ev_talk s s2 [Said fd connect_command n]).
  { eapply collects_nil_r; [exact Ht1|]. by exists [Ev (sys_read_file conf_name) file]. }
  apply wp_lift. destruct (GetModemDelay _ _) as [delay|]; [|done]. cbn iota.
  apply wp_bind. apply (wp_and_keeps talks _ (fun o s' =>
    match o with
    | Ok r => r = 0 \/ r = 1 /\ exists answers, collects ev_talk s2 s' (Heard fd <$> answers) /\
        contains OK (concat answers) = true /\ cache (agent s') = concat answers
    | _ => True
    end)).
  { apply WaitATResponse_frame; auto with typeclass_instances. }
  { apply WaitATResponse_heard; by rewrite Hp2. }
  intros [r|e| |] s3 [Hp3 _] H3; try done. assert (Hok3 : port_ok (port s3)) by (apply Hp3; by rewrite Hp2).
  destruct H3 as [->|(-> & answers & Ht3 & Hw & Hcache)]; simpl.
  - apply wp_bind, wp_gets. case_bool; [by left|by apply IH].
  - apply wp_mret. right. split; [|by rewrite Hcache]. destruct (collects_trans _ _ _ _ _ _ H2 Ht3) as (evs & Hevs & Hl).
    exists (collect ev_talk (trace s)), fd, n, answers. by rewrite Hevs, collect_app, Hl.
Qed.

(** How a turn of [PowerOn] ends. *)
Definition power_post (isopen : bool) (o : outcome ((bool * bool) + bool)) (s' : st Agent W) : Prop :=
  match o with
  | Ok (inl _) => isopen = true /\ port_ok (port s') /\ flags (agent s') = (true, false)
  | Ok (inr true) => conn (port s') = (-1, false) /\ flags (agent s') = (false, true) /\
      online s' /\ contains OK (cache (agent s')) = true
  | Ok (inr false) | Throw _ => port_ok (port s') /\ bPowerOff (modem (agent s')) = true
  | _ => True
  end.

Lemma flags_off a b : flags a = (true, b) -> bPowerOff (modem a) = true.
Proof. unfold flags. congruence. Qed.

(** Closing the AT port. *)
Lemma wp_close_at Q (s : st Agent W) :
  port_ok (port s) ->
  (forall s', conn (port s') = (-1, false) -> flags (agent s') = flags (agent s) ->
     silent s s' -> Q (Ok tt) s') ->
  wp (tcp_Close UT_ATPort) Q s.
Proof.
  intros Hok HQ. apply (wp_and_keeps (stable flags) _ (fun o s' => silent s s' /\ o = Ok tt /\ conn (port s') = (-1, false))).
  - apply (tcp_Close_frame (stable flags) (ok := any_port)); auto.
  - apply (wp_silent _ (fun o s' => o = Ok tt /\ conn (port s') = (-1, false)));
      [apply tcp_Close_calls, port_no_talk|apply tcp_Close_cache|by apply (wp_tcp_Close_ok UT_ATPort Hq)|auto].
  - intros o s' Hs (Hsil & -> & Hc). by apply HQ.
Qed.

Lemma power_step_spec x isopen (s : st Agent W) :
  port_ok (port s) -> flags (agent s) = (true, isopen) ->
  wp (power_step below fuel x) (power_post isopen) s.
Proof.
  intros Hok Hf. destruct x as [first oc]. unfold power_step.
  apply wp_bind, wp_gets. replace (bModemOpen (modem (agent s))) with isopen by (unfold flags in Hf; congruence).
  assert (Hup : forall s1, port_ok (port s1) -> flags (agent s1) = (true, isopen) ->
    wp (sys (sys_sleep 5);; c <- ConnectIP below fuel;
        if c =? 0 then mret (inr false)
        else mset (set_bModemOpen true);; tcp_Close UT_ATPort;; mset (set_bPowerOff false);; mret (inr true))
      (power_post isopen) s1).
  { intros s1 Hok1 Hf1. apply wp_bind, (wp_talks _ _ _ true isopen); try done.
    intros [[]|e| |] s2 Hok2 Hf2; try done; [|split; [done|by eapply flags_off]].
    apply wp_bind. apply (wp_and_keeps talks _ (fun o s' => match o with
      | Ok r => r = 0 \/ online s' /\ contains OK (cache (agent s')) = true | _ => True end)).
    { by apply ConnectIP_frame; auto with typeclass_instances. }
    { by apply ConnectIP_found. }
    intros o s3 [Hp3 Hs3] Hc3. assert (Hok3 : port_ok (port s3)) by auto.
    assert (Hf3 : flags (agent s3) = (true, isopen)) by (by rewrite Hs3).
    destruct o as [r|e| |]; try done; [|split; [done|by eapply flags_off]].
    destruct (r =? 0) eqn:Hr; [split; [done|by eapply flags_off]|].
    destruct Hc3 as [->|[Hon3 Hc3]]; [done|].
    apply wp_bind, wp_modify, wp_bind, wp_close_at; [done|]. intros s4 Hc4 Hf4 [Ht4 Hcache4].
    apply wp_bind, wp_modify, wp_mret. split; [done|]. split_and!.
    - unfold flags in *. simpl in *. congruence.
    - eapply (online_quiet s4); [exists []; by rewrite app_nil_r|]. by eapply online_quiet.
    - unfold cache in *. simpl in *. by rewrite Hcache4. }
  destruct isopen; cbn [negb].
  - apply wp_bind, wp_bind, (wp_talks _ _ _ true true); try done.
    { by apply CheckContext_frame; auto with typeclass_instances. }
    intros [c|e| |] s1 Hok1 Hf1; try done; [|split; [done|by eapply flags_off]].
    case_bool; [|by apply wp_mret, Hup].
    apply wp_bind, wp_modify, wp_mret, wp_mret. split; [done|]. split; [done|].
    unfold flags in *. simpl. congruence.
  - apply wp_bind, wp_bind, (wp_talks _ _ _ true false); try done.
    { by apply build_context_frame; auto with typeclass_instances. }
    intros [[u|oc']|e| |] s1 Hok1 Hf1; try done.
    + apply wp_mret, wp_mret. split; [done|by eapply flags_off].
    + by apply wp_mret, Hup.
    + split; [done|by eapply flags_off].
Qed.

(** What the caller of [PowerOn] finds. *)
Definition power_done (o : outcome unit) (s' : st Agent W) : Prop :=
  match o with
  | Ok _ => port_ok (port s') /\
      (bPowerOff (modem (agent s')) = false ->
       bModemOpen (modem (agent s')) = true /\ conn (port s') = (-1, false) /\
       online s' /\ contains OK (cache (agent s')) = true)
  | Throw _ => False
  | Undef | NoFuel => True
  end.

Lemma power_done_off s : port_ok (port s) -> bPowerOff (modem (agent s)) = true -> power_done (Ok tt) s.
Proof. intros Hok Hoff. split; [done|]. by rewrite Hoff. Qed.

Lemma conn_closed_ok p : conn p = (-1, false) -> port_ok p.
Proof. intros [= Hi Hb]. apply port_ok_disconnected; auto. Qed.

(** Both ways of giving up. *)
Lemma wp_give_up (s : st Agent W) :
  port_ok (port s) -> bPowerOff (modem (agent s)) = true ->
  wp (mset (set_bModemOpen false);; tcp_Close UT_ATPort) power_done s /\
  wp (tcp_Close UT_ATPort;; mset (set_bModemOpen false)) power_done s.
Proof.
  intros Hok Hoff. split.
  - apply wp_bind, wp_modify, wp_close_at; [done|]. intros s' Hc Hf _.
    apply power_done_off; [by apply conn_closed_ok|]. unfold flags in Hf. simpl in Hf. congruence.
  - apply wp_bind, wp_close_at; [done|]. intros s' Hc Hf _. apply wp_modify.
    apply power_done_off; [by apply conn_closed_ok|]. unfold flags in Hf. simpl. congruence.
Qed.

Lemma power_loop_spec k x isopen (s : st Agent W) :
  port_ok (port s) -> flags (agent s) = (true, isopen) ->
  wp (loop k (power_step below fuel) x) (fun o s' =>
    match o with
    | Ok true => conn (port s') = (-1, false) /\ flags (agent s') = (false, true) /\
        online s' /\ contains OK (cache (agent s')) = true
    | Ok false | Throw _ => port_ok (port s') /\ bPowerOff (modem (agent s')) = true
    | _ => True
    end) s.
Proof.
  revert x isopen s. induction k as [|k IH]; intros x isopen s Hok Hf; [done|]. cbn [loop].
  apply wp_bind. eapply wp_mono; [|by apply power_step_spec].
  intros [[y|[|]]|e| |] s1 H1; try done. destruct H1 as (_ & Hok1 & Hf1). by eapply IH.
Qed.

Lemma open_at_talks k : keeps talks (open_at (W := W) k).
Proof. induction k; cbn [open_at]; effects; done. Qed.

(** C17. [PowerOn] never throws, and it reports the link up ([bPowerOff] false) only
    when the modem has answered the connect command: the last thing sent to it was that
    command, and what was received on the same connection since then contains [OK];
    then [bModemOpen] is set and the AT port has been closed.  It is assumed that the
    system calls return, that no other thread touches the modem or its port, that
    [socket] does not return descriptor 0, that [recv] delivers no more than it was
    asked for and that the port was consistent (C22). *)
Theorem power_on_outcome (s : st Agent W) :
  port_ok (port s) -> wp (PowerOn below fuel) power_done s.
Proof.
  intros Hok. unfold PowerOn. apply wp_bind, wp_modify, wp_try_catch.
  set (s0 := mkSt (upd_modem (set_bPowerOff true) (agent s)) (world s) (trace s)).
  set (isopen := bModemOpen (modem (agent s))).
  assert (Hcatch : forall s1, port_ok (port s1) -> flags (agent s1) = (true, isopen) -> 
    wp (mset (set_bModemOpen false);; tcp_Close UT_ATPort) power_done s1)
    by (intros; apply wp_give_up; [done|by eapply flags_off]).
  apply wp_bind, (wp_talks _ _ _ true isopen); [apply open_at_talks|done|done|].
  intros [[|]|e| |] s1 Hok1 Hf1; try done; try (by apply Hcatch); cbn [negb].
  2: { apply wp_mret. apply power_done_off; [done|by eapply flags_off]. }
  apply wp_bind, (wp_talks _ _ _ true isopen); [apply sys_talks|done|done|].
  intros [[]|e| |] s2 Hok2 Hf2; try done; try (by apply Hcatch).
  apply wp_bind. eapply wp_mono; [|by eapply power_loop_spec].
  intros [[|]|e| |] s3 H3; try done; [| |destruct H3; by apply wp_give_up].
  - apply wp_mret. destruct H3 as (Hc & Hf & Hk). split; [by apply conn_closed_ok|].
    unfold flags in Hf. injection Hf as Ho Hm. done.
  - destruct H3 as [Hok3 Hoff3]. apply wp_bind.
    apply (wp_and_keeps talks _ (fun _ _ => True)); [by apply UT_Reset_frame; auto with typeclass_instances|done|].
    intros o s4 [Hp4 Hs4] _. assert (Hok4 : port_ok (port s4)) by auto.
    assert (Hoff4 : bPowerOff (modem (agent s4)) = true) by (unfold stable, flags in Hs4; congruence).
    destruct o as [[]|e| |]; try done; [|by apply wp_give_up].
    eapply wp_mono; [|by apply wp_give_up]. intros [[]|e| |] s5 H5; done.
Qed.

(** *** Off *)

Lemma disconnect_talks k : keeps talks (disconnect (W := W) fuel k).
Proof. apply disconnect_frame; auto with typeclass_instances. Qed.

Lemma WaitATResponse_no_send w n b : keeps (calls no_send) (WaitATResponse (W := W) fuel w n b).
Proof.
  pose proof (tcp_Read_calls (E := E) no_send port_no_send UT_ATPort 256 ltac:(done)).
  pose proof (tcp_SetTimeOut_calls (E := E) no_send port_no_send UT_ATPort).
  unfold WaitATResponse, wait_step, mset, mget.
  effects; try (by apply keeps_sys); try apply keeps_modify; done.
Qed.

(** Attempts made by the inner loop: each of them sends at most once. *)
Lemma disconnect_sent k (s : st Agent W) :
  wp (disconnect fuel k) (fun o s' =>
    exists l, sent s s' l /\
    match o with
    | Ok (Some _, k') => (1 <= k' <= k /\ length l <= k - k' + 1)%nat
    | Throw _ => False
    | _ => (length l <= k)%nat
    end) s.
Proof.
  revert s. induction k as [|k IH]; intros s; cbn [disconnect].
  { exists []. split; [apply collects_refl|simpl; lia]. }
  apply wp_bind, wp_attempt, wp_bind. unfold at_write. apply wp_bind.
  eapply wp_mono; [|apply wp_tcp_Write_sent]. intros [n|e| |] s1 H1; try done.
  - destruct H1 as [_ H1]. apply wp_mret.
    apply (wp_and_keeps (calls no_send) _ (fun _ _ => True)); [apply WaitATResponse_no_send|done|].
    intros o s2 H2%sent_calls _. pose proof (collects_nil_r _ _ _ _ _ H1 H2) as H.
    destruct o as [v|e| |].
    + case_bool.
      * eapply wp_mono; [|apply IH]. intros o s3 (l & H3 & Hl).
        exists ([(str "AT_IAPPPCONNECT=0" ++ CRLF ++ [0], n)] ++ l). split; [by eapply collects_trans|].
        rewrite length_app. simpl. destruct o as [[[e|] k']|e| |]; try done; lia.
      * eexists. split; [exact H|]. simpl. lia.
    + eexists. split; [exact H|]. simpl. lia.
    + eexists. split; [exact H|]. simpl. lia.
    + eexists. split; [exact H|]. simpl. lia.
  - destruct H1 as (l & H1 & Hl & _). apply wp_mret. exists l. split; [done|]. lia.
  - destruct H1 as (l & H1 & Hl). exists l. split; [done|]. lia.
Qed.

Lemma off_step_talks k : keeps talks (off_step (W := W) fuel k).
Proof. pose proof disconnect_talks. unfold off_step. effects; done. Qed.

Lemma off_step_sent k (s : st Agent W) :
  wp (off_step fuel (S k)) (fun o s' =>
    exists l, sent s s' l /\
    match o with
    | Ok (inl k') => (1 <= k' <= k /\ k' + length l <= S k)%nat
    | Throw _ => False
    | _ => (length l <= S k)%nat
    end) s.
Proof.
  unfold off_step. apply wp_bind, wp_attempt.
  apply (wp_keeps (calls no_send)); [simpl; unfold tcp_get; effects; by apply tcp_Open_at_calls; intros ? []|].
  intros o s1 H1%sent_calls. destruct o as [v|e| |].
  2: { apply wp_bind, wp_mret, wp_mret. exists []. split; [done|]. destruct k; simpl; lia. }
  2-3: exists []; split; [done|simpl; lia].
  apply wp_bind. eapply wp_mono; [|apply disconnect_sent]. intros o s2 (l & H2 & Hl).
  assert (H : sent s s2 l) by (by eapply collects_nil_l).
  destruct o as [[[e|] k']|e| |]; try done; try (apply wp_mret); exists l; (split; [done|]); try lia.
  destruct k' as [|[|k']]; lia.
Qed.

Lemma off_loop_sent n k (s : st Agent W) :
  (1 <= k <= n)%nat ->
  wp (loop n (off_step fuel) k) (fun o s' =>
    exists l, sent s s' l /\ (length l <= k)%nat /\ match o with Throw _ => False | _ => True end) s.
Proof.
  revert k s. induction n as [|n IH]; intros k s Hk; [lia|]. destruct k as [|k]; [lia|]. cbn [loop].
  apply wp_bind. eapply wp_mono; [|apply off_step_sent]. intros o s1 (l & H1 & Hl).
  destruct o as [[k'|u]|e| |]; try done; try (exists l; split; [done|]; split; [lia|done]).
  eapply wp_mono; [|apply IH; lia]. intros o s2 (l2 & H2 & Hl2 & Ho).
  exists (l ++ l2). split; [by eapply collects_trans|]. rewrite length_app. split; [lia|done].
Qed.

(** [PowerOff] never throws, leaves the modem marked off and the AT port closed,
    and sends at most five disconnect commands whatever the modem does: the two nested
    loops share one counter. It is assumed that the system calls return. *)
Theorem power_off_outcome (s : st Agent W) :
  port_ok (port s) ->
  wp (PowerOff fuel) (fun o s' =>
    (exists l, sent s s' l /\ (length l <= 5)%nat) /\
    match o with
    | Ok _ => conn (port s') = (-1, false) /\ bPowerOff (modem (agent s')) = true
    | Throw _ => False
    | Undef | NoFuel => True
    end) s.
Proof.
  intros Hok. unfold PowerOff. apply wp_bind, wp_modify, wp_bind.
  set (s0 := mkSt _ _ _). assert (H0 : sent s s0 []) by (exists []; split; [by rewrite app_nil_r|done]).
  apply (wp_and_keeps talks _ (fun o s' => exists l, sent s0 s' l /\ (length l <= 5)%nat /\
    match o with Throw _ => False | _ => True end)).
  { effects. apply off_step_talks. }
  { apply off_loop_sent. lia. }
  intros o s1 [Hp1 Hf1] (l & H1 & Hl & Ho). assert (Hs1 : sent s s1 l) by (by eapply collects_nil_l).
  destruct o as [[]|e| |]; try done; try (split; [by exists l|done]).
  apply (wp_and_keeps (calls no_send) _ (fun o s' => o = Ok tt /\ conn (port s') = (-1, false) /\
    bPowerOff (modem (agent s')) = true)).
  - apply tcp_Close_calls, port_no_send.
  - apply wp_close_at; [by apply Hp1|]. intros s2 Hc Hf _. split; [done|]. split; [done|].
    unfold stable, flags in *. simpl in *. congruence.
  - intros o s2 H2%sent_calls (-> & Hc & Hoff). split; [|done]. exists l.
    split; [by eapply collects_nil_r|done].
Qed.
End Power.

(** ** Concrete runs *)

(** A modem that was opened before and answers [OK]; no configuration file. *)
Definition answering (n : nat) : st Agent script :=
  mkSt (upd_modem (set_bModemOpen true) fresh_agent)
    (mkScript 0 [] (replicate n (IoData (str "OK"))) [] None) [].

Lemma script_modem : untouched (script_env (S := Agent)) modem.
Proof. intros T c a w r a' w' H. by apply script_env_quiet in H as ->. Qed.

Lemma answering_ok n : port_ok (get_tcp UT_ATPort (agent (answering n))).
Proof. apply port_ok_disconnected; simpl; auto. Qed.

Lemma power_on_outcome_witness :
  bPowerOff (modem (agent (snd (PowerOn [] 10 (answering 2))))) = false /\
  wp (PowerOn [] 10) power_done (answering 2).
Proof.
  split; [vm_compute; reflexivity|].
  exact (power_on_outcome [] 10 script_modem script_socket_fresh script_recv_bounded (answering 2) (answering_ok 2)).
Defined.

Lemma power_off_outcome_witness :
  fst (PowerOff 10 (answering 1)) = Ok tt /\
  wp (PowerOff 10) (fun o s' =>
    (exists l, sent (answering 1) s' l /\ (length l <= 5)%nat) /\
    match o with
    | Ok _ => conn (get_tcp UT_ATPort (agent s')) = (-1, false) /\ bPowerOff (modem (agent s')) = true
    | Throw _ => False
    | Undef | NoFuel => True
    end) (answering 1).
Proof.
  split; [vm_compute; reflexivity|].
  exact (power_off_outcome 10 script_modem script_socket_fresh script_recv_bounded (answering 1) (answering_ok 1)).
Defined.

End ModemAT.
