(* ===== verification/Tasks.v ===== *)
(** * Tasks: the threads of the agent and its start

    [DataTask] (DataTask.cpp): the thread that reads the post and the thread that
    sends to the server; [ControlTask] (ControlTask.cpp): the thread that keeps the
    link up and obeys the server; [main_work] and [main] (device-agent.cpp).

    The threads never end: [n] is the number of turns of their outer loop that are
    executed, and theorems are for every [n].  What the other threads do meanwhile
    is part of the environment. *)

From Stdlib Require Import Strings.String.
From S2P Require Import Prelude CRC16 Packet PacketQueue Sys Effects Agent Channel Receive Traffic Protocol Delivery Text Config Atof ModemAT.
Import PacketQueue Packet Sys Effects Agent Channel Receive Traffic Protocol Delivery Text Config ModemAT.

Module Tasks.

(** What [ControlTask::doProcess] does with a command. *)
Inductive reaction := Ignore | Transfer | History.

Definition reaction_to (eCmd : CommunicationCommand) : reaction :=
  match eCmd with
  | DataRequest | MPHealthCheck => Ignore
  | GetCondition | SetCondition | GetPreAmp | GetADCSetting | GetSpectrumSetting
  | SetLowHiDoesRateAlarmReset | GetTime | RequestDoseRate | RequestSpectrum
  | RequestDoseRateAlarm | Request40KAction | RequestGPS => Transfer
  | GetNetworkSetting | SetTransmitUnitHardwareReset | SetTransmitUnitReset
  | SetTransmitUnitMemortClear => Ignore
  | SetTime => Transfer
  | ConfirmDoseRate | ConfirmSpectrum | ConfirmDoseRateAlarm | Confirm40KAction | ConfirmGPS => History
  | RequestDataCancel | DataTerminate | SetDataPort | SetControlPort => Ignore
  | ControlPortHealthCheck => Ignore
  | CMD_END => Ignore
  end.

Definition current_data : cstring := str "./Current.data".
Definition reboot : cstring := str "reboot".

Section Threads.
Context {W : Type} {E : Env Agent W}.
Context (sc : bool) (gmtoff : Z) (below : list byte) (fuel : nat).

Abbreviation MA := (M Agent W).

(** [n] turns of [while (1)]. *)
Fixpoint turns {X} (n : nat) (body : X -> MA X) (x : X) : MA X :=
  match n with
  | O => mret x
  | S n => x <- body x; turns n body x
  end.

(** ** DataTask *)

(** [DataTask::SaveData]. *)
Definition SaveData : MA unit :=
  n <- dq_get PacketQueue.GetSize;
  if n =? 0 then mret tt else save_queue fuel dataQueue set_dataQueue current_data.

(** One turn of [DataTask::doReadData] on [currentData]. *)
Definition read_turn (currentData : packet) : MA packet :=
  currentData <- RequestCurrentData sc gmtoff fuel Serial currentData;
  currentData <- (if Packet.GetSize currentData =? 0 then mret currentData
                  else
                    dq_push fuel currentData;;
                    lift (GetDataNo currentData);;
                    SaveData;;
                    mret []);
  HealthCheck sc fuel Serial currentData;;
  PatrolRest;;
  mret [].

Definition doReadData (n : nat) : MA packet := turns n read_turn [].

(** One turn of [DataTask::doProcess]. *)
Definition data_turn (_ : unit) : MA unit :=
  off <- IsPowerOff;
  (if negb off then
     nPort <- NegoiateDataChannel sc fuel srvData;
     if negb (nPort =? 0) && negb (nPort =? -1) then
       SendCurrentData sc fuel (Tcp srvData);;
       HealthCheckReport fuel (Tcp srvData);;
       b <- @IsOpen _ (ops (Tcp srvData));
       if b : bool then tcp_Close srvData else mret tt
     else mret tt
   else mret tt);;
  loop fuel (fun _ : unit =>
    off <- IsPowerOff;
    if negb off then sys (sys_sleep 10);; mret (inl tt) else mret (inr tt)) tt;;
  loop fuel (fun _ : unit =>
    off <- IsPowerOff;
    if off : bool then
      idle <- pget nIdleTimeSetting;
      sys (sys_sleep (u32 (Z.quot idle 2)));; mret (inl tt)
    else mret (inr tt)) tt.

Definition load_data : MA unit :=
  f <- sys (sys_read_file current_data);
  q <- dq_get id;
  q <- lift (Load sc f q);
  modify (set_dataQueue q).

(** [DataTask::doProcess]. *)
Definition data_process (n : nat) : MA unit :=
  load_data;;
  sys (sys_pthread_create data_doReadData);;
  turns n data_turn tt.

(** [DataTask::run]: [pidTask] is [None] until the thread exists. *)
Definition DataTask_run (pidTask : option thread) : MA (option thread) :=
  match pidTask with
  | Some _ => mret pidTask
  | None => sys (sys_pthread_create data_doProcess);; mret (Some data_doProcess)
  end.

(** ** ControlTask *)

Definition ControlTask_run : MA unit := sys (sys_pthread_create control_doProcess);; mret tt.

(** The [switch]; [HistoryDataRequestCmd hcmd(cmd)] copies the packet. *)
Definition dispatch (eCmd : CommunicationCommand) (cmd : packet) : MA unit :=
  match reaction_to eCmd with
  | Ignore => mret tt
  | Transfer => TransferCmd sc fuel Serial (Tcp srvControl) cmd
  | History => HistoryDataTransfer sc fuel Serial (Tcp srvControl) cmd
  end.

(** The handler of the exceptions of the control channel. *)
Definition control_failed (e : ChannelException) : MA unit :=
  dead <- IsUnReachable srvControl;
  (if dead : bool then
     PowerOff fuel;;
     sys (sys_sleep 3);;
     sys (sys_system reboot);;
     mret tt
   else mret tt);;
  if bUnConnected e then NegoiateControlChannel sc fuel srvControl else mret tt.

(** The first part of a turn: power the modem on when it is off. *)
Definition ensure_power : MA unit :=
  off <- IsPowerOff;
  if off : bool then
    PowerOn below fuel;;
    off <- IsPowerOff;
    pset (Protocol_SetExtCommunicationError off)
  else mret tt.

(** The last part: go to sleep after a period without traffic. *)
Definition sleep_if_idle : MA unit :=
  idle <- IsTimeForSleep;
  if idle : bool then
    pset (Protocol_SetControlDone false);;
    tcp_Close srvControl;;
    n <- pget nIdleTimeSetting;
    sys (sys_sleep (u32 n));;
    off <- IsPowerOff;
    (if negb off then PowerOff fuel else mret tt);;
    SleepForPowerOn
  else mret tt.

(** One turn of [ControlTask::doProcess]. *)
Definition control_turn (_ : unit) : MA unit :=
  ensure_power;;
  off <- IsPowerOff;
  (if negb off then
     try_catch
       (r <- GetCommand sc fuel (Tcp srvControl);
        dispatch (fst r) (snd r))
       control_failed
   else mret tt);;
  sys (sys_sleep 1);;
  sleep_if_idle.

Definition control_process (n : nat) : MA unit := turns n control_turn tt.

(** ** device-agent.cpp *)

Definition InitPort : MA unit :=
  sys (sys_system (str "echo 79 > /sys/class/gpio/export;echo 81 > /sys/class/gpio/export;echo 85 > /sys/class/gpio/export;echo low >/sys/class/gpio/gpio79/direction;echo low >/sys/class/gpio/gpio81/direction;echo in > /sys/class/gpio/gpio85/direction"));;
  mret tt.

(** [check_shutdown] (not called): the value of a GPIO line. *)
Definition check_shutdown : MA Z :=
  fd <- sys (sys_open (str "/sys/class/gpio/gpio72/value"));
  if fd <? 0 then mret 0
  else
    r <- sys (sys_read fd 1);
    sys (sys_close fd);;
    mret (atoi (match r with IoData c => take 1 c | IoErr _ => [] end)).

Definition set_high : cstring := str "echo high >/sys/class/gpio/gpio81/direction;".
Definition set_low : cstring := str "echo low >/sys/class/gpio/gpio81/direction;".

(** [Modem exp500;] and the assignments to its fields. *)
Definition new_modem : MA unit :=
  ip <- conf below GetModemIP;
  modify (set_modem (new_Modem ip));;
  apn <- conf below GetAPN; mset (set_strAPN apn);;
  ip <- conf below GetIP; mset (set_strIP ip);;
  user <- conf below GetUserName; mset (set_strUserName user);;
  password <- conf below GetPassword; mset (set_strPassword password).

(** [Protocol protocol(...);] and its settings; [Machine] is not initialised by the
    constructor. *)
Definition new_protocol : MA unit :=
  server <- conf below GetServerName;
  now <- sys sys_gettimeofday;
  modify (fun a => set_protocol (new_Protocol server now (Machine (protocol a))) a);;
  n <- conf below GetMachine; pset (Protocol_SetMachine n);;
  n <- conf below GetDataPort; pset (Protocol_SetDataPort n);;
  n <- conf below GetCommandPort; pset (Protocol_SetCommandPort n);;
  n <- conf below GetIntervalSecond; pset (Protocol_SetIntervalSecond n).

(** The clock is set from the post, which may need [nDelay] seconds to start. *)
Definition set_clock (nDelay : Z) : MA unit :=
  now <- Protocol.GetMPTime sc gmtoff fuel;
  now <- (if now =? 0 then
            sys (sys_sleep (u32 nDelay));; Protocol.GetMPTime sc gmtoff fuel
          else mret now);
  if now =? 0 then mret tt
  else
    sys (sys_settimeofday (mkTv now 0));;
    sys (sys_system (str "hwclock -w"));;
    mret tt.

(** [main_work] up to the creation of the threads. *)
Definition startup : MA unit :=
  conf below GetTraceLevel;;
  nDelay <- conf below GetPowerOnDelay;
  InitPort;;
  sys (sys_system set_high);;
  sys (sys_system (str "ifconfig eth0 up;sleep 1;route add default gw 192.168.1.35 "));;
  new_modem;;
  new_protocol;;
  LoadStatus sc;;
  dev <- conf below GetMPdev;
  ser_Open_dev dev;;
  set_clock nDelay;;
  modify (set_dataQueue newQueue).

(** [while (1) { sleep(60); }]. *)
Definition wait_forever {A} : MA A :=
  loop fuel (fun _ : unit => sys (sys_sleep 60);; mret (inl tt)) tt.

(** Waiting for the power-off signal: any event of [/dev/event0] is one. *)
Definition watch_power (fd : Z) : MA Z :=
  r <- sys (sys_read fd 16);
  match r with
  | IoErr _ =>
      sys (sys_system set_high);;
      sys (sys_close fd);;
      wait_forever
  | IoData _ =>
      sys (sys_close fd);;
      SaveData;;
      r <- sys (sys_system reboot);
      mret (if negb (r =? 0) then -1 else 0)
  end.

Definition main_work : MA Z :=
  startup;;
  DataTask_run None;;
  ControlTask_run;;
  fd <- sys (sys_open (str "/dev/event0"));
  sys (sys_system set_low);;
  if fd <? 0 then
    sys (sys_system set_high);;
    wait_forever
  else watch_power fd.

(** [main]: the parent waits for the working process and reboots. *)
Definition main : MA Z :=
  loop fuel (fun _ : unit =>
    child <- sys sys_fork;
    if child =? 0 then r <- main_work; mret (inr r)
    else if child =? -1 then mret (inl tt)
    else
      sys (sys_waitpid child);;
      sys (sys_system reboot);;
      mret (inr 0)) tt.
End Threads.

(** ** No exception leaves a thread *)

Section Safe.
Context {W : Type} {E : Env Agent W}.
Context (sc : bool) (gmtoff : Z) (below : list byte) (fuel : nat).

Abbreviation safe m := (avoids (W := W) KThrow m).

(** As [effects], for loops and for what an [attempt] catches. *)
Ltac safe_step :=
  match goal with
  | H : KThrow <> KThrow |- _ => done
  | |- avoids _ (loop _ _ _) => apply avoids_loop; [done|]
  | |- avoids _ (try_catch _ _) => apply avoids_handled; [done|]
  | _ => progress effects
  end.
Ltac safely := repeat safe_step.

Lemma tcp_receive_safe c : safe (ReceiveFrameFrom sc (ops c) fuel).
Proof. by apply ReceiveFrameFrom_avoids. Qed.
Lemma tcp_ack_safe c : safe (ReceiveAckFrom (ops c) fuel).
Proof. by apply ReceiveAckFrom_avoids. Qed.
#[local] Hint Resolve tcp_receive_safe tcp_ack_safe tcp_Open_at_avoids tcp_SetTimeOut_avoids tcp_Close_avoids
  tcp_Connect_avoids ser_Open_dev_avoids SetTimeOut_avoids receive_serial_safe send_serial_safe
  setReservedTime_safe GetMPTime_safe : effects.

Lemma negoiateChannel_safe t n : safe (negoiateChannel sc fuel t n).
Proof. unfold negoiateChannel, nego_loop, nego_step, pget. safely. Qed.
#[local] Hint Resolve negoiateChannel_safe : effects.
Lemma try_connect_safe t n : safe (try_connect t n).
Proof. unfold try_connect, SetRemotePort, pget, tcp_set. safely. Qed.
Lemma sleep_rest_safe a n : safe (sleep_rest a n).
Proof. unfold sleep_rest. safely. Qed.
#[local] Hint Resolve try_connect_safe sleep_rest_safe : effects.

Lemma data_tries_safe t n k : safe (data_tries t n k).
Proof. induction k; simpl; unfold pset, IsPowerOff; safely. Qed.
Lemma control_tries_safe t n k : safe (control_tries t n k).
Proof. induction k; simpl; unfold pset; safely. Qed.
#[local] Hint Resolve data_tries_safe control_tries_safe : effects.
Lemma data_rounds_safe t n k : safe (data_rounds sc fuel t n k).
Proof. revert n. induction k; intros n; simpl; unfold pset, pget, IsPowerOff; safely. Qed.
Lemma control_rounds_safe t n k : safe (control_rounds sc fuel t n k).
Proof. revert n. induction k; intros n; simpl; unfold pset, pget; safely. Qed.
#[local] Hint Resolve data_rounds_safe control_rounds_safe : effects.
Lemma NegoiateDataChannel_safe t : safe (NegoiateDataChannel sc fuel t).
Proof. unfold NegoiateDataChannel, wait_control, pget, IsPowerOff. safely. Qed.
Lemma NegoiateControlChannel_safe t : safe (NegoiateControlChannel sc fuel t).
Proof. unfold NegoiateControlChannel, pget. safely. Qed.
#[local] Hint Resolve NegoiateDataChannel_safe NegoiateControlChannel_safe : effects.

Lemma acquire_safe get : safe (acquire fuel get).
Proof. unfold acquire. safely. Qed.
Lemma save_packets_safe fd l : safe (save_packets fd l).
Proof. induction l; simpl; safely. Qed.
#[local] Hint Resolve acquire_safe save_packets_safe : effects.

Lemma send_data_safe t p : safe (send_data fuel (Tcp t) p).
Proof. unfold send_data. safely. Qed.
Lemma reconnect_safe t : safe (reconnect sc fuel (Tcp t)).
Proof. unfold reconnect, pget, IsPowerOff. safely. Qed.
#[local] Hint Resolve send_data_safe reconnect_safe : effects.
Lemma SendCurrentData_safe t : safe (SendCurrentData sc fuel (Tcp t)).
Proof.
  unfold SendCurrentData, send_step, judge_ack, dq_pop, dq_get, pget, pset, IsPowerOff. safely.
Qed.
Lemma IsOpen_safe t : safe (@IsOpen _ (ops (Tcp t))).
Proof. apply avoids_gets. Qed.
#[local] Hint Resolve IsOpen_safe : effects.
Lemma HealthCheckReport_safe t : safe (HealthCheckReport fuel (Tcp t)).
Proof. unfold HealthCheckReport, report_step, status_pop, pget, pset. safely. Qed.
#[local] Hint Resolve SendCurrentData_safe HealthCheckReport_safe : effects.

Lemma HealthCheck_safe p : safe (HealthCheck sc fuel Serial p).
Proof. unfold HealthCheck, isTimeForAction, status_push, pget, pset. safely. Qed.
Lemma PatrolRest_safe : safe PatrolRest.
Proof. unfold PatrolRest, pget. safely. Qed.
Lemma SaveData_safe : safe (SaveData fuel).
Proof. unfold SaveData, save_queue, lock_queue, unlock_queue, dq_get. safely. Qed.
Lemma request_safe p : safe (RequestCurrentData sc gmtoff fuel Serial p).
Proof.
  pose proof (request_loop_safe (E := E) sc fuel). pose proof (GetMPIntervalSecond_safe (E := E) sc fuel).
  pose proof (sync_clock_safe (E := E)). pose proof (wait_reserved_safe (E := E)).
  pose proof (flock_avoids (E := E) KThrow) as [].
  unfold RequestCurrentData, isTimeForAction, pget, pset. safely.
Qed.
#[local] Hint Resolve HealthCheck_safe PatrolRest_safe SaveData_safe request_safe : effects.

Lemma off_step_safe k : safe (off_step fuel k).
Proof.
  unfold off_step.
  assert (forall k, safe (disconnect fuel k)) by (clear k; induction k; simpl; safely). safely.
Qed.
#[local] Hint Resolve off_step_safe : effects.
Lemma PowerOff_safe : safe (PowerOff fuel).
Proof. unfold PowerOff, mset. safely. Qed.
Lemma PowerOn_safe : safe (PowerOn below fuel).
Proof. unfold PowerOn, mset. safely. Qed.
#[local] Hint Resolve PowerOff_safe PowerOn_safe : effects.

Lemma turns_safe {X} n (body : X -> M Agent W X) x : (forall x, safe (body x)) -> safe (turns n body x).
Proof. intros Hb. revert x. induction n; intros x; simpl; safely. Qed.

Lemma control_failed_safe e : safe (control_failed sc fuel e).
Proof. unfold control_failed, IsUnReachable, tcp_get. safely. Qed.
Lemma IsTimeForSleep_safe : safe IsTimeForSleep.
Proof. unfold IsTimeForSleep, setLastActionTime, pget, pset. simpl. unfold tcp_get. safely. Qed.
Lemma SleepForPowerOn_safe : safe SleepForPowerOn.
Proof. unfold SleepForPowerOn, pget. safely. Qed.
#[local] Hint Resolve control_failed_safe IsTimeForSleep_safe SleepForPowerOn_safe : effects.

(** C6. No [ChannelException] leaves a thread, which would end the process: not the
    reading thread, not the data thread, not the control thread, after any number of
    turns and whatever the post, the server, the modem and the other threads do; nor
    does one leave [main_work]. *)
Theorem no_exception_leaves_a_thread n :
  safe (doReadData sc gmtoff fuel n) /\ safe (data_process sc fuel n) /\
  safe (control_process sc below fuel n) /\ safe (main_work sc gmtoff below fuel).
Proof.
  split_and!.
  - apply turns_safe. intros d. unfold read_turn, dq_push, dq_get. safely.
  - pose proof (turns_safe n (data_turn sc fuel) tt) as Ht.
    unfold data_process, load_data, dq_get. safely. apply Ht. intros [].
    unfold data_turn, IsPowerOff, pget. safely.
  - apply turns_safe. intros []. unfold control_turn, ensure_power, sleep_if_idle, IsPowerOff, pget, pset. safely.
  - unfold main_work, startup, watch_power, wait_forever, set_clock, new_protocol, new_modem, conf, LoadStatus,
      InitPort, DataTask_run, ControlTask_run, pget, pset, mset. safely.
Qed.
End Safe.

(** The two queues are in order. *)
Definition data_wf (sc : bool) (a : Agent) : Prop := queue_wf sc (dataQueue a).
Definition status_wf (sc : bool) (a : Agent) : Prop := queue_wf sc (statusQueue (protocol a)).

(** A step of which nothing need be known. *)
Lemma wp_any_then {W A B} (m : M Agent W A) (f : A -> M Agent W B) Q s :
  (forall a s', wp (f a) (on_ok Q) s') -> wp (bind m f) (on_ok Q) s.
Proof. intros H. apply wp_bind, wp_whatever. by intros []. Qed.

(** ** What the start leaves *)

Section Start.
Context {W : Type} {E : Env Agent W} `{!Returns E}.
Context (sc : bool) (gmtoff : Z) (below : list byte) (fuel : nat) (file : list byte).

(** No other thread exists yet, and the configuration file holds [file]. *)
Hypothesis Halone : forall T (c : syscall T) a w r a' w', env_step c a w = Some (r, a', w') -> a' = a.
Hypothesis Hfile : forall a w r a' w', env_step (sys_read_file conf_name) a w = Some (r, a', w') -> r = Some file.

(** What of the configuration the objects hold. *)
Definition protocol_configured (p : Agent.Protocol) : Prop :=
  GetServerName below (Some file) = Some (strServerName p) /\
  u8 <$> GetMachine below (Some file) = Some (Machine p) /\
  GetDataPort below (Some file) = Some (nDataPort p) /\
  GetCommandPort below (Some file) = Some (nCommandPort p) /\
  GetIntervalSecond below (Some file) = Some (nIntervalSetting p) /\
  nIdleTimeSetting p = 20 /\ nNegotialTimeOut p = 20.

Definition modem_configured (m : Agent.Modem) : Prop :=
  GetAPN below (Some file) = Some (strAPN m) /\
  GetIP below (Some file) = Some (strIP m) /\
  GetUserName below (Some file) = Some (strUserName m) /\
  GetPassword below (Some file) = Some (strPassword m) /\
  bPowerOff m = true /\ bModemOpen m = false.

Lemma wp_alone {T B} (c : syscall T) (f : T -> M Agent W B) Q s :
  (forall r s', agent s' = agent s -> wp (f r) (on_ok Q) s') -> wp (bind (sys c) f) (on_ok Q) s.
Proof. intros H. apply wp_bind, wp_sys. intros r a w He. apply H. by eapply Halone. Qed.

Lemma wp_conf {A B} g (f : A -> M Agent W B) Q s :
  (forall v s', g below (Some file) = Some v -> agent s' = agent s -> wp (f v) (on_ok Q) s') ->
  wp (bind (conf below g) f) (on_ok Q) s.
Proof.
  intros H. apply wp_bind. unfold conf. apply wp_bind, wp_sys. intros r a w He.
  pose proof (Halone _ _ _ _ _ _ _ He). apply Hfile in He as ->. apply wp_lift.
  destruct (g below (Some file)) as [v|] eqn:Hg; [|done]. by apply H.
Qed.

Ltac follow := intros; repeat match goal with H : agent ?s = _ |- context [agent ?s] => rewrite H; clear H end; simpl.

Lemma new_modem_configures (s : st Agent W) :
  wp (new_modem below) (on_ok (fun _ s' => modem_configured (modem (agent s')))) s.
Proof.
  unfold new_modem. apply wp_conf; intros ip s1 _ H1. apply wp_bind, wp_modify.
  do 3 (apply wp_conf; intros ? ? ? ?; apply wp_bind, wp_modify).
  apply wp_conf; intros ? ? ? ?; apply wp_modify. unfold modem_configured. follow. by split_and!.
Qed.

Lemma new_protocol_configures (s : st Agent W) :
  wp (new_protocol below) (on_ok (fun _ s' =>
    protocol_configured (protocol (agent s')) /\ modem (agent s') = modem (agent s))) s.
Proof.
  unfold new_protocol. apply wp_conf; intros ? ? ? ?. apply wp_alone; intros ? ? ?. apply wp_bind, wp_modify.
  apply wp_conf; intros ? ? Hm ?; apply wp_bind, wp_modify.
  do 2 (apply wp_conf; intros ? ? ? ?; apply wp_bind, wp_modify).
  apply wp_conf; intros ? ? ? ?; apply wp_modify. unfold protocol_configured. follow. rewrite Hm. by split_and!.
Qed.

(** The rest of the start leaves these fields alone. *)
Definition config_of (a : Agent) :=
  (strServerName (protocol a), Machine (protocol a), nDataPort (protocol a), nCommandPort (protocol a),
   nIntervalSetting (protocol a), nIdleTimeSetting (protocol a), nNegotialTimeOut (protocol a),
   (strAPN (modem a), strIP (modem a), strUserName (modem a), strPassword (modem a), flags a)).

Definition configured (a : Agent) : Prop :=
  protocol_configured (protocol a) /\ modem_configured (modem a).

Lemma config_of_configured a a' : config_of a' = config_of a -> configured a -> configured a'.
Proof.
  unfold config_of, configured, protocol_configured, modem_configured, flags. intros [= -> -> -> -> -> -> -> -> -> -> -> -> ->]. done.
Qed.

Lemma sys_config T (c : syscall T) : keeps (stable config_of) (sys (W := W) c).
Proof. apply keeps_stable_sys. intros T' c' a w r a' w' He. by rewrite (Halone _ _ _ _ _ _ _ He). Qed.
Lemma tcp_set_config t f : keeps (stable config_of) (tcp_set (W := W) t f).
Proof. intros s. by destruct t. Qed.
Lemma ser_set_config f : keeps (stable config_of) (ser_set (W := W) f).
Proof. by intros s. Qed.
#[local] Hint Resolve sys_config tcp_set_config ser_set_config : core.
#[local] Hint Resolve sys_config : effects.

(** A step of the rest. *)
Lemma wp_config {A B} (m : M Agent W A) (f : A -> M Agent W B) Q s :
  keeps (stable config_of) m -> configured (agent s) ->
  (forall a s', configured (agent s') -> wp (f a) (on_ok Q) s') -> wp (bind m f) (on_ok Q) s.
Proof.
  intros Hk Hc H. apply wp_bind, (wp_keeps (stable config_of)); [done|].
  intros [a|e| |] s' Hs; try done. apply H. by eapply config_of_configured.
Qed.

(** C26. The start applies the configuration file: when the threads are created the
    server's name and ports, the machine number, the interval and the modem's log-on
    data are those of the file, the idle time and the time out of the negotiation are
    the built-in 20 s whatever the file says, and the modem counts as off. It is
    assumed that the system calls return. *)
Theorem startup_applies_configuration (s : st Agent W) :
  wp (startup sc gmtoff below fuel) (on_ok (fun _ s' => configured (agent s'))) s.
Proof.
  assert (Htime : keeps (stable config_of) (Protocol.GetMPTime (W := W) sc gmtoff fuel))
    by (apply (GetMPTime_frame _ (ok := any_port)); auto with typeclass_instances).
  unfold startup. do 5 (apply wp_any_then; intros ? ?).
  apply wp_bind. eapply wp_mono; [|apply new_modem_configures]. intros [[]|e| |] s1 H1; try done.
  apply wp_bind. eapply wp_mono; [|apply new_protocol_configures]. intros [[]|e| |] s2 H2; try done.
  destruct H2 as [H2 Hm2].
  assert (H : configured (agent s2)) by (split; [done|by rewrite Hm2]).
  apply wp_config; [unfold LoadStatus, pget, pset; effects|done|intros ? ? ?].
  apply wp_config; [unfold conf; effects|done|intros ? ? ?].
  apply wp_config; [apply ser_Open_dev_frame; auto with typeclass_instances|done|intros ? ? ?].
  apply wp_config; [unfold set_clock; effects|done|intros ? ? Hc]. exact Hc.
Qed.
End Start.

(** ** Power off and on again *)

Section Restart.
Context {W : Type} {E : Env Agent W} `{!Returns E}.
Context (sc : bool) (fuel : nat) (files : W -> cstring -> option (list byte)).

Context (names : W -> Z -> option cstring).

(** The other threads leave the data queue alone; a file can be created and written,
    [names] tells which file a descriptor writes, and a file holds what was written to
    it since it was created. *)
Hypothesis Hq : untouched E dataQueue.
Hypothesis Hcreate : forall a w fd a' w',
  env_step (sys_create current_data) a w = Some (fd, a', w') ->
  0 <= fd /\ names w' fd = Some current_data /\ files w' current_data = Some [].
Hypothesis Hwrite : forall n fd buf a w r a' w',
  env_step (sys_write fd buf) a w = Some (r, a', w') -> names w fd = Some n ->
  r = IoData buf /\ names w' fd = Some n /\ files w' n = Some (default [] (files w n) ++ buf).
Hypothesis Hclose : forall fd a w r a' w', env_step (sys_close fd) a w = Some (r, a', w') -> files w' = files w.
Hypothesis Hkept : forall c a w r a' w', env_step (sys_system c) a w = Some (r, a', w') -> files w' = files w.
Hypothesis Hread : forall n a w r a' w', env_step (sys_read_file n) a w = Some (r, a', w') -> r = files w n.

(** The loop appends the record of every frame. *)
Lemma save_packets_writes n fd l c (s : st Agent W) :
  names (world s) fd = Some n -> files (world s) n = Some c -> Forall (frame sc) l ->
  wp (save_packets fd l) (fun o s' =>
    o = Ok tt /\ files (world s') n = Some (c ++ (l ≫= encode)) /\ dataQueue (agent s') = dataQueue (agent s)) s.
Proof.
  intros Hn Hc Hl. revert c s Hn Hc. induction Hl as [|p l Hp Hl IH]; intros c s Hn Hc; cbn [save_packets].
  { apply wp_mret. by rewrite app_nil_r. }
  pose proof (frame_length _ _ Hp) as H9. cbv zeta.
  rewrite (proj2 (Z.eqb_neq _ 0)) by (unfold Packet.GetSize; lia).
  apply wp_bind, wp_sys. intros r1 a1 w1 He1. pose proof (Hq _ _ _ _ _ _ _ He1) as Hq1.
  destruct (Hwrite _ _ _ _ _ _ _ _ He1 Hn) as (-> & Hn1 & Hc1). rewrite Hc in Hc1. cbn [write_result default] in *.
  change (Z.of_nat (length (le32_bytes _)) =? 4) with true. cbn [negb].
  apply wp_bind, wp_sys. intros r2 a2 w2 He2. pose proof (Hq _ _ _ _ _ _ _ He2) as Hq2. cbn [agent world] in *.
  destruct (Hwrite _ _ _ _ _ _ _ _ He2 Hn1) as (-> & Hn2 & Hc2). rewrite Hc1 in Hc2. cbn [write_result default from_option id] in *.
  unfold Packet.GetSize. rewrite Z.eqb_refl. cbn [negb].
  eapply wp_mono; [|by eapply IH]. intros o s3 (-> & Hf & Hd). cbn [agent] in Hd.
  split_and!; [done| |by rewrite Hd, Hq2, Hq1].
  rewrite Hf, bind_cons. unfold encode at 2. by rewrite <- !app_assoc.
Qed.

Lemma SaveData_saves (s : st Agent W) :
  (0 < fuel)%nat -> data_wf sc (agent s) -> queue (dataQueue (agent s)) <> [] ->
  wp (SaveData fuel) (fun o s' =>
    o = Ok tt /\ files (world s') current_data = Some (queue (dataQueue (agent s)) ≫= encode)) s.
Proof.
  intros Hfu [Hf _ Hm] Hne. unfold SaveData. apply wp_bind, wp_gets. unfold PacketQueue.GetSize.
  destruct (queue (dataQueue (agent s))) as [|p l] eqn:Hqq; [done|]. simpl Z.eqb. cbn iota. rewrite <- Hqq in *.
  unfold save_queue. apply wp_bind, wp_sys. intros fd a w He. destruct (Hcreate _ _ _ _ _ He) as (H0 & Hn & Hc).
  pose proof (Hq _ _ _ _ _ _ _ He) as Ha. rewrite (proj2 (Z.ltb_ge _ _)) by done. set (s1 := mkSt a w _).
  change (dataQueue (agent s1) = dataQueue (agent s)) in Ha. destruct fuel as [|k]; [lia|].
  apply wp_bind, wp_bind, wp_bind, wp_bind, wp_gets. rewrite Ha, Hm. apply wp_mret, wp_mret.
  apply wp_bind, wp_gets, wp_bind, wp_lift. rewrite Ha. unfold lock. rewrite Hm.
  apply wp_modify, wp_bind, wp_gets, wp_bind. cbn [agent dataQueue set_dataQueue queue].
  eapply wp_mono; [|by eapply save_packets_writes]. intros o s2 (-> & Hfile & _).
  apply wp_bind, wp_sys. intros [] a3 w3 He3. apply wp_bind, wp_gets, wp_modify. split; [done|].
  cbn [world]. by rewrite (Hclose _ _ _ _ _ _ He3), Hfile.
Qed.

Lemma load_data_loads (s : st Agent W) (q : DataPacketQueue) content :
  files (world s) current_data = Some content -> Load sc (Some content) (dataQueue (agent s)) = Some q ->
  wp (load_data sc) (fun o s' => o = Ok tt /\ dataQueue (agent s') = q) s.
Proof.
  intros Hf Hl. unfold load_data. apply wp_bind, wp_sys. intros r a w He.
  pose proof (Hq _ _ _ _ _ _ _ He) as Ha. apply Hread in He as ->. rewrite Hf.
  apply wp_bind, wp_gets, wp_bind, wp_lift. unfold id. cbn [agent]. rewrite Ha, Hl. by apply wp_modify.
Qed.


(** [SaveData] with an empty queue leaves the file of an earlier one in place. *)
Theorem stale_file_is_reloaded (s : st Agent W) old :
  dataQueue (agent s) = newQueue -> files (world s) current_data = Some old ->
  let s1 := snd (SaveData fuel s) in
  s1 = s /\ forall q, Load sc (Some old) newQueue = Some q ->
    wp (load_data sc) (fun o s2 => o = Ok tt /\ dataQueue (agent s2) = q) s1.
Proof.
  intros Hs Hf s1. assert (s1 = s) as -> by (unfold s1, SaveData, dq_get, bind, gets; by rewrite Hs).
  split; [done|]. intros q Hl. eapply load_data_loads; [done|by rewrite Hs].
Qed.
End Restart.

(** ** Concrete runs *)

(** A board whose configuration file is [f]. *)
#[local] Instance with_file (f : list byte) : Env Agent script :=
  fun T c a w =>
    Some (match c in syscall T return T -> T with sys_read_file _ => fun _ => Some f | _ => fun r => r end
       (fst (script_answer c w)), a, snd (script_answer c w)).
#[local] Instance with_file_returns f : Returns (with_file f).
Proof. intros T c a w. by eexists. Qed.

Definition board_conf : list byte :=
  render_all [Setting (str "SERVER") (str "10.0.0.9"); Setting (str "DATA_PORT") (str "6000"); Setting (str "MACHINE") (str "3")].

Lemma startup_applies_configuration_witness :
  let s := mkSt fresh_agent (mkScript 0 [] [] [] None) [] in
  let m := startup (E := with_file board_conf) false 0 [0] 100 in
  nDataPort (protocol (agent (snd (m s)))) = 6000 /\
  wp m (on_ok (fun _ s' => configured [0] board_conf (agent s'))) s.
Proof.
  intros s m. split; [vm_compute; reflexivity|].
  apply (startup_applies_configuration (E := with_file board_conf) false 0 [0] 100 board_conf).
  - intros T c a w r a' w' H. unfold env_step, with_file in H. congruence.
  - intros a w r a' w' H. unfold env_step, with_file in H. congruence.
Defined.

(** Two frames are queued when the power goes. *)
Definition failing : st Agent script :=
  mkSt (set_dataQueue two_frames fresh_agent) (mkScript 0 [] [] [] None) [].


End Tasks.
