(* ===== verification/Threads.v ===== *)
(** * Threads: what each thread does to the queues

    The data queue and the status queue are the objects several threads change.
    Whatever a thread does between two system calls is described here by a relation
    [G] on the objects; the environment may do anything during the calls.  The
    lemmas say which operations on the queues each thread performs: the reading
    thread pushes what the post sent and saves the data queue, the data thread pops,
    the control thread leaves both queues alone and the main thread saves. *)

From S2P Require Import Prelude CRC16 Packet PacketQueue Sys Effects Agent Channel Receive Traffic Protocol Delivery Text Config Atof ModemAT Tasks.
Import PacketQueue Packet Sys Effects Agent Channel Receive Traffic Protocol Delivery Text Config ModemAT Tasks.

Module Threads.

(** [within G m]: [m] makes no system call and changes the objects along [G]. *)
Definition within {W A} (G : Agent -> Agent -> Prop) (m : M Agent W A) : Prop :=
  forall s, let s' := snd (m s) in
    world s' = world s /\ trace s' = trace s /\ G (agent s) (agent s').

(** Neither queue is touched, nor a TCP port that is not [mine]; the modem goes with
    its port. *)
Definition others_kept (mine : tcp -> Prop) (a a' : Agent) : Prop :=
  (dataQueue a' = dataQueue a /\ statusQueue (protocol a') = statusQueue (protocol a)) /\
  (forall t, mine t \/ get_tcp t a' = get_tcp t a) /\ (mine UT_ATPort \/ modem a' = modem a).

Lemma others_kept_refl mine a : others_kept mine a a.
Proof. split_and!; auto. Qed.

(** A preorder on states, kept by every system call and by every step along [G] that
    makes none. *)
Class Follows {W} {E : Env Agent W} (mine : tcp -> Prop) (G : Agent -> Agent -> Prop) (R : st Agent W -> st Agent W -> Prop) : Prop := {
  follows_preorder :: PreOrder R;
  follows_sys : forall T (c : syscall T), keeps R (sys c);
  follows_within : forall A (m : M Agent W A), within G m -> keeps R m;
  follows_other : forall a a', others_kept mine a a' -> G a a' }.

(** ** Methods that leave the queues and the ports of other threads alone *)

Section Frame.
Context {W : Type} {E : Env Agent W} {mine : tcp -> Prop} {G : Agent -> Agent -> Prop} (R : st Agent W -> st Agent W -> Prop).
Context {HR : Follows mine G R} (sc : bool) (gmtoff : Z) (below : list byte) (fuel : nat).

Lemma modify_kept f : (forall a, others_kept mine a (f a)) -> keeps R (modify f).
Proof. intros Hf. apply follows_within. intros s. split_and!; [done..|]. apply follows_other, Hf. Qed.

(** An operation on one queue. *)
Lemma update_kept {X} (get : Agent -> X) (op : X -> option X) (set : X -> Agent -> Agent) :
  (forall a q, op (get a) = Some q -> G a (set q a)) ->
  keeps R (q <- gets get; q <- lift (op q); modify (set q)).
Proof.
  intros H. apply follows_within. intros s. unfold bind, gets.
  destruct (op _) as [q|] eqn:Hq; simpl; auto. split_and!; [done..|]. apply follows_other, others_kept_refl.
Qed.

Lemma sys_kept T (c : syscall T) : keeps R (sys c).
Proof. apply follows_sys. Qed.
Lemma tcp_set_kept t f : mine t -> keeps R (tcp_set (W := W) t f).
Proof.
  intros Ht. apply modify_kept. intros a. split_and!; [by destruct t|by destruct t| |].
  - intros t'. destruct t, t'; auto.
  - destruct t; auto.
Qed.
Lemma ser_set_kept f : keeps R (ser_set (W := W) f).
Proof. apply modify_kept. intros a. split_and!; try done; [|by right]. intros []; by right. Qed.
Lemma pset_kept f : (forall p, parts (f p) = parts p) -> keeps R (pset (W := W) f).
Proof.
  intros Hf. apply modify_kept. intros a. pose proof (Hf (protocol a)) as [= H1 H2 H3].
  split_and!; try done; [|by right]. intros []; by right.
Qed.
Lemma mset_kept f : mine UT_ATPort -> keeps R (mset (W := W) f).
Proof. intros Ht. apply modify_kept. intros a. split_and!; try done; [|by left]. intros []; auto. Qed.

#[local] Hint Resolve sys_kept tcp_set_kept ser_set_kept pset_kept mset_kept : core.
#[local] Hint Resolve sys_kept mset_kept : effects.
#[local] Hint Extern 1 (keeps _ (pset _)) => (apply pset_kept; intros; reflexivity) : effects.
#[local] Hint Extern 0 (may_change _ Serial) => (exact I) : core effects.
#[local] Hint Extern 0 (may_change _ (Tcp _)) => assumption : core effects.

Ltac by_frame L := intros; first [eapply (@L W E R _ mine)|eapply (@L W E R _)]; first [apply _|auto].
Lemma request_kept d : keeps R (RequestCurrentData (W := W) sc gmtoff fuel Serial d).
Proof. by_frame @RequestCurrentData_frame. Qed.
Lemma negotiate_kept t : mine t -> keeps R (NegoiateDataChannel (W := W) sc fuel t).
Proof. by_frame @NegoiateDataChannel_frame. Qed.
Lemma negotiate_control_kept t : mine t -> keeps R (NegoiateControlChannel (W := W) sc fuel t).
Proof. by_frame @NegoiateControlChannel_frame. Qed.
Lemma patrol_kept : keeps R (PatrolRest (W := W)).
Proof. by_frame @PatrolRest_frame. Qed.
Lemma sleep_kept : keeps R (SleepForPowerOn (W := W)).
Proof. by_frame @SleepForPowerOn_frame. Qed.
Lemma idle_kept : keeps R (IsTimeForSleep (W := W)).
Proof. by_frame @IsTimeForSleep_frame. Qed.
Lemma command_kept c : may_change mine c -> keeps R (GetCommand (W := W) sc fuel c).
Proof. by_frame @GetCommand_frame. Qed.
Lemma transfer_kept d c p : may_change mine d -> may_change mine c -> keeps R (TransferCmd (W := W) sc fuel d c p).
Proof. by_frame @TransferCmd_frame. Qed.
Lemma history_kept d c p : may_change mine d -> may_change mine c -> keeps R (HistoryDataTransfer (W := W) sc fuel d c p).
Proof. by_frame @HistoryDataTransfer_frame. Qed.
Lemma receive_kept c : may_change mine c -> keeps R (receive (W := W) sc fuel c).
Proof. by_frame @receive_frame. Qed.
Lemma ack_kept c : may_change mine c -> keeps R (ReceiveAckFrom (W := W) (ops c) fuel).
Proof. by_frame @ReceiveAckFrom_frame. Qed.
Lemma send_kept c p : may_change mine c -> keeps R (send (W := W) c p).
Proof. by_frame @send_frame. Qed.
Lemma send_data_kept c p : may_change mine c -> keeps R (send_data (W := W) fuel c p).
Proof. by_frame @send_data_frame. Qed.
Lemma reconnect_kept c : may_change mine c -> keeps R (reconnect (W := W) sc fuel c).
Proof. by_frame @reconnect_frame. Qed.
Lemma reserve_kept n b : keeps R (setReservedTime (W := W) n b).
Proof. by_frame @setReservedTime_frame. Qed.
Lemma close_kept t : mine t -> keeps R (tcp_Close (W := W) t).
Proof. by_frame @tcp_Close_frame. Qed.
Lemma open_kept c : may_change mine c -> keeps R (@Open W (ops c)).
Proof. by_frame @Open_frame. Qed.
Lemma isopen_kept t : keeps R (@IsOpen W (ops (Tcp t))).
Proof. apply keeps_gets, _. Qed.
Lemma open_dev_kept d : keeps R (ser_Open_dev (W := W) d).
Proof. by_frame @ser_Open_dev_frame. Qed.
Lemma mp_time_kept : keeps R (Protocol.GetMPTime (W := W) sc gmtoff fuel).
Proof. by_frame @GetMPTime_frame. Qed.
Lemma at_read_kept n : mine UT_ATPort -> keeps R (tcp_Read (W := W) UT_ATPort n).
Proof. exact (Read_frame _ sys_kept tcp_set_kept ser_set_kept (Tcp UT_ATPort) n). Qed.
Lemma at_write_kept b : mine UT_ATPort -> keeps R (tcp_Write (W := W) UT_ATPort b).
Proof. exact (Write_frame _ sys_kept tcp_set_kept ser_set_kept (Tcp UT_ATPort) b). Qed.
Lemma at_timeout_kept n : mine UT_ATPort -> keeps R (tcp_SetTimeOut (W := W) UT_ATPort n).
Proof. exact (SetTimeOut_frame _ sys_kept tcp_set_kept ser_set_kept (Tcp UT_ATPort) n). Qed.
#[local] Hint Resolve at_read_kept at_write_kept at_timeout_kept : core.
#[local] Hint Resolve open_kept close_kept : effects.

Lemma power_step_kept x : mine UT_ATPort -> keeps R (power_step (W := W) below fuel x).
Proof.
  intros Hat. destruct x as [a b]. pose proof (build_context_frame (E := E) below fuel R) as Hb.
  pose proof (CheckContext_frame (E := E) below fuel R) as Hc.
  pose proof (ConnectIP_frame (E := E) below fuel R) as Hi.
  unfold power_step, mget. effects; auto.
Qed.
Lemma PowerOn_kept : mine UT_ATPort -> keeps R (PowerOn (W := W) below fuel).
Proof.
  intros Hat. assert (forall k, keeps R (open_at (W := W) k)) by (induction k; cbn [open_at]; effects).
  assert (keeps R (UT_Reset (W := W) fuel)) by (apply UT_Reset_frame; first [apply _|auto]).
  pose proof power_step_kept. unfold PowerOn. effects.
Qed.
Lemma PowerOff_kept : mine UT_ATPort -> keeps R (PowerOff (W := W) fuel).
Proof.
  intros Hat. assert (forall k, keeps R (disconnect (W := W) fuel k)) by (intros k; apply disconnect_frame; first [apply _|auto]).
  unfold PowerOff, off_step. effects.
Qed.
Lemma acquire_kept get : keeps R (acquire (W := W) fuel get).
Proof. unfold acquire. effects. Qed.
Lemma save_packets_kept fd l : keeps R (save_packets (W := W) fd l).
Proof. induction l; simpl; effects. Qed.
#[local] Hint Resolve acquire_kept save_packets_kept : effects.

(** Saving locks and unlocks the mutex and changes nothing else. *)
Lemma SaveData_kept :
  (forall a q, queue q = queue (dataQueue a) -> G a (set_dataQueue q a)) -> keeps R (SaveData (W := W) fuel).
Proof.
  intros Hm.
  assert (keeps R (lock_queue (W := W) fuel dataQueue set_dataQueue)).
  { apply keeps_bind; [apply _|apply acquire_kept|intros _]. apply update_kept. intros a q Hq. apply Hm.
    unfold lock in Hq. destruct (mutex _); [done|]. by injection Hq as <-. }
  assert (keeps R (unlock_queue (W := W) dataQueue set_dataQueue)).
  { apply follows_within. intros s. split_and!; [done..|]. by apply Hm. }
  unfold SaveData, save_queue, dq_get. effects.
Qed.
End Frame.

#[export] Hint Extern 0 (Follows _ _ _) => (typeclasses eauto) : effects.
#[export] Hint Extern 0 (may_change _ Serial) => (exact I) : effects.
#[export] Hint Extern 0 (may_change _ (Tcp _)) => assumption : effects.
#[export] Hint Resolve request_kept negotiate_kept negotiate_control_kept patrol_kept sleep_kept idle_kept
  command_kept transfer_kept history_kept receive_kept ack_kept send_kept send_data_kept reconnect_kept
  reserve_kept close_kept open_kept isopen_kept open_dev_kept mp_time_kept PowerOn_kept PowerOff_kept
  acquire_kept sys_kept mset_kept : effects.
#[export] Hint Extern 0 (Follows _ _) => (typeclasses eauto) : effects.
#[export] Hint Extern 1 (keeps _ (pset _)) => (eapply pset_kept; [typeclasses eauto|intros; reflexivity]) : effects.

Lemma turns_keeps {W X} (R : st Agent W -> st Agent W -> Prop) `{!PreOrder R} n (body : X -> M Agent W X) x :
  (forall x, keeps R (body x)) -> keeps R (turns n body x).
Proof. intros Hb. revert x. induction n; intros x; simpl; effects. Qed.

(** ** What comes from the post *)

(** When a frame received from the post satisfies [P], so does what the methods that
    ask the post return; or they return nothing. *)
Section Post.
Context {W : Type} {E : Env Agent W} (sc : bool) (gmtoff : Z) (fuel : nat) (P : packet -> Prop).

Definition none_or (p : packet) : Prop := p = [] \/ P p.

Hypothesis HP : yields (fun r => none_or (snd r)) (ReceiveFrameFrom (W := W) sc (ops Serial) fuel).

Lemma receive_yields : yields none_or (receive (W := W) sc fuel Serial).
Proof.
  unfold receive. eapply yields_bind; [exact HP|]. intros [[e|] p] Hp; [apply yields_throw|by apply yields_mret].
Qed.

Lemma request_step_yields request d :
  none_or d -> yields (fun r => none_or (snd r)) (request_step (W := W) sc fuel Serial request d).
Proof.
  intros Hd. unfold request_step. apply yields_bind_any. intros [e|u]; [by apply yields_mret|].
  eapply yields_bind; [exact HP|]. intros [[e|] p] Hp; [by apply yields_mret|].
  apply yields_bind_any. intros eCmd.
  apply (yields_bind (fun r => none_or (snd r))); [case_decide; [by apply yields_mret|exact HP]|].
  intros [[e|] p'] Hp'; by apply yields_mret.
Qed.

Lemma request_loop_yields request k d :
  none_or d -> yields (fun r => none_or (snd r)) (request_loop (W := W) sc fuel Serial request k d).
Proof.
  revert d. induction k as [|k IH]; intros d Hd; simpl; [by apply yields_mret|].
  eapply yields_bind; [by apply request_step_yields|]. intros [[] p] Hp; simpl; [by apply yields_mret|by apply IH].
Qed.

Lemma request_yields d :
  none_or d -> yields none_or (RequestCurrentData (W := W) sc gmtoff fuel Serial d).
Proof.
  intros Hd. unfold RequestCurrentData.
  do 2 (apply yields_bind_any; intros ?). case_bool; [by apply yields_mret|].
  do 10 (apply yields_bind_any; intros ?).
  eapply yields_bind; [by apply request_loop_yields|].
  intros [k p] Hp. do 3 (apply yields_bind_any; intros _). by apply yields_mret.
Qed.

(** A status that is valid is not the empty packet. *)
Lemma status_is_frame p : none_or p -> IsValidStatus p = Some true -> P p.
Proof. by intros [->|Hp]. Qed.
End Post.

(** In any environment what is received is a frame or nothing. *)
Lemma serial_frames {W} {E : Env Agent W} sc fuel :
  yields (fun r => none_or (frame sc) (snd r)) (ReceiveFrameFrom (W := W) sc (ops Serial) fuel).
Proof.
  intros s. pose proof (ReceiveFrameFrom_serial (E := E) sc fuel s) as Hs.
  destruct (ReceiveFrameFrom sc (ops Serial) fuel s) as [[[e p]|e| |] s'] eqn:Hr; simpl in *; try done.
  subst e. by eapply ReceiveFrameFrom_valid.
Qed.

(** ** The reading thread *)

Section Reader.
Context {W : Type} {E : Env Agent W} {mine : tcp -> Prop} {G : Agent -> Agent -> Prop} (R : st Agent W -> st Agent W -> Prop).
Context {HR : Follows mine G R} (sc : bool) (gmtoff : Z) (fuel : nat) (P : packet -> Prop).

Hypothesis HP : yields (fun r => none_or P (snd r)) (ReceiveFrameFrom (W := W) sc (ops Serial) fuel).
Hypothesis Hpush : forall p a q,
  P p -> Push (dataQueue a) p = Some q -> G a (set_dataQueue q a).
Hypothesis Hstatus : forall p a q,
  P p -> Push (statusQueue (protocol a)) p = Some q -> G a (upd_protocol (set_statusQueue q) a).

Hypothesis Hsave : keeps R (SaveData fuel).

Lemma dq_push_keeps p : P p -> keeps R (dq_push fuel p).
Proof.
  intros Hp. apply keeps_bind; [apply _|effects|intros _].
  apply (update_kept R dataQueue (fun q => Push q p) set_dataQueue). eauto.
Qed.
Lemma status_push_keeps p : P p -> keeps R (status_push fuel p).
Proof.
  intros Hp. apply keeps_bind; [apply _|effects|intros _]. apply (update_kept R (fun a => statusQueue (protocol a)) (fun q => Push q p)
    (fun q => upd_protocol (set_statusQueue q))). eauto.
Qed.

(** The status queue takes a status that came from the post. *)
Lemma HealthCheck_keeps p : keeps R (HealthCheck sc fuel Serial p).
Proof.
  unfold HealthCheck, isTimeForAction, pget.
  do 2 (apply keeps_bind; [apply _|effects|intros ?]). case_bool; [effects|].
  do 8 (apply keeps_bind; [apply _|effects|intros ?]).
  apply (keeps_bind_yields _ (none_or P)); [effects|by apply receive_yields|]. intros status Hw.
  do 2 (apply keeps_bind; [apply _|effects|intros ?]).
  apply (keeps_bind_yields _ (fun v => IsValidStatus status = Some v)); [effects|by apply yields_lift|].
  intros [|] Hv; cbn [negb]; [|effects]. effects. by apply status_push_keeps, (status_is_frame P).
Qed.
#[local] Hint Resolve HealthCheck_keeps : effects.

(** Every turn starts with an empty packet. *)
Lemma read_turn_keeps : keeps R (read_turn sc gmtoff fuel []).
Proof.
  unfold read_turn. apply (keeps_bind_yields _ (none_or P)); [effects|apply request_yields; [done|by left]|].
  intros p Hw. apply keeps_bind; [apply _| |intros d; effects].
  destruct (Packet.GetSize p =? 0) eqn:Hp; [effects|]. effects.
  apply dq_push_keeps. by destruct Hw as [->|].
Qed.

Lemma read_turn_empties d : yields (fun d => d = []) (read_turn (W := W) sc gmtoff fuel d).
Proof. unfold read_turn. do 4 (apply yields_bind_any; intros ?). by apply yields_mret. Qed.

Lemma doReadData_keeps n : keeps R (doReadData sc gmtoff fuel n).
Proof.
  unfold doReadData. induction n as [|n IH]; simpl; [effects|].
  apply (keeps_bind_yields _ (fun d => d = [])); [apply read_turn_keeps|apply read_turn_empties|].
  by intros ? ->.
Qed.
End Reader.

(** ** The data thread *)

Section Sender.
Context {W : Type} {E : Env Agent W} {mine : tcp -> Prop} {G : Agent -> Agent -> Prop} (R : st Agent W -> st Agent W -> Prop).
Context {HR : Follows mine G R} (sc : bool) (fuel : nat).

Hypothesis Hstatus : forall a q,
  PacketQueue.Pop (statusQueue (protocol a)) = Some q -> G a (upd_protocol (set_statusQueue q) a).

Lemma status_pop_keeps : keeps R (status_pop fuel).
Proof.
  apply keeps_bind; [apply _|effects|intros _].
  by apply (update_kept R (fun a => statusQueue (protocol a)) PacketQueue.Pop (fun q => upd_protocol (set_statusQueue q))).
Qed.
#[local] Hint Resolve status_pop_keeps : effects.

Lemma HealthCheckReport_keeps t : mine t -> keeps R (HealthCheckReport fuel (Tcp t)).
Proof. intros Ht. unfold HealthCheckReport, pget. effects. unfold report_step, pget. effects. Qed.
#[local] Hint Resolve HealthCheckReport_keeps : effects.

(** The turns of the thread, given what sending the data keeps. *)
Lemma data_turns_keeps n :
  mine srvData -> keeps R (SendCurrentData sc fuel (Tcp srvData)) -> keeps R (turns n (data_turn sc fuel) tt).
Proof. intros Hd Hs. apply turns_keeps; [apply _|]. intros []. unfold data_turn, IsPowerOff, pget. effects. Qed.

Hypothesis Hpop : forall a q, PacketQueue.Pop (dataQueue a) = Some q -> G a (set_dataQueue q a).

Lemma dq_pop_keeps : keeps R (dq_pop fuel).
Proof. apply keeps_bind; [apply _|effects|intros _]. by apply (update_kept R dataQueue PacketQueue.Pop set_dataQueue). Qed.
#[local] Hint Resolve dq_pop_keeps : effects.

Lemma SendCurrentData_keeps c : may_change mine c -> keeps R (SendCurrentData sc fuel c).
Proof. unfold SendCurrentData, send_step, judge_ack, dq_get, IsPowerOff, pget. effects. Qed.
End Sender.

(** ** The control thread and the main thread *)

Section Controller.
Context {W : Type} {E : Env Agent W} {mine : tcp -> Prop} {G : Agent -> Agent -> Prop} (R : st Agent W -> st Agent W -> Prop).
Context {HR : Follows mine G R} (sc : bool) (below : list byte) (fuel : nat).

Lemma control_process_keeps n :
  mine srvControl -> mine UT_ATPort -> keeps R (control_process sc below fuel n).
Proof.
  intros Hc Hat. apply turns_keeps; [apply _|]. intros [].
  unfold control_turn, ensure_power, sleep_if_idle, dispatch, control_failed, IsUnReachable, IsPowerOff, tcp_get, pget.
  effects.
Qed.

Lemma watch_power_keeps fd : keeps R (SaveData fuel) -> keeps R (watch_power fuel fd).
Proof. intros Hs. unfold watch_power, wait_forever. effects. Qed.
End Controller.

End Threads.
