(* ===== verification/Interleaving.v ===== *)
(** * Interleaving: the threads together

    The reading thread, the data thread, the control thread and the main thread run
    over one [Agent].  They are scheduled at their system calls: what a thread does
    between two calls is a segment, and an execution of the program is a sequence of
    segments of the threads, each starting from the objects the one before it left.

    A thread is run by answering its calls from a history: for each call what the
    kernel answered and the objects as the thread found them when it went on.  The
    call after the last of the history has not returned yet. *)

From S2P Require Import Prelude CRC16 Packet PacketQueue Sys Effects Agent Channel Receive Traffic Protocol Delivery Text Config Atof ModemAT Tasks Threads.
Import PacketQueue Packet Sys Effects Agent Channel Receive Traffic Protocol Delivery Text Config ModemAT Tasks Threads.

Module Interleaving.

(** ** One thread *)

(** The kernel's answer to whatever call is made; [recv] delivers at most what was
    asked for. *)
Record answer := mkAnswer {
  reply : forall T, syscall T -> T;
  reply_recv : forall fd len l, reply _ (sys_recv fd len) = IoData l -> (length l <= Z.to_nat len)%nat }.

(** A history, and the calls answered so far: the objects at the call and the objects
    after it. *)
Record replay := mkReplay { todo : list (answer * Agent); answered : list (Agent * Agent) }.

#[global] Instance replay_env : Env Agent replay := fun T c a w =>
  match todo w with
  | [] => None
  | (k, a') :: rest => Some (reply k T c, a', mkReplay rest (answered w ++ [(a, a')]))
  end.

(** The segments of a thread that started at [a0], had [dn] answered, and is at [a]. *)
Fixpoint segs (a0 : Agent) (dn : list (Agent * Agent)) (a : Agent) : list (Agent * Agent) :=
  match dn with
  | [] => [(a0, a)]
  | (x, y) :: dn => (a0, x) :: segs y dn a
  end.

Lemma segs_snoc a0 dn x y a : segs a0 (dn ++ [(x, y)]) a = segs a0 dn x ++ [(y, a)].
Proof. revert a0. induction dn as [|[x1 y1] dn IH]; intros a0; simpl; [done|]. by rewrite IH. Qed.

(** All segments follow [G]. *)
Definition along (G : Agent -> Agent -> Prop) (l : list (Agent * Agent)) : Prop :=
  Forall (fun p => G (fst p) (snd p)) l.

Lemma along_last G `{!Transitive G} a0 dn a b : G a b -> along G (segs a0 dn a) -> along G (segs a0 dn b).
Proof.
  intros Hab. revert a0. unfold along. induction dn as [|[x y] dn IH]; intros a0; simpl.
  - rewrite !Forall_singleton. simpl. intros H. by etrans.
  - rewrite !Forall_cons. intros [H1 H2]. auto.
Qed.

(** A computation each of whose steps follows [G] runs in segments that follow [G],
    whatever happens during its system calls. *)
Section Segments.
Context (mine : tcp -> Prop) (G : Agent -> Agent -> Prop) `{!PreOrder G}.
Hypothesis Gother : forall a a', others_kept mine a a' -> G a a'.
Context (a0 : Agent).

Definition segmented (s s' : st Agent replay) : Prop :=
  along G (segs a0 (answered (world s)) (agent s)) -> along G (segs a0 (answered (world s')) (agent s')).

#[export] Instance segmented_follows : Follows mine G segmented.
Proof.
  split; [|intros T c s|intros A m Hm s|done].
  - split; unfold segmented; [by intros s|intros s1 s2 s3; auto].
  - unfold sys, env_step, replay_env. destruct (todo (world s)) as [|[k a'] rest]; [by intros H|].
    intros H. simpl. rewrite segs_snoc. apply Forall_app. split; [done|].
    apply Forall_singleton. simpl. reflexivity.
  - destruct (Hm s) as (Hw & _ & HG). unfold segmented. rewrite Hw. apply along_last; [apply _|done].
Qed.
End Segments.

(** ** The program *)

Inductive task := Reader | Sender | Controller | Watcher.

#[global] Instance task_eq_dec : EqDecision task.
Proof. solve_decision. Defined.

(** A schedule: the segments in the order in which they ran. *)
Abbreviation schedule := (list (task * (Agent * Agent))).

Section Program.
Context (sc : bool) (gmtoff : Z) (below : list byte) (fuel turns_made : nat) (event0 : Z).

(** The threads from the moment the reading thread exists: [DataTask::doProcess] has
    loaded the queue and [main_work] has opened [/dev/event0] as [event0].  They are
    followed for any number of turns. *)
Definition program (t : task) {W} {E : Env Agent W} : M Agent W unit :=
  match t with
  | Reader => doReadData sc gmtoff fuel turns_made;; mret tt
  | Sender => turns turns_made (data_turn sc fuel) tt
  | Controller => control_process sc below fuel turns_made
  | Watcher => watch_power fuel event0;; mret tt
  end.

(** A thread started at [a0] with history [h], after its last segment. *)
Definition after (t : task) (a0 : Agent) (h : list (answer * Agent)) : st Agent replay :=
  snd (program t (mkSt a0 (mkReplay h []) [])).

Definition segments (t : task) (a0 : Agent) (h : list (answer * Agent)) : list (Agent * Agent) :=
  let s := after t a0 h in segs a0 (answered (world s)) (agent s).

(** ** Executions *)

(** What a thread is known to have done: [None] before it starts. *)
Definition histories := task -> option (Agent * list (answer * Agent)).

Definition thread_segments (hs : histories) (t : task) : list (Agent * Agent) :=
  match hs t with None => [] | Some (a0, h) => segments t a0 h end.

Definition own (t : task) (l : schedule) : list (Agent * Agent) :=
  snd <$> filter (fun x => fst x = t) l.

(** Each segment starts where the one before it ended. *)
Fixpoint chained (a : Agent) (l : schedule) (b : Agent) : Prop :=
  match l with
  | [] => a = b
  | (_, (x, y)) :: l => a = x /\ chained y l b
  end.

(** The program goes from [a] to [b] by schedule [l]. *)
Record execution (hs : histories) (a : Agent) (l : schedule) (b : Agent) : Prop := {
  exec_chained : chained a l b;
  exec_threads : forall t, own t l = thread_segments hs t }.

Lemma own_cons t x l : own t (x :: l) = if decide (fst x = t) then snd x :: own t l else own t l.
Proof. unfold own. rewrite filter_cons. by case_decide. Qed.

Lemma own_all (P : task -> Agent * Agent -> Prop) l :
  (forall t, Forall (P t) (own t l)) -> Forall (fun x => P (fst x) (snd x)) l.
Proof.
  intros H. apply Forall_forall. intros [t x] Hx. simpl.
  assert (Hin : x ∈ own t l).
  { unfold own. apply list_elem_of_fmap. exists (t, x). split; [done|]. by apply list_elem_of_filter. }
  specialize (H t). rewrite Forall_forall in H. by apply H.
Qed.

Lemma segments_along G `{!PreOrder G} t a0 h :
  keeps (segmented G a0) (program t) -> along G (segments t a0 h).
Proof. intros Hk. apply (Hk (mkSt a0 (mkReplay h []) [])). simpl. by apply Forall_singleton. Qed.

Lemma execution_along (G : task -> Agent -> Agent -> Prop) hs a l b :
  (forall t a0 h, along (G t) (segments t a0 h)) -> execution hs a l b ->
  Forall (fun x => G (fst x) (fst (snd x)) (snd (snd x))) l.
Proof.
  intros HG [_ Ht]. apply (own_all (fun t x => G t (fst x) (snd x))). intros t. rewrite Ht.
  unfold thread_segments. destruct (hs t) as [[a0 h]|]; [apply HG|constructor].
Qed.

(** ** The queues are in order at all times *)

(** A queue is in order: complete frames, no data number twice.  Its mutex may be held
    by a thread that is saving it. *)
Definition data_in_order (a : Agent) : Prop := queue_wf sc (unlock (dataQueue a)).
Definition status_in_order (a : Agent) : Prop := queue_wf sc (unlock (statusQueue (protocol a))).

Definition wf_kept (a a' : Agent) : Prop :=
  (data_in_order a -> data_in_order a') /\ (status_in_order a -> status_in_order a').

#[local] Instance wf_kept_preorder : PreOrder wf_kept.
Proof. split; [by split|]. intros a1 a2 a3 [] []. split; auto. Qed.

Lemma wf_kept_other a a' : others_kept any_port a a' -> wf_kept a a'.
Proof. intros [[H1 H2] _]. unfold wf_kept, data_in_order, status_in_order. by rewrite H1, H2. Qed.

Lemma wf_kept_mutex a q : queue q = queue (dataQueue a) -> wf_kept a (set_dataQueue q a).
Proof. intros Hq. split; [|done]. unfold data_in_order, unlock. simpl. by rewrite Hq. Qed.

Lemma program_wf t a0 h : along wf_kept (segments t a0 h).
Proof.
  apply segments_along; [apply _|]. pose proof (segmented_follows any_port wf_kept wf_kept_other a0) as HF.
  assert (forall a q, PacketQueue.Pop (dataQueue a) = Some q -> wf_kept a (set_dataQueue q a)).
  { intros a q Hq. split; [|done]. intros H. by eapply Pop_in_order. }
  assert (forall a q, PacketQueue.Pop (statusQueue (protocol a)) = Some q -> wf_kept a (upd_protocol (set_statusQueue q) a)).
  { intros a q Hq. split; [done|]. intros H'. by eapply Pop_in_order. }
  pose proof (SaveData_kept _ (HR := HF) fuel wf_kept_mutex) as Hsave. destruct t; simpl.
  - apply keeps_bind; [apply _| |effects]. apply (doReadData_keeps _ (HR := HF) _ _ _ (frame sc)); [apply serial_frames|..|done].
    + intros p a q Hp Hq. split; [|done]. intros Hw. by eapply Push_in_order.
    + intros p a q Hp Hq. split; [done|]. intros Hw. by eapply Push_in_order.
  - apply (data_turns_keeps _ (HR := HF)); [done|done|]. by apply (SendCurrentData_keeps _ (HR := HF)).
  - by apply (control_process_keeps _ (HR := HF)).
  - apply keeps_bind; [apply _|by apply (watch_power_keeps _ (HR := HF))|effects].
Qed.

(** Both queues in order. *)
Definition queues_wf (a : Agent) : Prop := data_in_order a /\ status_in_order a.

Lemma chained_wf a l b :
  chained a l b -> Forall (fun x => wf_kept (fst (snd x)) (snd (snd x))) l -> queues_wf a ->
  Forall (fun x => queues_wf (snd (snd x))) l.
Proof.
  revert a. induction l as [|[t [x y]] l IH]; intros a Hc Hk Ha; [constructor|].
  destruct Hc as [-> Hc]. apply Forall_cons in Hk as [[H1 H2] Hk].
  assert (queues_wf y) by (destruct Ha; split; auto).
  apply Forall_cons. split; [done|]. by eapply IH.
Qed.

(** *** The start *)

Section Start.
Context {W : Type} {E : Env Agent W}.

(** Whatever else runs keeps the queues in order. *)
Hypothesis Henv : forall T (c : syscall T) a w r a' w', env_step c a w = Some (r, a', w') -> wf_kept a a'.

Definition stays_wf (s s' : st Agent W) : Prop := wf_kept (agent s) (agent s').

#[local] Instance stays_wf_follows : Follows any_port wf_kept stays_wf.
Proof.
  split; [|intros T c s|intros A m Hm s; apply Hm|apply wf_kept_other].
  - split; [intros s|intros s1 s2 s3 H1 H2]; unfold stays_wf in *; [done|by etrans].
  - unfold sys. destruct (env_step c _ _) as [[[r a] w]|] eqn:He; [|done]. by eapply Henv.
Qed.

(** A step once the status queue exists. *)
Lemma wp_then {A B} (m : M Agent W A) (f : A -> M Agent W B) Q s :
  keeps stays_wf m -> status_in_order (agent s) ->
  (forall a s', status_in_order (agent s') -> wp (f a) (on_ok Q) s') -> wp (bind m f) (on_ok Q) s.
Proof.
  intros Hk Hs H. apply wp_bind, (wp_keeps stays_wf); [done|]. intros [] s' [_ Hk']; try done. auto.
Qed.

Lemma load_data_wf : keeps stays_wf (load_data sc).
Proof.
  unfold load_data. apply keeps_bind; [apply _|effects|intros f].
  apply (update_kept _ dataQueue (Load sc f) set_dataQueue).
  intros a q Hq. split; [|done]. intros H. by eapply Load_in_order.
Qed.
Lemma LoadStatus_wf : keeps stays_wf (LoadStatus sc).
Proof.
  unfold LoadStatus. apply keeps_bind; [apply _|effects|intros f].
  apply (update_kept _ (fun a => statusQueue (protocol a)) (Load sc f) (fun q => upd_protocol (set_statusQueue q))).
  intros a q Hq. split; [done|]. intros H. by eapply Load_in_order.
Qed.
#[local] Hint Resolve load_data_wf LoadStatus_wf : effects.

Lemma startup_wf (s : st Agent W) :
  wp (startup sc gmtoff below fuel) (on_ok (fun _ s' => queues_wf (agent s'))) s.
Proof.
  assert (Hconf : forall A (f : _ -> _ -> option A), keeps stays_wf (conf (W := W) below f)) by (intros; unfold conf; effects).
  assert (Hclock : forall n, keeps stays_wf (set_clock (W := W) sc gmtoff fuel n)) by (intros; unfold set_clock; effects).
  unfold startup. do 6 (apply wp_any_then; intros ? ?).
  apply wp_bind, (wp_mono _ (on_ok (fun _ s' => status_in_order (agent s')))).
  - intros [] s1 Hs; try done.
    do 4 (apply wp_then; [effects; auto|done|]; intros ? ? ?). split; [apply newQueue_wf|done].
  - unfold new_protocol. do 2 (apply wp_any_then; intros ? ?). apply wp_bind, wp_modify. set (s1 := mkSt _ _ _).
    assert (status_in_order (agent s1)) by apply newQueue_wf. clearbody s1.
    do 7 (apply wp_then; [effects; auto|done|]; intros ? ? ?). done.
Qed.

(** C2. Both queues hold, at every system call of every thread, complete frames with
    correct check sums, none with the data number of another, also while a thread is in
    the middle of saving: after the start and the loading of the saved data, in every
    interleaving of the threads, whatever files, post, server and modem deliver.  It is
    assumed that the thread that does the start is not disturbed in the queues. *)
Theorem queues_stay_well_formed (s : st Agent W) :
  wp (startup sc gmtoff below fuel;; load_data sc) (on_ok (fun _ s' =>
    queues_wf (agent s') /\
    forall hs l b, execution hs (agent s') l b -> Forall (fun x => queues_wf (snd (snd x))) l)) s.
Proof.
  apply wp_bind. eapply wp_mono; [|apply startup_wf]. intros [[]|e| |] s1 H1; try done. simpl in H1.
  apply (wp_keeps stays_wf); [apply load_data_wf|]. intros [[]|e| |] s2 [Hd Hs]; try done. simpl.
  assert (H2 : queues_wf (agent s2)) by (destruct H1; split; auto). split; [done|].
  intros hs l b He. eapply chained_wf; [apply He| |exact H2].
  by eapply (execution_along (fun _ => wf_kept)); [apply program_wf|].
Qed.
End Start.

(** ** Every port has one owner *)

(** The thread that drives a TCP port; the modem goes with its port. *)
Definition owner (p : tcp) : task :=
  match p with srvData => Sender | srvControl | UT_ATPort => Controller end.

(** Port [p], and the modem behind it, are left alone. *)
Definition left_alone (p : tcp) (a a' : Agent) : Prop :=
  get_tcp p a' = get_tcp p a /\ (p = UT_ATPort -> modem a' = modem a).

#[local] Instance left_alone_preorder p : PreOrder (left_alone p).
Proof. split; [done|]. intros a1 a2 a3 [H1 H2] [H3 H4]. split; [congruence|]. intros Hp. by rewrite H4, H2. Qed.

(** A thread changes no port but its own. *)
Definition owned (t : task) (a a' : Agent) : Prop := forall p, owner p <> t -> left_alone p a a'.

#[local] Instance owned_preorder t : PreOrder (owned t).
Proof. split; [intros a p _; reflexivity|]. intros a1 a2 a3 H1 H2 p Hp. by etrans; [apply H1|apply H2]. Qed.

Lemma owned_other t a a' : others_kept (fun p => owner p = t) a a' -> owned t a a'.
Proof.
  intros (_ & Ht & Hm) p Hp. destruct (Ht p) as [?|Hg]; [done|]. split; [done|].
  intros ->. by destruct Hm.
Qed.

Lemma program_owned t a0 h : along (owned t) (segments t a0 h).
Proof.
  apply segments_along; [apply _|].
  pose proof (segmented_follows (fun p => owner p = t) (owned t) (owned_other t) a0) as HF.
  assert (Hq : forall a q, owned t a (set_dataQueue q a)) by (intros a q []; done).
  assert (Hs : forall a q, owned t a (upd_protocol (set_statusQueue q) a)) by (intros a q []; done).
  pose proof (SaveData_kept _ (HR := HF) fuel (fun a q _ => Hq a q)) as Hsave. destruct t; simpl.
  - apply keeps_bind; [apply _| |effects]. apply (doReadData_keeps _ (HR := HF) _ _ _ (frame sc)); [apply serial_frames|auto..].
  - apply (data_turns_keeps _ (HR := HF)); [auto|done|]. by apply (SendCurrentData_keeps _ (HR := HF)).
  - by apply (control_process_keeps _ (HR := HF)).
  - apply keeps_bind; [apply _|by apply (watch_power_keeps _ (HR := HF))|effects].
Qed.

(** What the segments of the other threads keep is kept during the calls of [t]. *)
Lemma calls_of K `{!PreOrder K} t l a b a0 dn z :
  chained a l b -> Forall (fun x => fst x <> t -> K (fst (snd x)) (snd (snd x))) l ->
  own t l = segs a0 dn z -> along K dn /\ K a a0.
Proof.
  revert a a0 dn. induction l as [|[t' [x y]] l IH]; intros a a0 dn Hc Hk Ho.
  { by destruct dn as [|[]]. }
  destruct Hc as [-> Hc]. apply Forall_cons in Hk as [Hk1 Hk]. rewrite own_cons in Ho. simpl in *.
  destruct (decide (t' = t)) as [->|Hn].
  - destruct dn as [|[x1 y1] dn]; simpl in Ho; injection Ho as -> -> Ho; [by split; [constructor|]|].
    apply (IH x1) in Ho as [Hdn Hy]; [|done..]. split; [by apply Forall_cons|done].
  - apply (IH y) in Ho as [Hdn Hy]; [|done..]. split; [done|]. etrans; [by apply Hk1|done].
Qed.

(** C3. Each TCP port belongs to one thread: in every execution, while a thread waits in
    a system call, the other threads change neither a port that it drives nor, if that
    is the modem's port, the modem. *)
Theorem ports_have_one_owner hs a l b p a0 h :
  execution hs a l b -> hs (owner p) = Some (a0, h) ->
  along (left_alone p) (answered (world (after (owner p) a0 h))).
Proof.
  intros He Hh. destruct (He) as [Hc Ht]. specialize (Ht (owner p)). unfold thread_segments in Ht.
  rewrite Hh in Ht. eapply (calls_of (left_alone p)); [exact Hc| |exact Ht].
  eapply Forall_impl; [by eapply (execution_along owned); [apply program_owned|]|].
  intros [t [x y]] Ho Hn. by apply Ho.
Qed.

(** ** No data is lost *)

Abbreviation dq a := (queue (dataQueue a)).

Definition only_pushes (a a' : Agent) : Prop := exists new, dq a' = dq a ++ new.

#[local] Instance only_pushes_preorder : PreOrder only_pushes.
Proof.
  split; [intros a; exists []; by rewrite app_nil_r|].
  intros a1 a2 a3 [n1 H1] [n2 H2]. exists (n1 ++ n2). by rewrite H2, H1, app_assoc.
Qed.

Lemma only_pushes_other a a' : others_kept any_port a a' -> only_pushes a a'.
Proof. intros [[H _] _]. exists []. by rewrite H, app_nil_r. Qed.

(** What was pushed. *)
Definition gap (a a' : Agent) : list packet := drop (length (dq a)) (dq a').

Lemma only_pushes_gap a a' : only_pushes a a' -> dq a' = dq a ++ gap a a'.
Proof. intros [new H]. unfold gap. by rewrite H, drop_app_length. Qed.

Lemma Push_only_pushes p a q : Push (dataQueue a) p = Some q -> only_pushes a (set_dataQueue q a).
Proof.
  unfold Push, lock. destruct (mutex _); [done|]. simpl. destruct (GetDataNo p); [|done]. simpl.
  destruct (negb _); [destruct (has_no _ _) as [[|]|]; [..|done]|]; intros [= <-];
    [exists []|by exists [p]|exists []]; simpl; by rewrite app_nil_r.
Qed.

(** Only the data thread takes packets out of the data queue. *)
Lemma others_only_push t a0 h : t <> Sender -> along only_pushes (segments t a0 h).
Proof.
  intros Ht. apply segments_along; [apply _|].
  pose proof (segmented_follows any_port only_pushes only_pushes_other a0) as HF.
  assert (Hsave : keeps (segmented only_pushes a0) (SaveData fuel)).
  { apply (SaveData_kept _ (HR := HF)). intros a q Hq. exists []. by rewrite app_nil_r. }
  destruct t; [|done|..]; simpl.
  - apply keeps_bind; [apply _| |effects]. apply (doReadData_keeps _ (HR := HF) _ _ _ (frame sc)); [apply serial_frames|..|done].
    + intros p a q _. apply Push_only_pushes.
    + intros p a q _ _. exists []. by rewrite app_nil_r.
  - by apply (control_process_keeps _ (HR := HF)).
  - apply keeps_bind; [apply _|by apply (watch_power_keeps _ (HR := HF))|effects].
Qed.

(** The data thread's view: what the others pushed during its calls. *)
Definition pushed (w : replay) : list packet := concat ((fun p => gap (fst p) (snd p)) <$> answered w).
Definition compliant (w : replay) : Prop := along only_pushes (answered w).

Lemma replay_others_push : others_push (E := replay_env) pushed compliant.
Proof.
  intros T c a w r a' w' H Hc. unfold env_step, replay_env in H.
  destruct (todo w) as [|[k a1] rest]; [done|]. injection H as _ <- <-.
  unfold compliant, along in Hc. apply Forall_app in Hc as [Hc Hlast]. split; [done|].
  exists (gap a a1). split; [|unfold pushed; cbn [answered]; rewrite fmap_app, concat_app; simpl; by rewrite app_nil_r].
  apply only_pushes_gap. by rewrite Forall_singleton in Hlast.
Qed.

Lemma replay_recv_bounded : recv_bounded replay_env.
Proof.
  intros fd len a w l a' w' H. unfold env_step, replay_env in H.
  destruct (todo w) as [|[k a1] rest]; [done|]. injection H as Hr _ _. by eapply reply_recv.
Qed.

#[local] Instance advances_follows :
  Follows any_port (fun a a' => dataQueue a' = dataQueue a) (advances (W := replay) pushed compliant).
Proof.
  split; [apply advances_preorder|intros T c|intros A m Hm s|by intros a a' [[]]].
  - apply keeps_appended_advances, sys_appended, replay_others_push.
  - apply appended_advances. destruct (Hm s) as (Hw & Ht & Hq). intros Hc. rewrite Hw in *.
    split; [done|]. exists [], []. by rewrite Ht, Hq, !app_nil_r.
Qed.

Lemma sender_advances : keeps (advances pushed compliant) (program Sender).
Proof.
  apply (data_turns_keeps _ (mine := any_port) (G := fun a a' => dataQueue a' = dataQueue a)); [done..|].
  apply SendCurrentData_advances; [apply replay_others_push|apply replay_recv_bounded].
Qed.

(** What the other threads pushed in a schedule. *)
Definition arrived (l : schedule) : list packet :=
  concat ((fun x => if decide (fst x = Sender) then [] else gap (fst (snd x)) (snd (snd x))) <$> l).

Lemma arrived_cons t x y l :
  arrived ((t, (x, y)) :: l) = (if decide (t = Sender) then [] else gap x y) ++ arrived l.
Proof. done. Qed.

Definition others_push_in (l : schedule) : Prop :=
  Forall (fun x => fst x <> Sender -> only_pushes (fst (snd x)) (snd (snd x))) l.

Lemma no_sender_gap a l b :
  chained a l b -> others_push_in l -> own Sender l = [] -> dq b = dq a ++ arrived l.
Proof.
  revert a. induction l as [|[t [x y]] l IH]; intros a Hc Hp Ho.
  { simpl in Hc. subst. by rewrite app_nil_r. }
  destruct Hc as [-> Hc]. apply Forall_cons in Hp as [Hxy Hp]. simpl in Hxy.
  rewrite own_cons in Ho. simpl in Ho. rewrite arrived_cons.
  case_decide as Ht; [done|]. rewrite app_assoc, <- only_pushes_gap by auto. by apply IH.
Qed.

(** The gaps between the segments of the data thread are what it saw during its
    calls. *)
Lemma sender_gaps a l b a0 dn af :
  chained a l b -> others_push_in l -> own Sender l = segs a0 dn af ->
  along only_pushes dn /\
  exists g0 g1, dq a0 = dq a ++ g0 /\ dq b = dq af ++ g1 /\
    arrived l = g0 ++ concat ((fun p => gap (fst p) (snd p)) <$> dn) ++ g1.
Proof.
  revert a a0 dn. induction l as [|[t [x y]] l IH]; intros a a0 dn Hc Hp Ho.
  { by destruct dn as [|[]]. }
  destruct Hc as [-> Hc]. apply Forall_cons in Hp as [Hxy Hp]. simpl in Hxy.
  rewrite own_cons in Ho. simpl in Ho. rewrite arrived_cons.
  case_decide as Ht.
  - destruct dn as [|[x1 y1] dn]; simpl in Ho; injection Ho as -> -> Ho.
    + split; [constructor|]. exists [], (arrived l). rewrite app_nil_r. split_and!; [done| |done].
      by apply no_sender_gap.
    + apply (IH x1) in Ho as (Hdn & g0 & g1 & H0 & H1 & Ha); [|done..].
      assert (only_pushes x1 y1) as Hx1 by (by exists g0).
      split; [by apply Forall_cons|]. exists [], g1. rewrite app_nil_r. split_and!; [done..|].
      simpl. rewrite Ha, <- app_assoc. f_equal. unfold gap. by rewrite H0, drop_app_length.
  - apply (IH y) in Ho as (Hdn & g0 & g1 & H0 & H1 & Ha); [|done..]. split; [done|].
    exists (gap x y ++ g0), g1. split_and!; [|done|by rewrite Ha, <- app_assoc].
    by rewrite H0, (only_pushes_gap x y), <- app_assoc by auto.
Qed.

(** The calls of the data thread and their answers. *)
Definition sender_trace (hs : histories) : list event :=
  match hs Sender with None => [] | Some (a0, h) => trace (after Sender a0 h) end.

(** C1. No data is lost, in any interleaving of the threads: of the packets that were
    in the queue when the execution began and the packets the other threads pushed
    since, all are still in the queue, in order, but for some at the front, and each
    of these is no data frame or had an acknowledgement with its number among the
    bytes the data thread received from the server. *)
Theorem data_is_conserved hs a l b :
  execution hs a l b ->
  exists removed,
    dq a ++ arrived l = removed ++ dq b /\ Forall (excused (sender_trace hs)) removed.
Proof.
  intros He. destruct (He) as [Hc Ht].
  assert (Hp : others_push_in l).
  { apply (execution_along (fun t x y => t <> Sender -> only_pushes x y) hs a l b); [|done].
    intros t a0 h. destruct (decide (t = Sender)) as [->|Hn]; [by apply Forall_true|].
    eapply Forall_impl; [by apply others_only_push|]. auto. }
  specialize (Ht Sender). unfold thread_segments in Ht. unfold sender_trace.
  destruct (hs Sender) as [[a0 h]|].
  2: { exists []. split; [|constructor]. symmetry. by apply no_sender_gap. }
  pose proof (sender_advances (mkSt a0 (mkReplay h []) [])) as Hadv.
  change (snd _) with (after Sender a0 h) in Hadv. unfold segments in Ht.
  set (s := after Sender a0 h) in *. clearbody s.
  destruct (sender_gaps _ _ _ _ _ _ Hc Hp Ht) as (Hdn & g0 & g1 & H0 & H1 & Ha).
  destruct (Hadv Hdn) as (_ & evs & new & removed & Htr & Hnew & Hq & Hf). simpl in Htr, Hq.
  exists removed. split; [|by rewrite Htr].
  change (concat _) with (pushed (world s)) in Ha. rewrite Ha, Hnew. simpl.
  by rewrite app_assoc, <- H0, app_assoc, Hq, H1, app_assoc.
Qed.

End Program.

(** ** A concrete execution *)

(** The kernel as the script has it. *)
Lemma script_recv w fd len l :
  fst (script_answer (sys_recv fd len) w) = IoData l -> (length l <= Z.to_nat len)%nat.
Proof.
  destruct w as [? ? rs ? ?]. simpl. destruct rs as [|[k|e] rs]; simpl; try done.
  intros [= <-]. rewrite length_take. lia.
Qed.

Definition scripted (w : script) : answer := mkAnswer (fun T c => fst (script_answer c w)) (script_recv w).

(** Run a thread on a script, alone, and write its history. *)
#[local] Instance recording : Env Agent (script * list (answer * Agent)) := fun T c a w =>
  Some (fst (script_answer c (fst w)), a, (snd (script_answer c (fst w)), snd w ++ [(scripted (fst w), a)])).

Definition history_of (t : task) (a : Agent) (w : script) (calls : nat) : list (answer * Agent) :=
  take calls (snd (world (snd (program false 0 [] 100 1 7 t (mkSt a (w, []) []))))).

(** The link is up and the queue is empty; the post answers every question with data
    frame 7, and the server assigns a port and acknowledges the data. *)
Definition agent0 : Agent :=
  upd_serial (set_handle 6) (upd_modem (set_bPowerOff false) (upd_protocol (set_bControlDone true) fresh_agent)).

Definition reader_history := history_of Reader agent0 (mkScript 1000000 [] [] (replicate 3 (IoData frame_7)) None) 1000.
Definition agent1 : Agent := agent (after false 0 [] 100 1 7 Reader agent0 reader_history).

Definition assigned : packet := default [] (BuildPacket ([112; 65] ++ put_be16 50010) 4 1).
Definition sender_history :=
  history_of Sender agent1 (mkScript 2000000 [] [IoData assigned; IoData ack_7] [] None) 90.

Definition both : histories := fun t =>
  match t with
  | Reader => Some (agent0, reader_history)
  | Sender => Some (agent1, sender_history)
  | _ => None
  end.

Definition both_schedule : schedule :=
  (pair Reader <$> segments false 0 [] 100 1 7 Reader agent0 reader_history) ++
  (pair Sender <$> segments false 0 [] 100 1 7 Sender agent1 sender_history).

Definition agent2 : Agent := agent (after false 0 [] 100 1 7 Sender agent1 sender_history).

Lemma own_pair t t' (l : list (Agent * Agent)) : own t (pair t' <$> l) = if decide (t' = t) then l else [].
Proof.
  induction l as [|x l IH]; [by case_decide|]. rewrite fmap_cons, own_cons, IH. simpl. by case_decide.
Qed.

Lemma own_app t (l k : schedule) : own t (l ++ k) = own t l ++ own t k.
Proof. unfold own. by rewrite filter_app, fmap_app. Qed.

Lemma own_both t (l k : list (Agent * Agent)) :
  own t ((pair Reader <$> l) ++ (pair Sender <$> k)) = match t with Reader => l | Sender => k | _ => [] end.
Proof. rewrite own_app, !own_pair. destruct t; simpl; by rewrite ?app_nil_r. Qed.

#[local] Instance chained_dec a l b : Decision (chained a l b).
Proof. revert a. induction l as [|[t [x y]] l IH]; intros a; simpl; apply _. Defined.

Lemma both_execution : execution false 0 [] 100 1 7 both agent0 both_schedule agent2.
Proof.
  split; [apply (bool_decide_unpack _); vm_compute; exact I|].
  intros t. unfold both_schedule, thread_segments, both. rewrite own_both. destruct t; reflexivity.
Qed.

Lemma data_is_conserved_witness :
  execution false 0 [] 100 1 7 both agent0 both_schedule agent2 /\
  arrived both_schedule = [frame_7] /\ queue (dataQueue agent2) = [] /\
  exists removed, [] ++ [frame_7] = removed ++ [] /\ Forall (excused (sender_trace false 0 [] 100 1 7 both)) removed.
Proof.
  split; [exact both_execution|].
  assert (Ha : arrived both_schedule = [frame_7]) by (vm_compute; reflexivity).
  assert (Hq : queue (dataQueue agent2) = []) by (vm_compute; reflexivity).
  split; [exact Ha|]. split; [exact Hq|].
  pose proof (data_is_conserved false 0 [] 100 1 7 both agent0 both_schedule agent2 both_execution) as H.
  rewrite Ha, Hq in H. exact H.
Defined.

Lemma ports_have_one_owner_witness :
  along (left_alone srvData) (answered (world (after false 0 [] 100 1 7 Sender agent1 sender_history))).
Proof.
  exact (ports_have_one_owner false 0 [] 100 1 7 both agent0 both_schedule agent2 srvData agent1 sender_history
    both_execution eq_refl).
Defined.

(** An installation without configuration file, saved status or data. *)
Lemma queues_stay_well_formed_witness :
  let s := mkSt fresh_agent (mkScript 0 [] [] [] None) [] in
  let m := startup false 0 [0] 100;; load_data false in
  fst (m s) = Ok tt /\
  wp m (on_ok (fun _ s' =>
    queues_wf false (agent s') /\
    forall hs l b, execution false 0 [0] 100 3 7 hs (agent s') l b ->
      Forall (fun x => queues_wf false (snd (snd x))) l)) s.
Proof.
  intros s m. split; [vm_compute; reflexivity|].
  apply (queues_stay_well_formed false 0 [0] 100 3 7 (E := script_env)).
  intros T c a w r a' w' H. apply script_env_quiet in H as ->. by split.
Defined.

End Interleaving.
