(* ===== verification/Exclusion.v ===== *)
(** * Exclusion: saving the data queue excludes the other threads

    [DataPacketQueue::Save] holds the mutex over many [write] calls, and during each of
    them the other threads run.  Here it is shown, for every interleaving, that the
    mutex does its work: from the moment a thread has it until the same thread gives it
    back, no other thread changes the data queue.

    A thread is followed segment by segment, with the queue as it was when the thread
    last stopped while holding the mutex ([tenure]).  What a thread guarantees depends
    on what the others do in between; that they do it is shown for all threads together,
    along the schedule. *)

From S2P Require Import Prelude CRC16 Packet PacketQueue Sys Effects Agent Channel Receive Traffic Protocol Delivery Text Config Atof ModemAT Tasks Threads Interleaving.
Import PacketQueue Packet Sys Effects Agent Channel Receive Traffic Protocol Delivery Text Config ModemAT Tasks Threads Interleaving.

Module Exclusion.

Definition held (a : Agent) : bool := mutex (dataQueue a).

(** The queue as the thread left it, if it holds the mutex. *)
Abbreviation tenure := (option DataPacketQueue).

Definition tenure_after (a : Agent) : tenure := if held a then Some (dataQueue a) else None.

(** A segment from [x] to [y] of a thread with tenure [h], and then [K].  Without the
    mutex the thread leaves a queue alone that somebody else has locked; with it, and if
    the others have left the queue alone, it keeps the queue or gives the mutex back. *)
Definition follows (h : tenure) (x y : Agent) (K : tenure -> Prop) : Prop :=
  match h with
  | None => if held x then dataQueue y = dataQueue x /\ K None else K (tenure_after y)
  | Some q => dataQueue x = q -> (dataQueue y = q \/ held y = false) /\ K (tenure_after y)
  end.

Fixpoint disciplined (h : tenure) (l : list (Agent * Agent)) : Prop :=
  match l with
  | [] => True
  | (x, y) :: l => follows h x y (fun h => disciplined h l)
  end.

Lemma follows_mono h x y (K K' : tenure -> Prop) : (forall h, K h -> K' h) -> follows h x y K -> follows h x y K'.
Proof. intros HK. unfold follows. destruct h as [q|]; [|destruct (held x)]; naive_solver. Qed.

(** ** One schedule *)

(** [o] is the thread that has the mutex.  While it does, segments of the others leave
    the data queue as it is, and its own segments do so too or give the mutex back. *)
Fixpoint exclusive (o : option task) (l : schedule) : Prop :=
  match l with
  | [] => True
  | (t, (x, y)) :: l =>
      let next := if held y then Some t else None in
      match o with
      | None => held x = false /\ exclusive next l
      | Some h =>
          held x = true /\
          if decide (t = h) then (dataQueue y = dataQueue x \/ held y = false) /\ exclusive next l
          else dataQueue y = dataQueue x /\ exclusive (Some h) l
      end
  end.

Definition tenure_of (o : option task) (t : task) (a : Agent) : tenure :=
  if decide (o = Some t) then Some (dataQueue a) else None.

Lemma disciplined_exclusive o a l b :
  chained a l b -> held a = bool_decide (is_Some o) ->
  (forall t, disciplined (tenure_of o t a) (own t l)) -> exclusive o l.
Proof.
  revert o a. induction l as [|[t [x y]] l IH]; intros o a Hc Ho Hd; [done|]. destruct Hc as [-> Hc].
  assert (Hown : disciplined (tenure_of o t x) ((x, y) :: own t l)).
  { specialize (Hd t). rewrite own_cons in Hd. simpl in Hd. by rewrite decide_True in Hd. }
  assert (Hother : forall t', t' <> t -> disciplined (tenure_of o t' x) (own t' l)).
  { intros t' Hn. specialize (Hd t'). rewrite own_cons in Hd. simpl in Hd. by rewrite decide_False in Hd by done. }
  assert (Hnext : disciplined (tenure_after y) (own t l) -> (forall t', t' <> t -> disciplined None (own t' l)) ->
    exclusive (if held y then Some t else None) l).
  { intros H1 H2. apply (IH _ y); [done|by destruct (held y)|]. intros t'. unfold tenure_of.
    destruct (decide (t' = t)) as [->|Hn].
    - unfold tenure_after in H1. destruct (held y); [by rewrite decide_True|by rewrite decide_False].
    - rewrite decide_False by (destruct (held y); congruence). by apply H2. }
  unfold tenure_of in Hown, Hother. cbn [exclusive disciplined] in *. destruct o as [h|].
  - change (held x = true) in Ho. split; [done|]. destruct (decide (t = h)) as [->|Hn].
    + rewrite decide_True in Hown by done. destruct (Hown eq_refl) as [H1 H2]. split; [done|]. apply Hnext; [done|].
      intros t' Hn. specialize (Hother t' Hn). by rewrite decide_False in Hother by congruence.
    + rewrite decide_False in Hown by congruence. unfold follows in Hown. rewrite Ho in Hown. destruct Hown as [Hy Hown].
      split; [done|]. apply (IH _ y); [done|unfold held in *; by rewrite Hy|]. intros t'. unfold tenure_of. rewrite Hy.
      destruct (decide (t' = t)) as [->|Hn']; [by rewrite decide_False by congruence|by apply Hother].
  - change (held x = false) in Ho. rewrite decide_False in Hown by done. unfold follows in Hown. rewrite Ho in Hown.
    split; [done|]. apply Hnext; [done|]. intros t' Hn. by apply Hother.
Qed.

(** ** One thread *)

(** The calls [dn] of a thread that started at [x]; [K] holds of the tenure at the start
    of the segment it is in and of the objects there. *)
Fixpoint track (h : tenure) (dn : list (Agent * Agent)) (x : Agent) (K : tenure -> Agent -> Prop) : Prop :=
  match dn with
  | [] => K h x
  | (y, z) :: dn => follows h x y (fun h => track h dn z K)
  end.

Lemma track_mono h dn x (K K' : tenure -> Agent -> Prop) :
  (forall h x, K h x -> K' h x) -> track h dn x K -> track h dn x K'.
Proof.
  intros HK. revert h x. induction dn as [|[y z] dn IH]; intros h x; simpl; [apply HK|].
  apply follows_mono. intros h'. apply IH.
Qed.

Lemma track_snoc h dn x y z (K : tenure -> Agent -> Prop) :
  track h dn x (fun h x => follows h x y (fun h => K h z)) -> track h (dn ++ [(y, z)]) x K.
Proof.
  revert h x. induction dn as [|[y1 z1] dn IH]; intros h x; simpl; [done|].
  apply follows_mono. intros h'. apply IH.
Qed.

Lemma track_disciplined h dn x a :
  track h dn x (fun h x => follows h x a (fun _ => True)) -> disciplined h (segs x dn a).
Proof.
  revert h x. induction dn as [|[y z] dn IH]; intros h x; simpl; [done|].
  apply follows_mono. intros h'. apply IH.
Qed.

(** In the segment that began at [x] the thread is at [a] without the mutex. *)
Definition without (a : Agent) (h : tenure) (x : Agent) : Prop :=
  match h with
  | None => if held x then dataQueue a = dataQueue x else held a = false
  | Some q => dataQueue x = q -> held a = false
  end.

(** It has the mutex. *)
Definition having (a : Agent) (h : tenure) (x : Agent) : Prop :=
  match h with
  | None => held x = false /\ held a = true
  | Some q => dataQueue x = q -> dataQueue a = q /\ held a = true
  end.

Definition either (a : Agent) (h : tenure) (x : Agent) : Prop := without a h x \/ having a h x.

(** As [either], in the first segment after a call that was made without the mutex. *)
Definition called (a : Agent) (h : tenure) (x : Agent) : Prop := (h = None /\ without a h x) \/ having a h x.

Lemma called_either a h x : called a h x -> either a h x.
Proof. unfold called, either. tauto. Qed.

Lemma having_call a h x z : having a h x -> follows h x a (fun h => having z h z).
Proof.
  unfold having, follows, tenure_after. destruct h as [q|].
  - intros H Hx. destruct (H Hx) as [-> Ha]. rewrite Ha. split; [by left|]. intros Hz. split; [done|].
    unfold held in *. by rewrite Hz, <- (proj1 (H Hx)).
  - intros [Hx Ha]. rewrite Hx, Ha. intros Hz. split; [done|]. unfold held in *. by rewrite Hz.
Qed.

Lemma without_call a h x z : without a h x -> follows h x a (fun h => h = None /\ without z h z).
Proof.
  assert (Hz : without z None z) by (simpl; by destruct (held z) eqn:E).
  unfold without at 1, follows, tenure_after. destruct h as [q|].
  - intros H Hx. rewrite (H Hx). auto.
  - destruct (held x); [auto|]. intros ->. auto.
Qed.

Lemma either_call a h x z : either a h x -> follows h x a (fun h => called z h z).
Proof.
  intros [H|H]; [eapply follows_mono; [|by apply without_call]|eapply follows_mono; [|by apply having_call]];
    intros h'; [by left|by right].
Qed.

(** A step without system call that is not a lock or an unlock. *)
Definition ordinary (a a' : Agent) : Prop :=
  if held a then dataQueue a' = dataQueue a else held a' = false.

#[local] Instance ordinary_preorder : PreOrder ordinary.
Proof.
  split; unfold ordinary.
  - intros a. by destruct (held a) eqn:E.
  - intros a1 a2 a3. destruct (held a1) eqn:E1.
    + intros H. unfold held in *. rewrite H, E1. congruence.
    + intros ->. done.
Qed.

Lemma either_ordinary a a' h x : ordinary a a' -> either a h x -> either a' h x.
Proof.
  unfold ordinary, either, without, having. intros Ho [H|H]; [left|right].
  - destruct h as [q|].
    + intros Hx. rewrite (H Hx) in Ho. done.
    + destruct (held x) eqn:Ex; [|by rewrite H in Ho]. unfold held in *. rewrite H, Ex in Ho. congruence.
  - destruct h as [q|].
    + intros Hx. destruct (H Hx) as [<- Ha]. rewrite Ha in Ho. unfold held in *. rewrite Ho. done.
    + destruct H as [Hx Ha]. rewrite Ha in Ho. split; [done|]. unfold held in *. by rewrite Ho.
Qed.

Lemma called_ordinary a h x : called a h x -> held a = false -> forall a', held a' = true -> having a' h x.
Proof.
  unfold called, without, having. intros [[-> H]|H] Ha a' Ha'.
  - split; [|done]. destruct (held x) eqn:Ex; [|done]. unfold held in *. congruence.
  - destruct h as [q|]; [|by destruct H; congruence]. intros Hx. destruct (H Hx). congruence.
Qed.

Lemma having_unlocked a h x a' : having a h x -> held a' = false -> without a' h x.
Proof.
  unfold having, without. destruct h as [q|]; [done|]. intros [-> _]. done.
Qed.

(** *** Runs *)

Section Runs.
Context (a0 : Agent) (fuel : nat).

Definition at_state (K : Agent -> tenure -> Agent -> Prop) (s : st Agent replay) : Prop :=
  track None (answered (world s)) a0 (K (agent s)).

Definition orderly (s s' : st Agent replay) : Prop := at_state either s -> at_state either s'.

Lemma sys_at (K K' : Agent -> tenure -> Agent -> Prop) {T} (c : syscall T) (s : st Agent replay) :
  (forall a h x z, K a h x -> follows h x a (fun h => K' z h z)) -> at_state K s ->
  wp (sys c) (fun o s' => match o with Ok _ => at_state K' s' | _ => at_state K s' end) s.
Proof.
  intros HK H. unfold wp, sys, env_step, replay_env. destruct (todo (world s)) as [|[k a'] rest]; [done|]. simpl.
  apply track_snoc. eapply track_mono; [|exact H]. intros h x. apply HK.
Qed.

#[export] Instance orderly_follows : Follows any_port ordinary orderly.
Proof.
  split; [|intros T c s H|intros A m Hm s H|].
  - split; [intros s H; exact H|intros s1 s2 s3 H1 H2 H; by apply H2, H1].
  - pose proof (sys_at either called c s either_call H) as Hs. unfold wp in Hs.
    destruct (sys c s) as [[r|e| |] s']; simpl in *; try done.
    eapply track_mono; [|exact Hs]. intros h x. apply called_either.
  - destruct (Hm s) as (Hw & _ & Ho). unfold at_state. rewrite Hw. eapply track_mono; [|exact H].
    intros h x. by apply either_ordinary.
  - intros a a' [[Hq _] _]. unfold ordinary, held. rewrite Hq. by destruct (mutex _).
Qed.

(** The wait for the mutex ends with the mutex free. *)
Lemma acquires_free k (s : st Agent replay) :
  at_state called s ->
  wp (acquire k dataQueue) (fun o s' =>
    match o with Ok _ => at_state called s' /\ held (agent s') = false | _ => at_state either s' end) s.
Proof.
  assert (Hce : forall s, at_state called s -> at_state either s).
  { intros s' H. eapply track_mono; [|exact H]. intros h x. apply called_either. }
  unfold acquire. revert s. induction k as [|k IH]; intros s H; [by apply Hce|]. cbn [loop].
  apply wp_bind, wp_bind, wp_gets. destruct (mutex _) eqn:Hm; [|by split].
  apply wp_bind. eapply wp_mono; [|apply (sys_at either called); [apply either_call|by apply Hce]].
  intros [[]|e| |] s1 H1; try done. by apply wp_mret, IH.
Qed.

(** The loop of [Save], with the mutex. *)
Lemma wp_save_packets fd l (s : st Agent replay) :
  at_state having s -> wp (save_packets fd l) (fun _ s' => at_state having s') s.
Proof.
  assert (Hw : forall buf (s : st Agent replay), at_state having s ->
    wp (sys (sys_write fd buf)) (fun _ s' => at_state having s') s).
  { intros buf s' H. eapply wp_mono; [|apply (sys_at having having); [apply having_call|exact H]]. by intros [] ?. }
  revert s. induction l as [|p l IH]; intros s H; cbn [save_packets]; [by apply wp_mret|]. cbv zeta.
  case_bool; [by apply IH|]. apply wp_bind. eapply wp_mono; [|by apply Hw]. intros [r|e| |] s1 H1; try done.
  case_bool; [by apply wp_mret|]. apply wp_bind. eapply wp_mono; [|by apply Hw]. intros [r2|e| |] s2 H2; try done.
  case_bool; [by apply wp_mret|by apply IH].
Qed.

Lemma SaveData_orderly : keeps orderly (SaveData fuel).
Proof.
  intros s H. change (wp (SaveData fuel) (fun _ s' => at_state either s') s).
  assert (Hhe : forall s, at_state having s -> at_state either s).
  { intros s' H'. eapply track_mono; [|exact H']. by right. }
  unfold SaveData. apply wp_bind, wp_gets. case_bool; [done|]. unfold save_queue.
  apply wp_bind. eapply wp_mono; [|apply (sys_at either called); [apply either_call|exact H]].
  intros [fd|e| |] s1 H1; try done. case_bool.
  { apply wp_mret. eapply track_mono; [|exact H1]. intros h x. apply called_either. }
  apply wp_bind. unfold lock_queue. apply wp_bind. eapply wp_mono; [|by apply acquires_free].
  intros [[]|e| |] s2 H2; try done. destruct H2 as [H2 Hfree].
  apply wp_bind, wp_gets, wp_bind, wp_lift. unfold lock. unfold held in Hfree. rewrite Hfree.
  apply wp_modify. set (s3 := mkSt _ _ _). assert (H3 : at_state having s3).
  { eapply track_mono; [|exact H2]. intros h x Hc. by apply (called_ordinary (agent s2)). }
  clearbody s3. apply wp_bind, wp_gets, wp_bind. eapply wp_mono; [|by apply wp_save_packets].
  intros [[]|e| |] s4 H4; try (by apply Hhe).
  apply wp_bind. eapply wp_mono; [|apply (sys_at having having); [apply having_call|exact H4]].
  intros [[]|e| |] s5 H5; try (by apply Hhe). apply wp_bind, wp_gets, wp_modify.
  eapply track_mono; [|exact H5]. intros h x Hx. left. by eapply having_unlocked.
Qed.

Lemma orderly_disciplined {A} (m : M Agent replay A) hist :
  keeps orderly m ->
  let s := snd (m (mkSt a0 (mkReplay hist []) [])) in disciplined None (segs a0 (answered (world s)) (agent s)).
Proof.
  intros Hm s. apply track_disciplined.
  assert (H : at_state either s).
  { apply Hm. left. simpl. by destruct (held a0) eqn:E. }
  eapply track_mono; [|exact H]. intros h x Hx.
  eapply follows_mono; [|by apply (either_call _ _ _ (agent s))]. done.
Qed.
End Runs.

(** ** The program *)

Section Program.
Context (sc : bool) (gmtoff : Z) (below : list byte) (fuel turns_made : nat) (event0 : Z).

Lemma Push_ordinary p a q : Push (dataQueue a) p = Some q -> ordinary a (set_dataQueue q a).
Proof.
  unfold ordinary, held, Push, lock. destruct (mutex _); [done|]. simpl. destruct (GetDataNo p); [|done]. simpl.
  destruct (negb _); [destruct (has_no _ _) as [[|]|]; [..|done]|]; by intros [= <-].
Qed.

Lemma Pop_ordinary a q : PacketQueue.Pop (dataQueue a) = Some q -> ordinary a (set_dataQueue q a).
Proof.
  unfold ordinary, held, PacketQueue.Pop, lock. destruct (mutex _); [done|]. simpl.
  destruct (queue (dataQueue a)); [done|]. by intros [= <-].
Qed.

Lemma status_ordinary a q : ordinary a (upd_protocol (set_statusQueue q) a).
Proof. unfold ordinary, held. simpl. by destruct (mutex _). Qed.

Lemma program_disciplined t a0 h :
  disciplined None (segments sc gmtoff below fuel turns_made event0 t a0 h).
Proof.
  apply orderly_disciplined. pose proof (orderly_follows a0) as HF. pose proof (SaveData_orderly a0 fuel) as Hsave.
  pose proof status_ordinary. destruct t; simpl.
  - apply keeps_bind; [apply _| |effects]. apply (doReadData_keeps _ (HR := HF) _ _ _ (frame sc)); [apply serial_frames|..|done].
    + intros p a q _. apply Push_ordinary.
    + auto.
  - apply (data_turns_keeps _ (HR := HF)); [auto|done|]. apply (SendCurrentData_keeps _ (HR := HF)); [|done].
    intros a q. apply Pop_ordinary.
  - by apply (control_process_keeps _ (HR := HF)).
  - apply keeps_bind; [apply _|by apply (watch_power_keeps _ (HR := HF))|effects].
Qed.

End Program.


End Exclusion.
