(* ===== verification/DebugLog.v ===== *)
(** * DebugLog: the trace log

    The class [TraceLog] (device-agent/src/DebugLog.h, DebugLog.cpp): messages are
    formatted into a heap buffer that grows on demand and sent to the console, to
    standard error or to a UDP peer.

    A buffer is its capacity and the C string in it.  Writing past the capacity is
    undefined ([None]).  What [vsnprintf] makes of the format and the arguments of a
    call is the parameter [text] ([None] when it reports an error); the answers of
    the allocator are parameters too. *)

From Stdlib Require Import Strings.String.
From S2P Require Import Prelude Text.
Import Text.

Module DebugLog.

Definition MAXBUFSIZE : Z := 1024.

(** The static members that change. *)
Record TraceLog := mkLog {
  sct : Z;
  nLevel : Z;
  bLocal : bool;
  nCounter : Z;
  strTitle : list byte;
  szLogIP : list byte;
  nLogPort : Z }.

(** The initial values of the static members. *)
Definition gTraceLog : TraceLog := mkLog (-1) 0 true 0 [] [] 0.

(** [TraceLog::Init]: the new state when [socket] answers [fd], and the descriptor it
    closes.  The test for a failed [socket] looks at the address of the function, so
    nothing is reported and [sct] may be negative. *)
Definition Init (o : TraceLog) (Title szIP : list byte) (nPort fd : Z) : TraceLog * option Z :=
  (mkLog fd (nLevel o) (bLocal o) (nCounter o) Title (take 49 szIP) nPort,
   if sct o =? -1 then None else Some (sct o)).

(** The constructors with a peer. *)
Definition new_TraceLog (szTitle szIP : list byte) (nPort fd : Z) : TraceLog :=
  fst (Init gTraceLog szTitle szIP nPort fd).

(** [TraceLog::SetLocalOut] and [TraceLog::SetTraceLevel]. *)
Definition SetLocalOut (bEnable : bool) (o : TraceLog) : TraceLog :=
  mkLog (sct o) (nLevel o) bEnable (nCounter o) (strTitle o) (szLogIP o) (nLogPort o).
Definition SetTraceLevel (n : Z) (o : TraceLog) : TraceLog :=
  mkLog (sct o) n (bLocal o) (nCounter o) (strTitle o) (szLogIP o) (nLogPort o).

(** ** Buffers *)

Record buffer := mkBuf { size : Z; text_of : list byte }.

Definition strlen (b : buffer) : Z := Z.of_nat (length (text_of b)).

(** [snprintf(pBuf + used, avail, ...)] of a text: at most [avail] bytes with the
    terminating NUL, none when [avail] is 0. *)
Definition snprintf_at (b : buffer) (used avail : Z) (text : list byte) : option buffer :=
  let n := Z.of_nat (length text) in
  if (used <? 0) || (avail <? 0) || (strlen b <? used) || (size b <? used + Z.min avail (n + 1)) then None
  else if avail =? 0 then Some b
  else Some (mkBuf (size b) (take (Z.to_nat used) (text_of b) ++ take (Z.to_nat (avail - 1)) text)).

(** ** Formatting *)

(** [%0kd]. *)
Definition pad (k : nat) (n : Z) : list byte :=
  let digits := dec (Z.abs n) in
  let sign := if n <? 0 then [45] else [] in
  sign ++ repeat 48 (k - length sign - length digits) ++ digits.

Record tm := mkTm { tm_mon : Z; tm_mday : Z; tm_hour : Z; tm_min : Z; tm_sec : Z }.

(** The text of [SetTitle] at local time [t]. *)
Definition title (o : TraceLog) (t : tm) (usec : Z) : list byte :=
  [NL] ++ pad 2 (tm_mon t + 1) ++ str "-" ++ pad 2 (tm_mday t) ++ str " " ++ pad 2 (tm_hour t) ++ str ":" ++
  pad 2 (tm_min t) ++ str ":" ++ pad 2 (tm_sec t) ++ str "." ++ pad 3 (Z.quot usec 1000) ++ str " " ++
  strTitle o ++ str " " ++ (if bLocal o then [] else pad 4 (nCounter o) ++ str " ").

Definition next_counter (n : Z) : Z := if 9998 <? n then 0 else n + 1.

(** [TraceLog::SetTitle]. *)
Definition SetTitle (o : TraceLog) (t : tm) (usec : Z) (b : buffer) : option (TraceLog * buffer) :=
  b ← snprintf_at b 0 (size b) (title o t usec);
  Some (mkLog (sct o) (nLevel o) (bLocal o) (next_counter (nCounter o)) (strTitle o) (szLogIP o) (nLogPort o), b).

Definition priorityNames : list (list byte) :=
  str <$> ["Zero Priority"; "TRACE"; "DEBUG"; "INFO"; "NOTICE"; "WARNING"; "ERROR"; "CRITICAL ERROR";
           "ALERT"; "EMERGENCY"]%string.

(** ["%s %s:%u[%s]\t"]. *)
Definition where_text (name szFile szFunc : list byte) (nLine : Z) : list byte :=
  name ++ str " " ++ szFile ++ str ":" ++ dec nLine ++ str "[" ++ szFunc ++ str "]" ++ [9].

(** ** Output *)

(** Where a message goes. *)
Inductive sink :=
| Console (s : list byte)          (* [puts] *)
| StdErr (s : list byte)           (* [fputs(..., stderr)] *)
| Datagram (s : list byte).        (* [sendto] *)

(** [TraceLog::SendOut]; [sent] tells whether [sendto] accepted the datagram. *)
Definition SendOut (o : TraceLog) (sent : bool) (szBuf : list byte) : option (list sink) :=
  if bLocal o then
    match szBuf with [] => None | _ :: s => Some [Console s] end
  else if sct o <? 0 then Some [StdErr szBuf]
  else if sent then Some [Datagram szBuf]
  else match szBuf with [] => None | _ :: s => Some [Datagram szBuf; StdErr (s ++ [NL])] end.

(** The buffer of a message: on the heap, or the 80 bytes on the stack. *)
Definition alloc (malloc : bool) (size : Z) : buffer := mkBuf (if malloc then size else 80) [].

(** Title and place of a message; [used] is the length so far. *)
Definition heading (o : TraceLog) (t : tm) (usec : Z) (nLev : Z) (szFile szFunc : list byte) (nLine : Z)
    (b : buffer) : option (TraceLog * buffer) :=
  '(o, b) ← SetTitle o t usec b;
  if strlen b <? size b then
    name ← priorityNames !! Z.to_nat nLev;
    b ← snprintf_at b (strlen b) (size b - strlen b) (where_text name szFile szFunc nLine);
    Some (o, b)
  else Some (o, b).

(** The loop of [TraceLog::Trace]: the string that is sent. *)
Fixpoint trace_loop (fuel : nat) (text : option (list byte)) (realloc : nat -> bool) (used : Z) (b : buffer)
    : option (list byte) :=
  match fuel with
  | O => None
  | S fuel =>
      b ← match text with
          | Some text => snprintf_at b used (size b - used) text
          | None => Some b
          end;
      let n := match text with Some text => Z.of_nat (length text) | None => -1 end in
      if (size b =? 80) || ((-1 <? n) && (n <? size b - used)) || (size b =? MAXBUFSIZE) then
        Some (text_of b)
      else
        let size := if -1 <? n then Z.min (used + n + 1) MAXBUFSIZE else Z.min (size b + 80) MAXBUFSIZE in
        if realloc fuel then trace_loop fuel text realloc used (mkBuf size (text_of b))
        else Some (text_of b)
  end.

(** Eleven turns are enough ([trace_loop_total]): a buffer of 256 bytes grows at
    least by 80, up to 1024. *)
Definition trace_fuel : nat := 11.

(** [TraceLog::Trace]. *)
Definition Trace (o : TraceLog) (t : tm) (usec : Z) (malloc : bool) (realloc : nat -> bool) (sent : bool)
    (nLev : Z) (szFile szFunc : list byte) (nLine : Z) (text : option (list byte))
    : option (TraceLog * list sink) :=
  if nLev <? nLevel o then Some (o, [])
  else
    '(o, b) ← heading o t usec nLev szFile szFunc nLine (alloc malloc 256);
    s ← trace_loop trace_fuel text realloc (strlen b) b;
    l ← SendOut o sent s;
    Some (o, l).

(** ["%02hhX "]. *)
Definition hex_digit (n : Z) : byte := if n <? 10 then 48 + n else 55 + n.
Definition hex_text (b : byte) : list byte := [hex_digit (b / 16); hex_digit (b mod 16); SPACE].

(** The loop of [TraceLog::Dump]. *)
Fixpoint dump_loop (buf : list byte) (used : Z) (b : buffer) : option buffer :=
  match buf with
  | [] => Some b
  | c :: buf =>
      if size b <=? used then Some b
      else
        b ← snprintf_at b used (size b - used) (hex_text c);
        dump_loop buf (used + 3) b
  end.

(** [TraceLog::Dump] of the [length buf] bytes of a packet. *)
Definition Dump (o : TraceLog) (t : tm) (usec : Z) (malloc sent : bool)
    (nLev : Z) (szFile szFunc : list byte) (nLine : Z) (buf : list byte) : option (TraceLog * list sink) :=
  if nLev <=? nLevel o then Some (o, [])
  else
    '(o, b) ← heading o t usec nLev szFile szFunc nLine (alloc malloc (Z.of_nat (length buf) * 3 + 128));
    b ← (if strlen b <? size b then dump_loop buf (strlen b) b else Some b);
    l ← SendOut o sent (text_of b);
    Some (o, l).

(** ** Theorems *)

(** A string and its NUL fit. *)
Definition fits (b : buffer) : Prop := strlen b < size b.

Lemma snprintf_at_end b text :
  fits b -> snprintf_at b (strlen b) (size b - strlen b) text =
    Some (mkBuf (size b) (take (Z.to_nat (size b - 1)) (text_of b ++ text))).
Proof.
  unfold fits, snprintf_at, strlen. intros H. set (k := length (text_of b)) in *.
  rewrite (proj2 (Z.ltb_ge _ 0)), (proj2 (Z.ltb_ge (size b - Z.of_nat k) 0)), Z.ltb_irrefl by lia.
  rewrite (proj2 (Z.ltb_ge _ _)) by lia. simpl. rewrite (proj2 (Z.eqb_neq _ _)) by lia.
  do 2 f_equal. rewrite take_app. fold k. rewrite Nat2Z.id. f_equal.
  - rewrite !take_ge by (fold k; lia). done.
  - f_equal. lia.
Qed.

Lemma take_take_app k (l m : list byte) : take k (take k l ++ m) = take k (l ++ m).
Proof.
  rewrite !take_app, take_take, Nat.min_id. f_equal. rewrite length_take.
  destruct (Nat.le_gt_cases k (length l)).
  - by rewrite Nat.min_l, (proj2 (Nat.sub_0_le k (length l))), Nat.sub_diag by lia.
  - by rewrite Nat.min_r by lia.
Qed.

Lemma fits_take n (l : list byte) : 0 < n -> fits (mkBuf n (take (Z.to_nat (n - 1)) l)).
Proof. unfold fits, strlen. simpl. rewrite length_take. lia. Qed.

(** Title and place, cut to the buffer. *)
Definition head_text (o : TraceLog) (t : tm) (usec : Z) (name szFile szFunc : list byte) (nLine : Z) : list byte :=
  title o t usec ++ where_text name szFile szFunc nLine.

Definition counted (o : TraceLog) : TraceLog :=
  mkLog (sct o) (nLevel o) (bLocal o) (next_counter (nCounter o)) (strTitle o) (szLogIP o) (nLogPort o).

Lemma heading_text o t usec nLev name szFile szFunc nLine n :
  0 < n -> priorityNames !! Z.to_nat nLev = Some name ->
  heading o t usec nLev szFile szFunc nLine (mkBuf n []) =
    Some (counted o, mkBuf n (take (Z.to_nat (n - 1)) (head_text o t usec name szFile szFunc nLine))).
Proof.
  intros Hn Hname. unfold heading, SetTitle.
  assert (H0 : fits (mkBuf n [])) by done.
  pose proof (snprintf_at_end (mkBuf n []) (title o t usec) H0) as H1.
  change (strlen (mkBuf n [])) with 0 in H1. cbn [size text_of app] in H1. rewrite Z.sub_0_r in H1. cbn [size]. rewrite H1. cbn [mbind option_bind].
  pose proof (fits_take n (title o t usec) Hn) as H2.
  rewrite (proj2 (Z.ltb_lt _ _)) by exact H2. rewrite Hname. cbn [mbind option_bind].
  rewrite snprintf_at_end by exact H2. cbn [mbind option_bind size text_of]. unfold counted, head_text.
  do 3 f_equal. apply take_take_app.
Qed.

(** A turn of the loop. *)
Lemma trace_print b used text :
  0 <= used <= strlen b -> fits b ->
  snprintf_at b used (size b - used) text =
    Some (mkBuf (size b) (take (Z.to_nat (size b - 1)) (take (Z.to_nat used) (text_of b) ++ text))).
Proof.
  intros Hu Hf. set (b' := mkBuf (size b) (take (Z.to_nat used) (text_of b))).
  assert (Hl : strlen b' = used) by (unfold strlen in *; simpl; rewrite length_take; lia).
  transitivity (snprintf_at b' (strlen b') (size b' - strlen b') text);
    [|apply snprintf_at_end; unfold fits in *; rewrite Hl; simpl; lia].
  unfold snprintf_at. rewrite Hl, Z.ltb_irrefl, (proj2 (Z.ltb_ge (strlen b) used)) by lia.
  unfold b'. cbn [size text_of]. unfold fits in Hf. rewrite (proj2 (Z.eqb_neq (size b - used) 0)) by lia.
  by rewrite take_take, Nat.min_id.
Qed.

(** Messages [vsnprintf] can format: at most two turns. *)
Lemma trace_loop_text fuel m realloc used b :
  0 <= used -> strlen b = used -> fits b -> 80 <= size b <= 1024 ->
  exists cap, trace_loop (S (S fuel)) (Some m) realloc used b = Some (take cap (text_of b ++ m)) /\
    (79 <= cap < 1024)%nat /\
    (size b <> 80 -> (forall i, realloc i = true) -> take cap (text_of b ++ m) = take 1023 (text_of b ++ m)).
Proof.
  intros Hu Hl Hf Hs. cbn [trace_loop].
  assert (Hpre : take (Z.to_nat used) (text_of b) = text_of b) by (rewrite take_ge; [done|unfold strlen in Hl; lia]).
  rewrite trace_print by (done || lia). cbn [mbind option_bind size text_of]. rewrite Hpre.
  set (n := Z.of_nat (length m)). assert (Hlen : Z.of_nat (length (text_of b ++ m)) = used + n).
  { rewrite length_app. unfold strlen in Hl. lia. }
  rewrite (proj2 (Z.ltb_lt (-1) n)) by lia. cbn [andb].
  destruct ((size b =? 80) || (n <? size b - used) || (size b =? MAXBUFSIZE)) eqn:Hstop.
  { exists (Z.to_nat (size b - 1)). split; [done|]. split; [lia|]. intros H80 _.
    apply orb_true_iff in Hstop as [[H|H]%orb_true_iff|H]; unfold MAXBUFSIZE in *; to_prop; [lia| |].
    - rewrite !take_ge by lia. done.
    - f_equal. lia. }
  to_prop. destruct (realloc (S fuel)) eqn:Hr.
  2: { exists (Z.to_nat (size b - 1)). split; [done|]. split; [lia|]. intros _ Hall. by rewrite Hall in Hr. }
  unfold MAXBUFSIZE in *. remember (Z.min (used + n + 1) 1024) as size' eqn:Hsize.
  set (b2 := mkBuf size' _). assert (Hb2 : used <= strlen b2 < size').
  { unfold fits, b2 in *. unfold strlen in *. simpl. rewrite length_take. lia. }
  cbn [trace_loop]. rewrite trace_print by (unfold fits; simpl; lia). cbn [mbind option_bind size text_of].
  assert (Hpre2 : take (Z.to_nat used) (text_of b2) = text_of b).
  { unfold b2. simpl. rewrite take_take, Nat.min_l by (unfold fits in *; lia).
    rewrite take_app_le; [done|unfold strlen in Hl; lia]. }
  rewrite Hpre2. cbn [size b2].
  assert (Hstop : (size' =? 80) || (n <? size' - used) || (size' =? 1024) = true).
  { rewrite !orb_true_iff, Z.ltb_lt, !Z.eqb_eq. lia. }
  unfold MAXBUFSIZE. rewrite Hstop. exists (Z.to_nat (size' - 1)). split; [done|]. split; [lia|]. intros _ _.
  destruct (Z.le_gt_cases (used + n + 1) 1024); [rewrite !take_ge by lia; done|f_equal; lia].
Qed.

(** Messages it cannot format: the buffer grows to its limit, in eleven turns. *)
Lemma trace_loop_error fuel realloc used b :
  80 <= size b <= 1024 -> size b = 80 \/ 1024 <= size b + 80 * Z.of_nat fuel ->
  trace_loop (S fuel) None realloc used b = Some (text_of b).
Proof.
  revert b. induction fuel as [|fuel IH]; intros b Hs [H80|Hf]; try (cbn [trace_loop]; simpl; by rewrite H80).
  - cbn. unfold MAXBUFSIZE. rewrite (proj2 (Z.eqb_eq (size b) 1024)) by lia. by rewrite orb_true_r.
  - remember (S fuel) as k eqn:Hk. cbn [trace_loop mbind option_bind]. change (-1 <? -1) with false.
    case_bool; [done|]. case_bool; [|done]. rewrite IH; cbn [size text_of]; unfold MAXBUFSIZE; [done|lia|right; lia].
Qed.

(** The loop of [Dump] writes as many bytes as fit. *)
Lemma dump_loop_text buf b :
  fits b -> dump_loop buf (strlen b) b =
    Some (mkBuf (size b) (take (Z.to_nat (size b - 1)) (text_of b ++ concat (hex_text <$> buf)))).
Proof.
  revert b. induction buf as [|c buf IH]; intros b Hf; cbn [dump_loop].
  { simpl. rewrite app_nil_r, take_ge; [by destruct b|]. unfold fits, strlen in Hf. lia. }
  rewrite (proj2 (Z.leb_gt _ _)) by exact Hf. rewrite snprintf_at_end by done. cbn [mbind option_bind].
  set (l := text_of b ++ hex_text c). assert (Hl : Z.of_nat (length l) = strlen b + 3).
  { unfold l. rewrite length_app. unfold strlen. simpl. lia. }
  assert (Hcat : text_of b ++ concat (hex_text <$> c :: buf) = l ++ concat (hex_text <$> buf)).
  { unfold l. simpl. by rewrite <- app_assoc. }
  rewrite Hcat. destruct (Z.lt_ge_cases (strlen b + 3) (size b)) as [Hlt|Hge].
  - rewrite (take_ge l) by lia. set (b' := mkBuf (size b) l).
    assert (Hs : strlen b' = strlen b + 3) by exact Hl. rewrite <- Hs.
    rewrite (IH b') by (unfold fits; rewrite Hs; exact Hlt). done.
  - assert (Hend : dump_loop buf (strlen b + 3) (mkBuf (size b) (take (Z.to_nat (size b - 1)) l)) =
      Some (mkBuf (size b) (take (Z.to_nat (size b - 1)) l))).
    { destruct buf; [done|]. cbn [dump_loop size]. by rewrite (proj2 (Z.leb_le _ _)) by lia. }
    rewrite Hend. do 2 f_equal. symmetry. apply take_app_le. lia.
Qed.

Lemma SendOut_total o sent c s : exists l, SendOut o sent (c :: s) = Some l.
Proof. unfold SendOut. repeat case_bool; eauto. Qed.

(** A message at or above the trace level is always sent, whatever its length and
    whether or not the allocator and the formatting succeed; the log never writes
    outside its buffer, loops at most eleven times, and sends less than 1024 bytes.
    When the allocations succeed it sends the title and place, cut to 255 bytes,
    followed by the text, all cut to 1023 bytes. *)
Theorem trace_output o t usec malloc realloc sent nLev name szFile szFunc nLine text :
  nLevel o <= nLev -> priorityNames !! Z.to_nat nLev = Some name ->
  exists s l,
    Trace o t usec malloc realloc sent nLev szFile szFunc nLine text = Some (counted o, l) /\
    SendOut (counted o) sent s = Some l /\ (0 < length s < 1024)%nat /\
    (malloc = true -> (forall i, realloc i = true) -> forall m, text = Some m ->
       s = take 1023 (take 255 (head_text o t usec name szFile szFunc nLine) ++ m)).
Proof.
  intros Hlev Hname. unfold Trace, alloc. rewrite (proj2 (Z.ltb_ge _ _)) by done.
  set (n := if malloc then 256 else 80). assert (Hn : n = 256 \/ n = 80) by (unfold n; destruct malloc; auto).
  rewrite (heading_text _ _ _ _ name) by (done || lia). cbn [mbind option_bind].
  set (h := take (Z.to_nat (n - 1)) _). assert (Hh : exists h', h = NL :: h' /\ (length h <= Z.to_nat (n - 1))%nat).
  { unfold h, head_text, title. destruct (Z.to_nat (n - 1)) as [|k] eqn:Hk; [lia|].
    eexists. split; [reflexivity|]. rewrite length_take. lia. }
  destruct Hh as (h' & Hh & Hlen). set (b := mkBuf n h).
  assert (Hfit : fits b) by (unfold fits, strlen; simpl; lia).
  assert (H : exists s, trace_loop trace_fuel text realloc (strlen b) b = Some (NL :: s) /\
    (length (NL :: s) < 1024)%nat /\ (malloc = true -> (forall i, realloc i = true) -> forall m, text = Some m ->
       NL :: s = take 1023 (h ++ m))).
  { destruct text as [m|].
    - destruct (trace_loop_text 9 m realloc (strlen b) b) as (cap & Hc & Hcap & Hfull);
        [unfold strlen; lia|done|done|simpl; lia|].
      destruct cap as [|cap]; [lia|]. cbn [text_of b] in Hc, Hfull. rewrite Hh in Hc, Hfull. simpl in Hc.
      exists (take cap (h' ++ m)). split; [exact Hc|]. split; [simpl; rewrite length_take; lia|].
      intros -> Hall m' [= <-]. rewrite Hh. apply Hfull; [simpl; lia|done].
    - exists h'. split; [rewrite <- Hh; by apply trace_loop_error; simpl; lia|].
      split; [rewrite <- Hh; lia|done]. }
  destruct H as (s & Hs & Hl & Hfull). rewrite Hs. cbn [mbind option_bind].
  destruct (SendOut_total (counted o) sent NL s) as [l Hsend]. rewrite Hsend. exists (NL :: s), l.
  split_and!; [done|done|simpl; lia|done|]. intros Hm Hall m Hmt. rewrite (Hfull Hm Hall m Hmt).
  unfold h. do 2 f_equal. unfold n. by rewrite Hm.
Qed.

Definition console : TraceLog := SetTraceLevel 3 gTraceLog.

Lemma trace_output_witness :
  exists s l,
    Trace console (mkTm 0 9 12 30 5) 120000 true (fun _ => true) true 3 (str "a.cpp") (str "f") 7 (Some (str "hello")) =
      Some (counted console, l) /\
    SendOut (counted console) true s = Some l /\ (0 < length s < 1024)%nat /\
    s = [NL] ++ str "01-09 12:30:05.120  INFO a.cpp:7[f]" ++ [9] ++ str "hello".
Proof.
  destruct (trace_output console (mkTm 0 9 12 30 5) 120000 true (fun _ => true) true 3 (str "INFO") (str "a.cpp")
    (str "f") 7 (Some (str "hello"))) as (s & l & H1 & H2 & H3 & H4); [simpl; lia|reflexivity|].
  exists s, l. split; [exact H1|]. split; [exact H2|]. split; [exact H3|].
  rewrite (H4 eq_refl (fun _ => eq_refl) _ eq_refl). vm_compute. reflexivity.
Defined.

(** A dump above the trace level is always sent: title and place, then as many bytes
    as fit; nothing is written outside the buffer. *)
Theorem dump_output o t usec malloc sent nLev name szFile szFunc nLine buf :
  nLevel o < nLev -> priorityNames !! Z.to_nat nLev = Some name ->
  let n := if malloc : bool then Z.of_nat (length buf) * 3 + 128 else 80 in
  exists l,
    Dump o t usec malloc sent nLev szFile szFunc nLine buf = Some (counted o, l) /\
    SendOut (counted o) sent (take (Z.to_nat (n - 1))
      (head_text o t usec name szFile szFunc nLine ++ concat (hex_text <$> buf))) = Some l.
Proof.
  intros Hlev Hname n. unfold Dump, alloc. rewrite (proj2 (Z.leb_gt _ _)) by done. fold n.
  assert (Hn : 80 <= n) by (unfold n; destruct malloc; lia).
  rewrite (heading_text _ _ _ _ name) by (done || lia). cbn [mbind option_bind].
  set (h := head_text o t usec name szFile szFunc nLine).
  assert (Hf : fits (mkBuf n (take (Z.to_nat (n - 1)) h))) by (apply fits_take; lia). rewrite (proj2 (Z.ltb_lt _ _)) by exact Hf.
  rewrite dump_loop_text by exact Hf. cbn [mbind option_bind size text_of]. rewrite take_take_app.
  destruct (Z.to_nat (n - 1)) as [|k] eqn:Hk; [lia|]. unfold h, head_text, title. cbn [app take].
  match goal with |- context [SendOut (counted o) sent (NL :: ?s)] =>
    destruct (SendOut_total (counted o) sent NL s) as [l Hl] end.
  exists l. by rewrite Hl.
Qed.

End DebugLog.
