(* ===== verification/KernelCrc.v ===== *)
(** * KernelCrc: the check sums of the board's kernel

    The Linux kernel kept beside the agent (os/linux-2.6.30) has its own CRC
    routines: [crc_ccitt] (lib/crc-ccitt.c), the algorithm of the agent's frames;
    [crc_itu_t] (lib/crc-itu-t.c), the same polynomial with the bits of every byte in
    the other order; [crc16] (lib/crc16.c, here [linux_crc16]), [crc_t10dif]
    (lib/crc-t10dif.c) and [crc7] (lib/crc7.c); and the bit reversals of
    lib/bitrev.c. *)

From S2P Require Import Prelude CRC16.
Import CRC16.

Module KernelCrc.

Definition crc_ccitt_table : list Z := [
0x0000; 0x1189; 0x2312; 0x329b; 0x4624; 0x57ad; 0x6536; 0x74bf;
0x8c48; 0x9dc1; 0xaf5a; 0xbed3; 0xca6c; 0xdbe5; 0xe97e; 0xf8f7;
0x1081; 0x0108; 0x3393; 0x221a; 0x56a5; 0x472c; 0x75b7; 0x643e;
0x9cc9; 0x8d40; 0xbfdb; 0xae52; 0xdaed; 0xcb64; 0xf9ff; 0xe876;
0x2102; 0x308b; 0x0210; 0x1399; 0x6726; 0x76af; 0x4434; 0x55bd;
0xad4a; 0xbcc3; 0x8e58; 0x9fd1; 0xeb6e; 0xfae7; 0xc87c; 0xd9f5;
0x3183; 0x200a; 0x1291; 0x0318; 0x77a7; 0x662e; 0x54b5; 0x453c;
0xbdcb; 0xac42; 0x9ed9; 0x8f50; 0xfbef; 0xea66; 0xd8fd; 0xc974;
0x4204; 0x538d; 0x6116; 0x709f; 0x0420; 0x15a9; 0x2732; 0x36bb;
0xce4c; 0xdfc5; 0xed5e; 0xfcd7; 0x8868; 0x99e1; 0xab7a; 0xbaf3;
0x5285; 0x430c; 0x7197; 0x601e; 0x14a1; 0x0528; 0x37b3; 0x263a;
0xdecd; 0xcf44; 0xfddf; 0xec56; 0x98e9; 0x8960; 0xbbfb; 0xaa72;
0x6306; 0x728f; 0x4014; 0x519d; 0x2522; 0x34ab; 0x0630; 0x17b9;
0xef4e; 0xfec7; 0xcc5c; 0xddd5; 0xa96a; 0xb8e3; 0x8a78; 0x9bf1;
0x7387; 0x620e; 0x5095; 0x411c; 0x35a3; 0x242a; 0x16b1; 0x0738;
0xffcf; 0xee46; 0xdcdd; 0xcd54; 0xb9eb; 0xa862; 0x9af9; 0x8b70;
0x8408; 0x9581; 0xa71a; 0xb693; 0xc22c; 0xd3a5; 0xe13e; 0xf0b7;
0x0840; 0x19c9; 0x2b52; 0x3adb; 0x4e64; 0x5fed; 0x6d76; 0x7cff;
0x9489; 0x8500; 0xb79b; 0xa612; 0xd2ad; 0xc324; 0xf1bf; 0xe036;
0x18c1; 0x0948; 0x3bd3; 0x2a5a; 0x5ee5; 0x4f6c; 0x7df7; 0x6c7e;
0xa50a; 0xb483; 0x8618; 0x9791; 0xe32e; 0xf2a7; 0xc03c; 0xd1b5;
0x2942; 0x38cb; 0x0a50; 0x1bd9; 0x6f66; 0x7eef; 0x4c74; 0x5dfd;
0xb58b; 0xa402; 0x9699; 0x8710; 0xf3af; 0xe226; 0xd0bd; 0xc134;
0x39c3; 0x284a; 0x1ad1; 0x0b58; 0x7fe7; 0x6e6e; 0x5cf5; 0x4d7c;
0xc60c; 0xd785; 0xe51e; 0xf497; 0x8028; 0x91a1; 0xa33a; 0xb2b3;
0x4a44; 0x5bcd; 0x6956; 0x78df; 0x0c60; 0x1de9; 0x2f72; 0x3efb;
0xd68d; 0xc704; 0xf59f; 0xe416; 0x90a9; 0x8120; 0xb3bb; 0xa232;
0x5ac5; 0x4b4c; 0x79d7; 0x685e; 0x1ce1; 0x0d68; 0x3ff3; 0x2e7a;
0xe70e; 0xf687; 0xc41c; 0xd595; 0xa12a; 0xb0a3; 0x8238; 0x93b1;
0x6b46; 0x7acf; 0x4854; 0x59dd; 0x2d62; 0x3ceb; 0x0e70; 0x1ff9;
0xf78f; 0xe606; 0xd49d; 0xc514; 0xb1ab; 0xa022; 0x92b9; 0x8330;
0x7bc7; 0x6a4e; 0x58d5; 0x495c; 0x3de3; 0x2c6a; 0x1ef1; 0x0f78
].

Definition crc_ccitt_byte (crc c : Z) : Z :=
  (crc .>> 8) .^ default 0 (crc_ccitt_table !! Z.to_nat ((crc .^ c) .& 0xff)).

(** [while (len--) crc = crc_ccitt_byte(crc, *buffer++);]: reading past the buffer has
    no value. *)
Fixpoint crc_ccitt (crc : Z) (buffer : list byte) (len : nat) {struct len} : option Z :=
  match len with
  | O => Some crc
  | S len =>
      match buffer with
      | [] => None
      | c :: buffer => crc_ccitt (crc_ccitt_byte crc c) buffer len
      end
  end.

Definition crc_itu_t_table : list Z := [
0x0000; 0x1021; 0x2042; 0x3063; 0x4084; 0x50a5; 0x60c6; 0x70e7;
0x8108; 0x9129; 0xa14a; 0xb16b; 0xc18c; 0xd1ad; 0xe1ce; 0xf1ef;
0x1231; 0x0210; 0x3273; 0x2252; 0x52b5; 0x4294; 0x72f7; 0x62d6;
0x9339; 0x8318; 0xb37b; 0xa35a; 0xd3bd; 0xc39c; 0xf3ff; 0xe3de;
0x2462; 0x3443; 0x0420; 0x1401; 0x64e6; 0x74c7; 0x44a4; 0x5485;
0xa56a; 0xb54b; 0x8528; 0x9509; 0xe5ee; 0xf5cf; 0xc5ac; 0xd58d;
0x3653; 0x2672; 0x1611; 0x0630; 0x76d7; 0x66f6; 0x5695; 0x46b4;
0xb75b; 0xa77a; 0x9719; 0x8738; 0xf7df; 0xe7fe; 0xd79d; 0xc7bc;
0x48c4; 0x58e5; 0x6886; 0x78a7; 0x0840; 0x1861; 0x2802; 0x3823;
0xc9cc; 0xd9ed; 0xe98e; 0xf9af; 0x8948; 0x9969; 0xa90a; 0xb92b;
0x5af5; 0x4ad4; 0x7ab7; 0x6a96; 0x1a71; 0x0a50; 0x3a33; 0x2a12;
0xdbfd; 0xcbdc; 0xfbbf; 0xeb9e; 0x9b79; 0x8b58; 0xbb3b; 0xab1a;
0x6ca6; 0x7c87; 0x4ce4; 0x5cc5; 0x2c22; 0x3c03; 0x0c60; 0x1c41;
0xedae; 0xfd8f; 0xcdec; 0xddcd; 0xad2a; 0xbd0b; 0x8d68; 0x9d49;
0x7e97; 0x6eb6; 0x5ed5; 0x4ef4; 0x3e13; 0x2e32; 0x1e51; 0x0e70;
0xff9f; 0xefbe; 0xdfdd; 0xcffc; 0xbf1b; 0xaf3a; 0x9f59; 0x8f78;
0x9188; 0x81a9; 0xb1ca; 0xa1eb; 0xd10c; 0xc12d; 0xf14e; 0xe16f;
0x1080; 0x00a1; 0x30c2; 0x20e3; 0x5004; 0x4025; 0x7046; 0x6067;
0x83b9; 0x9398; 0xa3fb; 0xb3da; 0xc33d; 0xd31c; 0xe37f; 0xf35e;
0x02b1; 0x1290; 0x22f3; 0x32d2; 0x4235; 0x5214; 0x6277; 0x7256;
0xb5ea; 0xa5cb; 0x95a8; 0x8589; 0xf56e; 0xe54f; 0xd52c; 0xc50d;
0x34e2; 0x24c3; 0x14a0; 0x0481; 0x7466; 0x6447; 0x5424; 0x4405;
0xa7db; 0xb7fa; 0x8799; 0x97b8; 0xe75f; 0xf77e; 0xc71d; 0xd73c;
0x26d3; 0x36f2; 0x0691; 0x16b0; 0x6657; 0x7676; 0x4615; 0x5634;
0xd94c; 0xc96d; 0xf90e; 0xe92f; 0x99c8; 0x89e9; 0xb98a; 0xa9ab;
0x5844; 0x4865; 0x7806; 0x6827; 0x18c0; 0x08e1; 0x3882; 0x28a3;
0xcb7d; 0xdb5c; 0xeb3f; 0xfb1e; 0x8bf9; 0x9bd8; 0xabbb; 0xbb9a;
0x4a75; 0x5a54; 0x6a37; 0x7a16; 0x0af1; 0x1ad0; 0x2ab3; 0x3a92;
0xfd2e; 0xed0f; 0xdd6c; 0xcd4d; 0xbdaa; 0xad8b; 0x9de8; 0x8dc9;
0x7c26; 0x6c07; 0x5c64; 0x4c45; 0x3ca2; 0x2c83; 0x1ce0; 0x0cc1;
0xef1f; 0xff3e; 0xcf5d; 0xdf7c; 0xaf9b; 0xbfba; 0x8fd9; 0x9ff8;
0x6e17; 0x7e36; 0x4e55; 0x5e74; 0x2e93; 0x3eb2; 0x0ed1; 0x1ef0
].

Definition crc_itu_t_byte (crc data : Z) : Z :=
  u16 ((crc .<< 8) .^ default 0 (crc_itu_t_table !! Z.to_nat (((crc .>> 8) .^ data) .& 0xff))).

Fixpoint crc_itu_t (crc : Z) (buffer : list byte) (len : nat) {struct len} : option Z :=
  match len with
  | O => Some crc
  | S len =>
      match buffer with
      | [] => None
      | c :: buffer => crc_itu_t (crc_itu_t_byte crc c) buffer len
      end
  end.

(** lib/crc16.c: the polynomial 0x8005, low bit first. *)
Definition linux_crc16_table : list Z := [
0x0000; 0xC0C1; 0xC181; 0x0140; 0xC301; 0x03C0; 0x0280; 0xC241;
0xC601; 0x06C0; 0x0780; 0xC741; 0x0500; 0xC5C1; 0xC481; 0x0440;
0xCC01; 0x0CC0; 0x0D80; 0xCD41; 0x0F00; 0xCFC1; 0xCE81; 0x0E40;
0x0A00; 0xCAC1; 0xCB81; 0x0B40; 0xC901; 0x09C0; 0x0880; 0xC841;
0xD801; 0x18C0; 0x1980; 0xD941; 0x1B00; 0xDBC1; 0xDA81; 0x1A40;
0x1E00; 0xDEC1; 0xDF81; 0x1F40; 0xDD01; 0x1DC0; 0x1C80; 0xDC41;
0x1400; 0xD4C1; 0xD581; 0x1540; 0xD701; 0x17C0; 0x1680; 0xD641;
0xD201; 0x12C0; 0x1380; 0xD341; 0x1100; 0xD1C1; 0xD081; 0x1040;
0xF001; 0x30C0; 0x3180; 0xF141; 0x3300; 0xF3C1; 0xF281; 0x3240;
0x3600; 0xF6C1; 0xF781; 0x3740; 0xF501; 0x35C0; 0x3480; 0xF441;
0x3C00; 0xFCC1; 0xFD81; 0x3D40; 0xFF01; 0x3FC0; 0x3E80; 0xFE41;
0xFA01; 0x3AC0; 0x3B80; 0xFB41; 0x3900; 0xF9C1; 0xF881; 0x3840;
0x2800; 0xE8C1; 0xE981; 0x2940; 0xEB01; 0x2BC0; 0x2A80; 0xEA41;
0xEE01; 0x2EC0; 0x2F80; 0xEF41; 0x2D00; 0xEDC1; 0xEC81; 0x2C40;
0xE401; 0x24C0; 0x2580; 0xE541; 0x2700; 0xE7C1; 0xE681; 0x2640;
0x2200; 0xE2C1; 0xE381; 0x2340; 0xE101; 0x21C0; 0x2080; 0xE041;
0xA001; 0x60C0; 0x6180; 0xA141; 0x6300; 0xA3C1; 0xA281; 0x6240;
0x6600; 0xA6C1; 0xA781; 0x6740; 0xA501; 0x65C0; 0x6480; 0xA441;
0x6C00; 0xACC1; 0xAD81; 0x6D40; 0xAF01; 0x6FC0; 0x6E80; 0xAE41;
0xAA01; 0x6AC0; 0x6B80; 0xAB41; 0x6900; 0xA9C1; 0xA881; 0x6840;
0x7800; 0xB8C1; 0xB981; 0x7940; 0xBB01; 0x7BC0; 0x7A80; 0xBA41;
0xBE01; 0x7EC0; 0x7F80; 0xBF41; 0x7D00; 0xBDC1; 0xBC81; 0x7C40;
0xB401; 0x74C0; 0x7580; 0xB541; 0x7700; 0xB7C1; 0xB681; 0x7640;
0x7200; 0xB2C1; 0xB381; 0x7340; 0xB101; 0x71C0; 0x7080; 0xB041;
0x5000; 0x90C1; 0x9181; 0x5140; 0x9301; 0x53C0; 0x5280; 0x9241;
0x9601; 0x56C0; 0x5780; 0x9741; 0x5500; 0x95C1; 0x9481; 0x5440;
0x9C01; 0x5CC0; 0x5D80; 0x9D41; 0x5F00; 0x9FC1; 0x9E81; 0x5E40;
0x5A00; 0x9AC1; 0x9B81; 0x5B40; 0x9901; 0x59C0; 0x5880; 0x9841;
0x8801; 0x48C0; 0x4980; 0x8941; 0x4B00; 0x8BC1; 0x8A81; 0x4A40;
0x4E00; 0x8EC1; 0x8F81; 0x4F40; 0x8D01; 0x4DC0; 0x4C80; 0x8C41;
0x4400; 0x84C1; 0x8581; 0x4540; 0x8701; 0x47C0; 0x4680; 0x8641;
0x8201; 0x42C0; 0x4380; 0x8341; 0x4100; 0x81C1; 0x8081; 0x4040
].

Definition linux_crc16_byte (crc data : Z) : Z :=
  (crc .>> 8) .^ default 0 (linux_crc16_table !! Z.to_nat ((crc .^ data) .& 0xff)).

Fixpoint linux_crc16 (crc : Z) (buffer : list byte) (len : nat) {struct len} : option Z :=
  match len with
  | O => Some crc
  | S len =>
      match buffer with
      | [] => None
      | c :: buffer => linux_crc16 (linux_crc16_byte crc c) buffer len
      end
  end.

(** lib/crc-t10dif.c: the polynomial 0x8bb7, high bit first, starting from 0. *)
Definition t10_dif_crc_table : list Z := [
0x0000; 0x8BB7; 0x9CD9; 0x176E; 0xB205; 0x39B2; 0x2EDC; 0xA56B;
0xEFBD; 0x640A; 0x7364; 0xF8D3; 0x5DB8; 0xD60F; 0xC161; 0x4AD6;
0x54CD; 0xDF7A; 0xC814; 0x43A3; 0xE6C8; 0x6D7F; 0x7A11; 0xF1A6;
0xBB70; 0x30C7; 0x27A9; 0xAC1E; 0x0975; 0x82C2; 0x95AC; 0x1E1B;
0xA99A; 0x222D; 0x3543; 0xBEF4; 0x1B9F; 0x9028; 0x8746; 0x0CF1;
0x4627; 0xCD90; 0xDAFE; 0x5149; 0xF422; 0x7F95; 0x68FB; 0xE34C;
0xFD57; 0x76E0; 0x618E; 0xEA39; 0x4F52; 0xC4E5; 0xD38B; 0x583C;
0x12EA; 0x995D; 0x8E33; 0x0584; 0xA0EF; 0x2B58; 0x3C36; 0xB781;
0xD883; 0x5334; 0x445A; 0xCFED; 0x6A86; 0xE131; 0xF65F; 0x7DE8;
0x373E; 0xBC89; 0xABE7; 0x2050; 0x853B; 0x0E8C; 0x19E2; 0x9255;
0x8C4E; 0x07F9; 0x1097; 0x9B20; 0x3E4B; 0xB5FC; 0xA292; 0x2925;
0x63F3; 0xE844; 0xFF2A; 0x749D; 0xD1F6; 0x5A41; 0x4D2F; 0xC698;
0x7119; 0xFAAE; 0xEDC0; 0x6677; 0xC31C; 0x48AB; 0x5FC5; 0xD472;
0x9EA4; 0x1513; 0x027D; 0x89CA; 0x2CA1; 0xA716; 0xB078; 0x3BCF;
0x25D4; 0xAE63; 0xB90D; 0x32BA; 0x97D1; 0x1C66; 0x0B08; 0x80BF;
0xCA69; 0x41DE; 0x56B0; 0xDD07; 0x786C; 0xF3DB; 0xE4B5; 0x6F02;
0x3AB1; 0xB106; 0xA668; 0x2DDF; 0x88B4; 0x0303; 0x146D; 0x9FDA;
0xD50C; 0x5EBB; 0x49D5; 0xC262; 0x6709; 0xECBE; 0xFBD0; 0x7067;
0x6E7C; 0xE5CB; 0xF2A5; 0x7912; 0xDC79; 0x57CE; 0x40A0; 0xCB17;
0x81C1; 0x0A76; 0x1D18; 0x96AF; 0x33C4; 0xB873; 0xAF1D; 0x24AA;
0x932B; 0x189C; 0x0FF2; 0x8445; 0x212E; 0xAA99; 0xBDF7; 0x3640;
0x7C96; 0xF721; 0xE04F; 0x6BF8; 0xCE93; 0x4524; 0x524A; 0xD9FD;
0xC7E6; 0x4C51; 0x5B3F; 0xD088; 0x75E3; 0xFE54; 0xE93A; 0x628D;
0x285B; 0xA3EC; 0xB482; 0x3F35; 0x9A5E; 0x11E9; 0x0687; 0x8D30;
0xE232; 0x6985; 0x7EEB; 0xF55C; 0x5037; 0xDB80; 0xCCEE; 0x4759;
0x0D8F; 0x8638; 0x9156; 0x1AE1; 0xBF8A; 0x343D; 0x2353; 0xA8E4;
0xB6FF; 0x3D48; 0x2A26; 0xA191; 0x04FA; 0x8F4D; 0x9823; 0x1394;
0x5942; 0xD2F5; 0xC59B; 0x4E2C; 0xEB47; 0x60F0; 0x779E; 0xFC29;
0x4BA8; 0xC01F; 0xD771; 0x5CC6; 0xF9AD; 0x721A; 0x6574; 0xEEC3;
0xA415; 0x2FA2; 0x38CC; 0xB37B; 0x1610; 0x9DA7; 0x8AC9; 0x017E;
0x1F65; 0x94D2; 0x83BC; 0x080B; 0xAD60; 0x26D7; 0x31B9; 0xBA0E;
0xF0D8; 0x7B6F; 0x6C01; 0xE7B6; 0x42DD; 0xC96A; 0xDE04; 0x55B3
].

Fixpoint t10dif_loop (crc : Z) (buffer : list byte) (len : nat) {struct len} : option Z :=
  match len with
  | O => Some crc
  | S len =>
      match buffer with
      | [] => None
      | c :: buffer =>
          t10dif_loop (u16 ((crc .<< 8) .^ default 0 (t10_dif_crc_table !! Z.to_nat (((crc .>> 8) .^ c) .& 0xff)))) buffer len
      end
  end.

Definition crc_t10dif (buffer : list byte) (len : nat) : option Z := t10dif_loop 0 buffer len.

(** lib/crc7.c: seven bits; the index [(crc << 1) ^ data] has no value past the table. *)
Definition crc7_syndrome_table : list Z := [
0x00; 0x09; 0x12; 0x1b; 0x24; 0x2d; 0x36; 0x3f; 0x48; 0x41; 0x5a; 0x53; 0x6c; 0x65; 0x7e; 0x77;
0x19; 0x10; 0x0b; 0x02; 0x3d; 0x34; 0x2f; 0x26; 0x51; 0x58; 0x43; 0x4a; 0x75; 0x7c; 0x67; 0x6e;
0x32; 0x3b; 0x20; 0x29; 0x16; 0x1f; 0x04; 0x0d; 0x7a; 0x73; 0x68; 0x61; 0x5e; 0x57; 0x4c; 0x45;
0x2b; 0x22; 0x39; 0x30; 0x0f; 0x06; 0x1d; 0x14; 0x63; 0x6a; 0x71; 0x78; 0x47; 0x4e; 0x55; 0x5c;
0x64; 0x6d; 0x76; 0x7f; 0x40; 0x49; 0x52; 0x5b; 0x2c; 0x25; 0x3e; 0x37; 0x08; 0x01; 0x1a; 0x13;
0x7d; 0x74; 0x6f; 0x66; 0x59; 0x50; 0x4b; 0x42; 0x35; 0x3c; 0x27; 0x2e; 0x11; 0x18; 0x03; 0x0a;
0x56; 0x5f; 0x44; 0x4d; 0x72; 0x7b; 0x60; 0x69; 0x1e; 0x17; 0x0c; 0x05; 0x3a; 0x33; 0x28; 0x21;
0x4f; 0x46; 0x5d; 0x54; 0x6b; 0x62; 0x79; 0x70; 0x07; 0x0e; 0x15; 0x1c; 0x23; 0x2a; 0x31; 0x38;
0x41; 0x48; 0x53; 0x5a; 0x65; 0x6c; 0x77; 0x7e; 0x09; 0x00; 0x1b; 0x12; 0x2d; 0x24; 0x3f; 0x36;
0x58; 0x51; 0x4a; 0x43; 0x7c; 0x75; 0x6e; 0x67; 0x10; 0x19; 0x02; 0x0b; 0x34; 0x3d; 0x26; 0x2f;
0x73; 0x7a; 0x61; 0x68; 0x57; 0x5e; 0x45; 0x4c; 0x3b; 0x32; 0x29; 0x20; 0x1f; 0x16; 0x0d; 0x04;
0x6a; 0x63; 0x78; 0x71; 0x4e; 0x47; 0x5c; 0x55; 0x22; 0x2b; 0x30; 0x39; 0x06; 0x0f; 0x14; 0x1d;
0x25; 0x2c; 0x37; 0x3e; 0x01; 0x08; 0x13; 0x1a; 0x6d; 0x64; 0x7f; 0x76; 0x49; 0x40; 0x5b; 0x52;
0x3c; 0x35; 0x2e; 0x27; 0x18; 0x11; 0x0a; 0x03; 0x74; 0x7d; 0x66; 0x6f; 0x50; 0x59; 0x42; 0x4b;
0x17; 0x1e; 0x05; 0x0c; 0x33; 0x3a; 0x21; 0x28; 0x5f; 0x56; 0x4d; 0x44; 0x7b; 0x72; 0x69; 0x60;
0x0e; 0x07; 0x1c; 0x15; 0x2a; 0x23; 0x38; 0x31; 0x46; 0x4f; 0x54; 0x5d; 0x62; 0x6b; 0x70; 0x79
].

Definition crc7_byte (crc data : Z) : option Z := crc7_syndrome_table !! Z.to_nat ((crc .<< 1) .^ data).

Fixpoint crc7 (crc : Z) (buffer : list byte) (len : nat) {struct len} : option Z :=
  match len with
  | O => Some crc
  | S len =>
      match buffer with
      | [] => None
      | c :: buffer => crc ← crc7_byte crc c; crc7 crc buffer len
      end
  end.

(** lib/bitrev.c. *)
Definition byte_rev_table : list Z := [
0x00; 0x80; 0x40; 0xc0; 0x20; 0xa0; 0x60; 0xe0; 0x10; 0x90; 0x50; 0xd0; 0x30; 0xb0; 0x70; 0xf0;
0x08; 0x88; 0x48; 0xc8; 0x28; 0xa8; 0x68; 0xe8; 0x18; 0x98; 0x58; 0xd8; 0x38; 0xb8; 0x78; 0xf8;
0x04; 0x84; 0x44; 0xc4; 0x24; 0xa4; 0x64; 0xe4; 0x14; 0x94; 0x54; 0xd4; 0x34; 0xb4; 0x74; 0xf4;
0x0c; 0x8c; 0x4c; 0xcc; 0x2c; 0xac; 0x6c; 0xec; 0x1c; 0x9c; 0x5c; 0xdc; 0x3c; 0xbc; 0x7c; 0xfc;
0x02; 0x82; 0x42; 0xc2; 0x22; 0xa2; 0x62; 0xe2; 0x12; 0x92; 0x52; 0xd2; 0x32; 0xb2; 0x72; 0xf2;
0x0a; 0x8a; 0x4a; 0xca; 0x2a; 0xaa; 0x6a; 0xea; 0x1a; 0x9a; 0x5a; 0xda; 0x3a; 0xba; 0x7a; 0xfa;
0x06; 0x86; 0x46; 0xc6; 0x26; 0xa6; 0x66; 0xe6; 0x16; 0x96; 0x56; 0xd6; 0x36; 0xb6; 0x76; 0xf6;
0x0e; 0x8e; 0x4e; 0xce; 0x2e; 0xae; 0x6e; 0xee; 0x1e; 0x9e; 0x5e; 0xde; 0x3e; 0xbe; 0x7e; 0xfe;
0x01; 0x81; 0x41; 0xc1; 0x21; 0xa1; 0x61; 0xe1; 0x11; 0x91; 0x51; 0xd1; 0x31; 0xb1; 0x71; 0xf1;
0x09; 0x89; 0x49; 0xc9; 0x29; 0xa9; 0x69; 0xe9; 0x19; 0x99; 0x59; 0xd9; 0x39; 0xb9; 0x79; 0xf9;
0x05; 0x85; 0x45; 0xc5; 0x25; 0xa5; 0x65; 0xe5; 0x15; 0x95; 0x55; 0xd5; 0x35; 0xb5; 0x75; 0xf5;
0x0d; 0x8d; 0x4d; 0xcd; 0x2d; 0xad; 0x6d; 0xed; 0x1d; 0x9d; 0x5d; 0xdd; 0x3d; 0xbd; 0x7d; 0xfd;
0x03; 0x83; 0x43; 0xc3; 0x23; 0xa3; 0x63; 0xe3; 0x13; 0x93; 0x53; 0xd3; 0x33; 0xb3; 0x73; 0xf3;
0x0b; 0x8b; 0x4b; 0xcb; 0x2b; 0xab; 0x6b; 0xeb; 0x1b; 0x9b; 0x5b; 0xdb; 0x3b; 0xbb; 0x7b; 0xfb;
0x07; 0x87; 0x47; 0xc7; 0x27; 0xa7; 0x67; 0xe7; 0x17; 0x97; 0x57; 0xd7; 0x37; 0xb7; 0x77; 0xf7;
0x0f; 0x8f; 0x4f; 0xcf; 0x2f; 0xaf; 0x6f; 0xef; 0x1f; 0x9f; 0x5f; 0xdf; 0x3f; 0xbf; 0x7f; 0xff
].

Definition bitrev8 (byte : Z) : Z := default 0 (byte_rev_table !! Z.to_nat byte).
Definition bitrev16 (x : Z) : Z := Z.lor (bitrev8 (x .& 0xff) .<< 8) (bitrev8 (x .>> 8)).
Definition bitrev32 (x : Z) : Z := Z.lor (bitrev16 (x .& 0xffff) .<< 16) (bitrev16 (x .>> 16)).

(** ** The agent's check sum *)

Lemma tables_agree : crc_ccitt_table = crc_table_itut.
Proof. reflexivity. Qed.

Lemma crc_ccitt_byte_agrees crc c : crc_ccitt_byte crc c = crc16_byte c crc.
Proof. unfold crc_ccitt_byte, crc16_byte. rewrite tables_agree. apply Z.lxor_comm. Qed.

Lemma crc_ccitt_loop pre buffer len crc :
  crc_ccitt crc buffer len = crc16_loop (pre ++ buffer) (length pre) len crc.
Proof.
  revert pre buffer crc. induction len as [|len IH]; intros pre buffer crc; [done|]. cbn [crc_ccitt crc16_loop].
  destruct buffer as [|c buffer].
  - rewrite app_nil_r, lookup_ge_None_2; done.
  - rewrite list_lookup_middle by done. cbn [mbind option_bind].
    rewrite crc_ccitt_byte_agrees, (IH (pre ++ [c])), <- app_assoc, length_app, Nat.add_comm. done.
Qed.

(** The check sum of the agent's frames is the kernel's [crc_ccitt], byte for byte and
    for every start value, also in what a too long length reads. *)
Theorem crc_ccitt_is_crc16 start data len :
  crc16 start data len = crc_ccitt (u16 start) data (Z.to_nat len).
Proof. symmetry. apply (crc_ccitt_loop []). Qed.

(** ** Reversed bits *)

(** The [w] low bits of [z] in the other order. *)
Fixpoint reflect (w : nat) (z : Z) : Z :=
  match w with
  | O => 0
  | S w => Z.lor (Z.b2z (Z.odd z) .<< Z.of_nat w) (reflect w (z .>> 1))
  end.

Lemma reflect_bits w z i :
  0 <= i -> Z.testbit (reflect w z) i = (i <? Z.of_nat w) && Z.testbit z (Z.of_nat w - 1 - i).
Proof.
  revert z. induction w as [|w IH]; intros z Hi; cbn [reflect].
  { rewrite Z.bits_0. by rewrite (proj2 (Z.ltb_ge i _)) by lia. }
  rewrite Z.lor_spec, Z.shiftl_spec, IH by lia.
  assert (Hb : Z.testbit (Z.b2z (Z.odd z)) (i - Z.of_nat w) = (i =? Z.of_nat w) && Z.testbit z 0).
  { rewrite Z.bit0_odd. destruct (Z.eqb_spec i (Z.of_nat w)) as [->|Hne].
    - rewrite Z.sub_diag. by destruct (Z.odd z).
    - destruct (Z.lt_ge_cases i (Z.of_nat w)); [by rewrite Z.testbit_neg_r by lia|].
      destruct (Z.odd z); simpl Z.b2z; [|by rewrite Z.bits_0].
      by apply (testbit_small 1); lia. }
  rewrite Hb. destruct (Z.ltb_spec i (Z.of_nat w)) as [Hlt|Hge]; cbn [andb].
  - rewrite (proj2 (Z.eqb_neq _ _)), (proj2 (Z.ltb_lt _ _)) by lia. cbn [andb orb].
    rewrite Z.shiftr_spec by lia. f_equal. lia.
  - rewrite orb_false_r. destruct (Z.eqb_spec i (Z.of_nat w)) as [->|Hne]; cbn [andb].
    + rewrite (proj2 (Z.ltb_lt _ _)) by lia. cbn [andb]. f_equal. lia.
    + by rewrite (proj2 (Z.ltb_ge _ _)) by lia.
Qed.

Lemma reflect_lxor w a b : reflect w (a .^ b) = reflect w a .^ reflect w b.
Proof.
  bitwise_intro i Hi. bit_rewrite. rewrite !reflect_bits, Z.lxor_spec by done. by destruct (i <? _).
Qed.

Lemma reflect_nonneg w z : 0 <= reflect w z.
Proof.
  revert z. induction w; intros z; simpl; [done|]. apply Z.lor_nonneg. split; [|done].
  apply Z.shiftl_nonneg. by destruct (Z.odd z).
Qed.

(** The index into the table and the shifted register, reflected. *)
Lemma reflect_index crc c :
  0 <= crc < 2 ^ 16 -> byte_ok c ->
  ((reflect 16 crc .>> 8) .^ reflect 8 c) .& 0xff = reflect 8 ((crc .^ c) .& 0xff).
Proof.
  intros Hc Hd. bitwise_intro i Hi. change 0xff with (Z.ones 8). rewrite Z.land_spec, Z.lxor_spec.
  rewrite Z.shiftr_spec, !reflect_bits by lia. rewrite Z.land_spec, Z.lxor_spec.
  rewrite Z.testbit_ones_nonneg by lia. change (Z.of_nat 16) with 16. change (Z.of_nat 8) with 8.
  destruct (Z.ltb_spec i 8) as [Hlt|Hge]; [|by rewrite andb_false_r].
  rewrite (proj2 (Z.ltb_lt (i + 8) 16)) by lia. rewrite Z.testbit_ones_nonneg by lia.
  rewrite (proj2 (Z.ltb_lt (8 - 1 - i) 8)) by lia. rewrite !andb_true_r. simpl andb. do 2 f_equal. lia.
Qed.

Lemma reflect_register crc : 0 <= crc < 2 ^ 16 -> u16 (reflect 16 crc .<< 8) = reflect 16 (crc .>> 8).
Proof.
  intros Hc. bitwise_intro i Hi. unfold u16. rewrite reflect_bits by done. change (Z.of_nat 16) with 16.
  destruct (Z.ltb_spec i 16) as [Hlt|Hge]; simpl andb; [|by apply Z.mod_pow2_bits_high].
  rewrite Z.mod_pow2_bits_low, Z.shiftl_spec, Z.shiftr_spec by lia.
  destruct (Z.lt_ge_cases i 8) as [H8|H8].
  - rewrite Z.testbit_neg_r by lia. symmetry. apply (testbit_small 16); lia.
  - rewrite reflect_bits by lia. change (Z.of_nat 16) with 16. rewrite (proj2 (Z.ltb_lt _ _)) by lia. cbn [andb]. f_equal. lia.
Qed.

Lemma reflect_range w z : 0 <= reflect w z < 2 ^ Z.of_nat w.
Proof.
  pose proof (reflect_nonneg w z). split; [done|]. apply small_of_testbit; [lia|done|].
  intros i Hi. rewrite reflect_bits by lia. by rewrite (proj2 (Z.ltb_ge _ _)) by lia.
Qed.

(** ** Table-driven registers

    The two forms of the step: low bit first and high bit first. *)

Definition lsb_byte (T : list Z) (crc c : Z) : Z := (crc .>> 8) .^ default 0 (T !! Z.to_nat ((crc .^ c) .& 0xff)).
Definition msb_byte (T : list Z) (crc c : Z) : Z :=
  u16 ((crc .<< 8) .^ default 0 (T !! Z.to_nat (((crc .>> 8) .^ c) .& 0xff))).

(** The reference: one bit of the division by the polynomial [P], and a byte. *)
Definition bit_step (P c : Z) : Z := (if Z.testbit c 0 then P else 0) .^ (c .>> 1).
Definition byte_step (P crc c : Z) : Z := Nat.iter 8 (bit_step P) (crc .^ c).

(** [T] is the table of [P], [M] its mirror image. *)
Definition table_of (P : Z) : list Z := (fun i => Nat.iter 8 (bit_step P) (Z.of_nat i)) <$> seq 0 256.
Definition mirror_of (P : Z) : list Z := (fun i => reflect 16 (Nat.iter 8 (bit_step P) (reflect 8 (Z.of_nat i)))) <$> seq 0 256.

Section Register.
Context (P : Z) (HP : 0 <= P < 2 ^ 16).
Abbreviation it n c := (Nat.iter n (bit_step P) c).

Lemma bit_step_lxor a b : bit_step P (a .^ b) = bit_step P a .^ bit_step P b.
Proof.
  unfold bit_step. rewrite Z.lxor_spec, Z.shiftr_lxor. bitwise_intro i Hi. bit_rewrite.
  destruct (Z.testbit a 0), (Z.testbit b 0); simpl; rewrite ?Z.bits_0;
    destruct (Z.testbit P i), (Z.testbit (a .>> 1) i), (Z.testbit (b .>> 1) i); done.
Qed.
Lemma bits_lxor n a b : it n (a .^ b) = it n a .^ it n b.
Proof. induction n as [|n IH]; simpl; [done|]. by rewrite IH, bit_step_lxor. Qed.

Lemma bit_step_shiftl v : bit_step P (v .<< 1) = v.
Proof.
  unfold bit_step. rewrite Z.shiftl_spec by lia. rewrite Z.testbit_neg_r by lia.
  by rewrite Z.lxor_0_l, Z.shiftr_shiftl_l, Z.shiftl_0_r by lia.
Qed.
Lemma bits_shiftl n v : it n (v .<< Z.of_nat n) = v.
Proof.
  revert v. induction n as [|n IH]; intros v; [by rewrite Z.shiftl_0_r|].
  rewrite Nat.iter_succ. replace (v .<< Z.of_nat (S n)) with ((v .<< 1) .<< Z.of_nat n).
  - by rewrite IH, bit_step_shiftl.
  - rewrite Z.shiftl_shiftl by lia. f_equal. lia.
Qed.

Lemma bits_range n c : 0 <= c < 2 ^ 16 -> 0 <= it n c < 2 ^ 16.
Proof.
  intros Hc. induction n as [|n IH]; [done|]. rewrite Nat.iter_succ. generalize dependent (it n c). intros v Hv.
  unfold bit_step. apply lxor_range; [lia| |].
  - by case_bool.
  - apply shiftr_range; [lia|lia|]. change (2 ^ (16 + 1)) with (2 * 2 ^ 16). lia.
Qed.
Lemma byte_step_range crc c : 0 <= crc < 2 ^ 16 -> byte_ok c -> 0 <= byte_step P crc c < 2 ^ 16.
Proof. intros Hc Hd. apply bits_range, lxor_range; unfold byte_ok in Hd; lia. Qed.

(** The low byte and the rest of the register. *)
Lemma split_low x : x = (x .& 0xff) .^ ((x .>> 8) .<< Z.of_nat 8).
Proof.
  bitwise_intro i Hi. bit_rewrite. rewrite Z.shiftl_spec by lia.
  change 0xff with (Z.ones 8). rewrite Z.testbit_ones_nonneg by lia. destruct (Z.ltb_spec i 8).
  - rewrite (Z.testbit_neg_r _ (i - Z.of_nat 8)) by lia. by rewrite andb_true_r, xorb_false_r.
  - rewrite Z.shiftr_spec by lia. rewrite andb_false_r, xorb_false_l. f_equal. lia.
Qed.

Lemma lsb_byte_step crc c :
  0 <= crc -> byte_ok c -> lsb_byte (table_of P) crc c = byte_step P crc c.
Proof.
  intros Hc Hd. unfold lsb_byte, byte_step. set (x := crc .^ c). set (k := x .& 0xff).
  assert (Hk : 0 <= k < 256) by (unfold k; rewrite land_255; by apply Z.mod_pos_bound).
  assert (crc .>> 8 = x .>> 8) as ->.
  { unfold x. rewrite Z.shiftr_lxor, (Z.shiftr_div_pow2 c) by lia.
    rewrite (Z.div_small c) by (unfold byte_ok in Hd; lia). by rewrite Z.lxor_0_r. }
  unfold table_of. rewrite list_lookup_fmap, lookup_seq_lt by lia. cbn [fmap option_fmap option_map default from_option id].
  rewrite Nat.add_0_l, Z2Nat.id by lia. rewrite (split_low x) at 2. fold k. by rewrite bits_lxor, bits_shiftl, Z.lxor_comm.
Qed.

Lemma reflect_involutive w z : 0 <= z < 2 ^ Z.of_nat w -> reflect w (reflect w z) = z.
Proof.
  intros Hz. bitwise_intro i Hi. rewrite reflect_bits by done.
  destruct (Z.ltb_spec i (Z.of_nat w)); simpl andb.
  - rewrite reflect_bits by lia. rewrite (proj2 (Z.ltb_lt _ _)) by lia. cbn [andb]. f_equal. lia.
  - symmetry. by eapply testbit_small.
Qed.

(** High bit first is low bit first seen in the mirror. *)
Lemma msb_byte_step crc c :
  0 <= crc < 2 ^ 16 -> byte_ok c ->
  msb_byte (mirror_of P) (reflect 16 crc) (reflect 8 c) = reflect 16 (byte_step P crc c).
Proof.
  intros Hc Hd. rewrite <- lsb_byte_step by (done || lia). unfold msb_byte, lsb_byte. rewrite reflect_index by done.
  set (k := (crc .^ c) .& 0xff). assert (Hk : 0 <= k < 256) by (unfold k; rewrite land_255; by apply Z.mod_pos_bound).
  pose proof (reflect_range 8 k) as Hr. change (2 ^ Z.of_nat 8) with 256 in Hr.
  unfold table_of, mirror_of. rewrite !list_lookup_fmap, !lookup_seq_lt by lia.
  cbn [fmap option_fmap option_map default from_option id]. rewrite !Nat.add_0_l, !Z2Nat.id by lia.
  rewrite (reflect_involutive 8 k) by done. rewrite reflect_lxor, <- reflect_register by done.
  unfold u16. bitwise_intro i Hi. destruct (Z.lt_ge_cases i 16).
  - bit_rewrite. rewrite !Z.mod_pow2_bits_low by lia. by rewrite Z.lxor_spec.
  - bit_rewrite. rewrite !Z.mod_pow2_bits_high by lia. rewrite reflect_bits by lia.
    by rewrite (proj2 (Z.ltb_ge _ _)) by (simpl; lia).
Qed.
End Register.

(** ** The kernel's routines *)

Lemma crc_ccitt_table_ok : crc_ccitt_table = table_of 0x8408.
Proof. vm_compute. reflexivity. Qed.
Lemma linux_crc16_table_ok : linux_crc16_table = table_of 0xA001.
Proof. vm_compute. reflexivity. Qed.
Lemma crc_itu_t_table_ok : crc_itu_t_table = mirror_of 0x8408.
Proof. vm_compute. reflexivity. Qed.
Lemma t10_dif_crc_table_ok : t10_dif_crc_table = mirror_of 0xEDD1.
Proof. vm_compute. reflexivity. Qed.

(** The check sum of a message by long division. *)
Definition crc_ref (P crc : Z) (buffer : list byte) : Z := foldl (byte_step P) crc buffer.

Lemma crc_ccitt_ref buffer crc : bytes_ok buffer -> 0 <= crc < 2 ^ 16 ->
  crc_ccitt crc buffer (length buffer) = Some (crc_ref 0x8408 crc buffer).
Proof.
  intros Hb. revert crc. induction Hb as [|c l Hd _ IH]; intros crc Hc; [done|]. cbn [length crc_ccitt crc_ref foldl].
  assert (crc_ccitt_byte crc c = byte_step 0x8408 crc c) as ->.
  { rewrite <- lsb_byte_step by (done || lia). by rewrite <- crc_ccitt_table_ok. }
  apply IH. by apply byte_step_range.
Qed.

Lemma linux_crc16_ref buffer crc : bytes_ok buffer -> 0 <= crc < 2 ^ 16 ->
  linux_crc16 crc buffer (length buffer) = Some (crc_ref 0xA001 crc buffer).
Proof.
  intros Hb. revert crc. induction Hb as [|c l Hd _ IH]; intros crc Hc; [done|]. cbn [length linux_crc16 crc_ref foldl].
  assert (linux_crc16_byte crc c = byte_step 0xA001 crc c) as ->.
  { rewrite <- lsb_byte_step by (done || lia). by rewrite <- linux_crc16_table_ok. }
  apply IH. by apply byte_step_range.
Qed.

Lemma crc_itu_t_ref buffer crc : bytes_ok buffer -> 0 <= crc < 2 ^ 16 ->
  crc_itu_t (reflect 16 crc) (reflect 8 <$> buffer) (length buffer) = Some (reflect 16 (crc_ref 0x8408 crc buffer)).
Proof.
  intros Hb. revert crc. induction Hb as [|c l Hd _ IH]; intros crc Hc; [done|].
  cbn [length crc_itu_t crc_ref foldl fmap list_fmap].
  assert (crc_itu_t_byte (reflect 16 crc) (reflect 8 c) = reflect 16 (byte_step 0x8408 crc c)) as ->.
  { rewrite <- msb_byte_step by (done || lia). by rewrite <- crc_itu_t_table_ok. }
  apply IH. by apply byte_step_range.
Qed.

Lemma t10dif_ref buffer crc : bytes_ok buffer -> 0 <= crc < 2 ^ 16 ->
  t10dif_loop (reflect 16 crc) (reflect 8 <$> buffer) (length buffer) = Some (reflect 16 (crc_ref 0xEDD1 crc buffer)).
Proof.
  intros Hb. revert crc. induction Hb as [|c l Hd _ IH]; intros crc Hc; [done|].
  cbn [length t10dif_loop crc_ref foldl fmap list_fmap]. rewrite t10_dif_crc_table_ok.
  fold (msb_byte (mirror_of 0xEDD1) (reflect 16 crc) (reflect 8 c)). rewrite msb_byte_step by (done || lia).
  apply IH. by apply byte_step_range.
Qed.


(** ** Seven bits *)

(** One bit of the division by x^7 + x^3 + 1, the register kept in the upper bits. *)
Definition bit_step7 (v : Z) : Z := (if Z.testbit v 7 then 0x12 else 0) .^ u8 (v .<< 1).

Lemma crc7_table_ok : crc7_syndrome_table = (fun i => Nat.iter 8 bit_step7 (Z.of_nat i) .>> 1) <$> seq 0 256.
Proof. vm_compute. reflexivity. Qed.

(** [crc7] of a register below 128 never reads outside its table, stays below 128, and
    divides by the polynomial it names. *)
Theorem crc7_in_bounds crc buffer :
  0 <= crc < 128 -> bytes_ok buffer ->
  crc7 crc buffer (length buffer) =
    Some (foldl (fun crc c => Nat.iter 8 bit_step7 ((crc .<< 1) .^ c) .>> 1) crc buffer) /\
  exists v, crc7 crc buffer (length buffer) = Some v /\ 0 <= v < 128.
Proof.
  assert (Ht : forall i, 0 <= i < 256 -> 0 <= Nat.iter 8 bit_step7 i .>> 1 < 128).
  { intros i Hi. assert (H : forallb (fun n => let v := Nat.iter 8 bit_step7 (Z.of_nat n) .>> 1 in (0 <=? v) && (v <? 128)) (seq 0 256) = true)
      by (vm_compute; reflexivity).
    rewrite forallb_forall in H. specialize (H (Z.to_nat i)). rewrite Z2Nat.id in H by lia.
    specialize (H ltac:(apply in_seq; lia)). cbn zeta in H. to_prop. lia. }
  intros Hc Hb. revert crc Hc. induction Hb as [|c l Hd _ IH]; intros crc Hc; [split; [done|]; by exists crc|].
  cbn [length crc7 foldl].
  assert (Hi : 0 <= (crc .<< 1) .^ c < 256).
  { unfold byte_ok in Hd. apply (lxor_range 8); [lia| |lia]. rewrite Z.shiftl_mul_pow2 by lia. lia. }
  assert (Hstep : crc7_byte crc c = Some (Nat.iter 8 bit_step7 ((crc .<< 1) .^ c) .>> 1)).
  { unfold crc7_byte. rewrite crc7_table_ok, list_lookup_fmap, lookup_seq_lt by lia.
    cbn [fmap option_fmap option_map]. by rewrite Nat.add_0_l, Z2Nat.id by lia. }
  rewrite Hstep. cbn [mbind option_bind]. apply IH. by apply Ht.
Qed.

(** ** Reversing bits *)

Lemma bitrev8_reflect x : 0 <= x < 256 -> bitrev8 x = reflect 8 x.
Proof.
  intros Hx. assert (H : byte_rev_table = (fun i => reflect 8 (Z.of_nat i)) <$> seq 0 256) by (vm_compute; reflexivity).
  unfold bitrev8. rewrite H, list_lookup_fmap, lookup_seq_lt by lia.
  cbn [fmap option_fmap option_map default from_option id]. by rewrite Nat.add_0_l, Z2Nat.id by lia.
Qed.

(** Reversing the halves and swapping them. *)
Lemma reflect_halves (w : nat) x :
  Z.lor (reflect w (x .& Z.ones (Z.of_nat w)) .<< Z.of_nat w) (reflect w (x .>> Z.of_nat w)) = reflect (w + w) x.
Proof.
  bitwise_intro i Hi. rewrite Z.lor_spec, Z.shiftl_spec by lia.
  rewrite (reflect_bits w (x .>> _)), (reflect_bits (w + w)) by lia.
  destruct (Z.ltb_spec i (Z.of_nat w)) as [Hlt|Hge].
  - rewrite Z.testbit_neg_r, (proj2 (Z.ltb_lt i (Z.of_nat (w + w)))) by lia. cbn [orb andb].
    rewrite Z.shiftr_spec by lia. f_equal. lia.
  - rewrite reflect_bits by lia. cbn [andb]. rewrite orb_false_r.
    destruct (Z.ltb_spec i (Z.of_nat (w + w))) as [Hlt|Hge2].
    + rewrite (proj2 (Z.ltb_lt (i - Z.of_nat w) (Z.of_nat w))) by lia. cbn [andb].
      rewrite Z.land_spec, Z.testbit_ones_nonneg by lia. rewrite (proj2 (Z.ltb_lt _ _)) by lia.
      rewrite andb_true_r. f_equal. lia.
    + by rewrite (proj2 (Z.ltb_ge (i - Z.of_nat w) (Z.of_nat w))) by lia.
Qed.

Lemma bitrev16_reflect x : 0 <= x < 2 ^ 16 -> bitrev16 x = reflect 16 x.
Proof.
  intros Hx. unfold bitrev16. rewrite !bitrev8_reflect; [exact (reflect_halves 8 x)|..].
  - apply (shiftr_range 8 8); lia.
  - rewrite land_255. by apply Z.mod_pos_bound.
Qed.

(** The table-driven bit reversals reverse bits. *)
Theorem bitrev_reverses_bits x i :
  0 <= x < 2 ^ 32 -> 0 <= i < 32 -> Z.testbit (bitrev32 x) i = Z.testbit x (31 - i).
Proof.
  intros Hx Hi. assert (bitrev32 x = reflect 32 x) as ->.
  { unfold bitrev32. rewrite !bitrev16_reflect; [exact (reflect_halves 16 x)|..].
    - apply (shiftr_range 16 16); lia.
    - change 0xffff with (Z.ones 16). rewrite Z.land_ones by lia. by apply Z.mod_pos_bound. }
  rewrite reflect_bits by lia. change (Z.of_nat 32) with 32. rewrite (proj2 (Z.ltb_lt _ _)) by lia.
  cbn [andb]. done.
Qed.

End KernelCrc.
