(* ===== verification/KernelFifo.v ===== *)
(** * KernelFifo: the byte queue of the board's kernel

    [struct kfifo] of the Linux kernel kept beside the agent (kernel/kfifo.c,
    include/linux/kfifo.h): a ring buffer whose two indices run freely and wrap at
    32 bits.  Its comment promises that one reader and one writer need no lock, so
    besides the operations there is a machine in which a put and a get go on at the
    same time, byte by byte.

    [memcpy] is the processor's own ([poke], [peek]); [kmalloc] answers with a block
    or not.  [None] is undefined behaviour: a copy outside a block, a failed [BUG_ON],
    waiting for a lock that nobody releases. *)

From stdpp Require Import relations.
From S2P Require Import Prelude.

Module KernelFifo.

(** [unsigned int in], here [inn]. *)
Record kfifo := mkFifo { buffer : list byte; size : Z; inn : Z; out : Z; lock : bool }.

Definition set_buffer (b : list byte) (f : kfifo) : kfifo := mkFifo b (size f) (inn f) (out f) (lock f).
Definition set_inn (n : Z) (f : kfifo) : kfifo := mkFifo (buffer f) (size f) n (out f) (lock f).
Definition set_out (n : Z) (f : kfifo) : kfifo := mkFifo (buffer f) (size f) (inn f) n (lock f).
Definition set_lock (b : bool) (f : kfifo) : kfifo := mkFifo (buffer f) (size f) (inn f) (out f) b.

(** [memcpy] into a block and out of it. *)
Definition poke (m : list byte) (off : Z) (d : list byte) : option (list byte) :=
  if (0 <=? off) && (off + Z.of_nat (length d) <=? Z.of_nat (length m)) then
    Some (take (Z.to_nat off) m ++ d ++ drop (Z.to_nat off + length d) m)
  else None.

Definition peek (m : list byte) (off n : Z) : option (list byte) :=
  if (0 <=? off) && (0 <=? n) && (off + n <=? Z.of_nat (length m)) then
    Some (take (Z.to_nat n) (drop (Z.to_nat off) m))
  else None.

(** ** Making and freeing *)

(** [fls]: the number of the highest bit set, from 1. *)
Definition fls (n : Z) : Z := if n =? 0 then 0 else Z.log2 n + 1.

Definition is_power_of_2 (n : Z) : bool := negb (n =? 0) && (n .& u32 (n - 1) =? 0).
Definition roundup_pow_of_two (n : Z) : Z := u32 (1 .<< fls (u32 (n - 1))).

Definition ENOMEM : Z := 12.

(** [mem]: the [kmalloc] of the struct succeeds; [live] counts the blocks allocated. *)
Definition kfifo_init (buf : list byte) (sz : Z) (mem lck : bool) (live : Z) : option ((Z + kfifo) * Z) :=
  if negb (is_power_of_2 sz) then None
  else if negb mem then Some (inl (- ENOMEM), live)
  else Some (inr (mkFifo buf sz 0 0 lck), live + 1).

(** [block n]: what [kmalloc(n)] answers. *)
Definition kfifo_alloc (sz : Z) (block : Z -> option (list byte)) (mem lck : bool) (live : Z)
    : option ((Z + kfifo) * Z) :=
  sz ← (if negb (sz .& u32 (sz - 1) =? 0) then
          if 0x80000000 <? sz then None else Some (roundup_pow_of_two sz)
        else Some sz);
  match block sz with
  | None => Some (inl (- ENOMEM), live)
  | Some buf =>
      r ← kfifo_init buf sz mem lck (live + 1);
      Some (match fst r with
            | inl e => (inl e, snd r - 1)
            | inr f => (inr f, snd r)
            end)
  end.

Definition kfifo_free (f : kfifo) (live : Z) : Z := live - 2.

(** ** The operations without locking *)

(** [fifo->in & (fifo->size - 1)]. *)
Definition offset (f : kfifo) (i : Z) : Z := i .& u32 (size f - 1).

(** The lengths the two functions start with. *)
Definition put_len (f : kfifo) (len : Z) : Z := Z.min len (u32 (size f - inn f + out f)).
Definition get_len (f : kfifo) (len : Z) : Z := Z.min len (u32 (inn f - out f)).

(** The part of [len] bytes from index [i] on that lies before the end of the buffer. *)
Definition first_part (f : kfifo) (i len : Z) : Z := Z.min len (u32 (size f - offset f i)).

(** [__kfifo_put] of [len] bytes at [data]: the number of bytes put. *)
Definition __kfifo_put (f : kfifo) (data : list byte) (len : Z) : option (Z * kfifo) :=
  let len := put_len f len in
  let l := first_part f (inn f) len in
  d1 ← peek data 0 l;
  b ← poke (buffer f) (offset f (inn f)) d1;
  d2 ← peek data l (len - l);
  b ← poke b 0 d2;
  Some (len, set_inn (u32 (inn f + len)) (set_buffer b f)).

(** [__kfifo_get] of at most [len] bytes: the bytes got. *)
Definition __kfifo_get (f : kfifo) (len : Z) : option (list byte * kfifo) :=
  let len := get_len f len in
  let l := first_part f (out f) len in
  d1 ← peek (buffer f) (offset f (out f)) l;
  d2 ← peek (buffer f) 0 (len - l);
  Some (d1 ++ d2, set_out (u32 (out f + len)) f).

Definition __kfifo_reset (f : kfifo) : kfifo := set_inn 0 (set_out 0 f).
Definition __kfifo_len (f : kfifo) : Z := u32 (inn f - out f).

(** ** The operations that lock *)

Definition locked {A} (f : kfifo) (body : kfifo -> option (A * kfifo)) : option (A * kfifo) :=
  if lock f then None
  else r ← body (set_lock true f); Some (fst r, set_lock false (snd r)).

Definition kfifo_reset (f : kfifo) : option (unit * kfifo) := locked f (fun f => Some (tt, __kfifo_reset f)).
Definition kfifo_put (f : kfifo) (data : list byte) (len : Z) : option (Z * kfifo) :=
  locked f (fun f => __kfifo_put f data len).
Definition kfifo_get (f : kfifo) (len : Z) : option (list byte * kfifo) :=
  locked f (fun f =>
    r ← __kfifo_get f len;
    let f := snd r in
    Some (fst r, if inn f =? out f then set_inn 0 (set_out 0 f) else f)).
Definition kfifo_len (f : kfifo) : option (Z * kfifo) := locked f (fun f => Some (__kfifo_len f, f)).

(** ** Copies *)

(** The cell at [p]. *)
Definition cell (m : list byte) (p : Z) : option byte := m !! Z.to_nat p.

Lemma poke_spec m off d :
  0 <= off -> off + Z.of_nat (length d) <= Z.of_nat (length m) ->
  exists m', poke m off d = Some m' /\ length m' = length m /\
    forall p, 0 <= p ->
      cell m' p = if (off <=? p) && (p <? off + Z.of_nat (length d)) then cell d (p - off) else cell m p.
Proof.
  intros H1 H2. unfold poke. rewrite (proj2 (Z.leb_le _ _) H1), (proj2 (Z.leb_le _ _) H2). simpl.
  eexists. split; [done|]. split.
  { rewrite !length_app, length_take, length_drop. lia. }
  intros p Hp. unfold cell. case_bool; to_prop.
  - rewrite lookup_app_r, lookup_app_l by (rewrite length_take; lia).
    f_equal. rewrite length_take. lia.
  - destruct E as [E|E]; to_prop.
    + rewrite lookup_app_l by (rewrite length_take; lia). apply lookup_take_lt. lia.
    + rewrite !lookup_app_r, lookup_drop by (rewrite ?length_take; lia).
      f_equal. rewrite length_take. lia.
Qed.

Lemma peek_spec m off n :
  0 <= off -> 0 <= n -> off + n <= Z.of_nat (length m) ->
  exists d, peek m off n = Some d /\ Z.of_nat (length d) = n /\
    forall i, 0 <= i < n -> cell d i = cell m (off + i).
Proof.
  intros H1 H2 H3. unfold peek.
  rewrite (proj2 (Z.leb_le _ _) H1), (proj2 (Z.leb_le _ _) H2), (proj2 (Z.leb_le _ _) H3). simpl.
  eexists. split; [done|]. split; [rewrite length_take, length_drop; lia|].
  intros i Hi. unfold cell. rewrite lookup_take_lt, lookup_drop by lia. f_equal. lia.
Qed.

(** ** Indices *)

Definition size_ok (n : Z) : Prop := exists k, 0 <= k <= 31 /\ n = 2 ^ k.

Lemma size_ok_range n : size_ok n -> 0 < n <= 2 ^ 31.
Proof.
  intros (k & Hk & ->). split; [apply Z.pow_pos_nonneg; lia|]. apply Z.pow_le_mono_r; lia.
Qed.

Lemma u32_mod n i : size_ok n -> u32 i mod n = i mod n.
Proof.
  intros (k & Hk & ->). unfold u32. apply Z.mod_mod_divide. exists (2 ^ (32 - k)).
  rewrite <- Z.pow_add_r by lia. f_equal. lia.
Qed.

Lemma offset_mod f i : size_ok (size f) -> offset f i = i mod size f.
Proof.
  intros Hs. pose proof (size_ok_range _ Hs). destruct Hs as (k & Hk & Hs). unfold offset.
  unfold u32. rewrite Z.mod_small by lia. rewrite Hs, Z.sub_1_r, <- Z.ones_equiv. apply Z.land_ones. lia.
Qed.

Lemma u32_small n : 0 <= n < 2 ^ 32 -> u32 n = n.
Proof. apply Z.mod_small. Qed.

Lemma u32_sub a b n : 0 <= n < 2 ^ 32 -> a = b + n -> u32 (u32 a - u32 b) = n.
Proof.
  intros Hn ->. unfold u32. rewrite <- Zminus_mod. replace (b + n - b) with n by lia. by apply Z.mod_small.
Qed.

Lemma u32_add a n : u32 (u32 a + n) = u32 (a + n).
Proof. unfold u32. by rewrite Zplus_mod_idemp_l. Qed.

(** The distance from [a] forward to [p] on the ring. *)
Lemma ring_distance n a i : 0 < n -> 0 <= i < n -> ((a + i) mod n - a mod n) mod n = i.
Proof.
  intros Hn Hi. rewrite <- Zminus_mod. replace (a + i - a) with i by lia. by apply Z.mod_small.
Qed.

(** ** What a buffer holds *)

(** From the free-running index [t] on, the ring holds [l]. *)
Record ring (f : kfifo) (t : Z) (l : list byte) : Prop := {
  ring_size : size_ok (size f);
  ring_buffer : Z.of_nat (length (buffer f)) = size f;
  ring_out : out f = u32 t;
  ring_in : inn f = u32 (t + Z.of_nat (length l));
  ring_room : Z.of_nat (length l) <= size f;
  ring_cells : forall i, 0 <= i < Z.of_nat (length l) -> cell (buffer f) ((t + i) mod size f) = cell l i }.

(** A FIFO that holds the bytes [l], wherever its indices are. *)
Definition holds (f : kfifo) (l : list byte) : Prop := exists t, ring f t l.

Lemma ring_used f t l : ring f t l -> u32 (inn f - out f) = Z.of_nat (length l).
Proof.
  intros [Hs _ Ho Hi Hr _]. apply size_ok_range in Hs. rewrite Hi, Ho. apply u32_sub; lia.
Qed.

Lemma ring_free f t l : ring f t l -> u32 (size f - inn f + out f) = size f - Z.of_nat (length l).
Proof.
  intros [Hs _ Ho Hi Hr _]. apply size_ok_range in Hs. rewrite Hi, Ho. unfold u32.
  rewrite Zplus_mod_idemp_r, Zplus_mod, Zminus_mod_idemp_r, <- Zplus_mod.
  replace (size f - (t + Z.of_nat (length l)) + t) with (size f - Z.of_nat (length l)) by lia.
  apply Z.mod_small. lia.
Qed.

Lemma first_part_spec f i len :
  size_ok (size f) -> first_part f i len = Z.min len (size f - i mod size f).
Proof.
  intros Hs. unfold first_part. rewrite offset_mod by done. apply size_ok_range in Hs as Hr.
  pose proof (Z.mod_pos_bound i (size f)). rewrite u32_small; lia.
Qed.

(** Writing [n] bytes from index [i] on, in two pieces. *)
Lemma write_around sz (m d1 d2 : list byte) i :
  0 < sz -> Z.of_nat (length m) = sz ->
  Z.of_nat (length d1) + Z.of_nat (length d2) <= sz ->
  Z.of_nat (length d1) = Z.min (Z.of_nat (length d1) + Z.of_nat (length d2)) (sz - i mod sz) ->
  exists m1 m2, poke m (i mod sz) d1 = Some m1 /\ poke m1 0 d2 = Some m2 /\ Z.of_nat (length m2) = sz /\
    forall p, 0 <= p < sz ->
      cell m2 p = if (p - i mod sz) mod sz <? Z.of_nat (length d1) + Z.of_nat (length d2)
                  then cell (d1 ++ d2) ((p - i mod sz) mod sz) else cell m p.
Proof.
  intros Hsz Hm Hn Hd. pose proof (Z.mod_pos_bound i sz Hsz) as Ho. set (o := i mod sz) in *.
  destruct (poke_spec m o d1) as (m1 & H1 & L1 & C1); [lia..|].
  destruct (poke_spec m1 0 d2) as (m2 & H2 & L2 & C2); [lia..|].
  exists m1, m2. split; [done|]. split; [done|]. split; [lia|]. intros p Hp. rewrite C2, C1 by lia.
  assert (Hx : (p - o) mod sz = if p <? o then p - o + sz else p - o).
  { case_bool; to_prop; [|apply Z.mod_small; lia].
    symmetry. apply Z.mod_unique_pos with (q := -1); lia. }
  rewrite Hx. clear Hx. unfold cell. repeat case_bool; to_prop; try lia.
  all: try (rewrite lookup_app_r by lia; f_equal; lia).
  all: try (rewrite lookup_app_l by lia; f_equal; lia).
  all: destruct_or?; to_prop; try lia; done.
Qed.

Lemma cell_take n (l : list byte) i : 0 <= i < n -> cell (take (Z.to_nat n) l) i = cell l i.
Proof. intros H. unfold cell. apply lookup_take_lt. lia. Qed.

Lemma cell_ext (l k : list byte) :
  length l = length k -> (forall i, 0 <= i < Z.of_nat (length l) -> cell l i = cell k i) -> l = k.
Proof.
  intros Hl H. apply list_eq. intros i. destruct (decide (i < length l)%nat) as [Hi|Hi].
  - specialize (H (Z.of_nat i) ltac:(lia)). unfold cell in H. by rewrite Nat2Z.id in H.
  - rewrite !lookup_ge_None_2 by lia. done.
Qed.

Lemma cell_app_l (l k : list byte) i : 0 <= i < Z.of_nat (length l) -> cell (l ++ k) i = cell l i.
Proof. intros H. unfold cell. apply lookup_app_l. lia. Qed.
Lemma cell_app_r (l k : list byte) i :
  Z.of_nat (length l) <= i -> cell (l ++ k) i = cell k (i - Z.of_nat (length l)).
Proof. intros H. unfold cell. rewrite lookup_app_r by lia. f_equal. lia. Qed.

(** [m] is the buffer with the first [n] bytes of [data] written from index [in] on. *)
Definition written (f : kfifo) (data : list byte) (n : Z) (m : list byte) : Prop :=
  Z.of_nat (length m) = size f /\
  forall p, 0 <= p < size f ->
    cell m p = if (p - inn f mod size f) mod size f <? n then cell data ((p - inn f mod size f) mod size f)
               else cell (buffer f) p.

(** The cells of a ring after [n] bytes of [data] were written behind [l]. *)
Lemma ring_written f t l m data n :
  ring f t l -> 0 <= n <= size f - Z.of_nat (length l) -> n <= Z.of_nat (length data) -> written f data n m ->
  ring (set_inn (u32 (inn f + n)) (set_buffer m f)) t (l ++ take (Z.to_nat n) data).
Proof.
  intros [Hs Hb Ho Hi Hr Hc] Hn Hd [Hm Hp]. pose proof (size_ok_range _ Hs) as Hsz.
  assert (Hlen : Z.of_nat (length (l ++ take (Z.to_nat n) data)) = Z.of_nat (length l) + n).
  { rewrite length_app, length_take. lia. }
  split; simpl; try done; rewrite ?Hlen; try lia.
  { rewrite Hi, u32_add. f_equal. lia. }
  intros i Hx. rewrite Hp by (apply Z.mod_pos_bound; lia). rewrite Hi, u32_mod by done.
  rewrite <- Zminus_mod. destruct (Z.lt_ge_cases i (Z.of_nat (length l))) as [Hl|Hl].
  - replace (t + i - (t + Z.of_nat (length l))) with (i - Z.of_nat (length l)) by lia.
    assert (E : (i - Z.of_nat (length l)) mod size f = i - Z.of_nat (length l) + size f)
      by (symmetry; apply Z.mod_unique_pos with (q := -1); lia).
    rewrite E, (proj2 (Z.ltb_ge _ _)), Hc, cell_app_l by lia. done.
  - replace (t + i - (t + Z.of_nat (length l))) with (i - Z.of_nat (length l)) by lia.
    rewrite Z.mod_small, (proj2 (Z.ltb_lt _ _)), cell_app_r, cell_take by lia. done.
Qed.

Lemma put_written f t l data len :
  ring f t l -> 0 <= len <= Z.of_nat (length data) ->
  let n := Z.min len (size f - Z.of_nat (length l)) in
  exists m, __kfifo_put f data len = Some (n, set_inn (u32 (inn f + n)) (set_buffer m f)) /\ written f data n m.
Proof.
  intros Hf Hlen n. destruct (Hf) as [Hs Hb Ho Hi Hr Hc]. pose proof (size_ok_range _ Hs) as Hsz.
  unfold __kfifo_put, put_len. rewrite (ring_free _ _ _ Hf). fold n.
  rewrite first_part_spec, offset_mod by done. set (o := inn f mod size f).
  assert (0 <= o < size f) by (apply Z.mod_pos_bound; lia).
  destruct (peek_spec data 0 (Z.min n (size f - o))) as (d1 & P1 & L1 & C1); [lia..|].
  destruct (peek_spec data (Z.min n (size f - o)) (n - Z.min n (size f - o))) as (d2 & P2 & L2 & C2); [lia..|].
  destruct (write_around (size f) (buffer f) d1 d2 (inn f)) as (m1 & m2 & W1 & W2 & Lm & Hp); [lia..|].
  rewrite P1; cbn [mbind option_bind]. fold o in W1. rewrite W1, P2; cbn [mbind option_bind]. rewrite W2. simpl.
  exists m2. split; [done|]. split; [done|].
  intros p Hq. rewrite Hp by done. replace (Z.of_nat (length d1) + Z.of_nat (length d2)) with n by lia.
  fold o. case_bool; [|done]. to_prop. pose proof (Z.mod_pos_bound (p - o) (size f)).
  destruct (Z.lt_ge_cases ((p - o) mod size f) (Z.of_nat (length d1))).
  - rewrite cell_app_l, C1 by lia. done.
  - rewrite cell_app_r, C2 by lia. f_equal. lia.
Qed.

Lemma put_spec f t l data len :
  ring f t l -> 0 <= len <= Z.of_nat (length data) ->
  let n := Z.min len (size f - Z.of_nat (length l)) in
  exists m, __kfifo_put f data len = Some (n, set_inn (u32 (inn f + n)) (set_buffer m f)) /\
    ring (set_inn (u32 (inn f + n)) (set_buffer m f)) t (l ++ take (Z.to_nat n) data).
Proof.
  intros Hf Hlen n. destruct (put_written f t l data len) as (m & H1 & H2); [done..|].
  exists m. split; [done|]. pose proof (ring_room _ _ _ Hf). by apply ring_written; [|lia..|].
Qed.

Lemma get_spec f t l len :
  ring f t l -> 0 <= len ->
  let n := Z.min len (Z.of_nat (length l)) in
  __kfifo_get f len = Some (take (Z.to_nat n) l, set_out (u32 (out f + n)) f) /\
  ring (set_out (u32 (out f + n)) f) (t + n) (drop (Z.to_nat n) l).
Proof.
  intros Hf Hlen n. destruct (Hf) as [Hs Hb Ho Hi Hr Hc]. pose proof (size_ok_range _ Hs) as Hsz. split.
  - unfold __kfifo_get, get_len. rewrite (ring_used _ _ _ Hf). fold n.
    rewrite first_part_spec, offset_mod by done. set (o := out f mod size f).
    assert (0 <= o < size f) by (apply Z.mod_pos_bound; lia).
    destruct (peek_spec (buffer f) o (Z.min n (size f - o))) as (d1 & P1 & L1 & C1); [lia..|].
    destruct (peek_spec (buffer f) 0 (n - Z.min n (size f - o))) as (d2 & P2 & L2 & C2); [lia..|].
    rewrite P1, P2. cbn [mbind option_bind]. repeat f_equal. apply cell_ext.
    { rewrite length_app, length_take. lia. }
    rewrite length_app. intros i Hx. rewrite cell_take, <- Hc by lia.
    assert (E : (t + i) mod size f = (o + i) mod size f).
    { unfold o. by rewrite Ho, u32_mod, Zplus_mod_idemp_l. }
    rewrite E. destruct (Z.lt_ge_cases i (Z.of_nat (length d1))).
    + rewrite cell_app_l, C1 by lia. rewrite Z.mod_small by lia. done.
    + rewrite cell_app_r, C2 by lia. f_equal.
      apply Z.mod_unique_pos with (q := 1); lia.
  - split; simpl; try done.
    + by rewrite Ho, u32_add.
    + rewrite Hi, length_drop. f_equal. lia.
    + rewrite length_drop. lia.
    + rewrite length_drop. intros i Hx. rewrite <- Z.add_assoc, Hc by lia.
      unfold cell. rewrite lookup_drop. f_equal. lia.
Qed.

(** ** Refinement of a bounded queue *)

(** The calls of the locking interface and what they answer: a number or bytes. *)
Inductive call := Put (data : list byte) (len : Z) | Get (len : Z) | Len | Reset.

Definition run_call (f : kfifo) (c : call) : option ((Z + list byte) * kfifo) :=
  match c with
  | Put data len => r ← kfifo_put f data len; Some (inl (fst r), snd r)
  | Get len => r ← kfifo_get f len; Some (inr (fst r), snd r)
  | Len => r ← kfifo_len f; Some (inl (fst r), snd r)
  | Reset => r ← kfifo_reset f; Some (inl 0, snd r)
  end.

Fixpoint run_calls (f : kfifo) (l : list call) : option (list (Z + list byte) * kfifo) :=
  match l with
  | [] => Some ([], f)
  | c :: l => r ← run_call f c; k ← run_calls (snd r) l; Some (fst r :: fst k, snd k)
  end.

(** The queue of at most [cap] bytes. *)
Definition queue_call (cap : Z) (q : list byte) (c : call) : (Z + list byte) * list byte :=
  match c with
  | Put data len =>
      let n := Z.min len (cap - Z.of_nat (length q)) in (inl n, q ++ take (Z.to_nat n) data)
  | Get len => (inr (take (Z.to_nat len) q), drop (Z.to_nat len) q)
  | Len => (inl (Z.of_nat (length q)), q)
  | Reset => (inl 0, [])
  end.

Fixpoint queue_calls (cap : Z) (q : list byte) (l : list call) : list (Z + list byte) * list byte :=
  match l with
  | [] => ([], q)
  | c :: l => let '(a, q) := queue_call cap q c in let '(k, q) := queue_calls cap q l in (a :: k, q)
  end.

(** Lengths are [unsigned], and a put has its bytes. *)
Definition call_ok (c : call) : Prop :=
  match c with
  | Put data len => 0 <= len <= Z.of_nat (length data)
  | Get len => 0 <= len
  | _ => True
  end.

Lemma ring_lock f t l b : ring f t l -> ring (set_lock b f) t l.
Proof. by intros []; split. Qed.

Lemma holds_empty f : size_ok (size f) -> Z.of_nat (length (buffer f)) = size f -> inn f = 0 -> out f = 0 -> holds f [].
Proof.
  intros Hs Hb Hi Ho. pose proof (size_ok_range _ Hs). exists 0. split; try done; simpl; lia.
Qed.

Lemma take_min len (q : list byte) : take (Z.to_nat (Z.min len (Z.of_nat (length q)))) q = take (Z.to_nat len) q.
Proof.
  destruct (Z.le_gt_cases len (Z.of_nat (length q))); [by rewrite Z.min_l|].
  rewrite Z.min_r, !take_ge by lia. done.
Qed.
Lemma drop_min len (q : list byte) : drop (Z.to_nat (Z.min len (Z.of_nat (length q)))) q = drop (Z.to_nat len) q.
Proof.
  destruct (Z.le_gt_cases len (Z.of_nat (length q))); [by rewrite Z.min_l|].
  rewrite Z.min_r, !drop_ge by lia. done.
Qed.

Lemma run_call_spec f q c :
  holds f q -> lock f = false -> call_ok c ->
  exists f', run_call f c = Some (fst (queue_call (size f) q c), f') /\
    holds f' (snd (queue_call (size f) q c)) /\ lock f' = false /\ size f' = size f.
Proof.
  intros [t Hf] Hl Hc. apply (ring_lock _ _ _ true) in Hf as Ht.
  destruct c as [data len|len| |]; simpl in *; unfold kfifo_put, kfifo_get, kfifo_len, kfifo_reset, locked; rewrite Hl.
  - destruct (put_spec _ _ _ data len Ht) as (m & -> & Hm); [done|]. simpl in *.
    eexists. split; [done|]. split; [|done]. exists t. by apply (ring_lock _ _ _ false) in Hm.
  - destruct (get_spec _ _ _ len Ht Hc) as [-> Hr]. simpl.
    rewrite take_min, drop_min in *.
    eexists. split; [done|]. split; [|by destruct (_ =? _)].
    destruct (_ =? _) eqn:E; to_prop; [|eexists; by apply (ring_lock _ _ _ false) in Hr].
    pose proof (ring_used _ _ _ Hr) as Hu. simpl in Hu. rewrite E, Z.sub_diag in Hu.
    destruct (drop (Z.to_nat len) q); [|done]. destruct Hf. by apply holds_empty.
  - eexists. split; [by rewrite <- (ring_used _ _ _ Hf)|]. split; [|done]. eexists. by apply (ring_lock _ _ _ false) in Ht.
  - eexists. split; [done|]. split; [|done]. destruct Hf. by apply holds_empty.
Qed.

Lemma run_calls_spec f q l :
  holds f q -> lock f = false -> Forall call_ok l ->
  exists f', run_calls f l = Some (fst (queue_calls (size f) q l), f') /\
    holds f' (snd (queue_calls (size f) q l)) /\ lock f' = false /\ size f' = size f.
Proof.
  intros Hf Hl Hc. revert f q Hf Hl. induction Hc as [|c l Hc _ IH]; intros f q Hf Hl; simpl; [by exists f|].
  destruct (run_call_spec f q c) as (f1 & -> & H1 & L1 & S1); [done..|]. simpl.
  destruct (IH f1 _ H1 L1) as (f2 & -> & H2 & L2 & S2). simpl. rewrite S1 in *.
  destruct (queue_call _ _ _) as [a q1]. simpl in *. destruct (queue_calls _ _ _) as [k q2]. simpl in *. eauto.
Qed.

(** *** Sizes *)

Lemma land_pred_pow n : 0 < n -> n .& (n - 1) = 0 -> n = 2 ^ Z.log2 n.
Proof.
  intros Hn H. destruct (Z.log2_spec n Hn) as [H1 H2]. pose proof (Z.log2_nonneg n) as Hk.
  destruct (Z.eq_dec n (2 ^ Z.log2 n)) as [|Hne]; [done|].
  assert (Hb : Z.testbit (n .& (n - 1)) (Z.log2 n) = true).
  { rewrite Z.land_spec, Z.bit_log2 by done. simpl.
    replace (Z.log2 n) with (Z.log2 (n - 1)) by (apply Z.log2_unique; lia). apply Z.bit_log2. lia. }
  by rewrite H, Z.bits_0 in Hb.
Qed.

Lemma log2_31 n : 0 < n < 2 ^ 31 -> Z.log2 n <= 30.
Proof. intros H. pose proof (proj1 (Z.log2_lt_pow2 n 31 (proj1 H)) (proj2 H)). lia. Qed.

Lemma roundup_spec n : 1 < n < 2 ^ 31 -> size_ok (roundup_pow_of_two n) /\ n <= roundup_pow_of_two n < 2 * n.
Proof.
  intros Hn. unfold roundup_pow_of_two, fls. rewrite (u32_small (n - 1)) by lia. rewrite (proj2 (Z.eqb_neq _ _)) by lia.
  pose proof (log2_31 (n - 1) ltac:(lia)) as Hl. pose proof (Z.log2_nonneg (n - 1)) as H0.
  destruct (Z.log2_spec (n - 1) ltac:(lia)) as [H1 H2]. rewrite Z.shiftl_mul_pow2, Z.mul_1_l by lia.
  assert (Hp : 2 ^ (Z.log2 (n - 1) + 1) <= 2 ^ 31) by (apply Z.pow_le_mono_r; lia).
  rewrite u32_small by lia. rewrite <- Z.add_1_r in H2. split; [by exists (Z.log2 (n - 1) + 1); split; [lia|]|].
  split; [lia|]. rewrite Z.pow_add_r by lia. change (2 ^ 1) with 2. lia.
Qed.

Lemma alloc_spec sz block lck live :
  1 <= sz <= 2 ^ 31 -> (forall n, 0 <= n -> exists b, block n = Some b /\ Z.of_nat (length b) = n) ->
  exists f, kfifo_alloc sz block true lck live = Some (inr f, live + 2) /\
    holds f [] /\ lock f = lck /\ sz <= size f < 2 * sz.
Proof.
  intros Hsz Hb. unfold kfifo_alloc. rewrite u32_small by lia.
  assert (H : exists n, (if negb (sz .& (sz - 1) =? 0) then
      if 0x80000000 <? sz then None else Some (roundup_pow_of_two sz) else Some sz) = Some n /\
      size_ok n /\ sz <= n < 2 * sz).
  { destruct (Z.eqb_spec (sz .& (sz - 1)) 0) as [H|H]; simpl.
    - exists sz. split; [done|]. split; [|lia]. apply land_pred_pow in H as Hp; [|lia]. exists (Z.log2 sz).
      split; [|done]. split; [apply Z.log2_nonneg|]. change 31 with (Z.log2 (2 ^ 31)). apply Z.log2_le_mono. lia.
    - rewrite (proj2 (Z.ltb_ge _ _)) by lia. eexists. split; [done|]. apply roundup_spec.
      assert (sz <> 1) by (by intros ->). assert (sz <> 2 ^ 31) by (by intros ->). lia. }
  destruct H as (n & -> & Hn & Hr). cbn [mbind option_bind]. pose proof (size_ok_range _ Hn).
  destruct (Hb n) as (b & -> & Hlen); [lia|]. unfold kfifo_init, is_power_of_2.
  rewrite (proj2 (Z.eqb_neq n 0)), u32_small by lia.
  assert (Hz : n .& (n - 1) = 0).
  { destruct Hn as (k & Hk & ->). rewrite Z.sub_1_r, <- Z.ones_equiv, Z.land_ones by lia. apply Z.mod_same. lia. }
  rewrite Hz. simpl. eexists. split; [do 2 f_equal; lia|]. split; [|done]. by apply holds_empty.
Qed.

(** C39. A kernel FIFO is a bounded queue of bytes: [kfifo_alloc] of a size from 1 to
    2^31 makes, when the allocator has memory, an empty one whose capacity is the
    size rounded up to a power of two, and every sequence of [kfifo_put], [kfifo_get],
    [kfifo_len] and [kfifo_reset] on it answers what the queue of that capacity
    answers, with the lock free after each, however often the 32-bit indices wrap. *)
Theorem kfifo_is_a_bounded_queue sz block live :
  1 <= sz <= 2 ^ 31 -> (forall n, 0 <= n -> exists b, block n = Some b /\ Z.of_nat (length b) = n) ->
  exists f, kfifo_alloc sz block true false live = Some (inr f, live + 2) /\ sz <= size f < 2 * sz /\
    forall l, Forall call_ok l ->
      exists f', run_calls f l = Some (fst (queue_calls (size f) [] l), f') /\
        holds f' (snd (queue_calls (size f) [] l)) /\ lock f' = false.
Proof.
  intros Hsz Hb. destruct (alloc_spec sz block false live) as (f & Hf & H0 & Hl & Hr); [done..|].
  exists f. split; [done|]. split; [done|]. intros l Hc.
  destruct (run_calls_spec f [] l) as (f' & H1 & H2 & H3 & _); [done..|]. eauto.
Qed.

(** Five bytes asked for are eight; the second put wraps around the end. *)
Lemma kfifo_is_a_bounded_queue_witness :
  let block n := Some (replicate (Z.to_nat n) 0) in
  let l := [Put [1; 2; 3; 4; 5; 6] 6; Get 4; Put [7; 8; 9; 10; 11; 12; 13] 7; Len; Get 100] in
  exists f, kfifo_alloc 5 block true false 0 = Some (inr f, 0 + 2) /\ 5 <= size f < 2 * 5 /\
    exists f', run_calls f l = Some (fst (queue_calls (size f) [] l), f') /\
      holds f' (snd (queue_calls (size f) [] l)) /\ lock f' = false.
Proof.
  intros block l.
  destruct (kfifo_is_a_bounded_queue 5 block 0) as (f & Hf & Hs & H).
  - lia.
  - intros n Hn. eexists. split; [reflexivity|]. rewrite length_replicate. lia.
  - exists f. split; [exact Hf|]. split; [exact Hs|]. apply H. repeat constructor; simpl; lia.
Defined.

(** ** One writer and one reader without a lock

    A put and a get under way at the same time.  A writer has sampled [out] and copied
    [i] of [len] bytes; a reader has sampled [in] and copied [got].  The barriers of the
    code keep the sampling, the copying and the update of the index in this order. *)

Inductive wstate := WIdle | WCopy (data : list byte) (len i : Z).
Inductive rstate := RIdle | RCopy (len : Z) (got : list byte).

(** [accepted]: all bytes put so far; [delivered]: all bytes got so far. *)
Record machine := mkMachine {
  fifo : kfifo; writer : wstate; reader : rstate; accepted : list byte; delivered : list byte }.

(** Where byte [k] of a copy of [len] bytes from index [i] on lies. *)
Definition place (f : kfifo) (i len k : Z) : Z :=
  if k <? first_part f i len then offset f i + k else k - first_part f i len.

Inductive step : machine -> machine -> Prop :=
| step_put f r acc del data len :
    0 <= len <= Z.of_nat (length data) ->
    step (mkMachine f WIdle r acc del) (mkMachine f (WCopy data (put_len f len) 0) r acc del)
| step_put_byte f r acc del data len i b m :
    i < len -> cell data i = Some b -> poke (buffer f) (place f (inn f) len i) [b] = Some m ->
    step (mkMachine f (WCopy data len i) r acc del) (mkMachine (set_buffer m f) (WCopy data len (i + 1)) r acc del)
| step_put_done f r acc del data len :
    step (mkMachine f (WCopy data len len) r acc del)
      (mkMachine (set_inn (u32 (inn f + len)) f) WIdle r (acc ++ take (Z.to_nat len) data) del)
| step_get f w acc del len :
    0 <= len -> step (mkMachine f w RIdle acc del) (mkMachine f w (RCopy (get_len f len) []) acc del)
| step_get_byte f w acc del len got b :
    Z.of_nat (length got) < len -> cell (buffer f) (place f (out f) len (Z.of_nat (length got))) = Some b ->
    step (mkMachine f w (RCopy len got) acc del) (mkMachine f w (RCopy len (got ++ [b])) acc del)
| step_get_done f w acc del len got :
    Z.of_nat (length got) = len ->
    step (mkMachine f w (RCopy len got) acc del) (mkMachine (set_out (u32 (out f + len)) f) w RIdle acc (del ++ got)).

(** The bytes [l] are in the ring from [t] on; a writer has written behind them, and
    into free cells only; a reader has read from their front. *)
Definition writing (f : kfifo) (t : Z) (l : list byte) (w : wstate) : Prop :=
  match w with
  | WIdle => True
  | WCopy data len i =>
      0 <= i <= len /\ len <= Z.of_nat (length data) /\ len <= size f - Z.of_nat (length l) /\
      forall k, 0 <= k < i -> cell (buffer f) ((t + Z.of_nat (length l) + k) mod size f) = cell data k
  end.

Definition reading (l : list byte) (r : rstate) : Prop :=
  match r with
  | RIdle => True
  | RCopy len got => Z.of_nat (length got) <= len <= Z.of_nat (length l) /\ got = take (length got) l
  end.

Record sound (m : machine) : Prop := {
  sound_content : exists t l, ring (fifo m) t l /\ accepted m = delivered m ++ l /\
    writing (fifo m) t l (writer m) /\ reading l (reader m) }.

Lemma place_mod f i len k :
  size_ok (size f) -> 0 <= k < len -> len <= size f -> place f i len k = (i + k) mod size f.
Proof.
  intros Hs Hk Hl. unfold place. rewrite first_part_spec, offset_mod by done.
  apply size_ok_range in Hs. pose proof (Z.mod_pos_bound i (size f) ltac:(lia)).
  rewrite <- Zplus_mod_idemp_l. case_bool; to_prop; [symmetry; apply Z.mod_small; lia|].
  apply Z.mod_unique_pos with (q := 1); lia.
Qed.

(** Two different places of the ring. *)
Lemma mod_ne n a i j : 0 < n -> 0 <= i < n -> 0 <= j < n -> i <> j -> (a + i) mod n <> (a + j) mod n.
Proof.
  intros Hn Hi Hj Hne H. apply Hne. rewrite <- (ring_distance n a i), <- (ring_distance n a j) by lia. by rewrite H.
Qed.

Lemma poke_one m p b : 0 <= p < Z.of_nat (length m) ->
  exists m', poke m p [b] = Some m' /\ length m' = length m /\
    cell m' p = Some b /\ forall q, 0 <= q -> q <> p -> cell m' q = cell m q.
Proof.
  intros Hp. destruct (poke_spec m p [b]) as (m' & H1 & H2 & H3); [lia|simpl; lia|].
  exists m'. split_and!; try done.
  - rewrite H3 by lia. rewrite (proj2 (Z.leb_le _ _)), (proj2 (Z.ltb_lt _ _)) by (simpl; lia). simpl.
    by rewrite Z.sub_diag.
  - intros q Hq Hne. rewrite H3 by lia. case_bool; [|done]. to_prop. simpl in *. lia.
Qed.

Lemma ring_cell_range f t l i : ring f t l -> 0 <= (t + i) mod size f < Z.of_nat (length (buffer f)).
Proof. intros []. rewrite ring_buffer0. apply Z.mod_pos_bound. apply size_ok_range in ring_size0. lia. Qed.

(** Where the writer's next byte goes. *)
Lemma write_place f t l len i :
  ring f t l -> 0 <= i < len -> len <= size f - Z.of_nat (length l) ->
  place f (inn f) len i = (t + (Z.of_nat (length l) + i)) mod size f.
Proof.
  intros [Hs Hb Ho Hi Hr Hc] Hx Hl. rewrite place_mod by (done || lia).
  rewrite Hi, <- Zplus_mod_idemp_l, u32_mod, Zplus_mod_idemp_l by done. f_equal. lia.
Qed.

Lemma read_place f t l len i :
  ring f t l -> 0 <= i < len -> len <= Z.of_nat (length l) -> place f (out f) len i = (t + i) mod size f.
Proof.
  intros [Hs Hb Ho Hi Hr Hc] Hx Hl. rewrite place_mod by (done || lia).
  by rewrite Ho, <- Zplus_mod_idemp_l, u32_mod, Zplus_mod_idemp_l.
Qed.

(** A byte written behind the content leaves the content and the bytes before it alone. *)
Lemma write_byte f t l data len i b m :
  ring f t l -> writing f t l (WCopy data len i) -> i < len -> cell data i = Some b ->
  poke (buffer f) (place f (inn f) len i) [b] = Some m ->
  ring (set_buffer m f) t l /\ writing (set_buffer m f) t l (WCopy data len (i + 1)).
Proof.
  intros Hf (Hi & Hd & Hl & Hk) Hlt Hb Hm. rewrite (write_place _ t l) in Hm by (done || lia).
  destruct (poke_one (buffer f) ((t + (Z.of_nat (length l) + i)) mod size f) b) as (m' & H1 & H2 & H3 & H4).
  { by apply (ring_cell_range _ _ l). }
  rewrite H1 in Hm. injection Hm as <-. destruct (Hf) as [Hs Hlen Ho Hin Hr Hc].
  apply size_ok_range in Hs as Hz. split; [|split_and!; simpl; try lia].
  - split; simpl; try done; [lia|]. intros j Hj. rewrite H4; [by apply Hc|apply Z.mod_pos_bound; lia|].
    apply mod_ne; lia.
  - intros k Hkx. destruct (decide (k = i)) as [->|Hne]; [by rewrite <- Z.add_assoc, H3|].
    rewrite <- Z.add_assoc, H4, Z.add_assoc; [apply Hk; lia|apply Z.mod_pos_bound; lia|apply mod_ne; lia].
Qed.

Lemma write_done f t l data len :
  ring f t l -> writing f t l (WCopy data len len) ->
  ring (set_inn (u32 (inn f + len)) f) t (l ++ take (Z.to_nat len) data).
Proof.
  intros [Hs Hb Ho Hi Hr Hc] (Hx & Hd & Hl & Hk).
  assert (E : Z.of_nat (length (l ++ take (Z.to_nat len) data)) = Z.of_nat (length l) + len).
  { rewrite length_app, length_take. lia. }
  split; simpl; try done; rewrite ?E; try lia; [rewrite Hi, u32_add; f_equal; lia|].
  intros i Hj. destruct (Z.lt_ge_cases i (Z.of_nat (length l))); [by rewrite cell_app_l, Hc by lia|].
  rewrite cell_app_r, cell_take, <- Hk by lia. do 2 f_equal. lia.
Qed.

Lemma read_done f t l len got :
  ring f t l -> reading l (RCopy len got) -> Z.of_nat (length got) = len ->
  ring (set_out (u32 (out f + len)) f) (t + len) (drop (length got) l).
Proof.
  intros [Hs Hb Ho Hi Hr Hc] [Hl Hg] <-. split; simpl; try done; rewrite ?length_drop; try lia.
  - by rewrite Ho, u32_add.
  - rewrite Hi. f_equal. lia.
  - intros i Hx. rewrite <- Z.add_assoc, Hc by lia. unfold cell. rewrite lookup_drop. f_equal. lia.
Qed.

Lemma step_sound m m' : step m m' -> sound m -> sound m'.
Proof.
  intros Hs [(t & l & Hf & Ha & Hw & Hr)]. split. destruct Hs; simpl in *.
  - exists t, l. split; [done|]. split; [done|]. split; [|done]. unfold put_len. rewrite (ring_free _ _ _ Hf).
    pose proof (ring_room _ _ _ Hf). unfold writing. split_and!; try lia.
  - destruct (write_byte f t l data len i b m) as [H2 H3]; [done..|]. by exists t, l.
  - exists t, (l ++ take (Z.to_nat len) data). split_and!; [by apply write_done|by rewrite Ha, app_assoc|done|].
    destruct r as [|n got]; [done|]. destruct Hr as [Hn Hg]. split; [rewrite length_app; lia|].
    rewrite take_app_le by lia. done.
  - exists t, l. do 3 (split; [done|]). unfold get_len. rewrite (ring_used _ _ _ Hf). split; [simpl; lia|done].
  - destruct Hr as [Hn Hg]. exists t, l. do 3 (split; [done|]). split; [rewrite length_app; simpl; lia|].
    rewrite (read_place _ t l), (ring_cells _ _ _ Hf) in H0 by (done || lia).
    unfold cell in H0. rewrite Nat2Z.id in H0. rewrite length_app. simpl. rewrite Nat.add_1_r.
    rewrite (take_S_r _ _ _ H0). by f_equal.
  - exists (t + len), (drop (length got) l). split_and!; [by apply read_done| | |done].
    + destruct Hr as [Hn Hg]. rewrite Ha, <- app_assoc. f_equal. rewrite Hg at 1. by rewrite take_drop.
    + destruct w as [|data n i]; [done|]. destruct Hw as (Hi & Hd & Hl & Hk), Hr as [Hn Hg]. simpl.
      rewrite length_drop. split_and!; try lia. intros k Hx. rewrite <- Hk by lia. do 2 f_equal. lia.
Qed.

Lemma steps_sound m m' : rtc step m m' -> sound m -> sound m'.
Proof. induction 1; eauto using step_sound. Qed.

(** *** The functions as runs of the machine *)

Lemma written_more f data i b m :
  size_ok (size f) -> 0 <= i < size f -> cell data i = Some b -> written f data i m ->
  exists m', poke m ((inn f + i) mod size f) [b] = Some m' /\ written f data (i + 1) m'.
Proof.
  intros Hs Hi Hb [Hl Hp]. apply size_ok_range in Hs as Hz. set (o := inn f mod size f) in *.
  assert (E : (inn f + i) mod size f = (o + i) mod size f) by (unfold o; by rewrite Zplus_mod_idemp_l).
  rewrite E. destruct (poke_one m ((o + i) mod size f) b) as (m' & H1 & H2 & H3 & H4).
  { rewrite Hl. apply Z.mod_pos_bound. lia. }
  exists m'. split; [done|]. split; [lia|]. fold o. intros p Hq.
  assert (Hd : (o + (p - o) mod size f) mod size f = p).
  { rewrite Zplus_mod_idemp_r. replace (o + (p - o)) with p by lia. by apply Z.mod_small. }
  destruct (decide ((p - o) mod size f = i)) as [Ei|Hne].
  - rewrite Ei in *. rewrite Hd in H3. by rewrite H3, (proj2 (Z.ltb_lt _ _)), Hb by lia.
  - assert (p <> (o + i) mod size f).
    { intros ->. apply Hne. rewrite Zminus_mod_idemp_l. replace (o + i - o) with i by lia. by apply Z.mod_small. }
    rewrite H4, Hp by (lia || done). repeat case_bool; to_prop; done || lia.
Qed.

Lemma put_bytes f r acc del data n :
  size_ok (size f) -> Z.of_nat (length (buffer f)) = size f -> 0 <= n <= size f -> n <= Z.of_nat (length data) ->
  forall i : nat, Z.of_nat i <= n ->
  exists m, written f data (Z.of_nat i) m /\
    rtc step (mkMachine f (WCopy data n 0) r acc del) (mkMachine (set_buffer m f) (WCopy data n (Z.of_nat i)) r acc del).
Proof.
  intros Hs Hb Hn Hd. induction i as [|i IH]; intros Hi.
  - exists (buffer f). split; [|by destruct f].
    split; [done|]. intros p Hp. pose proof (size_ok_range _ Hs).
    rewrite (proj2 (Z.ltb_ge _ _)); [done|]. apply Z.mod_pos_bound. lia.
  - destruct IH as (m & Hm & Hr); [lia|].
    destruct (lookup_lt_is_Some_2 data i) as [b Hc]; [lia|].
    destruct (written_more f data (Z.of_nat i) b m) as (m' & Hk & Hm'); [done|lia|by unfold cell; rewrite Nat2Z.id|done|].
    exists m'. rewrite Nat2Z.inj_succ, <- Z.add_1_r. split; [done|]. etrans; [exact Hr|].
    apply rtc_once. apply (step_put_byte (set_buffer m f) r acc del data n (Z.of_nat i) b m'); [lia|by unfold cell; rewrite Nat2Z.id|].
    rewrite place_mod by (done || (simpl; lia)). done.
Qed.

Lemma put_steps f t l r acc del data len :
  ring f t l -> 0 <= len <= Z.of_nat (length data) ->
  exists n f', __kfifo_put f data len = Some (n, f') /\
    rtc step (mkMachine f WIdle r acc del) (mkMachine f' WIdle r (acc ++ take (Z.to_nat n) data) del).
Proof.
  intros Hf Hlen. destruct (put_written f t l data len Hf Hlen) as (m & Hp & Hw).
  set (n := Z.min len (size f - Z.of_nat (length l))) in *. pose proof (ring_room _ _ _ Hf).
  eexists _, _. split; [exact Hp|].
  destruct (put_bytes f r acc del data n) with (i := Z.to_nat n) as (m' & Hw' & Hs); try (apply Hf || lia).
  rewrite Z2Nat.id in * by lia.
  assert (m' = m) as ->.
  { destruct Hw as [H1 H2], Hw' as [H3 H4]. apply cell_ext; [lia|]. intros i Hi. by rewrite H2, H4 by lia. }
  eapply rtc_l; [by apply (step_put _ _ _ _ data len)|].
  replace (put_len f len) with n by (unfold put_len; by rewrite (ring_free _ _ _ Hf)).
  eapply rtc_r; [exact Hs|]. apply (step_put_done (set_buffer m f)).
Qed.

Lemma get_bytes f t l w acc del n :
  ring f t l -> 0 <= n <= Z.of_nat (length l) ->
  forall i : nat, Z.of_nat i <= n ->
  rtc step (mkMachine f w (RCopy n []) acc del) (mkMachine f w (RCopy n (take i l)) acc del).
Proof.
  intros Hf Hn. induction i as [|i IH]; intros Hi; [done|]. etrans; [apply IH; lia|]. apply rtc_once.
  destruct (lookup_lt_is_Some_2 l i) as [b Hb]; [lia|]. rewrite (take_S_r _ _ _ Hb).
  assert (Hlen : length (take i l) = i) by (rewrite length_take; lia).
  apply step_get_byte; rewrite Hlen; [lia|]. rewrite (read_place _ t l), (ring_cells _ _ _ Hf) by (done || lia).
  unfold cell. by rewrite Nat2Z.id.
Qed.

Lemma get_steps f t l w acc del len :
  ring f t l -> 0 <= len ->
  exists d f', __kfifo_get f len = Some (d, f') /\
    rtc step (mkMachine f w RIdle acc del) (mkMachine f' w RIdle acc (del ++ d)).
Proof.
  intros Hf Hlen. destruct (get_spec f t l len Hf Hlen) as [Hg _].
  set (n := Z.min len (Z.of_nat (length l))) in *. eexists _, _. split; [exact Hg|].
  eapply rtc_l; [by apply (step_get _ _ _ _ len)|].
  replace (get_len f len) with n by (unfold get_len; by rewrite (ring_used _ _ _ Hf)).
  eapply rtc_r; [by apply (get_bytes f t l) with (i := Z.to_nat n); [|lia..]|].
  apply step_get_done. rewrite length_take. lia.
Qed.

(** C36. One writer and one reader need no lock.  Let puts and gets run at the same time
    on a FIFO that was empty, copying byte by byte in any interleaving.  The bytes got so
    far are the first of the bytes put so far, in order; the others, at most as many as
    fit, are in the buffer; no copy leaves its block; and [__kfifo_put] and [__kfifo_get]
    themselves are runs of the writer and of the reader. *)
Theorem fifo_needs_no_lock f m :
  holds f [] -> rtc step (mkMachine f WIdle RIdle [] []) m ->
  (exists rest, accepted m = delivered m ++ rest /\ holds (fifo m) rest) /\
  (forall data len i, writer m = WCopy data len i -> i < len ->
     is_Some (cell data i) /\ forall b, is_Some (poke (buffer (fifo m)) (place (fifo m) (inn (fifo m)) len i) [b])) /\
  (forall len got, reader m = RCopy len got -> Z.of_nat (length got) < len ->
     is_Some (cell (buffer (fifo m)) (place (fifo m) (out (fifo m)) len (Z.of_nat (length got))))) /\
  (forall data len, writer m = WIdle -> 0 <= len <= Z.of_nat (length data) ->
     exists n f', __kfifo_put (fifo m) data len = Some (n, f') /\
       rtc step m (mkMachine f' WIdle (reader m) (accepted m ++ take (Z.to_nat n) data) (delivered m))) /\
  (forall len, reader m = RIdle -> 0 <= len ->
     exists d f', __kfifo_get (fifo m) len = Some (d, f') /\
       rtc step m (mkMachine f' (writer m) RIdle (accepted m) (delivered m ++ d))).
Proof.
  intros [t0 Hf0] Hr.
  assert (Hs : sound m) by (eapply steps_sound; [exact Hr|]; split; by exists t0, []).
  destruct Hs as [(t & l & Hf & Ha & Hw & Hg)]. destruct m as [g w r acc del]. simpl in *.
  split_and!.
  - exists l. split; [done|]. by exists t.
  - intros data len i -> Hi. destruct Hw as (Hx & Hd & Hl & _). split.
    + apply lookup_lt_is_Some_2. lia.
    + intros b. rewrite (write_place _ t l) by (done || lia).
      destruct (poke_one (buffer g) ((t + (Z.of_nat (length l) + i)) mod size g) b) as (k & -> & _); [|done].
      by apply (ring_cell_range _ _ l).
  - intros len got -> Hi. destruct Hg as [Hn _]. rewrite (read_place _ t l) by (done || lia).
    apply lookup_lt_is_Some_2. pose proof (ring_cell_range g t l (Z.of_nat (length got)) Hf). lia.
  - intros data len -> Hlen. by apply (put_steps g t l).
  - intros len -> Hlen. by apply (get_steps g t l).
Qed.

(** Two bytes before the indices wrap: three bytes are put, and while a fourth and a
    fifth are being put, of which there is room for one, two are got. *)
Definition wrapping : kfifo := mkFifo [0; 0; 0; 0] 4 (2 ^ 32 - 2) (2 ^ 32 - 2) false.

Definition under_way : machine :=
  mkMachine (mkFifo [3; 4; 1; 2] 4 1 (2 ^ 32 - 2) false) (WCopy [4; 5] 1 1) (RCopy 2 [1]) [1; 2; 3] [].

Lemma under_way_reached : rtc step (mkMachine wrapping WIdle RIdle [] []) under_way.
Proof.
  eapply rtc_l; [apply (step_put _ _ _ _ [1; 2; 3] 3); simpl; lia|].
  do 3 (eapply rtc_l; [eapply step_put_byte; [by vm_compute|reflexivity|reflexivity]|]).
  eapply rtc_l; [apply (step_put_done _ _ _ _ [1; 2; 3] 3)|].
  eapply rtc_l; [apply (step_get _ _ _ _ 2); lia|].
  eapply rtc_l; [apply (step_put _ _ _ _ [4; 5] 2); simpl; lia|].
  eapply rtc_l; [eapply step_get_byte; [by vm_compute|reflexivity]|].
  eapply rtc_l; [eapply step_put_byte; [by vm_compute|reflexivity|reflexivity]|].
  apply rtc_refl.
Qed.

Lemma fifo_needs_no_lock_witness :
  holds wrapping [] /\ exists rest, [1; 2; 3] = [] ++ rest /\ holds (fifo under_way) rest.
Proof.
  assert (Hh : holds wrapping []).
  { exists (2 ^ 32 - 2). split; try done; [by exists 2|simpl; lia]. }
  split; [exact Hh|]. exact (proj1 (fifo_needs_no_lock wrapping under_way Hh under_way_reached)).
Defined.

End KernelFifo.
