(* ===== verification/KernelSort.v ===== *)
(** * KernelSort: the sorting routine of the board's kernel

    [sort] of lib/sort.c in the Linux kernel kept beside the agent: a heap sort of an
    array of [num] elements of [size] bytes each, with offsets scaled to bytes.

    The array is the memory [base] points to; [cmp_func] is a parameter that sees the
    bytes of two elements, [swap_func] a parameter or [NULL] ([None]).  [size_t] has 32
    bits, as [int]; [None] is undefined behaviour: an access outside the array, an
    overflow of an [int]. *)

From stdpp Require Import sorting.
From S2P Require Import Prelude KernelFifo.
Import KernelFifo.

Module KernelSort.

(** ** Swapping *)

(** [u32_swap]: both words are loaded before they are stored. *)
Definition u32_swap (m : list byte) (a b : Z) (size : Z) : option (list byte) :=
  t ← peek m a 4;
  u ← peek m b 4;
  m ← poke m a u;
  poke m b t.

(** The loop of [generic_swap], [n] turns. *)
Fixpoint generic_swap_loop (n : nat) (m : list byte) (a b : Z) : option (list byte) :=
  match n with
  | O => Some m
  | S n =>
      t ← peek m a 1;
      u ← peek m b 1;
      m ← poke m a u;
      m ← poke m b t;
      generic_swap_loop n m (a + 1) (b + 1)
  end.

(** [do ... while (--size > 0)]. *)
Definition generic_swap (m : list byte) (a b : Z) (size : Z) : option (list byte) :=
  generic_swap_loop (Z.to_nat (Z.max 1 size)) m a b.

Section Sort.
(** The comparison of two elements. *)
Context (cmp : list byte -> list byte -> Z).

Definition swap_t := list byte -> Z -> Z -> Z -> option (list byte).

(** [cmp_func(base + a, base + b)]. *)
Definition cmp_func (m : list byte) (size a b : Z) : option Z :=
  x ← peek m a size; y ← peek m b size; Some (cmp x y).

(** A value computed in [int]. *)
Definition int_ok (z : Z) : option Z := if (- 2 ^ 31 <=? z) && (z <? 2 ^ 31) then Some z else None.

(** [for (; r * 2 + size < n; r = c) ...], with at most [fuel] turns; the comparisons
    with [size] are unsigned. *)
Fixpoint sift (swap : swap_t) (size n : Z) (fuel : nat) (m : list byte) (r : Z) : option (list byte) :=
  match fuel with
  | O => None
  | S fuel =>
      r2 ← int_ok (r * 2);
      if u32 (r2 + size) <? u32 n then
        let c := i32 (u32 (r2 + size)) in
        next ← (if u32 c <? u32 (n - size) then
                  v ← cmp_func m size c (c + size); Some (v <? 0)
                else Some false);
        let c := if next : bool then i32 (u32 (c + size)) else c in
        v ← cmp_func m size r c;
        if 0 <=? v then Some m
        else m ← swap m r c size; sift swap size n fuel m c
      else Some m
  end.

(** [for (; i >= 0; i -= size)]: the first loop. *)
Fixpoint heapify (swap : swap_t) (size n : Z) (fuel : nat) (m : list byte) (i : Z) : option (list byte) :=
  match fuel with
  | O => None
  | S fuel =>
      if 0 <=? i then
        m ← sift swap size n (S (Z.to_nat n)) m i;
        heapify swap size n fuel m (i32 (u32 (i - size)))
      else Some m
  end.

(** [for (i = n - size; i > 0; i -= size)]: the second loop. *)
Fixpoint extract (swap : swap_t) (size : Z) (fuel : nat) (m : list byte) (i : Z) : option (list byte) :=
  match fuel with
  | O => None
  | S fuel =>
      if 0 <? i then
        m ← swap m 0 i size;
        m ← sift swap size i (S (Z.to_nat i)) m 0;
        extract swap size fuel m (i32 (u32 (i - size)))
      else Some m
  end.

(** [sort].  Each turn of the inner loops moves [r] forward below [n], and the outer
    loops make at most [num + 1] turns. *)
Definition sort (base : list byte) (num size : Z) (swap_func : option swap_t) : option (list byte) :=
  let i := i32 (u32 (u32 (num / 2 - 1) * size)) in
  let n := i32 (u32 (num * size)) in
  let swap := match swap_func with
              | Some f => f
              | None => if size =? 4 then u32_swap else generic_swap
              end in
  m ← heapify swap size n (S (Z.to_nat num)) base i;
  extract swap size (S (Z.to_nat num)) m (i32 (u32 (n - size))).
End Sort.

(** ** Heaps in lists *)

Section Heap.
Context {A : Type} {HA : Inhabited A} (cmp : A -> A -> Z).

(** What [cmp_func] promises: the sign turns with the arguments, and it is transitive. *)
Class Compares : Prop := {
  cmp_turn : forall a b, cmp a b <= 0 <-> 0 <= cmp b a;
  cmp_trans : forall a b c, cmp a b <= 0 -> cmp b c <= 0 -> cmp a c <= 0 }.
Context {HC : Compares}.

Abbreviation le a b := (cmp a b <= 0).

Lemma le_refl a : le a a.
Proof. destruct (Z.le_ge_cases (cmp a a) 0); [done|]. by apply cmp_turn. Qed.
Lemma le_of_ge a b : 0 <= cmp a b -> le b a.
Proof. apply cmp_turn. Qed.
Lemma le_of_lt a b : cmp a b < 0 -> le a b.
Proof. lia. Qed.

Definition swap (l : list A) (i j : nat) : list A := <[i := l !!! j]> (<[j := l !!! i]> l).

Lemma swap_length l i j : length (swap l i j) = length l.
Proof. unfold swap. by rewrite !length_insert. Qed.

Lemma swap_at l i j k :
  (i < length l)%nat -> (j < length l)%nat ->
  swap l i j !!! k = if decide (k = i) then l !!! j else if decide (k = j) then l !!! i else l !!! k.
Proof.
  intros Hi Hj. unfold swap. destruct (decide (k = i)) as [->|Hki].
  - by rewrite list_lookup_total_insert_eq by (rewrite length_insert; lia).
  - rewrite list_lookup_total_insert_ne by done. destruct (decide (k = j)) as [->|Hkj].
    + by rewrite list_lookup_total_insert_eq.
    + by rewrite list_lookup_total_insert_ne.
Qed.

Lemma insert_perm (l : list A) i a x : l !! i = Some a -> x :: l ≡ₚ a :: <[i := x]> l.
Proof.
  revert i. induction l as [|b l IH]; intros [|i] H; simplify_eq/=; [by constructor|].
  rewrite (Permutation_swap b x), (IH i) by done. by rewrite Permutation_swap.
Qed.

Lemma swap_perm l i j : (i < length l)%nat -> (j < length l)%nat -> swap l i j ≡ₚ l.
Proof.
  intros Hi Hj. unfold swap. set (l2 := <[j := l !!! i]> l).
  assert (H1 : l !!! i :: l ≡ₚ l !!! j :: l2) by (apply insert_perm; by apply list_lookup_lookup_total_lt).
  assert (H2 : l !!! j :: l2 ≡ₚ l !!! i :: <[i := l !!! j]> l2).
  { apply insert_perm. destruct (decide (i = j)) as [->|Hne].
    - unfold l2. by rewrite list_lookup_insert_eq.
    - unfold l2. rewrite list_lookup_insert_ne by done. by apply list_lookup_lookup_total_lt. }
  symmetry. apply (Permutation_cons_inv (a := l !!! i)). by rewrite H1, H2.
Qed.

(** [c] is a child of [i]. *)
Definition child (i c : nat) : Prop := c = (2 * i + 1)%nat \/ c = (2 * i + 2)%nat.

(** From node [k] on, below [n], no child is above its parent; and the same but for
    node [r], whose children are not above its parent either. *)
Definition heap (l : list A) (k n : nat) : Prop :=
  forall i c, (k <= i)%nat -> child i c -> (c < n)%nat -> le (l !!! c) (l !!! i).
Definition almost (l : list A) (k n r : nat) : Prop :=
  (forall i c, (k <= i)%nat -> i <> r -> child i c -> (c < n)%nat -> le (l !!! c) (l !!! i)) /\
  (forall p c, (k <= p)%nat -> child p r -> child r c -> (c < n)%nat -> le (l !!! c) (l !!! p)).

(** One level of sifting: the larger child, if any. *)
Definition larger (l : list A) (n r : nat) : nat :=
  let c := (2 * r + 1)%nat in
  if decide (S c < n)%nat then if cmp (l !!! c) (l !!! S c) <? 0 then S c else c else c.

Fixpoint sift_list (fuel : nat) (l : list A) (r n : nat) : list A :=
  match fuel with
  | O => l
  | S fuel =>
      if decide (2 * r + 1 < n)%nat then
        let c := larger l n r in
        if 0 <=? cmp (l !!! r) (l !!! c) then l else sift_list fuel (swap l r c) c n
      else l
  end.

Lemma larger_child l n r : child r (larger l n r).
Proof. unfold larger, child. repeat (case_decide || case_bool); lia. Qed.

Lemma larger_lt l n r : (2 * r + 1 < n)%nat -> (larger l n r < n)%nat.
Proof. intros H. unfold larger. repeat (case_decide || case_bool); lia. Qed.

Lemma larger_max l n r c : child r c -> (c < n)%nat -> le (l !!! c) (l !!! larger l n r).
Proof.
  intros Hc Hn. unfold larger. destruct Hc as [->| ->].
  - case_decide; [|apply le_refl]. case_bool; to_prop; [lia|apply le_refl].
  - rewrite decide_True by lia. replace (2 * r + 2)%nat with (S (2 * r + 1)) by lia.
    case_bool; to_prop; [apply le_refl|by apply le_of_ge].
Qed.

(** Nothing is above the root. *)
Lemma heap_root l n i : heap l 0 n -> (i < n)%nat -> le (l !!! i) (l !!! 0%nat).
Proof.
  intros Hh. induction i as [i IH] using lt_wf_ind. intros Hi. destruct i as [|i]; [apply le_refl|].
  apply (cmp_trans _ (l !!! (i / 2)%nat)).
  - apply Hh; [lia| |done]. pose proof (Nat.div_mod_eq i 2). pose proof (Nat.mod_upper_bound i 2). unfold child. lia.
  - assert (i / 2 < S i)%nat by (apply Nat.Div0.div_lt_upper_bound; lia). apply IH; lia.
Qed.

(** *** Sifting *)

Lemma almost_swap l k n r :
  almost l k n r -> (k <= r)%nat -> (n <= length l)%nat -> (2 * r + 1 < n)%nat ->
  cmp (l !!! r) (l !!! larger l n r) < 0 -> almost (swap l r (larger l n r)) k n (larger l n r).
Proof.
  intros [H1 H2] Hk Hn Hr Hlt. set (c := larger l n r) in *.
  assert (Hc : child r c) by apply larger_child. assert (Hcn : (c < n)%nat) by (by apply larger_lt).
  assert (Hrc : (r < c)%nat) by (unfold child in Hc; lia). split.
  - intros i x Hi Hic Hx Hxn. rewrite !swap_at by lia.
    destruct (decide (i = r)) as [->|Hir].
    + destruct (decide (x = r)) as [->|_]; [unfold child in Hx; lia|].
      destruct (decide (x = c)) as [->|_]; [lia|]. by apply larger_max.
    + destruct (decide (i = c)) as [|_]; [done|].
      destruct (decide (x = r)) as [->|Hxr]; [by apply (H2 i c)|].
      destruct (decide (x = c)) as [->|_]; [unfold child in *; lia|]. by apply H1.
  - intros q x Hq Hqc Hx Hxn. assert (q = r) as -> by (unfold child in *; lia). rewrite !swap_at by lia.
    rewrite (decide_True (P := r = r)), !decide_False by (done || unfold child in *; lia).
    apply H1; [lia|lia|done|done].
Qed.

Lemma sift_heap fuel l k n r :
  almost l k n r -> (k <= r)%nat -> (n <= length l)%nat -> (n - r <= fuel)%nat -> heap (sift_list fuel l r n) k n.
Proof.
  revert l r. induction fuel as [|fuel IH]; intros l r Ha Hk Hn Hf; cbn [sift_list].
  - intros i c Hi Hc Hcn. apply (proj1 Ha); [done| |done|done]. unfold child in Hc. lia.
  - case_decide as Hr.
    + case_bool; to_prop.
      * intros i c Hi Hc Hcn. destruct (decide (i = r)) as [->|Hne]; [|by apply (proj1 Ha)].
        apply (cmp_trans _ (l !!! larger l n r)); [by apply larger_max|by apply le_of_ge].
      * pose proof (larger_lt l n r Hr). pose proof (larger_child l n r) as Hc. unfold child in Hc.
        apply IH; [by apply almost_swap|lia|by rewrite swap_length|lia].
    + intros i c Hi Hc Hcn. apply (proj1 Ha); [done| |done|done]. intros ->. unfold child in Hc. lia.
Qed.

(** Sifting permutes the nodes below [n] and leaves the others alone. *)
Lemma sift_frame fuel l r n :
  (r < n)%nat -> (n <= length l)%nat ->
  sift_list fuel l r n ≡ₚ l /\ forall k, (n <= k)%nat -> sift_list fuel l r n !!! k = l !!! k.
Proof.
  revert l r. induction fuel as [|fuel IH]; intros l r Hr Hn; cbn [sift_list]; [done|].
  case_decide as Hc; [|done]. case_bool; [done|]. pose proof (larger_lt l n r Hc) as Hl.
  destruct (IH (swap l r (larger l n r)) (larger l n r)) as [H1 H2]; [done|by rewrite swap_length|].
  split; [by rewrite H1, swap_perm by lia|]. intros k Hk. rewrite H2, swap_at, !decide_False by lia. done.
Qed.

(** Enough turns are enough. *)
Lemma sift_list_fuel f f' l r n :
  (n - r <= f)%nat -> (n - r <= f')%nat -> sift_list f l r n = sift_list f' l r n.
Proof.
  revert f' l r. induction f as [|f IH]; intros [|f'] l r Hf Hf'; cbn [sift_list]; try (rewrite decide_False by lia; done); [done|].
  case_decide as Hc; [|done]. case_bool; [done|]. pose proof (larger_child l n r) as H. unfold child in H.
  apply IH; lia.
Qed.

(** *** The two phases *)

Fixpoint heapify_list (k : nat) (l : list A) (n : nat) : list A :=
  match k with O => l | S k => heapify_list k (sift_list (S n) l k n) n end.

Lemma heap_almost l k n : heap l (S k) n -> almost l k n k.
Proof.
  intros Hh. split; [intros i c Hi Hne; apply Hh; lia|]. intros q c Hq Hk. unfold child in Hk. lia.
Qed.

Lemma heapify_heap k l n :
  heap l k n -> (k <= n)%nat -> n = length l -> heap (heapify_list k l n) 0 n /\ heapify_list k l n ≡ₚ l.
Proof.
  revert l. induction k as [|k IH]; intros l Hh Hk Hn; cbn [heapify_list]; [done|].
  destruct (sift_frame (S n) l k n) as [Hp _]; [lia|lia|].
  destruct (IH (sift_list (S n) l k n)) as [H1 H2].
  - apply sift_heap; [by apply heap_almost|lia..].
  - lia.
  - by rewrite (Permutation_length Hp).
  - split; [done|]. by rewrite H2.
Qed.

Fixpoint extract_list (i : nat) (l : list A) : list A :=
  match i with
  | O => l
  | S k => extract_list k (sift_list (S i) (swap l 0 i) 0 i)
  end.

(** The first [i + 1] nodes are a heap, and behind them everything is in its place. *)
Record extracting (l : list A) (i : nat) : Prop := {
  ex_heap : heap l 0 (S i);
  ex_place : forall a b, (a < b)%nat -> (i < b)%nat -> (b < length l)%nat -> le (l !!! a) (l !!! b) }.

Lemma below_kept (l l' : list A) i x :
  l' ≡ₚ l -> (forall k, (i <= k)%nat -> l' !!! k = l !!! k) -> (i <= length l)%nat ->
  (forall a, (a < i)%nat -> le (l !!! a) x) -> forall a, (a < i)%nat -> le (l' !!! a) x.
Proof.
  intros Hp Hk Hi Hx a Ha. pose proof (Permutation_length Hp) as Hlen.
  assert (Hd : drop i l' = drop i l).
  { apply list_eq. intros j. rewrite !lookup_drop. destruct (decide (i + j < length l)%nat).
    - rewrite !list_lookup_lookup_total_lt by lia. by rewrite Hk by lia.
    - by rewrite !lookup_ge_None_2 by lia. }
  assert (Ht : take i l' ≡ₚ take i l).
  { apply (Permutation_app_inv_r (drop i l)). rewrite <- Hd at 1. by rewrite !take_drop. }
  assert (Hin : l' !!! a ∈ take i l).
  { rewrite <- Ht. apply list_elem_of_lookup. exists a. rewrite lookup_take_lt by done.
    by apply list_lookup_lookup_total_lt; lia. }
  apply list_elem_of_lookup in Hin as [j Hj]. apply lookup_take_Some in Hj as [Hj Hji].
  rewrite <- (list_lookup_total_correct _ _ _ Hj). by apply Hx.
Qed.

Lemma extract_step l k :
  extracting l (S k) -> (S k < length l)%nat ->
  let l' := sift_list (S (S k)) (swap l 0 (S k)) 0 (S k) in extracting l' k /\ l' ≡ₚ l.
Proof.
  intros [Hh Hp] Hk l'. set (l1 := swap l 0 (S k)) in *.
  assert (H1 : forall j, l1 !!! j = if decide (j = 0%nat) then l !!! S k else if decide (j = S k) then l !!! 0%nat else l !!! j)
    by (intros j; apply swap_at; lia).
  assert (Hlen : length l1 = length l) by apply swap_length.
  destruct (sift_frame (S (S k)) l1 0 (S k)) as [Hperm Hrest]; [lia|lia|]. fold l' in Hperm, Hrest.
  assert (Hlen' : length l' = length l) by (by rewrite (Permutation_length Hperm)).
  split; [|by rewrite Hperm; apply swap_perm; lia]. split.
  - apply sift_heap; [|lia..]. split; [|intros q c _ Hq; unfold child in Hq; lia].
    intros j c _ Hj Hc Hcn. rewrite !H1. unfold child in Hc. rewrite !decide_False by lia. apply Hh; unfold child; lia.
  - assert (Hbelow : forall x, (forall a, (a <= S k)%nat -> le (l !!! a) x) -> forall a, (a < S k)%nat -> le (l' !!! a) x).
    { intros x Hx. apply (below_kept l1); [done|done|lia|]. intros a Ha. rewrite H1.
      repeat case_decide; apply Hx; lia. }
    intros a b Hab Hkb Hb. rewrite Hlen' in Hb. rewrite (Hrest b), H1, decide_False by lia.
    destruct (decide (b = S k)) as [->|Hbk].
    + apply Hbelow; [|lia]. intros j Hj. apply (heap_root l (S (S k))); [done|lia].
    + destruct (decide (a < S k)%nat) as [Ha|Ha].
      * apply Hbelow; [|done]. intros j Hj. apply Hp; lia.
      * rewrite (Hrest a), H1, decide_False by lia. case_decide; apply Hp; lia.
Qed.

Lemma extract_sorted i l :
  extracting l i -> (i < length l)%nat ->
  extract_list i l ≡ₚ l /\ forall a b, (a < b)%nat -> (b < length l)%nat -> le (extract_list i l !!! a) (extract_list i l !!! b).
Proof.
  revert l. induction i as [|k IH]; intros l Hx Hi; cbn [extract_list].
  - split; [done|]. intros a b Hab Hb. apply (ex_place _ _ Hx); lia.
  - destruct (extract_step l k Hx Hi) as [H1 H2]. set (l' := sift_list _ _ _ _) in *.
    pose proof (Permutation_length H2) as Hlen.
    destruct (IH l' H1) as [H3 H4]; [lia|]. split; [by rewrite H3|]. intros a b Hab Hb. apply H4; lia.
Qed.

Definition sort_list (l : list A) : list A :=
  extract_list (length l - 1) (heapify_list (length l / 2) l (length l)).

Lemma sorted_of_index (l : list A) :
  (forall a b, (a < b)%nat -> (b < length l)%nat -> le (l !!! a) (l !!! b)) -> StronglySorted (fun x y => le x y) l.
Proof.
  induction l as [|x l IH]; intros Hs; constructor.
  - apply IH. intros a b Hab Hb. apply (Hs (S a) (S b)); simpl; lia.
  - apply Forall_lookup_2. intros i y Hy. rewrite <- (list_lookup_total_correct _ _ _ Hy).
    apply (Hs 0%nat (S i)); [lia|]. apply lookup_lt_Some in Hy. simpl. lia.
Qed.

Lemma sort_list_spec l : sort_list l ≡ₚ l /\ StronglySorted (fun x y => le x y) (sort_list l).
Proof.
  unfold sort_list. destruct l as [|x l0] eqn:E; [by repeat constructor|]. rewrite <- E.
  assert (Hpos : (0 < length l)%nat) by (rewrite E; simpl; lia). clear E.
  destruct (heapify_heap (length l / 2) l (length l)) as [H1 H2].
  - intros i c Hi Hc Hcn. pose proof (Nat.div_mod_eq (length l) 2). pose proof (Nat.mod_upper_bound (length l) 2).
    unfold child in Hc. lia.
  - apply Nat.Div0.div_le_upper_bound. lia.
  - done.
  - set (h := heapify_list _ _ _) in *. pose proof (Permutation_length H2) as Hlen.
    destruct (extract_sorted (length l - 1) h) as [H3 H4]; [|lia|].
    + split; [by replace (S (length l - 1)) with (length l) by lia|]. intros a b _ Hb Hb'. lia.
    + split; [by rewrite H3|]. apply sorted_of_index. intros a b Hab Hb. apply H4; [done|].
      by rewrite <- (Permutation_length H3).
Qed.

End Heap.

(** ** Swapping in memory *)

(** The bytes of [m] with those from [a] on and from [b] on, [n] each, exchanged. *)
Definition exchanged (m : list byte) (a b n : Z) (m' : list byte) : Prop :=
  length m' = length m /\
  forall p, 0 <= p ->
    cell m' p = if (a <=? p) && (p <? a + n) then cell m (p - a + b)
                else if (b <=? p) && (p <? b + n) then cell m (p - b + a) else cell m p.

(** Two areas of [n] bytes inside [m], apart. *)
Definition apart (m : list byte) (a b n : Z) : Prop :=
  0 <= a /\ 0 <= b /\ a + n <= Z.of_nat (length m) /\ b + n <= Z.of_nat (length m) /\ (a + n <= b \/ b + n <= a).

(** What [sort] relies on of the swap function for elements of [size] bytes. *)
Class Swaps (swap : swap_t) (size : Z) : Prop :=
  swaps : forall m a b, apart m a b size -> exists m', swap m a b size = Some m' /\ exchanged m a b size m'.

Lemma peek_poke_swap m a b n :
  0 <= n -> apart m a b n ->
  exists t u m1 m2, peek m a n = Some t /\ peek m b n = Some u /\ poke m a u = Some m1 /\ poke m1 b t = Some m2 /\
    exchanged m a b n m2.
Proof.
  intros Hn (Ha & Hb & Hla & Hlb & Hd).
  destruct (peek_spec m a n) as (t & Pt & Lt & Ct); [lia..|].
  destruct (peek_spec m b n) as (u & Pu & Lu & Cu); [lia..|].
  destruct (poke_spec m a u) as (m1 & P1 & L1 & C1); [lia..|].
  destruct (poke_spec m1 b t) as (m2 & P2 & L2 & C2); [lia..|].
  exists t, u, m1, m2. do 4 (split; [done|]). split; [lia|]. intros p Hp. rewrite C2, C1, Lt, Lu by lia.
  repeat case_bool; to_prop; destruct_or?; to_prop; try lia.
  all: rewrite ?Cu, ?Ct by lia; f_equal; lia.
Qed.

#[export] Instance u32_swaps : Swaps u32_swap 4.
Proof.
  intros m a b Hab. destruct (peek_poke_swap m a b 4) as (t & u & m1 & m2 & H1 & H2 & H3 & H4 & H5); [lia|done|].
  exists m2. unfold u32_swap. by rewrite H1, H2; simpl; rewrite H3; simpl.
Qed.

Lemma generic_swap_loop_spec n m a b :
  apart m a b (Z.of_nat n) ->
  exists m', generic_swap_loop n m a b = Some m' /\ exchanged m a b (Z.of_nat n) m'.
Proof.
  revert m a b. induction n as [|n IH]; intros m a b Hab; cbn [generic_swap_loop].
  { exists m. split; [done|]. split; [done|]. intros p Hp. repeat case_bool; to_prop; done || lia. }
  destruct (peek_poke_swap m a b 1) as (t & u & m1 & m2 & H1 & H2 & H3 & H4 & H5 & H6).
  { lia. } { unfold apart in *. lia. }
  rewrite H1, H2; cbn [mbind option_bind]. rewrite H3; cbn [mbind option_bind]. rewrite H4; cbn [mbind option_bind].
  destruct (IH m2 (a + 1) (b + 1)) as (m3 & H7 & H8 & H9); [unfold apart in *; lia|].
  exists m3. split; [done|]. split; [lia|]. unfold apart in Hab. intros p Hp. rewrite H9 by lia.
  repeat case_bool; to_prop; destruct_or?; to_prop; try lia; rewrite H6 by lia;
    repeat case_bool; to_prop; destruct_or?; to_prop; try lia; f_equal; lia.
Qed.

#[export] Instance generic_swaps size : 0 < size -> Swaps generic_swap size.
Proof.
  intros Hs m a b Hab. unfold generic_swap. rewrite Z.max_r by lia.
  destruct (generic_swap_loop_spec (Z.to_nat size) m a b) as (m' & H1 & H2); rewrite Z2Nat.id in * by lia; [done|].
  by exists m'.
Qed.

(** ** The array in memory *)

Section Memory.
Context (cmp : list byte -> list byte -> Z) (swp : swap_t) (size : Z) (num : nat).
Hypothesis Hsize : 0 < size <= 2 ^ 30.
Context {Hswap : Swaps swp size}.
(** The offsets, and twice an offset, are [int]s. *)
Hypothesis Hfit : Z.of_nat num * size <= 2 ^ 30.

(** Element [i]. *)
Definition elem (m : list byte) (i : nat) : list byte := take (Z.to_nat size) (drop (i * Z.to_nat size) m).
Definition elems (m : list byte) : list (list byte) := elem m <$> seq 0 num.

Definition fits (m : list byte) : Prop := Z.of_nat num * size <= Z.of_nat (length m).

Lemma elems_length m : length (elems m) = num.
Proof. unfold elems. by rewrite length_fmap, length_seq. Qed.

Lemma elems_at m i : (i < num)%nat -> elems m !!! i = elem m i.
Proof.
  intros Hi. apply list_lookup_total_correct. unfold elems. rewrite list_lookup_fmap, lookup_seq_lt by done. done.
Qed.

Lemma at_end i n : (i < n)%nat -> Z.of_nat i * size + size <= Z.of_nat n * size.
Proof. nia. Qed.

Lemma slots i j : i <> j ->
  Z.of_nat i * size + size <= Z.of_nat j * size \/ Z.of_nat j * size + size <= Z.of_nat i * size.
Proof. intros Hij. destruct (decide (i < j)%nat); [left|right]; apply at_end; lia. Qed.

Lemma elem_length m i : fits m -> (i < num)%nat -> Z.of_nat (length (elem m i)) = size.
Proof.
  intros Hm Hi. unfold elem, fits in *. rewrite length_take, length_drop. pose proof (at_end i num Hi). nia.
Qed.

Lemma elem_cell m i q : 0 <= q < size -> cell (elem m i) q = cell m (Z.of_nat i * size + q).
Proof.
  intros Hq. unfold elem, cell. rewrite lookup_take_lt, lookup_drop by lia. f_equal. nia.
Qed.

Lemma peek_elem m i : fits m -> (i < num)%nat -> peek m (Z.of_nat i * size) size = Some (elem m i).
Proof.
  intros Hm Hi. pose proof (at_end i num Hi). unfold fits in Hm.
  destruct (peek_spec m (Z.of_nat i * size) size) as (d & -> & Hl & Hc); [nia|lia|lia|]. f_equal.
  pose proof (elem_length m i Hm Hi). apply cell_ext; [lia|]. intros q Hq. by rewrite Hc, elem_cell by lia.
Qed.

Lemma cmp_elems m i j :
  fits m -> (i < num)%nat -> (j < num)%nat ->
  cmp_func cmp m size (Z.of_nat i * size) (Z.of_nat j * size) = Some (cmp (elems m !!! i) (elems m !!! j)).
Proof. intros Hm Hi Hj. unfold cmp_func. rewrite !peek_elem by done. simpl. by rewrite !elems_at. Qed.

(** What follows the array is left alone. *)
Definition same_rest (m m' : list byte) : Prop :=
  length m' = length m /\ drop (num * Z.to_nat size) m' = drop (num * Z.to_nat size) m.

#[local] Instance same_rest_preorder : PreOrder same_rest.
Proof. split; [done|]. intros m1 m2 m3 [] []. split; congruence. Qed.

Lemma same_rest_fits m m' : same_rest m m' -> fits m -> fits m'.
Proof. intros [H _]. unfold fits. by rewrite H. Qed.

Lemma swap_elems m i j :
  fits m -> (i < num)%nat -> (j < num)%nat -> i <> j ->
  exists m', swp m (Z.of_nat i * size) (Z.of_nat j * size) size = Some m' /\ same_rest m m' /\
    elems m' = swap (elems m) i j.
Proof.
  intros Hm Hi Hj Hij. pose proof (at_end i num Hi). pose proof (at_end j num Hj). unfold fits in Hm.
  pose proof (slots i j Hij) as Hd.
  destruct (swaps m (Z.of_nat i * size) (Z.of_nat j * size)) as (m' & -> & Hl & Hc); [unfold apart; nia|].
  exists m'. split; [done|]. split.
  - split; [done|]. apply list_eq. intros k. rewrite !lookup_drop.
    specialize (Hc (Z.of_nat (num * Z.to_nat size + k)) ltac:(lia)). unfold cell in Hc. rewrite Nat2Z.id in Hc.
    rewrite Hc. repeat case_bool; to_prop; try nia. done.
  - apply list_eq_same_length with (n := num); [by rewrite ?swap_length, elems_length..|].
    intros k x y Hk Hx Hy.
    rewrite <- (list_lookup_total_correct _ _ _ Hx), <- (list_lookup_total_correct _ _ _ Hy).
    rewrite swap_at, !elems_at by (rewrite ?elems_length; lia).
    assert (He : forall j', (j' < num)%nat ->
      (forall q, 0 <= q < size -> cell m' (Z.of_nat k * size + q) = cell m (Z.of_nat j' * size + q)) -> elem m' k = elem m j').
    { intros j' Hj' H'. apply cell_ext.
      - pose proof (elem_length m j' Hm Hj'). pose proof (elem_length m' k). unfold fits in *. rewrite Hl in *. lia.
      - intros q Hq. rewrite elem_length in Hq by (unfold fits; rewrite ?Hl; done). by rewrite !elem_cell, H' by lia. }
    repeat case_decide; subst; apply He; try done; intros q Hq; rewrite Hc by nia;
      repeat case_bool; to_prop; destruct_or?; to_prop; try lia; try (f_equal; lia).
    all: pose proof (slots k i); pose proof (slots k j); lia.
Qed.

(** *** The loops on memory and on lists *)

Lemma scaled i n : (i < n)%nat <-> Z.of_nat i * size < Z.of_nat n * size.
Proof. nia. Qed.

Lemma scaled_bool i n : (Z.of_nat i * size <? Z.of_nat n * size) = bool_decide (i < n)%nat.
Proof. apply Bool.eq_iff_eq_true. rewrite bool_decide_eq_true, Z.ltb_lt. symmetry. apply scaled. Qed.

Lemma scaled_fits i : (i <= num)%nat -> 0 <= Z.of_nat i * size <= 2 ^ 30.
Proof. nia. Qed.

(** The choice of the child at its offset. *)
Lemma child_offset m n r :
  fits m -> (n <= num)%nat -> (2 * r + 1 < n)%nat ->
  let c := Z.of_nat (2 * r + 1) * size in
  (next ← (if u32 c <? u32 (Z.of_nat n * size - size) then v ← cmp_func cmp m size c (c + size); Some (v <? 0)
           else Some false);
   Some (if next : bool then i32 (u32 (c + size)) else c)) = Some (Z.of_nat (larger cmp (elems m) n r) * size).
Proof.
  intros Hm Hn Hr c. pose proof (scaled_fits n Hn). pose proof (scaled_fits (2 * r + 1)).
  unfold c, larger. replace (Z.of_nat n * size - size) with (Z.of_nat (n - 1) * size) by nia.
  rewrite !u32_small, scaled_bool by nia. destruct (decide (S (2 * r + 1) < n)%nat) as [Hs|Hs].
  - rewrite bool_decide_true by lia.
    replace (Z.of_nat (2 * r + 1) * size + size) with (Z.of_nat (S (2 * r + 1)) * size) by lia.
    rewrite cmp_elems by (done || lia). simpl. case_bool; [|done].
    pose proof (scaled_fits (S (2 * r + 1))). by rewrite i32_small by lia.
  - by rewrite bool_decide_false by lia.
Qed.

Lemma sift_elems fuel m r n :
  fits m -> (r < n)%nat -> (n <= num)%nat -> (n - r <= fuel)%nat ->
  exists m', sift cmp swp size (Z.of_nat n * size) fuel m (Z.of_nat r * size) = Some m' /\ same_rest m m' /\
    elems m' = sift_list cmp fuel (elems m) r n.
Proof.
  revert m r. induction fuel as [|fuel IH]; intros m r Hm Hr Hn Hf; [lia|]. cbn [sift sift_list].
  pose proof (scaled_fits n Hn). pose proof (at_end r n Hr). unfold int_ok.
  replace (_ && _) with true by (symmetry; apply andb_true_intro; rewrite Z.leb_le, Z.ltb_lt; nia).
  cbn [mbind option_bind].
  replace (Z.of_nat r * size * 2 + size) with (Z.of_nat (2 * r + 1) * size) by lia.
  rewrite (u32_small (Z.of_nat (2 * r + 1) * size)), (u32_small (Z.of_nat n * size)), scaled_bool by nia.
  destruct (decide (2 * r + 1 < n)%nat) as [Hc|Hc]; [|rewrite bool_decide_false by done; by exists m].
  rewrite bool_decide_true by done. pose proof (scaled_fits (2 * r + 1) ltac:(lia)).
  rewrite (i32_small (Z.of_nat (2 * r + 1) * size)) by lia. pose proof (child_offset m n r Hm Hn Hc) as Hl. cbv zeta in Hl.
  destruct (if _ <? _ then _ else _) as [next|]; [|done]. cbn [mbind option_bind] in *. apply (inj Some) in Hl. rewrite Hl.
  pose proof (larger_lt cmp (elems m) n r Hc). pose proof (larger_child cmp (elems m) n r) as Hch. unfold child in Hch.
  rewrite cmp_elems by (done || lia). cbn [mbind option_bind]. case_bool; [by exists m|].
  destruct (swap_elems m r (larger cmp (elems m) n r)) as (m1 & -> & S1 & E1); [done|lia..|].
  destruct (IH m1 (larger cmp (elems m) n r)) as (m2 & R2 & S2 & E2); [by eapply same_rest_fits|lia..|].
  exists m2. split; [done|]. split; [by etrans|]. by rewrite E2, E1.
Qed.

(** A loop's counter after [i -= size]. *)
Lemma step_back i : (i <= num)%nat -> i32 (u32 (Z.of_nat i * size - size)) = (Z.of_nat i - 1) * size.
Proof.
  intros Hi. pose proof (scaled_fits i Hi). replace (Z.of_nat i * size - size) with ((Z.of_nat i - 1) * size) by lia.
  destruct i as [|i]; [|rewrite u32_small, i32_small; nia].
  unfold u32, i32. rewrite Zplus_mod_idemp_l, Z.mod_small; [lia|].
  nia.
Qed.

Lemma heapify_elems fuel m k :
  fits m -> (2 * k <= num)%nat -> (k < fuel)%nat ->
  exists m', heapify cmp swp size (Z.of_nat num * size) fuel m ((Z.of_nat k - 1) * size) = Some m' /\ same_rest m m' /\
    elems m' = heapify_list cmp k (elems m) num.
Proof.
  revert m k. induction fuel as [|fuel IH]; intros m k Hm Hk Hf; [lia|]. cbn [heapify].
  destruct k as [|k]; cbn [heapify_list].
  { replace (_ <=? _) with false by (symmetry; apply Z.leb_gt; nia). by exists m. }
  replace (_ <=? _) with true by (symmetry; apply Z.leb_le; nia).
  replace (Z.of_nat (S k) - 1) with (Z.of_nat k) by lia.
  destruct (sift_elems (S (Z.to_nat (Z.of_nat num * size))) m k num) as (m1 & -> & S1 & E1); [done|nia..|].
  cbn [mbind option_bind]. rewrite step_back by lia.
  destruct (IH m1 k) as (m2 & R2 & S2 & E2); [by eapply same_rest_fits|lia..|].
  exists m2. split; [done|]. split; [by etrans|]. rewrite E2, E1. f_equal. apply sift_list_fuel; nia.
Qed.

Lemma extract_elems fuel m i :
  fits m -> (i < num)%nat -> (i < fuel)%nat ->
  exists m', extract cmp swp size fuel m (Z.of_nat i * size) = Some m' /\ same_rest m m' /\
    elems m' = extract_list cmp i (elems m).
Proof.
  revert m i. induction fuel as [|fuel IH]; intros m i Hm Hi Hf; [lia|]. cbn [extract].
  destruct i as [|i]; cbn [extract_list]; [by exists m|].
  replace (_ <? _) with true by (symmetry; apply Z.ltb_lt; nia).
  destruct (swap_elems m 0 (S i)) as (m1 & R1 & S1 & E1); [done|lia..|].
  replace (Z.of_nat 0 * size) with 0 in R1 by lia. rewrite R1. cbn [mbind option_bind].
  destruct (sift_elems (S (Z.to_nat (Z.of_nat (S i) * size))) m1 0 (S i)) as (m2 & R2 & S2 & E2);
    [by eapply same_rest_fits|nia..|].
  replace (Z.of_nat 0 * size) with 0 in R2 by lia. rewrite R2. cbn [mbind option_bind].
  rewrite step_back by lia. replace (Z.of_nat (S i) - 1) with (Z.of_nat i) by lia.
  assert (S12 : same_rest m m2) by by etrans.
  destruct (IH m2 i) as (m3 & R3 & S3 & E3); [by eapply same_rest_fits|lia..|].
  exists m3. split; [done|]. split; [by etrans|]. rewrite E3, E2, E1. f_equal. apply sift_list_fuel; nia.
Qed.

Lemma sort_elems m :
  fits m ->
  exists m', sort cmp m (Z.of_nat num) size (Some swp) = Some m' /\ same_rest m m' /\ elems m' = sort_list cmp (elems m).
Proof.
  intros Hm. pose proof (scaled_fits num ltac:(done)). unfold sort, sort_list. rewrite elems_length.
  rewrite (u32_small (Z.of_nat num * size)), (i32_small (Z.of_nat num * size)) by lia.
  assert (Hi : i32 (u32 (u32 (Z.of_nat num / 2 - 1) * size)) = (Z.of_nat (num / 2) - 1) * size).
  { rewrite <- (step_back (num / 2)) by (apply Nat.Div0.div_le_upper_bound; lia). f_equal.
    unfold u32. rewrite Zmult_mod_idemp_l, Nat2Z.inj_div. f_equal. lia. }
  rewrite Hi, Nat2Z.id. pose proof (Nat.div_mod_eq num 2).
  destruct (heapify_elems (S num) m (num / 2)) as (m1 & -> & S1 & E1); [done|lia..|]. cbn [mbind option_bind].
  rewrite step_back by done. destruct (decide (num = 0)%nat) as [E|E].
  - exists m1. cbn [extract]. replace (_ <? _) with false by (symmetry; apply Z.ltb_ge; nia).
    split; [done|]. split; [done|]. rewrite E1. by replace (num - 1)%nat with 0%nat by lia.
  - replace (Z.of_nat num - 1) with (Z.of_nat (num - 1)) by lia.
    destruct (extract_elems (S num) m1 (num - 1)) as (m2 & -> & S2 & E2); [by eapply same_rest_fits|lia..|].
    exists m2. split; [done|]. split; [by etrans|]. by rewrite E2, E1.
Qed.
End Memory.

(** ** The contract of [sort] *)

(** A swap function of the caller exchanges two elements. *)
Definition swap_ok (size : Z) (swap_func : option swap_t) : Prop :=
  match swap_func with Some f => Swaps f size | None => True end.

(** C38. [sort] returns, with the elements of the array permuted into the order of
    [cmp_func] and the memory behind the array untouched: for every number of elements,
    none and one included, every element size and both swap functions of the file or
    the caller's, as long as the array has at most 2^30 bytes.  No access leaves the
    array and no [int] overflows on the way. *)
Theorem sort_sorts cmp m num size swap_func :
  Compares cmp -> swap_ok size swap_func ->
  0 < size <= 2 ^ 30 -> Z.of_nat num * size <= 2 ^ 30 -> Z.of_nat num * size <= Z.of_nat (length m) ->
  exists m', sort cmp m (Z.of_nat num) size swap_func = Some m' /\
    elems size num m' ≡ₚ elems size num m /\
    StronglySorted (fun x y => cmp x y <= 0) (elems size num m') /\
    same_rest size num m m'.
Proof.
  intros HC Hs Hsize Hfit Hm.
  assert (exists f, Swaps f size /\ sort cmp m (Z.of_nat num) size swap_func = sort cmp m (Z.of_nat num) size (Some f))
    as (f & Hf & ->).
  { destruct swap_func as [f|]; [by exists f|]. unfold sort. case_bool; to_prop.
    - subst. exists u32_swap. split; [apply _|done].
    - exists generic_swap. split; [apply generic_swaps; lia|done]. }
  destruct (sort_elems cmp f size num Hsize Hfit m Hm) as (m' & H1 & H2 & H3).
  exists m'. rewrite H3. destruct (sort_list_spec cmp (elems size num m)) as [H4 H5]. done.
Qed.

(** Elements of two bytes ordered by their first byte. *)
Definition by_first (x y : list byte) : Z := default 0 (head x) - default 0 (head y).

#[export] Instance by_first_compares : Compares by_first.
Proof. split; unfold by_first; lia. Qed.

Lemma sort_sorts_witness :
  exists m', sort by_first [5; 0; 3; 1; 9; 2; 1; 3; 7; 4; 0; 0] 5 2 None = Some m' /\
    elems 2 5 m' ≡ₚ [[5; 0]; [3; 1]; [9; 2]; [1; 3]; [7; 4]] /\
    StronglySorted (fun x y => by_first x y <= 0) (elems 2 5 m') /\
    same_rest 2 5 [5; 0; 3; 1; 9; 2; 1; 3; 7; 4; 0; 0] m'.
Proof.
  apply (sort_sorts by_first [5; 0; 3; 1; 9; 2; 1; 3; 7; 4; 0; 0] 5 2 None); [apply _|done|lia|lia|simpl; lia].
Defined.

(** The same run: the bytes behind the five elements stay, and words use [u32_swap]. *)
Example sort_runs :
  sort by_first [5; 0; 3; 1; 9; 2; 1; 3; 7; 4; 0; 0] 5 2 None = Some [1; 3; 3; 1; 5; 0; 7; 4; 9; 2; 0; 0] /\
  sort by_first [2; 0; 0; 9; 1; 0; 0; 8] 2 4 None = Some [1; 0; 0; 8; 2; 0; 0; 9].
Proof. done. Qed.
End KernelSort.
