(* ===== verification/KernelString.v ===== *)
(** * KernelString: the string functions of the board's kernel

    lib/string.c of the Linux kernel kept beside the agent, with the character classes
    of lib/ctype.c it uses: comparing, copying, searching and splitting strings, and the
    operations on areas of memory.  Where an architecture brings its own version (ARM
    does for [strchr], [strrchr], [memchr], [memset], [memcpy] and [memmove]), this is
    the version it replaces.

    Memory is one list of bytes, a pointer an index into it; [None] is an access outside
    it.  A pointer that may be [NULL] is an [option].  [size_t] has 32 bits.  A loop gets
    one turn more than memory has bytes: every turn reads the next byte. *)

From S2P Require Import Prelude KernelFifo.
Import KernelFifo.

Module KernelString.

(** ** Character classes: lib/ctype.c and linux/ctype.h *)

Definition _U : Z := 0x01.
Definition _L : Z := 0x02.
Definition _D : Z := 0x04.
Definition _C : Z := 0x08.
Definition _P : Z := 0x10.
Definition _S : Z := 0x20.
Definition _X : Z := 0x40.
Definition _SP : Z := 0x80.

Definition _ctype : list Z :=
  replicate 9 _C ++ replicate 5 (_C .| _S) ++ replicate 18 _C ++                 (* 0-31 *)
  [_S .| _SP] ++ replicate 15 _P ++ replicate 10 _D ++ replicate 6 _P ++         (* 32-63 *)
  [_P] ++ replicate 6 (_U .| _X) ++ replicate 20 _U ++ replicate 5 _P ++         (* 64-95 *)
  [_P] ++ replicate 6 (_L .| _X) ++ replicate 20 _L ++ replicate 4 _P ++ [_C] ++ (* 96-127 *)
  replicate 32 0 ++                                                              (* 128-159 *)
  [_S .| _SP] ++ replicate 31 _P ++                                              (* 160-191 *)
  replicate 23 _U ++ [_P] ++ replicate 7 _U ++ [_L] ++                           (* 192-223 *)
  replicate 23 _L ++ [_P] ++ replicate 8 _L.                                     (* 224-255 *)

Definition __ismask (x : Z) : Z := _ctype !!! Z.to_nat (u8 x).
Definition isalnum (c : Z) : bool := negb (__ismask c .& (_U .| _L .| _D) =? 0).
Definition isalpha (c : Z) : bool := negb (__ismask c .& (_U .| _L) =? 0).
Definition iscntrl (c : Z) : bool := negb (__ismask c .& _C =? 0).
Definition isdigit (c : Z) : bool := negb (__ismask c .& _D =? 0).
Definition isgraph (c : Z) : bool := negb (__ismask c .& (_P .| _U .| _L .| _D) =? 0).
Definition isprint (c : Z) : bool := negb (__ismask c .& (_P .| _U .| _L .| _D .| _SP) =? 0).
Definition ispunct (c : Z) : bool := negb (__ismask c .& _P =? 0).
Definition isxdigit (c : Z) : bool := negb (__ismask c .& (_D .| _X) =? 0).
Definition isascii (c : Z) : bool := u8 c <=? 0x7F.
Definition toascii (c : Z) : Z := u8 c .& 0x7F.
Definition isspace (c : Z) : bool := negb (__ismask c .& _S =? 0).
Definition isupper (c : Z) : bool := negb (__ismask c .& _U =? 0).
Definition islower (c : Z) : bool := negb (__ismask c .& _L =? 0).
Definition tolower (c : Z) : Z := let c := u8 c in if isupper c then u8 (c - (65 - 97)) else c.
Definition toupper (c : Z) : Z := let c := u8 c in if islower c then u8 (c - (97 - 65)) else c.

(** ** Memory *)

Definition load (m : list byte) (p : Z) : option byte := if 0 <=? p then m !! Z.to_nat p else None.
Definition store (m : list byte) (p : Z) (b : Z) : option (list byte) := poke m p [u8 b].

Definition turns (m : list byte) : nat := S (length m).

Definition i8 (z : Z) : Z := (z + 2 ^ 7) mod 2 ^ 8 - 2 ^ 7.

(** ** Lengths *)

Fixpoint strlen_loop (fuel : nat) (m : list byte) (sc : Z) : option Z :=
  match fuel with
  | O => None
  | S fuel => c ← load m sc; if c =? 0 then Some sc else strlen_loop fuel m (sc + 1)
  end.

Definition strlen (m : list byte) (s : Z) : option Z := sc ← strlen_loop (turns m) m s; Some (sc - s).

Fixpoint strnlen_loop (fuel : nat) (m : list byte) (sc count : Z) : option Z :=
  match fuel with
  | O => None
  | S fuel =>
      if count =? 0 then Some sc
      else c ← load m sc; if c =? 0 then Some sc else strnlen_loop fuel m (sc + 1) (count - 1)
  end.

Definition strnlen (m : list byte) (s count : Z) : option Z :=
  sc ← strnlen_loop (turns m) m s count; Some (sc - s).

(** ** Comparing *)

Fixpoint strnicmp_loop (fuel : nat) (m : list byte) (s1 s2 len : Z) : option (Z * Z) :=
  match fuel with
  | O => None
  | S fuel =>
      c1 ← load m s1;
      c2 ← load m s2;
      let next := fun c1 c2 =>
        let len := u32 (len - 1) in
        if len =? 0 then Some (c1, c2) else strnicmp_loop fuel m (s1 + 1) (s2 + 1) len in
      if c1 =? 0 then Some (c1, c2)
      else if c2 =? 0 then Some (c1, c2)
      else if c1 =? c2 then next c1 c2
      else
        let c1 := tolower c1 in
        let c2 := tolower c2 in
        if negb (c1 =? c2) then Some (c1, c2) else next c1 c2
  end.

Definition strnicmp (m : list byte) (s1 s2 len : Z) : option Z :=
  r ← (if len =? 0 then Some (0, 0) else strnicmp_loop (turns m) m s1 s2 len);
  Some (fst r - snd r).

Fixpoint strcasecmp_loop (fuel : nat) (m : list byte) (s1 s2 : Z) : option Z :=
  match fuel with
  | O => None
  | S fuel =>
      b1 ← load m s1; b2 ← load m s2;
      let c1 := tolower b1 in
      let c2 := tolower b2 in
      if (c1 =? c2) && negb (c1 =? 0) then strcasecmp_loop fuel m (s1 + 1) (s2 + 1) else Some (c1 - c2)
  end.

Definition strcasecmp (m : list byte) (s1 s2 : Z) : option Z := strcasecmp_loop (turns m) m s1 s2.

(** [--n > 0] comes before the test of the characters, and wraps. *)
Fixpoint strncasecmp_loop (fuel : nat) (m : list byte) (s1 s2 n : Z) : option Z :=
  match fuel with
  | O => None
  | S fuel =>
      b1 ← load m s1; b2 ← load m s2;
      let c1 := tolower b1 in
      let c2 := tolower b2 in
      let n := u32 (n - 1) in
      if (0 <? n) && (c1 =? c2) && negb (c1 =? 0) then strncasecmp_loop fuel m (s1 + 1) (s2 + 1) n
      else Some (c1 - c2)
  end.

Definition strncasecmp (m : list byte) (s1 s2 n : Z) : option Z := strncasecmp_loop (turns m) m s1 s2 n.

(** The difference goes through a [signed char]. *)
Fixpoint strcmp_loop (fuel : nat) (m : list byte) (cs ct : Z) : option Z :=
  match fuel with
  | O => None
  | S fuel =>
      a ← load m cs; b ← load m ct;
      let res := i8 (a - b) in
      if negb (res =? 0) || (a =? 0) then Some res else strcmp_loop fuel m (cs + 1) (ct + 1)
  end.

Definition strcmp (m : list byte) (cs ct : Z) : option Z := strcmp_loop (turns m) m cs ct.

Fixpoint strncmp_loop (fuel : nat) (m : list byte) (cs ct count res : Z) : option Z :=
  match fuel with
  | O => None
  | S fuel =>
      if count =? 0 then Some res
      else
        a ← load m cs; b ← load m ct;
        let res := i8 (a - b) in
        if negb (res =? 0) || (a =? 0) then Some res else strncmp_loop fuel m (cs + 1) (ct + 1) (count - 1) res
  end.

Definition strncmp (m : list byte) (cs ct count : Z) : option Z := strncmp_loop (turns m) m cs ct count 0.

Fixpoint sysfs_streq_loop (fuel : nat) (m : list byte) (s1 s2 : Z) : option (Z * Z) :=
  match fuel with
  | O => None
  | S fuel =>
      a ← load m s1;
      if a =? 0 then Some (s1, s2)
      else b ← load m s2; if a =? b then sysfs_streq_loop fuel m (s1 + 1) (s2 + 1) else Some (s1, s2)
  end.

Definition sysfs_streq (m : list byte) (s1 s2 : Z) : option bool :=
  '(s1, s2) ← sysfs_streq_loop (turns m) m s1 s2;
  a ← load m s1; b ← load m s2;
  if a =? b then Some true
  else
    second ← (if (a =? 0) && (b =? 10) then c ← load m (s2 + 1); Some (c =? 0) else Some false);
    if second : bool then Some true
    else
      third ← (if a =? 10 then c ← load m (s1 + 1); Some ((c =? 0) && (b =? 0)) else Some false);
      Some third.

Fixpoint memcmp_loop (fuel : nat) (m : list byte) (su1 su2 count : Z) : option Z :=
  match fuel with
  | O => None
  | S fuel =>
      if 0 <? count then
        a ← load m su1; b ← load m su2;
        if negb (a - b =? 0) then Some (a - b) else memcmp_loop fuel m (su1 + 1) (su2 + 1) (count - 1)
      else Some 0
  end.

Definition memcmp (m : list byte) (cs ct count : Z) : option Z := memcmp_loop (turns m) m cs ct count.

(** ** Areas of memory *)

Fixpoint memset_loop (count : nat) (m : list byte) (xs c : Z) : option (list byte) :=
  match count with
  | O => Some m
  | S count => m ← store m xs c; memset_loop count m (xs + 1) c
  end.

Definition memset (m : list byte) (s c count : Z) : option (list byte) := memset_loop (Z.to_nat count) m s c.

(** [while (count--) *tmp++ = *s++], and the loop that goes down. *)
Fixpoint copy_up (count : nat) (m : list byte) (tmp s : Z) : option (list byte) :=
  match count with
  | O => Some m
  | S count => b ← load m s; m ← store m tmp b; copy_up count m (tmp + 1) (s + 1)
  end.

Fixpoint copy_down (count : nat) (m : list byte) (tmp s : Z) : option (list byte) :=
  match count with
  | O => Some m
  | S count => b ← load m (s - 1); m ← store m (tmp - 1) b; copy_down count m (tmp - 1) (s - 1)
  end.

Definition memcpy (m : list byte) (dest src count : Z) : option (list byte) := copy_up (Z.to_nat count) m dest src.

Definition memmove (m : list byte) (dest src count : Z) : option (list byte) :=
  if dest <=? src then copy_up (Z.to_nat count) m dest src
  else copy_down (Z.to_nat count) m (dest + count) (src + count).

Fixpoint memscan_loop (size : nat) (m : list byte) (p c : Z) : option Z :=
  match size with
  | O => Some p
  | S size => b ← load m p; if b =? c then Some p else memscan_loop size m (p + 1) c
  end.

(** The byte is compared with all of [c]. *)
Definition memscan (m : list byte) (addr c size : Z) : option Z := memscan_loop (Z.to_nat size) m addr c.

Fixpoint memchr_loop (n : nat) (m : list byte) (p c : Z) : option (option Z) :=
  match n with
  | O => Some None
  | S n => b ← load m p; if u8 c =? b then Some (Some p) else memchr_loop n m (p + 1) c
  end.

Definition memchr (m : list byte) (s c n : Z) : option (option Z) := memchr_loop (Z.to_nat n) m s c.

(** ** Copying strings *)

(** [while (( *dest++ = *src++ ) != 0)]. *)
Fixpoint copy_string (fuel : nat) (m : list byte) (dest src : Z) : option (list byte) :=
  match fuel with
  | O => None
  | S fuel =>
      b ← load m src; m ← store m dest b;
      if b =? 0 then Some m else copy_string fuel m (dest + 1) (src + 1)
  end.

Definition strcpy (m : list byte) (dest src : Z) : option (list byte) := copy_string (turns m) m dest src.

Fixpoint strncpy_loop (count : nat) (m : list byte) (tmp src : Z) : option (list byte) :=
  match count with
  | O => Some m
  | S count =>
      b ← load m src; m ← store m tmp b;
      strncpy_loop count m (tmp + 1) (if b =? 0 then src else src + 1)
  end.

Definition strncpy (m : list byte) (dest src count : Z) : option (list byte) :=
  strncpy_loop (Z.to_nat count) m dest src.

Definition strlcpy (m : list byte) (dest src size : Z) : option (Z * list byte) :=
  ret ← strlen m src;
  if size =? 0 then Some (ret, m)
  else
    let len := if size <=? ret then size - 1 else ret in
    m ← memcpy m dest src len;
    m ← store m (dest + len) 0;
    Some (ret, m).

(** [while ( *dest ) dest++] is the loop of [strlen]. *)
Definition strcat (m : list byte) (dest src : Z) : option (list byte) :=
  dest ← strlen_loop (turns m) m dest;
  copy_string (turns m) m dest src.

Fixpoint strncat_loop (fuel : nat) (m : list byte) (dest src count : Z) : option (list byte) :=
  match fuel with
  | O => None
  | S fuel =>
      b ← load m src; m ← store m dest b;
      if b =? 0 then Some m
      else
        let count := count - 1 in
        if count =? 0 then store m (dest + 1) 0
        else strncat_loop fuel m (dest + 1) (src + 1) count
  end.

Definition strncat (m : list byte) (dest src count : Z) : option (list byte) :=
  if count =? 0 then Some m
  else
    dest ← strlen_loop (turns m) m dest;
    strncat_loop (turns m) m dest src count.

(** [BUG_ON] stops the kernel: [None]. *)
Definition strlcat (m : list byte) (dest src count : Z) : option (Z * list byte) :=
  dsize ← strlen m dest;
  len ← strlen m src;
  let res := u32 (dsize + len) in
  if count <=? dsize then None
  else
    let dest := dest + dsize in
    let count := count - dsize in
    let len := if count <=? len then count - 1 else len in
    m ← memcpy m dest src len;
    m ← store m (dest + len) 0;
    Some (res, m).

(** ** Searching *)

Fixpoint strchr_loop (fuel : nat) (m : list byte) (s c : Z) : option (option Z) :=
  match fuel with
  | O => None
  | S fuel =>
      b ← load m s;
      if b =? u8 c then Some (Some s)
      else if b =? 0 then Some None else strchr_loop fuel m (s + 1) c
  end.

Definition strchr (m : list byte) (s c : Z) : option (option Z) := strchr_loop (turns m) m s c.

Fixpoint strrchr_loop (fuel : nat) (m : list byte) (s p c : Z) : option (option Z) :=
  match fuel with
  | O => None
  | S fuel =>
      b ← load m p;
      if b =? u8 c then Some (Some p)
      else let p := p - 1 in if s <=? p then strrchr_loop fuel m s p c else Some None
  end.

Definition strrchr (m : list byte) (s c : Z) : option (option Z) :=
  n ← strlen m s; strrchr_loop (turns m) m s (s + n) c.

Fixpoint strnchr_loop (fuel : nat) (m : list byte) (s count c : Z) : option (option Z) :=
  match fuel with
  | O => None
  | S fuel =>
      if count =? 0 then Some None
      else
        b ← load m s;
        if b =? 0 then Some None
        else if b =? u8 c then Some (Some s) else strnchr_loop fuel m (s + 1) (count - 1) c
  end.

Definition strnchr (m : list byte) (s count c : Z) : option (option Z) := strnchr_loop (turns m) m s count c.

(** The inner loop of [strspn]: where [c] or the end of the string at [a] is. *)
Fixpoint strspn_inner (fuel : nat) (m : list byte) (a c : Z) : option Z :=
  match fuel with
  | O => None
  | S fuel => b ← load m a; if b =? 0 then Some a else if c =? b then Some a else strspn_inner fuel m (a + 1) c
  end.

Fixpoint strspn_loop (fuel : nat) (m : list byte) (p accept count : Z) : option Z :=
  match fuel with
  | O => None
  | S fuel =>
      c ← load m p;
      if c =? 0 then Some count
      else
        a ← strspn_inner (turns m) m accept c;
        b ← load m a;
        if b =? 0 then Some count else strspn_loop fuel m (p + 1) accept (u32 (count + 1))
  end.

Definition strspn (m : list byte) (s accept : Z) : option Z := strspn_loop (turns m) m s accept 0.

(** The inner loop of [strcspn] and [strpbrk]: is [c] in the string at [r]? *)
Fixpoint hit (fuel : nat) (m : list byte) (r c : Z) : option bool :=
  match fuel with
  | O => None
  | S fuel => b ← load m r; if b =? 0 then Some false else if c =? b then Some true else hit fuel m (r + 1) c
  end.

Fixpoint strcspn_loop (fuel : nat) (m : list byte) (p reject count : Z) : option Z :=
  match fuel with
  | O => None
  | S fuel =>
      c ← load m p;
      if c =? 0 then Some count
      else
        h ← hit (turns m) m reject c;
        if h : bool then Some count else strcspn_loop fuel m (p + 1) reject (u32 (count + 1))
  end.

Definition strcspn (m : list byte) (s reject : Z) : option Z := strcspn_loop (turns m) m s reject 0.

Fixpoint strpbrk_loop (fuel : nat) (m : list byte) (sc1 ct : Z) : option (option Z) :=
  match fuel with
  | O => None
  | S fuel =>
      c ← load m sc1;
      if c =? 0 then Some None
      else
        h ← hit (turns m) m ct c;
        if h : bool then Some (Some sc1) else strpbrk_loop fuel m (sc1 + 1) ct
  end.

Definition strpbrk (m : list byte) (cs ct : Z) : option (option Z) := strpbrk_loop (turns m) m cs ct.

(** [while (l1 >= l2)]. *)
Fixpoint strstr_loop (fuel : nat) (m : list byte) (s1 s2 l1 l2 : Z) : option (option Z) :=
  match fuel with
  | O => None
  | S fuel =>
      if l2 <=? l1 then
        r ← memcmp m s1 s2 l2;
        if r =? 0 then Some (Some s1) else strstr_loop fuel m (s1 + 1) s2 (l1 - 1) l2
      else Some None
  end.

Definition strstr (m : list byte) (s1 s2 : Z) : option (option Z) :=
  l2 ← strlen m s2;
  let l2 := i32 l2 in
  if l2 =? 0 then Some (Some s1)
  else
    l1 ← strlen m s1;
    strstr_loop (turns m) m s1 s2 (i32 l1) l2.

(** ** Splitting and trimming *)

(** [strsep]: the token, the new [*s] and the memory. *)
Definition strsep (m : list byte) (s : option Z) (ct : Z) : option (option Z * option Z * list byte) :=
  match s with
  | None => Some (None, None, m)
  | Some sbegin =>
      fin ← strpbrk m sbegin ct;
      match fin with
      | Some fin => m ← store m fin 0; Some (Some sbegin, Some (fin + 1), m)
      | None => Some (Some sbegin, None, m)
      end
  end.

Fixpoint strstrip_back (fuel : nat) (m : list byte) (s fin : Z) : option Z :=
  match fuel with
  | O => None
  | S fuel =>
      if s <=? fin then
        c ← load m fin;
        if isspace c then strstrip_back fuel m s (fin - 1) else Some fin
      else Some fin
  end.

Fixpoint strstrip_front (fuel : nat) (m : list byte) (s : Z) : option Z :=
  match fuel with
  | O => None
  | S fuel =>
      c ← load m s;
      if negb (c =? 0) && isspace c then strstrip_front fuel m (s + 1) else Some s
  end.

Definition strstrip (m : list byte) (s : Z) : option (Z * list byte) :=
  size ← strlen m s;
  if size =? 0 then Some (s, m)
  else
    fin ← strstrip_back (turns m) m s (s + size - 1);
    m ← store m (fin + 1) 0;
    s ← strstrip_front (turns m) m s;
    Some (s, m).

(** ** Strings in memory *)

Lemma tolower_byte c : byte_ok (tolower c).
Proof. unfold tolower. case_bool; apply u8_ok. Qed.

Lemma toupper_byte c : byte_ok (toupper c).
Proof. unfold toupper. case_bool; apply u8_ok. Qed.

Lemma load_lt m p b : load m p = Some b -> 0 <= p < Z.of_nat (length m).
Proof. unfold load. case_bool; to_prop; [|done]. intros H%lookup_lt_Some. lia. Qed.

Lemma load_some m p : 0 <= p < Z.of_nat (length m) -> exists b, load m p = Some b.
Proof.
  intros H. unfold load. rewrite (proj2 (Z.leb_le _ _)) by lia. apply lookup_lt_is_Some_2. lia.
Qed.

Lemma load_ok m p b : bytes_ok m -> load m p = Some b -> byte_ok b.
Proof. unfold load. case_bool; [|done]. apply bytes_ok_lookup. Qed.

Lemma poke_length m p d m' : poke m p d = Some m' -> length m' = length m /\ 0 <= p /\ p + Z.of_nat (length d) <= Z.of_nat (length m).
Proof.
  unfold poke. case_bool; [|done]. to_prop. intros [= <-]. rewrite !length_app, length_take, length_drop. lia.
Qed.

Lemma poke_load m p d m' q :
  poke m p d = Some m' ->
  load m' q = if (p <=? q) && (q <? p + Z.of_nat (length d)) then load d (q - p) else load m q.
Proof.
  intros H. pose proof (poke_length _ _ _ _ H) as (_ & Hp & Hl).
  destruct (poke_spec m p d Hp Hl) as (m1 & H1 & _ & Hc). rewrite H in H1. injection H1 as <-.
  unfold load. destruct (Z.leb_spec 0 q); [|by rewrite (proj2 (Z.leb_gt p q)) by lia].
  specialize (Hc q ltac:(lia)). unfold cell in Hc. rewrite Hc. case_bool; [|done]. to_prop.
  by rewrite (proj2 (Z.leb_le 0 (q - p))) by lia.
Qed.

Lemma poke_load_ne m p d m' q :
  poke m p d = Some m' -> q < p \/ p + Z.of_nat (length d) <= q -> load m' q = load m q.
Proof. intros H Hq. rewrite (poke_load _ _ _ _ q H). case_bool; [|done]. to_prop. lia. Qed.

Lemma memory_ext m m' : length m = length m' -> (forall q, load m q = load m' q) -> m = m'.
Proof.
  intros Hl H. apply list_eq. intros i. specialize (H (Z.of_nat i)). unfold load in H.
  by rewrite (proj2 (Z.leb_le _ _)), Nat2Z.id in H by lia.
Qed.

Lemma poke_ok m p d m' : poke m p d = Some m' -> bytes_ok m -> bytes_ok d -> bytes_ok m'.
Proof.
  unfold poke. case_bool; [|done]. intros [= <-] Hm Hd. rewrite !bytes_ok_app. auto with agent.
Qed.

Lemma poke_byte_ok m p b m' : poke m p [b] = Some m' -> bytes_ok m -> byte_ok b -> bytes_ok m'.
Proof. intros H Hm Hb. eapply poke_ok; [done|done|by constructor]. Qed.

(** Writing in two steps, in either order. *)
Lemma poke_app m p d e :
  poke m p (d ++ e) = m1 ← poke m p d; poke m1 (p + Z.of_nat (length d)) e.
Proof.
  destruct (poke m p (d ++ e)) as [m'|] eqn:E.
  - pose proof (poke_length _ _ _ _ E) as (H1 & H2 & H3). rewrite length_app in H3.
    destruct (poke_spec m p d) as (m1 & P1 & L1 & _); [lia..|].
    destruct (poke_spec m1 (p + Z.of_nat (length d)) e) as (m2 & P2 & L2 & _); [lia..|].
    rewrite P1; simpl. rewrite P2. f_equal. apply memory_ext; [lia|]. intros q.
    rewrite (poke_load _ _ _ _ q E), (poke_load _ _ _ _ q P2), (poke_load _ _ _ _ q P1), length_app.
    unfold load. repeat case_bool; to_prop; destruct_or?; to_prop; try lia; try done.
    + rewrite lookup_app_r by lia. f_equal. lia.
    + by rewrite lookup_app_l by lia.
  - destruct (poke m p d) as [m1|] eqn:E1; [|done]. simpl.
    pose proof (poke_length _ _ _ _ E1) as (H1 & H2 & H3).
    unfold poke in *. rewrite length_app in E. repeat case_bool; to_prop; destruct_or?; to_prop; done || lia.
Qed.

Lemma poke_app_back m p d e :
  poke m p (d ++ e) = m1 ← poke m (p + Z.of_nat (length d)) e; poke m1 p d.
Proof.
  destruct (poke m p (d ++ e)) as [m'|] eqn:E.
  - pose proof (poke_length _ _ _ _ E) as (H1 & H2 & H3). rewrite length_app in H3.
    destruct (poke_spec m (p + Z.of_nat (length d)) e) as (m1 & P1 & L1 & _); [lia..|].
    destruct (poke_spec m1 p d) as (m2 & P2 & L2 & _); [lia..|].
    rewrite P1; simpl. rewrite P2. f_equal. apply memory_ext; [lia|]. intros q.
    rewrite (poke_load _ _ _ _ q E), (poke_load _ _ _ _ q P2), (poke_load _ _ _ _ q P1), length_app.
    unfold load. repeat case_bool; to_prop; destruct_or?; to_prop; try lia; try done.
    + by rewrite lookup_app_l by lia.
    + rewrite lookup_app_r by lia. f_equal. lia.
  - destruct (poke m _ e) as [m1|] eqn:E1; [|done]. simpl.
    pose proof (poke_length _ _ _ _ E1) as (H1 & H2 & H3).
    unfold poke in *. rewrite length_app in E. repeat case_bool; to_prop; destruct_or?; to_prop; done || lia.
Qed.

Lemma poke_cons m p c d : poke m p (c :: d) = m1 ← poke m p [c]; poke m1 (p + 1) d.
Proof. apply (poke_app m p [c] d). Qed.

Lemma poke_nil m p : 0 <= p <= Z.of_nat (length m) -> poke m p [] = Some m.
Proof.
  intros H. unfold poke. simpl. rewrite (proj2 (Z.leb_le _ _)), (proj2 (Z.leb_le _ _)) by lia. simpl.
  by rewrite Nat.add_0_r, take_drop.
Qed.

(** The bytes [d] are at [p]; the string [s] is at [p]. *)
Fixpoint area (m : list byte) (p : Z) (d : list byte) : Prop :=
  match d with [] => 0 <= p <= Z.of_nat (length m) | b :: d => load m p = Some b /\ area m (p + 1) d end.

Fixpoint cstr (m : list byte) (p : Z) (s : list byte) : Prop :=
  match s with [] => load m p = Some 0 | c :: s => load m p = Some c /\ c <> 0 /\ cstr m (p + 1) s end.

Lemma cstr_area m p s : cstr m p s -> area m p (s ++ [0]).
Proof.
  revert p. induction s as [|c s IH]; intros p; simpl; [|intros (? & _ & ?); auto].
  intros H. split; [done|]. apply load_lt in H. lia.
Qed.

Lemma area_fits m p d : area m p d -> 0 <= p /\ p + Z.of_nat (length d) <= Z.of_nat (length m).
Proof.
  revert p. induction d as [|b d IH]; intros p; simpl; [lia|]. intros [H1%load_lt H2%IH]. lia.
Qed.

Lemma cstr_fits m p s : cstr m p s -> 0 <= p /\ p + Z.of_nat (length s) < Z.of_nat (length m).
Proof. intros H%cstr_area%area_fits. rewrite length_app in H. simpl in H. lia. Qed.

Lemma cstr_turns m p s : cstr m p s -> (length s < turns m)%nat.
Proof. intros H%cstr_fits. unfold turns. lia. Qed.

Lemma area_app m p d e : area m p (d ++ e) -> area m p d /\ area m (p + Z.of_nat (length d)) e.
Proof.
  revert p. induction d as [|b d IH]; intros p; simpl.
  - intros H. split; [apply area_fits in H; lia|]. by rewrite Z.add_0_r.
  - intros [H1 H2]. apply IH in H2 as [H2 H3].
    split; [done|]. by replace (p + Z.of_nat (S (length d))) with (p + 1 + Z.of_nat (length d)) by lia.
Qed.

Lemma area_take m p d n : area m p d -> area m p (take n d).
Proof. intros H. rewrite <- (take_drop n d) in H. by apply area_app in H as [H _]. Qed.

(** What is written elsewhere leaves them alone. *)
Definition clear_of (p n q k : Z) : Prop := p + n <= q \/ q + k <= p.

Lemma area_poke m p d q e m' :
  poke m q e = Some m' -> clear_of p (Z.of_nat (length d)) q (Z.of_nat (length e)) -> area m p d -> area m' p d.
Proof.
  intros Hp. revert p. induction d as [|b d IH]; intros p Hc; simpl in *.
  - by rewrite (proj1 (poke_length _ _ _ _ Hp)).
  - unfold clear_of in *. intros [H1 H2]. split.
    + rewrite <- H1. eapply poke_load_ne; [done|]. lia.
    + apply IH; [lia|done].
Qed.

Lemma cstr_poke m p s q e m' :
  poke m q e = Some m' -> clear_of p (Z.of_nat (length s) + 1) q (Z.of_nat (length e)) -> cstr m p s -> cstr m' p s.
Proof.
  intros Hp. revert p. induction s as [|b s IH]; intros p Hc; unfold clear_of in *; cbn [cstr length] in *.
  - intros H. rewrite <- H. eapply poke_load_ne; [done|]. lia.
  - intros (H1 & H2 & H3). split; [|split; [done|apply IH; [lia|done]]].
    rewrite <- H1. eapply poke_load_ne; [done|]. lia.
Qed.

(** ** What the copies write *)

Lemma store_byte m p b : byte_ok b -> store m p b = poke m p [b].
Proof. intros Hb. unfold store. by rewrite u8_small. Qed.

Lemma memset_spec count m xs c :
  0 <= xs <= Z.of_nat (length m) -> memset_loop count m xs c = poke m xs (replicate count (u8 c)).
Proof.
  revert m xs. induction count as [|count IH]; intros m xs Hx; cbn [memset_loop replicate]; [by rewrite poke_nil|].
  rewrite poke_cons. unfold store. destruct (poke m xs [u8 c]) as [m1|] eqn:E; [|done]. simpl.
  apply poke_length in E as (H1 & H2 & H3). simpl in H3. apply IH. lia.
Qed.

(** Going up is right when the target is not inside the source, ahead of its start. *)
Lemma copy_up_spec m dst src d :
  bytes_ok m -> area m src d -> 0 <= dst <= Z.of_nat (length m) ->
  dst <= src \/ src + Z.of_nat (length d) <= dst -> copy_up (length d) m dst src = poke m dst d.
Proof.
  revert m dst src. induction d as [|b d IH]; intros m dst src Hm Ha Hd Hc; cbn [copy_up length] in *; [by rewrite poke_nil|].
  destruct Ha as [Hb Ha]. rewrite Hb. cbn [mbind option_bind]. pose proof (load_ok _ _ _ Hm Hb) as Ho.
  rewrite poke_cons, (store_byte _ _ _ Ho). destruct (poke m dst [b]) as [m1|] eqn:E; [|done]. cbn [mbind option_bind].
  pose proof (poke_length _ _ _ _ E) as (H1 & H2 & H3). simpl in H3. apply IH; [|eapply area_poke; [done| |done]|lia|lia].
  - by eapply poke_byte_ok.
  - unfold clear_of. simpl. lia.
Qed.

(** Going down is right when the target is not behind the source's start. *)
Lemma copy_down_spec m dst src d :
  bytes_ok m -> area m src d -> 0 <= dst -> dst + Z.of_nat (length d) <= Z.of_nat (length m) -> src <= dst ->
  copy_down (length d) m (dst + Z.of_nat (length d)) (src + Z.of_nat (length d)) = poke m dst d.
Proof.
  revert m. induction d as [|b d IH] using rev_ind; intros m Hm Ha Hd Hf Hc; [simpl; by rewrite poke_nil by lia|].
  rewrite length_app in *. simpl in *. rewrite Nat.add_1_r. cbn [copy_down].
  apply area_app in Ha as [Ha [Hb _]].
  replace (src + Z.of_nat (S (length d)) - 1) with (src + Z.of_nat (length d)) by lia.
  replace (dst + Z.of_nat (S (length d)) - 1) with (dst + Z.of_nat (length d)) by lia.
  rewrite Hb. cbn [mbind option_bind]. pose proof (load_ok _ _ _ Hm Hb) as Ho.
  rewrite poke_app_back, (store_byte _ _ _ Ho). destruct (poke m _ [b]) as [m1|] eqn:E; [|done]. cbn [mbind option_bind].
  pose proof (poke_length _ _ _ _ E) as (H1 & H2 & H3). apply IH; [by eapply poke_byte_ok| |lia..].
  eapply area_poke; [done| |done]. unfold clear_of. simpl. lia.
Qed.

Lemma copy_string_spec fuel m dst src s :
  bytes_ok m -> cstr m src s -> (length s < fuel)%nat ->
  clear_of src (Z.of_nat (length s) + 1) dst (Z.of_nat (length s) + 1) ->
  copy_string fuel m dst src = poke m dst (s ++ [0]).
Proof.
  revert m dst src s. induction fuel as [|fuel IH]; intros m dst src s Hm Hs Hf Hc; [lia|]. cbn [copy_string].
  destruct s as [|c s]; cbn [cstr length app] in *.
  - rewrite Hs. cbn [mbind option_bind]. rewrite store_byte by done. by destruct (poke m dst [0]).
  - destruct Hs as (Hl & Hne & Hs). rewrite Hl. cbn [mbind option_bind]. pose proof (load_ok _ _ _ Hm Hl) as Ho.
    rewrite poke_cons, (store_byte _ _ _ Ho). destruct (poke m dst [c]) as [m1|] eqn:E; [|done]. cbn [mbind option_bind].
    rewrite (proj2 (Z.eqb_neq c 0)) by done. unfold clear_of in Hc.
    apply IH; [by eapply poke_byte_ok| |lia|unfold clear_of; lia].
    eapply cstr_poke; [done| |done]. unfold clear_of. simpl. lia.
Qed.

(** The first [n] bytes, filled up with [NUL]s. *)
Definition pad (n : nat) (s : list byte) : list byte := take n (s ++ replicate n 0).

Lemma strncpy_spec n m dst src s :
  bytes_ok m -> cstr m src s -> 0 <= dst <= Z.of_nat (length m) ->
  clear_of src (Z.of_nat (length s) + 1) dst (Z.of_nat n) ->
  strncpy_loop n m dst src = poke m dst (pad n s).
Proof.
  revert m dst src s. induction n as [|n IH]; intros m dst src s Hm Hs Hd Hc; cbn [strncpy_loop]; [by rewrite poke_nil|].
  destruct s as [|c s]; cbn [cstr length] in *.
  - assert (Hpad : pad (S n) [] = 0 :: pad n []) by done. rewrite Hpad, poke_cons, Hs. cbn [mbind option_bind].
    rewrite store_byte by done. destruct (poke m dst [0]) as [m1|] eqn:E; [|done]. cbn [mbind option_bind].
    pose proof (poke_length _ _ _ _ E) as (H1 & H2 & H3). simpl in H3. unfold clear_of in *.
    apply IH; [by eapply poke_byte_ok| |lia|unfold clear_of; simpl; lia].
    eapply (cstr_poke _ _ []); [done| |done]. unfold clear_of. simpl. lia.
  - assert (Hpad : pad (S n) (c :: s) = c :: pad n s).
    { change (c :: take n (s ++ replicate (S n) 0) = c :: pad n s). unfold pad. f_equal. rewrite replicate_S_end, (app_assoc s), take_app_le; [done|].
      rewrite length_app, length_replicate. lia. }
    destruct Hs as (Hl & Hne & Hs). rewrite Hpad, poke_cons, Hl. cbn [mbind option_bind].
    pose proof (load_ok _ _ _ Hm Hl) as Ho. rewrite (store_byte _ _ _ Ho).
    destruct (poke m dst [c]) as [m1|] eqn:E; [|done]. cbn [mbind option_bind].
    rewrite (proj2 (Z.eqb_neq c 0)) by done.
    pose proof (poke_length _ _ _ _ E) as (H1 & H2 & H3). simpl in H3. unfold clear_of in *.
    apply IH; [by eapply poke_byte_ok| |lia|unfold clear_of; lia].
    eapply cstr_poke; [done| |done]. unfold clear_of. simpl. lia.
Qed.

Lemma strlen_loop_spec fuel m p s :
  cstr m p s -> (length s < fuel)%nat -> strlen_loop fuel m p = Some (p + Z.of_nat (length s)).
Proof.
  revert p s. induction fuel as [|fuel IH]; intros p s Hs Hf; [lia|]. cbn [strlen_loop].
  destruct s as [|c s]; cbn [cstr length] in *.
  - rewrite Hs. simpl. f_equal. lia.
  - destruct Hs as (Hl & Hne & Hs). rewrite Hl. cbn [mbind option_bind]. rewrite (proj2 (Z.eqb_neq c 0)) by done.
    rewrite (IH _ s) by (done || lia). f_equal. lia.
Qed.

Lemma strlen_spec m p s : cstr m p s -> strlen m p = Some (Z.of_nat (length s)).
Proof.
  intros Hs. unfold strlen. rewrite (strlen_loop_spec _ _ _ s Hs (cstr_turns _ _ _ Hs)). simpl. f_equal. lia.
Qed.

(** [memcpy] of a part of a string, and a [NUL] behind it. *)
Lemma copy_and_end m dst src s len :
  bytes_ok m -> cstr m src s -> 0 <= len <= Z.of_nat (length s) -> 0 <= dst <= Z.of_nat (length m) ->
  clear_of src (Z.of_nat (length s) + 1) dst (len + 1) ->
  (m1 ← memcpy m dst src len; store m1 (dst + len) 0) = poke m dst (take (Z.to_nat len) s ++ [0]).
Proof.
  intros Hm Hs Hl Hd Hc. assert (Hlen : length (take (Z.to_nat len) s) = Z.to_nat len) by (rewrite length_take; lia).
  unfold memcpy. rewrite <- Hlen at 1. rewrite (copy_up_spec m dst src (take (Z.to_nat len) s)).
  - rewrite poke_app. destruct (poke m dst _); [|done]. cbn [mbind option_bind].
    rewrite store_byte by done. by rewrite Hlen, Z2Nat.id by lia.
  - done.
  - apply cstr_area in Hs. by apply area_app, proj1, (area_take _ _ _ (Z.to_nat len)) in Hs.
  - done.
  - unfold clear_of in Hc. lia.
Qed.

Lemma strncat_loop_spec fuel m dst src s n :
  bytes_ok m -> cstr m src s -> (length s < fuel)%nat -> (0 < n)%nat ->
  clear_of src (Z.of_nat (length s) + 1) dst (Z.of_nat (Nat.min n (length s)) + 1) ->
  strncat_loop fuel m dst src (Z.of_nat n) = poke m dst (take n s ++ [0]).
Proof.
  revert m dst src s n. induction fuel as [|fuel IH]; intros m dst src s n Hm Hs Hf Hn Hc; [lia|].
  cbn [strncat_loop]. destruct n as [|n]; [lia|]. destruct s as [|c s]; cbn [cstr length app take] in *.
  - rewrite Hs. cbn [mbind option_bind]. rewrite store_byte by done. by destruct (poke m dst [0]).
  - destruct Hs as (Hl & Hne & Hs). rewrite Hl. cbn [mbind option_bind]. pose proof (load_ok _ _ _ Hm Hl) as Ho.
    rewrite poke_cons, (store_byte _ _ _ Ho). destruct (poke m dst [c]) as [m1|] eqn:E; [|done]. cbn [mbind option_bind].
    rewrite (proj2 (Z.eqb_neq c 0)) by done. replace (Z.of_nat (S n) - 1) with (Z.of_nat n) by lia.
    unfold clear_of in Hc. destruct n as [|n]; [by rewrite store_byte|].
    rewrite (proj2 (Z.eqb_neq _ 0)) by lia. apply IH; [by eapply poke_byte_ok| |lia|lia|unfold clear_of; lia].
    eapply cstr_poke; [done| |done]. unfold clear_of. simpl. lia.
Qed.

(** The part of a string of [n] bytes that fits a buffer of [size] with its [NUL]. *)
Definition fitting (size : Z) (s : list byte) : list byte := take (Z.to_nat (size - 1)) s.

Section Copies.
Context (m : list byte) (dest src : Z) (s : list byte).
Hypothesis Hm : bytes_ok m.
Hypothesis Hs : cstr m src s.
Hypothesis Hd : 0 <= dest <= Z.of_nat (length m).
#[local] Abbreviation len := (Z.of_nat (length s)).

Lemma strcpy_spec : clear_of src (len + 1) dest (len + 1) -> strcpy m dest src = poke m dest (s ++ [0]).
Proof. intros Hc. apply copy_string_spec; [done|done|by eapply cstr_turns|done]. Qed.

Lemma strlcpy_spec size :
  0 < size -> clear_of src (len + 1) dest size ->
  strlcpy m dest src size = m' ← poke m dest (fitting size s ++ [0]); Some (len, m').
Proof.
  intros Hp Hc. unfold strlcpy. rewrite (strlen_spec _ _ _ Hs). cbn [mbind option_bind].
  rewrite (proj2 (Z.eqb_neq size 0)) by lia. set (n := if _ : bool then _ else _).
  assert (Hn : 0 <= n <= len /\ n < size) by (unfold n; case_bool; to_prop; lia).
  assert (Hfit : fitting size s = take (Z.to_nat n) s).
  { unfold fitting, n. case_bool; to_prop; [done|]. rewrite !take_ge by lia. done. }
  rewrite Hfit, <- (copy_and_end m dest src s n); [|done|done|lia|done|unfold clear_of in *; lia].
  destruct (memcpy m dest src n); [|done]. done.
Qed.

(** Appending to the string [t] at [dest]. *)
Context (t : list byte).
Hypothesis Ht : cstr m dest t.
#[local] Abbreviation fin := (dest + Z.of_nat (length t)).

Lemma strcat_spec : clear_of src (len + 1) fin (len + 1) -> strcat m dest src = poke m fin (s ++ [0]).
Proof.
  intros Hc. unfold strcat. rewrite (strlen_loop_spec _ _ _ t Ht (cstr_turns _ _ _ Ht)). cbn [mbind option_bind].
  apply copy_string_spec; [done|done|by eapply cstr_turns|done].
Qed.

Lemma strncat_spec n :
  0 < n -> clear_of src (len + 1) fin (Z.min n len + 1) -> strncat m dest src n = poke m fin (take (Z.to_nat n) s ++ [0]).
Proof.
  intros Hn Hc. unfold strncat. rewrite (proj2 (Z.eqb_neq n 0)) by lia.
  rewrite (strlen_loop_spec _ _ _ t Ht (cstr_turns _ _ _ Ht)). cbn [mbind option_bind].
  rewrite <- (Z2Nat.id n) at 1 by lia. apply strncat_loop_spec; [done|done|by eapply cstr_turns|lia|].
  unfold clear_of in *. lia.
Qed.

Lemma strlcat_spec size :
  Z.of_nat (length t) < size -> clear_of src (len + 1) dest size ->
  strlcat m dest src size =
    m' ← poke m fin (fitting (size - Z.of_nat (length t)) s ++ [0]); Some (u32 (Z.of_nat (length t) + len), m').
Proof.
  intros Hp Hc. unfold strlcat. rewrite (strlen_spec _ _ _ Hs), (strlen_spec _ _ _ Ht). cbn [mbind option_bind].
  rewrite (proj2 (Z.leb_gt size _)) by lia. set (n := if _ : bool then _ else _). pose proof (cstr_fits _ _ _ Ht).
  assert (Hn : 0 <= n <= len /\ n < size - Z.of_nat (length t)) by (unfold n; case_bool; to_prop; lia).
  assert (Hfit : fitting (size - Z.of_nat (length t)) s = take (Z.to_nat n) s).
  { unfold fitting, n. case_bool; to_prop; [done|]. rewrite !take_ge by lia. done. }
  rewrite Hfit, <- (copy_and_end m fin src s n); [|done|done|lia|lia|unfold clear_of in *; lia].
  destruct (memcpy m fin src n); [|done]. done.
Qed.

Lemma strlcat_stops size : size <= Z.of_nat (length t) -> strlcat m dest src size = None.
Proof.
  intros Hp. unfold strlcat. rewrite (strlen_spec _ _ _ Hs), (strlen_spec _ _ _ Ht). cbn [mbind option_bind].
  by rewrite (proj2 (Z.leb_le size _)) by lia.
Qed.
End Copies.

(** What was written is there, and is a string if it ends like one. *)
Lemma poke_area m p d m' : poke m p d = Some m' -> area m' p d.
Proof.
  revert m p. induction d as [|b d IH]; intros m p Hp; cbn [area].
  - apply poke_length in Hp as (-> & ? & ?). simpl in *. lia.
  - split.
    + rewrite (poke_load _ _ _ _ p Hp). cbn [length]. rewrite Z.leb_refl, (proj2 (Z.ltb_lt p _)), Z.sub_diag by lia. done.
    + rewrite poke_cons in Hp. destruct (poke m p [b]) as [m1|]; [|done]. by apply (IH m1).
Qed.

Lemma cstr_app m p t s :
  area m p t -> Forall (fun c => c <> 0) t -> cstr m (p + Z.of_nat (length t)) s -> cstr m p (t ++ s).
Proof.
  revert p. induction t as [|c t IH]; intros p Ha Ht Hs; cbn [app cstr length area] in *.
  - by rewrite Z.add_0_r in Hs.
  - apply Forall_cons in Ht as [Hc Ht]. destruct Ha as [Hl Ha]. split_and!; [done|done|]. apply IH; [done|done|].
    by replace (p + 1 + Z.of_nat (length t)) with (p + Z.of_nat (S (length t))) by lia.
Qed.

Lemma poke_cstr m p s m' : poke m p (s ++ [0]) = Some m' -> Forall (fun c => c <> 0) s -> cstr m' p s.
Proof.
  intros [Ha [Hl _]]%poke_area%area_app Hs. rewrite <- (app_nil_r s). by apply cstr_app.
Qed.

Lemma cstr_nonzero m p s : cstr m p s -> Forall (fun c => c <> 0) s.
Proof. revert p. induction s as [|c s IH]; intros p; simpl; [constructor|]. intros (_ & Hc & Hs). constructor; eauto. Qed.

Lemma memmove_spec m dest src d :
  bytes_ok m -> area m src d -> 0 <= dest -> dest + Z.of_nat (length d) <= Z.of_nat (length m) ->
  memmove m dest src (Z.of_nat (length d)) = poke m dest d.
Proof.
  intros Hm Ha H1 H2. unfold memmove. rewrite Nat2Z.id. case_bool; to_prop.
  - apply copy_up_spec; [done|done|lia|lia].
  - apply copy_down_spec; [done|done|lia..].
Qed.

(** Nothing outside the [n] bytes at [p] has changed. *)
Definition only_inside (p n : Z) (m m' : list byte) : Prop :=
  length m' = length m /\ forall q, q < p \/ p + n <= q -> load m' q = load m q.

Lemma poke_inside m p n q d m' :
  poke m q d = Some m' -> p <= q -> q + Z.of_nat (length d) <= p + n -> only_inside p n m m'.
Proof.
  intros H H1 H2. split; [by apply poke_length in H as [-> _]|]. intros x Hx. eapply poke_load_ne; [done|]. lia.
Qed.

Lemma poke_defined m p d : 0 <= p -> p + Z.of_nat (length d) <= Z.of_nat (length m) -> exists m', poke m p d = Some m'.
Proof. intros H1 H2. destruct (poke_spec m p d H1 H2) as (m' & H & _). by exists m'. Qed.

Lemma fitting_length size s : 0 < size -> Z.of_nat (length (fitting size s)) < size.
Proof. intros H. unfold fitting. rewrite length_take. lia. Qed.

Lemma fitting_app size t s :
  Z.of_nat (length t) < size -> fitting size (t ++ s) = t ++ fitting (size - Z.of_nat (length t)) s.
Proof. intros H. unfold fitting. rewrite take_app, take_ge by lia. do 2 f_equal. lia. Qed.

(** C37. Copies stay inside the buffer they are given.  [memmove] writes the bytes its
    source had, however the two areas overlap.  [strlcpy] and [strlcat] into a buffer of
    [size] bytes, at least one, which may be smaller than what they are to write, always
    return if the string they copy lies apart from the buffer, and, for [strlcat], the
    one in the buffer ends there; they leave the longest prefix of the string, or of the
    two strings one after the other, that fits with its [NUL], change nothing outside the
    buffer, and return the length the whole would have had, modulo 2^32 for [strlcat], so
    that the caller can tell. *)
Theorem copies_stay_in_their_buffers m dest src size :
  bytes_ok m -> 0 <= dest -> 0 < size -> dest + size <= Z.of_nat (length m) ->
  (forall d, area m src d -> Z.of_nat (length d) = size ->
     exists m', memmove m dest src size = Some m' /\ area m' dest d /\ only_inside dest size m m') /\
  (forall s, cstr m src s -> clear_of src (Z.of_nat (length s) + 1) dest size ->
     exists m', strlcpy m dest src size = Some (Z.of_nat (length s), m') /\
       cstr m' dest (fitting size s) /\ only_inside dest size m m') /\
  (forall s t, cstr m src s -> clear_of src (Z.of_nat (length s) + 1) dest size ->
     cstr m dest t -> Z.of_nat (length t) < size ->
     exists m', strlcat m dest src size = Some (u32 (Z.of_nat (length t + length s)), m') /\
       cstr m' dest (fitting size (t ++ s)) /\ only_inside dest size m m').
Proof.
  intros Hm H1 H2 H3. split_and!.
  - intros d Ha Hd. destruct (poke_defined m dest d) as [m' Hp]; [lia..|]. exists m'.
    rewrite <- Hd, memmove_spec by (done || lia). split; [done|]. split; [by eapply poke_area|by eapply poke_inside].
  - intros s Hs Hc. pose proof (fitting_length size s H2).
    destruct (poke_defined m dest (fitting size s ++ [0])) as [m' Hp]; [lia|rewrite length_app; simpl; lia|].
    exists m'. rewrite (strlcpy_spec m dest src s), Hp by (done || lia). split; [done|]. split.
    + eapply poke_cstr; [done|]. by eapply Forall_take, cstr_nonzero.
    + eapply poke_inside; [done|lia|]. rewrite length_app. simpl. lia.
  - intros s t Hs Hc Ht Hlt. pose proof (fitting_length (size - Z.of_nat (length t)) s ltac:(lia)).
    destruct (poke_defined m (dest + Z.of_nat (length t)) (fitting (size - Z.of_nat (length t)) s ++ [0])) as [m' Hp];
      [lia|rewrite length_app; simpl; lia|].
    exists m'. rewrite (strlcat_spec m dest src s Hm Hs t Ht), Hp, Nat2Z.inj_add by (done || lia). split; [done|].
    rewrite fitting_app by done. split.
    + apply cstr_app; [|by eapply cstr_nonzero|].
      * eapply area_poke; [done|unfold clear_of; lia|]. by apply cstr_area, area_app, proj1 in Ht.
      * eapply poke_cstr; [done|]. by eapply Forall_take, cstr_nonzero.
    + eapply poke_inside; [done|lia|]. rewrite length_app. simpl. lia.
Qed.

Lemma copies_stay_in_their_buffers_witness :
  let m := [97; 98; 99; 0; 120; 0; 9; 9; 7] in
  (exists m', memmove m 4 2 4 = Some m' /\ area m' 4 [99; 0; 120; 0]) /\
  (exists m', strlcpy m 4 0 3 = Some (3, m') /\ cstr m' 4 [97; 98]) /\
  (exists m', strlcat m 4 0 4 = Some (4, m') /\ cstr m' 4 [120; 97; 98]).
Proof.
  intros m. assert (Hm : bytes_ok m) by (apply (bool_decide_unpack _); reflexivity).
  destruct (copies_stay_in_their_buffers m 4 2 4) as (H1 & _ & _); [done|lia|lia|simpl; lia|].
  destruct (copies_stay_in_their_buffers m 4 0 3) as (_ & H2 & _); [done|lia|lia|simpl; lia|].
  destruct (copies_stay_in_their_buffers m 4 0 4) as (_ & _ & H3); [done|lia|lia|simpl; lia|].
  split_and!.
  - destruct (H1 [99; 0; 120; 0]) as (m' & H & Ha & _); [by vm_compute|done|]. by exists m'.
  - destruct (H2 [97; 98; 99]) as (m' & H & Ha & _); [by vm_compute|left; simpl; lia|]. by exists m'.
  - destruct (H3 [97; 98; 99] [120]) as (m' & H & Ha & _); [by vm_compute|left; simpl; lia|by vm_compute|simpl; lia|].
    by exists m'.
Defined.
End KernelString.
