(* ===== verification/KernelText.v ===== *)
(** * KernelText: comparing, searching and splitting strings in the board's kernel

    What the functions of lib/string.c answer that read strings: the comparisons, the
    searches, and [strsep], which cuts a string into fields, and [strstrip], which trims
    it.  Each is shown equal to a function on lists of characters. *)

From S2P Require Import Prelude KernelFifo KernelString.
Import KernelFifo KernelString.

Module KernelText.

(** ** What the comparisons answer *)

(** The difference at the first byte where two strings differ, the end being 0. *)
Fixpoint diff (s t : list byte) : Z :=
  match s, t with
  | [], [] => 0
  | [], b :: _ => 0 - b
  | a :: _, [] => a - 0
  | a :: s, b :: t => if a =? b then diff s t else a - b
  end.

Lemma diff_eq0 s t : Forall (fun c => c <> 0) s -> Forall (fun c => c <> 0) t -> diff s t = 0 <-> s = t.
Proof.
  intros Hs. revert t. induction Hs as [|a s Ha Hs IH]; intros t Ht; destruct Ht as [|b t Hb Ht]; simpl; try (split; [lia|congruence]).
  { done. }
  case_bool; to_prop; [subst; rewrite IH by done; split; congruence|]. split; [lia|]. intros [= ]. lia.
Qed.

Lemma i8_eq0 a b : byte_ok a -> byte_ok b -> i8 (a - b) = 0 <-> a = b.
Proof. unfold i8, byte_ok. intros Ha Hb. split; [|intros ->; by rewrite Z.sub_diag]. intros H.
  pose proof (Z.div_mod (a - b + 2 ^ 7) (2 ^ 8)). lia.
Qed.

(** A translation of characters that keeps [NUL] apart. *)
Class Keeps0 (f : Z -> Z) : Prop := keeps0 : forall c, byte_ok c -> f c = 0 <-> c = 0.

#[export] Instance id_keeps0 : Keeps0 id.
Proof. by intros c _. Qed.

#[export] Instance tolower_keeps0 : Keeps0 tolower.
Proof.
  assert (H : Forall (fun c => tolower c = 0 <-> c = 0) (seqZ 0 256)) by (apply (bool_decide_unpack _); by vm_compute).
  intros c Hc. rewrite Forall_forall in H. apply H, elem_of_seqZ. unfold byte_ok in Hc. lia.
Qed.

(** The differences of what two strings start with: all of them, and the first [n + 1]
    characters. *)
Definition cut_diff (f : Z -> Z) (n : nat) (s t : list byte) : Z := diff (take n (f <$> s)) (take n (f <$> t)).

(** What one turn of a comparison sees: a difference, the end of both, or one more
    common character. *)
Variant turn (f : Z -> Z) (m : list byte) (p q : Z) (s t : list byte) (a b : Z) : Prop :=
  | turn_differ :
      f a <> f b -> diff (f <$> s) (f <$> t) = f a - f b -> (forall n, cut_diff f (S n) s t = f a - f b) ->
      turn f m p q s t a b
  | turn_end : a = 0 -> b = 0 -> s = [] -> t = [] -> turn f m p q s t a b
  | turn_on s' t' :
      f a = f b -> f a <> 0 -> a <> 0 -> b <> 0 -> s = a :: s' -> t = b :: t' -> cstr m (p + 1) s' -> cstr m (q + 1) t' ->
      diff (f <$> s) (f <$> t) = diff (f <$> s') (f <$> t') ->
      (forall n, cut_diff f (S n) s t = cut_diff f n s' t') -> turn f m p q s t a b.

Lemma turn_view f m p q s t :
  Keeps0 f -> bytes_ok m -> cstr m p s -> cstr m q t ->
  exists a b, load m p = Some a /\ load m q = Some b /\ byte_ok a /\ byte_ok b /\ turn f m p q s t a b.
Proof.
  intros Hf Hm Hs Ht. pose proof (keeps0 0 ltac:(done)) as Hf0.
  destruct s as [|a s], t as [|b t]; cbn [cstr] in Hs, Ht.
  - exists 0, 0. split_and!; [done..|]. by apply turn_end.
  - destruct Ht as (Ht & Hb & _). pose proof (load_ok _ _ _ Hm Ht) as Hbo. exists 0, b. split_and!; [done..|].
    pose proof (keeps0 b Hbo). apply turn_differ; [lia|simpl; lia|]. intros n. unfold cut_diff. simpl. lia.
  - destruct Hs as (Hs & Ha & _). pose proof (load_ok _ _ _ Hm Hs) as Hao. exists a, 0. split_and!; [done..|].
    pose proof (keeps0 a Hao). apply turn_differ; [lia|simpl; lia|]. intros n. unfold cut_diff. simpl. lia.
  - destruct Hs as (Hs & Ha & Hs'), Ht as (Ht & Hb & Ht'). exists a, b.
    pose proof (load_ok _ _ _ Hm Hs) as Hao. pose proof (load_ok _ _ _ Hm Ht) as Hbo. split_and!; [done..|].
    pose proof (keeps0 a Hao). destruct (decide (f a = f b)) as [E|E].
    + apply (turn_on _ _ _ _ _ _ _ _ s t); try done; [lia|simpl; by rewrite (proj2 (Z.eqb_eq _ _))|].
      intros n. unfold cut_diff. simpl. by rewrite (proj2 (Z.eqb_eq _ _)).
    + apply turn_differ; [done|simpl; by rewrite (proj2 (Z.eqb_neq _ _))|].
      intros n. unfold cut_diff. simpl. by rewrite (proj2 (Z.eqb_neq _ _)).
Qed.

(** Takes one turn of the comparison loop at hand. *)
Ltac take_turn f :=
  match goal with
  | Hm : bytes_ok ?m, Hs : cstr ?m ?p ?s, Ht : cstr ?m ?q ?t |- context [load ?m ?p ≫= _] =>
      let a := fresh "a" in let b := fresh "b" in let La := fresh "La" in let Lb := fresh "Lb" in
      let Oa := fresh "Oa" in let Ob := fresh "Ob" in let T := fresh "T" in
      destruct (turn_view f m p q s t _ Hm Hs Ht) as (a & b & La & Lb & Oa & Ob & T);
      rewrite La, ?Lb; cbn [mbind option_bind]; rewrite ?Lb; cbn [mbind option_bind];
      destruct T as [T1 T2 T3| -> -> -> -> |s' t' T1 T2 T3 T4 -> -> Hs' Ht' T5 T6]
  end.

Section Compare.
Context (m : list byte).
Hypothesis Hm : bytes_ok m.

Lemma strcmp_loop_spec fuel p q s t :
  cstr m p s -> cstr m q t -> (length s < fuel)%nat -> strcmp_loop fuel m p q = Some (i8 (diff s t)).
Proof.
  revert p q s t. induction fuel as [|fuel IH]; intros p q s t Hs Ht Hf; [lia|]. cbn [strcmp_loop].
  take_turn (id : Z -> Z).
  - rewrite !list_fmap_id in T2. rewrite T2. rewrite (proj2 (Z.eqb_neq (i8 (a - b)) 0)) by (by rewrite i8_eq0). done.
  - done.
  - rewrite !list_fmap_id in T5. unfold id in *. subst b. rewrite Z.sub_diag, (proj2 (Z.eqb_neq a 0)) by done.
    simpl in Hf. rewrite T5. apply IH; [done|done|lia].
Qed.

Lemma strncmp_loop_spec fuel p q s t n :
  cstr m p s -> cstr m q t -> (length s < fuel)%nat -> (* one turn more for the count *)
  strncmp_loop (S fuel) m p q (Z.of_nat n) 0 = Some (i8 (cut_diff id n s t)).
Proof.
  revert p q s t n. induction fuel as [|fuel IH]; intros p q s t n Hs Ht Hf; [lia|].
  remember (S fuel) as k. cbn [strncmp_loop]. destruct n as [|n]; [done|].
  rewrite (proj2 (Z.eqb_neq (Z.of_nat (S n)) 0)) by lia. replace (Z.of_nat (S n) - 1) with (Z.of_nat n) by lia.
  take_turn (id : Z -> Z).
  - rewrite T3. rewrite (proj2 (Z.eqb_neq (i8 (a - b)) 0)) by (by rewrite i8_eq0). done.
  - done.
  - unfold id in *. subst b. rewrite Z.sub_diag, (proj2 (Z.eqb_neq a 0)) by done.
    rewrite T6. simpl in Hf. subst k. apply IH; [done|done|lia].
Qed.

Lemma strcasecmp_loop_spec fuel p q s t :
  cstr m p s -> cstr m q t -> (length s < fuel)%nat ->
  strcasecmp_loop fuel m p q = Some (diff (tolower <$> s) (tolower <$> t)).
Proof.
  revert p q s t. induction fuel as [|fuel IH]; intros p q s t Hs Ht Hf; [lia|]. cbn [strcasecmp_loop].
  take_turn tolower.
  - rewrite (proj2 (Z.eqb_neq _ _)) by done. by rewrite T2.
  - done.
  - rewrite (proj2 (Z.eqb_eq _ _)), (proj2 (Z.eqb_neq _ 0)) by done. simpl in Hf. rewrite T5. apply IH; [done|done|lia].
Qed.

Lemma strncasecmp_loop_spec fuel p q s t n :
  cstr m p s -> cstr m q t -> (length s < fuel)%nat -> Z.of_nat n < 2 ^ 32 - 1 ->
  strncasecmp_loop fuel m p q (Z.of_nat (S n)) = Some (cut_diff tolower (S n) s t).
Proof.
  revert p q s t n. induction fuel as [|fuel IH]; intros p q s t n Hs Ht Hf Hn; [lia|]. cbn [strncasecmp_loop].
  replace (Z.of_nat (S n) - 1) with (Z.of_nat n) by lia. take_turn tolower.
  - rewrite (proj2 (Z.eqb_neq (tolower a) _)), andb_false_r by done. by rewrite T3.
  - rewrite andb_false_r. done.
  - rewrite (proj2 (Z.eqb_eq _ _)), (proj2 (Z.eqb_neq _ 0)), !andb_true_r, u32_small by (done || lia).
    rewrite T6. simpl in Hf. destruct n as [|n]; [by rewrite T1, Z.sub_diag|].
    rewrite (proj2 (Z.ltb_lt _ _)) by lia. apply IH; [done|done|lia|lia].
Qed.

(** A string that ends where the other goes on is compared with the other's character
    as it is, so that only the sign is the difference's. *)
Lemma strnicmp_loop_spec fuel p q s t n :
  cstr m p s -> cstr m q t -> (length s < fuel)%nat -> Z.of_nat n < 2 ^ 32 - 1 ->
  exists c1 c2, strnicmp_loop fuel m p q (Z.of_nat (S n)) = Some (c1, c2) /\
    Z.sgn (c1 - c2) = Z.sgn (cut_diff tolower (S n) s t).
Proof.
  revert p q s t n. induction fuel as [|fuel IH]; intros p q s t n Hs Ht Hf Hn; [lia|]. cbn [strnicmp_loop].
  replace (Z.of_nat (S n) - 1) with (Z.of_nat n) by lia. take_turn tolower.
  - rewrite T3. pose proof (keeps0 (f := tolower) a Oa). pose proof (keeps0 (f := tolower) b Ob).
    pose proof (tolower_byte a) as A. pose proof (tolower_byte b) as B. unfold byte_ok in *.
    destruct (Z.eqb_spec a 0); [exists a, b; split; [done|lia]|].
    destruct (Z.eqb_spec b 0); [exists a, b; split; [done|lia]|].
    destruct (Z.eqb_spec a b); [by subst|]. rewrite (proj2 (Z.eqb_neq _ _)) by done. by exists (tolower a), (tolower b).
  - by exists 0, 0.
  - rewrite T6, (proj2 (Z.eqb_neq a 0)), (proj2 (Z.eqb_neq b 0)), (proj2 (Z.eqb_eq (tolower a) _)) by done.
    rewrite u32_small by lia. simpl in Hf. destruct n as [|n].
    + destruct (Z.eqb_spec a b); [exists a, b|exists (tolower a), (tolower b)]; (split; [done|]); unfold cut_diff; simpl; lia.
    + rewrite (proj2 (Z.eqb_neq (Z.of_nat (S n)) 0)) by lia. cbn [negb].
      destruct (IH _ _ s' t' n Hs' Ht') as (c1 & c2 & -> & H); [lia|lia|]. exists c1, c2. by destruct (a =? b).
Qed.

(** The loop of [sysfs_streq] goes over what the strings start with in common. *)
Lemma sysfs_streq_loop_spec fuel p q s t :
  cstr m p s -> cstr m q t -> (length s < fuel)%nat ->
  exists u s' t', s = u ++ s' /\ t = u ++ t' /\ (s' = [] \/ default 0 (head s') <> default 0 (head t')) /\
    sysfs_streq_loop fuel m p q = Some (p + Z.of_nat (length u), q + Z.of_nat (length u)) /\
    cstr m (p + Z.of_nat (length u)) s' /\ cstr m (q + Z.of_nat (length u)) t'.
Proof.
  revert p q s t. induction fuel as [|fuel IH]; intros p q s t Hs Ht Hf; [lia|]. cbn [sysfs_streq_loop].
  destruct s as [|a s].
  { exists [], [], t. pose proof Hs as L. simpl in L. rewrite L. cbn. rewrite !Z.add_0_r. split_and!; auto. }
  pose proof Hs as (La & Na & Hs'). rewrite La. cbn [mbind option_bind]. rewrite (proj2 (Z.eqb_neq a 0)) by done.
  destruct t as [|b t].
  { exists [], (a :: s), []. pose proof Ht as L. simpl in L. rewrite L. simpl. rewrite (proj2 (Z.eqb_neq a 0)) by done.
    rewrite !Z.add_0_r. split_and!; auto. }
  pose proof Ht as (Lb & Nb & Ht'). rewrite Lb. cbn [mbind option_bind]. destruct (Z.eqb_spec a b) as [->|Hab].
  - destruct (IH _ _ s t Hs' Ht') as (u & s' & t' & -> & -> & H1 & -> & H2 & H3); [simpl in Hf; lia|].
    exists (b :: u), s', t'. cbn [length app].
    assert (Hx : forall x, x + Z.of_nat (S (length u)) = x + 1 + Z.of_nat (length u)) by (intros; lia).
    by rewrite !Hx.
  - exists [], (a :: s), (b :: t). simpl. rewrite !Z.add_0_r. split_and!; auto.
Qed.

Lemma memcmp_loop_spec fuel p q d e :
  area m p d -> area m q e -> length d = length e -> (length d < fuel)%nat ->
  memcmp_loop fuel m p q (Z.of_nat (length d)) = Some (diff d e).
Proof.
  revert p q d e. induction fuel as [|fuel IH]; intros p q d e Hd He Hl Hf; [lia|]. cbn [memcmp_loop].
  destruct d as [|a d], e as [|b e]; [done|done|done|]. destruct Hd as [La Hd], He as [Lb He].
  rewrite (proj2 (Z.ltb_lt 0 _)) by (cbn [length]; lia). rewrite La, Lb. cbn [mbind option_bind diff].
  destruct (Z.eqb_spec (a - b) 0) as [H|H]; cbn [negb].
  - rewrite (proj2 (Z.eqb_eq a b)) by lia. replace (Z.of_nat (length (a :: d)) - 1) with (Z.of_nat (length d)) by (cbn [length]; lia).
    simpl in *. apply IH; [done|done|lia|lia].
  - by rewrite (proj2 (Z.eqb_neq a b)) by lia.
Qed.

(** The same, but for one newline at the end of one of them. *)
Definition same_line (s t : list byte) : Prop := s = t \/ t = s ++ [10] \/ s = t ++ [10].

Lemma same_line_app u s t : same_line (u ++ s) (u ++ t) <-> same_line s t.
Proof. unfold same_line. by rewrite <- !app_assoc, !(inj_iff (u ++.)). Qed.

Lemma cstr_second p c s : cstr m p (c :: s) -> exists d, load m (p + 1) = Some d /\ (d = 0 <-> s = []).
Proof.
  intros (_ & _ & Hs). destruct s as [|d s]; [by exists 0|]. destruct Hs as (Hl & Hd & _). by exists d.
Qed.

Lemma sysfs_streq_spec p q s t :
  cstr m p s -> cstr m q t -> exists r, sysfs_streq m p q = Some r /\ (r = true <-> same_line s t).
Proof.
  intros Hs Ht. unfold sysfs_streq.
  destruct (sysfs_streq_loop_spec (turns m) p q s t Hs Ht (cstr_turns _ _ _ Hs)) as (u & s' & t' & -> & -> & H1 & -> & H2 & H3).
  cbn [mbind option_bind]. setoid_rewrite same_line_app. set (p' := p + _) in *. set (q' := q + _) in *. clearbody p' q'.
  clear Hs Ht. destruct s' as [|a s'].
  - pose proof H2 as La. simpl in La. rewrite La. destruct t' as [|b t'].
    + pose proof H3 as Lb. simpl in Lb. rewrite Lb. simpl. exists true. split; [done|]. unfold same_line. by split; auto.
    + pose proof (cstr_second _ _ _ H3) as (d & Ld & Hd). destruct H3 as (Lb & Nb & _). rewrite Lb. cbn [mbind option_bind].
      rewrite (proj2 (Z.eqb_neq 0 b)) by done. destruct (Z.eqb_spec b 10) as [->|Hb]; simpl.
      * rewrite Ld. simpl. destruct (Z.eqb_spec d 0) as [->|Hd0]; eexists; (split; [done|]); unfold same_line; simpl; naive_solver.
      * eexists. split; [done|]. unfold same_line. simpl. naive_solver.
  - pose proof (cstr_second _ _ _ H2) as (d & Ld & Hd). destruct H2 as (La & Na & _). rewrite La.
    destruct H1 as [|H1]; [done|]. simpl in H1.
    assert (Hb : exists b, load m q' = Some b /\ (b = 0 <-> t' = []) /\ a <> b).
    { destruct t' as [|b t']; [by exists 0|]. destruct H3 as (Lb & Nb & _). by exists b. }
    destruct Hb as (b & Lb & Hb & Hab). rewrite Lb. cbn [mbind option_bind].
    rewrite (proj2 (Z.eqb_neq a b)), (proj2 (Z.eqb_neq a 0)) by done. cbn [andb mbind option_bind].
    destruct (Z.eqb_spec a 10) as [->|Ha10]; simpl.
    + rewrite Ld. simpl. eexists. split; [done|]. rewrite andb_true_iff, !Z.eqb_eq, Hd, Hb. unfold same_line.
      destruct t' as [|b' t']; simpl; naive_solver.
    + eexists. split; [done|]. unfold same_line. destruct t' as [|b' t']; simpl in *; naive_solver.
Qed.
End Compare.

(** The comparisons of two strings and of two areas.  The difference [strcmp] and
    [strncmp] find goes through a [signed char]. *)
Theorem comparisons m p q s t :
  bytes_ok m -> cstr m p s -> cstr m q t ->
  strcmp m p q = Some (i8 (diff s t)) /\
  (forall n, 0 <= n -> strncmp m p q n = Some (i8 (cut_diff id (Z.to_nat n) s t))) /\
  strcasecmp m p q = Some (diff (tolower <$> s) (tolower <$> t)) /\
  (forall n, 0 < n < 2 ^ 32 -> strncasecmp m p q n = Some (cut_diff tolower (Z.to_nat n) s t)) /\
  (forall n, 0 <= n < 2 ^ 32 -> exists d, strnicmp m p q n = Some d /\ Z.sgn d = Z.sgn (cut_diff tolower (Z.to_nat n) s t)) /\
  (exists r, sysfs_streq m p q = Some r /\ (r = true <-> same_line s t)) /\
  (forall d e, area m p d -> area m q e -> length d = length e -> memcmp m p q (Z.of_nat (length d)) = Some (diff d e)).
Proof.
  intros Hm Hs Ht. pose proof (cstr_turns _ _ _ Hs) as Hf. split_and!.
  - by apply strcmp_loop_spec.
  - intros n Hn. unfold strncmp. rewrite <- (Z2Nat.id n) at 1 by done. apply cstr_fits in Hs as ?.
    unfold turns. apply strncmp_loop_spec; [done|done|done|lia].
  - by apply strcasecmp_loop_spec.
  - intros n Hn. unfold strncasecmp. rewrite <- (Z2Nat.id n) at 1 by lia. destruct (Z.to_nat n) as [|k] eqn:E; [lia|].
    apply strncasecmp_loop_spec; [done..|lia].
  - intros n Hn. unfold strnicmp. destruct (Z.eqb_spec n 0) as [->|Hn0]; [by exists 0|].
    destruct (Z.to_nat n) as [|k] eqn:E; [lia|]. replace n with (Z.of_nat (S k)) by lia.
    destruct (strnicmp_loop_spec m Hm (turns m) p q s t k) as (c1 & c2 & -> & H); [done..|lia|]. by exists (c1 - c2).
  - by apply sysfs_streq_spec.
  - intros d e Hd He Hl. apply memcmp_loop_spec; [done..|]. apply area_fits in Hd. unfold turns. lia.
Qed.

(** Equality is decided rightly, the order not: a difference of 128 or more has the
    wrong sign; and [strncasecmp] of no characters compares all of them. *)
Lemma diff_i8 s t : bytes_ok s -> bytes_ok t -> i8 (diff s t) = 0 <-> diff s t = 0.
Proof.
  intros Hs. revert t. induction Hs as [|a s Ha Hs IH]; intros t Ht; destruct Ht as [|b t Hb Ht]; simpl.
  - done.
  - rewrite (i8_eq0 0 b) by done. lia.
  - rewrite (i8_eq0 a 0) by done. lia.
  - case_bool; [by apply IH|]. rewrite i8_eq0 by done. lia.
Qed.

Lemma cstr_ok m p s : bytes_ok m -> cstr m p s -> bytes_ok s.
Proof.
  intros Hm. revert p. induction s as [|c s IH]; intros p; simpl; [by constructor|].
  intros (Hl & _ & Hs). constructor; [by eapply load_ok|]. by eapply IH.
Qed.

Lemma strcmp_zero m p q s t :
  bytes_ok m -> cstr m p s -> cstr m q t -> strcmp m p q = Some 0 <-> s = t.
Proof.
  intros Hm Hs Ht. destruct (comparisons m p q s t Hm Hs Ht) as [-> _].
  rewrite <- (diff_eq0 s t) by (by eapply cstr_nonzero). rewrite <- diff_i8 by (by eapply cstr_ok).
  split; congruence.
Qed.

Example strcmp_order_is_wrong :
  strcmp [200; 0; 10; 0] 0 2 = Some (-66) /\ memcmp [200; 0; 10; 0] 0 2 2 = Some 190.
Proof. done. Qed.

Example strncasecmp_of_nothing : strncasecmp [97; 0; 98; 0] 0 2 0 = Some (-1).
Proof. done. Qed.

(** ** What the searches find *)

(** The address of position [i] of what is at [p]. *)
Definition at_pos (p : Z) (i : option nat) : option Z := (fun i => p + Z.of_nat i) <$> i.

Lemma at_pos_S p i : at_pos p (S <$> i) = at_pos (p + 1) i.
Proof. destruct i as [i|]; [|done]. simpl. unfold at_pos. simpl. f_equal. lia. Qed.

Lemma at_pos_0 p : at_pos p (Some O) = Some p.
Proof. unfold at_pos. simpl. f_equal. lia. Qed.

(** The last position, and how far a run goes. *)
Fixpoint last_pos {A} (f : A -> bool) (l : list A) : option nat :=
  match l with
  | [] => None
  | x :: l => match last_pos f l with Some i => Some (S i) | None => if f x then Some O else None end
  end.

Fixpoint run {A} (f : A -> bool) (l : list A) : nat :=
  match l with [] => O | x :: l => if f x then S (run f l) else O end.

Definition inset (set : list byte) (c : byte) : bool := existsb (Z.eqb c) set.

Lemma inset_elem set c : inset set c = true <-> c ∈ set.
Proof.
  unfold inset. rewrite existsb_exists, list_elem_of_In. split; [|eauto using Z.eqb_refl].
  by intros (d & Hd & ->%Z.eqb_eq).
Qed.

Lemma last_pos_end {A} (f : A -> bool) l x : last_pos f (l ++ [x]) = if f x then Some (length l) else last_pos f l.
Proof. induction l as [|y l IH]; simpl; [by destruct (f x)|]. rewrite IH. by destruct (f x). Qed.

(** Takes a string or an area apart at the head of a loop. *)
Ltac at_head s :=
  destruct s as [|?c s]; cbn [cstr area length] in *;
  [match goal with H : load _ _ = Some 0 |- _ => rewrite H; cbn [mbind option_bind] end
  |match goal with
   | H : load _ _ = Some _ /\ _ <> 0 /\ cstr _ _ _ |- _ =>
       let L := fresh "L" in let N := fresh "N" in
       destruct H as (L & N & H); rewrite L; cbn [mbind option_bind]
   end].

Section Search.
Context (m : list byte).

Lemma strchr_loop_spec fuel p s c :
  cstr m p s -> (length s < fuel)%nat ->
  strchr_loop fuel m p c = Some (at_pos p (find_pos (fun b => b =? u8 c) (s ++ [0]))).
Proof.
  revert p s. induction fuel as [|fuel IH]; intros p s Hs Hf; [lia|]. cbn [strchr_loop]. at_head s; cbn [app find_pos].
  - case_bool; [by rewrite at_pos_0|done].
  - case_bool; [by rewrite at_pos_0|]. rewrite (proj2 (Z.eqb_neq c0 0)) by done. rewrite at_pos_S. apply IH; [done|lia].
Qed.

Lemma strnchr_loop_spec fuel p s n c :
  cstr m p s -> (length s < fuel)%nat ->
  strnchr_loop (S fuel) m p (Z.of_nat n) c = Some (at_pos p (find_pos (fun b => b =? u8 c) (take n s))).
Proof.
  revert p s n. induction fuel as [|fuel IH]; intros p s n Hs Hf; [lia|]. remember (S fuel) as k. cbn [strnchr_loop].
  destruct n as [|n]; [done|]. rewrite (proj2 (Z.eqb_neq (Z.of_nat (S n)) 0)) by lia.
  replace (Z.of_nat (S n) - 1) with (Z.of_nat n) by lia. at_head s; cbn [take find_pos]; [done|].
  rewrite (proj2 (Z.eqb_neq c0 0)) by done. case_bool; [by rewrite at_pos_0|].
  rewrite at_pos_S. subst k. apply IH; [done|lia].
Qed.

Lemma strrchr_loop_spec fuel p l c :
  area m p l -> (0 < length l)%nat -> (length l <= fuel)%nat ->
  strrchr_loop fuel m p (p + Z.of_nat (length l) - 1) c = Some (at_pos p (last_pos (fun b => b =? u8 c) l)).
Proof.
  revert fuel. induction l as [|x l IH] using rev_ind; intros fuel Ha Hl Hf; [simpl in Hl; lia|].
  rewrite length_app in *. simpl in *. destruct fuel as [|fuel]; [lia|]. apply area_app in Ha as [Ha [Hx _]]. cbn [strrchr_loop].
  replace (p + Z.of_nat (length l + 1) - 1) with (p + Z.of_nat (length l)) by lia. rewrite Hx. cbn [mbind option_bind].
  rewrite last_pos_end. case_bool; [done|]. destruct l as [|y l].
  - simpl. by rewrite (proj2 (Z.leb_gt p _)) by lia.
  - rewrite (proj2 (Z.leb_le p _)) by (simpl; lia). apply IH; [done|simpl; lia|lia].
Qed.

Lemma hit_spec fuel r set c :
  cstr m r set -> (length set < fuel)%nat -> hit fuel m r c = Some (inset set c).
Proof.
  revert r set. induction fuel as [|fuel IH]; intros r set Hr Hf; [lia|]. cbn [hit]. at_head set; [done|].
  rewrite (proj2 (Z.eqb_neq c0 0)) by done. unfold inset. cbn [existsb]. case_bool; [done|]. apply IH; [done|lia].
Qed.

Lemma strspn_inner_spec fuel a set c :
  cstr m a set -> (length set < fuel)%nat ->
  exists a' b, strspn_inner fuel m a c = Some a' /\ load m a' = Some b /\ (b =? 0) = negb (inset set c).
Proof.
  revert a set. induction fuel as [|fuel IH]; intros a set Ha Hf; [lia|]. cbn [strspn_inner].
  at_head set; [by exists a, 0|]. rewrite (proj2 (Z.eqb_neq c0 0)) by done. unfold inset. cbn [existsb].
  destruct (Z.eqb_spec c c0) as [->|Hc].
  - exists a, c0. split_and!; [done|done|]. by rewrite (proj2 (Z.eqb_neq c0 0)) by done.
  - apply IH; [done|lia].
Qed.

Section Sets.
Context (r : Z) (set : list byte).
Hypothesis Hr : cstr m r set.

Lemma strspn_loop_spec fuel p s count :
  cstr m p s -> (length s < fuel)%nat -> 0 <= count -> count + Z.of_nat (length s) < 2 ^ 32 ->
  strspn_loop fuel m p r count = Some (count + Z.of_nat (run (inset set) s)).
Proof.
  revert p s count. induction fuel as [|fuel IH]; intros p s count Hs Hf H0 H1; [lia|]. cbn [strspn_loop].
  at_head s; [simpl; f_equal; lia|]. rewrite (proj2 (Z.eqb_neq c 0)) by done.
  destruct (strspn_inner_spec (turns m) r set c Hr (cstr_turns _ _ _ Hr)) as (a & b & -> & Hb & Hz).
  cbn [mbind option_bind]. rewrite Hb. cbn [mbind option_bind run]. rewrite Hz. destruct (inset set c); simpl.
  - rewrite u32_small, (IH _ s) by (done || lia). f_equal. lia.
  - f_equal. lia.
Qed.

Lemma strcspn_loop_spec fuel p s count :
  cstr m p s -> (length s < fuel)%nat -> 0 <= count -> count + Z.of_nat (length s) < 2 ^ 32 ->
  strcspn_loop fuel m p r count = Some (count + Z.of_nat (run (fun c => negb (inset set c)) s)).
Proof.
  revert p s count. induction fuel as [|fuel IH]; intros p s count Hs Hf H0 H1; [lia|]. cbn [strcspn_loop].
  at_head s; [simpl; f_equal; lia|]. rewrite (proj2 (Z.eqb_neq c 0)) by done.
  rewrite (hit_spec _ _ set c Hr (cstr_turns _ _ _ Hr)). cbn [mbind option_bind run]. destruct (inset set c); simpl.
  - f_equal. lia.
  - rewrite u32_small, (IH _ s) by (done || lia). f_equal. lia.
Qed.

Lemma strpbrk_loop_spec fuel p s :
  cstr m p s -> (length s < fuel)%nat -> strpbrk_loop fuel m p r = Some (at_pos p (find_pos (inset set) s)).
Proof.
  revert p s. induction fuel as [|fuel IH]; intros p s Hs Hf; [lia|]. cbn [strpbrk_loop].
  at_head s; [done|]. rewrite (proj2 (Z.eqb_neq c 0)) by done.
  rewrite (hit_spec _ _ set c Hr (cstr_turns _ _ _ Hr)). cbn [mbind option_bind find_pos].
  destruct (inset set c); [by rewrite at_pos_0|]. rewrite at_pos_S. apply IH; [done|lia].
Qed.
End Sets.

Lemma memchr_loop_spec p d c :
  area m p d -> memchr_loop (length d) m p c = Some (at_pos p (find_pos (fun b => u8 c =? b) d)).
Proof.
  revert p. induction d as [|b d IH]; intros p Hd; cbn [memchr_loop length find_pos area] in *; [done|].
  destruct Hd as [L Hd]. rewrite L. cbn [mbind option_bind]. case_bool; [by rewrite at_pos_0|].
  rewrite at_pos_S. by apply IH.
Qed.

Lemma memscan_loop_spec p d c :
  area m p d ->
  memscan_loop (length d) m p c = Some (p + Z.of_nat (default (length d) (find_pos (fun b => b =? c) d))).
Proof.
  revert p. induction d as [|b d IH]; intros p Hd; cbn [memscan_loop length find_pos area] in *; [simpl; f_equal; lia|].
  destruct Hd as [L Hd]. rewrite L. cbn [mbind option_bind]. case_bool; [simpl; f_equal; lia|].
  rewrite IH by done. f_equal. destruct (find_pos _ d); simpl; lia.
Qed.

Lemma strnlen_loop_spec fuel p s n :
  cstr m p s -> (length s < fuel)%nat ->
  strnlen_loop (S fuel) m p (Z.of_nat n) = Some (p + Z.of_nat (length (take n s))).
Proof.
  revert p s n. induction fuel as [|fuel IH]; intros p s n Hs Hf; [lia|]. remember (S fuel) as k. cbn [strnlen_loop].
  destruct n as [|n]; [simpl; f_equal; lia|]. rewrite (proj2 (Z.eqb_neq (Z.of_nat (S n)) 0)) by lia.
  replace (Z.of_nat (S n) - 1) with (Z.of_nat n) by lia. at_head s; [simpl; f_equal; lia|].
  rewrite (proj2 (Z.eqb_neq c 0)) by done. subst k. rewrite (IH _ s) by (done || lia). simpl. f_equal. lia.
Qed.

(** The first place where [t] occurs in [s]. *)
Fixpoint find_sub (t s : list byte) : option nat :=
  if decide (t `prefix_of` s) then Some O
  else match s with [] => None | _ :: s => S <$> find_sub t s end.

Lemma diff_same_length d e : length d = length e -> diff d e = 0 <-> d = e.
Proof.
  revert e. induction d as [|a d IH]; intros [|b e]; simpl; intros Hl; try done.
  case_bool; to_prop; [subst; rewrite IH by lia; split; congruence|]. split; [lia|]. intros [= ]. lia.
Qed.

Lemma take_prefix (t s : list byte) : take (length t) s = t <-> t `prefix_of` s.
Proof.
  split.
  - intros <-. apply prefix_take.
  - intros [k ->]. by rewrite take_app_length.
Qed.

Lemma strstr_loop_spec fuel p q s t :
  cstr m p s -> area m q t -> t <> [] -> (length s < fuel)%nat -> (length t < turns m)%nat ->
  strstr_loop fuel m p q (Z.of_nat (length s)) (Z.of_nat (length t)) = Some (at_pos p (find_sub t s)).
Proof.
  intros Hs Ht Hne. revert p s Hs. induction fuel as [|fuel IH]; intros p s Hs Hf Hk; [lia|]. cbn [strstr_loop].
  case_bool; to_prop.
  - assert (Hl : length (take (length t) s) = length t) by (rewrite length_take; lia).
    unfold memcmp. rewrite <- Hl at 1. rewrite (memcmp_loop_spec m _ p q (take (length t) s) t); [|..|done|lia]; [|..|done].
    2:{ apply cstr_area, area_app, proj1 in Hs. by apply area_take. }
    cbn [mbind option_bind]. destruct s as [|c s]; [destruct t; simpl in *; [done|lia]|]. cbn [find_sub].
    destruct (decide (t `prefix_of` c :: s)) as [Hp|Hp].
    + rewrite (proj2 (Z.eqb_eq _ 0)) by (by apply diff_same_length, take_prefix). by rewrite at_pos_0.
    + rewrite (proj2 (Z.eqb_neq _ 0)) by (by rewrite diff_same_length, take_prefix).
      replace (Z.of_nat (length (c :: s)) - 1) with (Z.of_nat (length s)) by (cbn [length]; lia).
      rewrite at_pos_S. simpl in Hf. apply IH; [by destruct Hs as (_ & _ & Hs)|lia|done].
  - assert (Hno : find_sub t s = None); [|by rewrite Hno].
    clear Hf Hs. induction s as [|c s IHs]; cbn [find_sub] in *; rewrite decide_False; try done.
    + by intros ->%prefix_nil_inv.
    + cbn [length] in *. rewrite IHs by lia. done.
    + intros Hp%prefix_length. lia.
Qed.
End Search.

(** The searches in the string [s] at [p], and in an area. *)
Theorem searches m p s :
  Z.of_nat (length m) < 2 ^ 31 -> cstr m p s ->
  strlen m p = Some (Z.of_nat (length s)) /\
  (forall n, 0 <= n -> strnlen m p n = Some (Z.of_nat (length (take (Z.to_nat n) s)))) /\
  (forall c, strchr m p c = Some (at_pos p (find_pos (fun b => b =? u8 c) (s ++ [0]))) /\
             strrchr m p c = Some (at_pos p (last_pos (fun b => b =? u8 c) (s ++ [0])))) /\
  (forall n c, 0 <= n -> strnchr m p n c = Some (at_pos p (find_pos (fun b => b =? u8 c) (take (Z.to_nat n) s)))) /\
  (forall r set, cstr m r set ->
     strspn m p r = Some (Z.of_nat (run (inset set) s)) /\
     strcspn m p r = Some (Z.of_nat (run (fun c => negb (inset set c)) s)) /\
     strpbrk m p r = Some (at_pos p (find_pos (inset set) s))) /\
  (forall q t, cstr m q t -> strstr m p q = Some (at_pos p (find_sub t s))) /\
  (forall d c, area m p d ->
     memchr m p c (Z.of_nat (length d)) = Some (at_pos p (find_pos (fun b => u8 c =? b) d)) /\
     memscan m p c (Z.of_nat (length d)) = Some (p + Z.of_nat (default (length d) (find_pos (fun b => b =? c) d)))).
Proof.
  intros Hm Hs. pose proof (cstr_turns _ _ _ Hs) as Hf. pose proof (cstr_fits _ _ _ Hs) as Hp.
  pose proof (strlen_spec _ _ _ Hs) as Hl. split_and!.
  - done.
  - intros n Hn. unfold strnlen. rewrite <- (Z2Nat.id n) at 1 by done. unfold turns.
    rewrite (strnlen_loop_spec m _ p s) by (done || lia). simpl. f_equal. lia.
  - intros c. split; [by apply strchr_loop_spec|]. unfold strrchr. rewrite Hl. cbn [mbind option_bind].
    rewrite <- (strrchr_loop_spec m (turns m) p (s ++ [0]) c); [|by apply cstr_area|rewrite length_app; simpl; lia..].
    f_equal. rewrite length_app. simpl. lia.
  - intros n c Hn. unfold strnchr. rewrite <- (Z2Nat.id n) at 1 by done. unfold turns. apply strnchr_loop_spec; [done|lia].
  - intros r set Hr. split_and!.
    + unfold strspn. by rewrite (strspn_loop_spec m r set Hr _ p s) by (done || lia).
    + unfold strcspn. by rewrite (strcspn_loop_spec m r set Hr _ p s) by (done || lia).
    + by apply strpbrk_loop_spec.
  - intros q t Ht. unfold strstr. pose proof (cstr_fits _ _ _ Ht). rewrite (strlen_spec _ _ _ Ht), Hl. cbn [mbind option_bind].
    rewrite !i32_small by lia. destruct t as [|c t].
    + simpl. assert (find_sub [] s = Some 0%nat) as ->; [|by rewrite at_pos_0].
      destruct s; cbn [find_sub]; by rewrite decide_True by apply prefix_nil.
    + rewrite (proj2 (Z.eqb_neq _ 0)) by (cbn [length]; lia). apply strstr_loop_spec; [done| |done|done|by eapply cstr_turns].
      by apply cstr_area, area_app, proj1 in Ht.
  - intros d c Hd. unfold memchr, memscan. rewrite Nat2Z.id. split; [by apply memchr_loop_spec|by apply memscan_loop_spec].
Qed.

(** Where [strstr] points is the first occurrence. *)
Lemma find_sub_first t s i :
  find_sub t s = Some i <-> t `prefix_of` drop i s /\ forall j, (j < i)%nat -> ~ t `prefix_of` drop j s.
Proof.
  revert i. induction s as [|c s IH]; intros i; cbn [find_sub]; case_decide as Hp.
  - split.
    + intros [= <-]. split; [done|lia].
    + intros [_ H]. destruct i as [|i]; [done|]. by destruct (H 0%nat ltac:(lia)).
  - split; [done|]. intros [H _]. by rewrite drop_nil in H.
  - split.
    + intros [= <-]. split; [done|lia].
    + intros [_ H]. destruct i as [|i]; [done|]. by destruct (H 0%nat ltac:(lia)).
  - rewrite fmap_Some. split.
    + intros (k & Hk & ->). apply IH in Hk as [H1 H2]. split; [done|]. intros [|j] Hj; [done|]. apply H2. lia.
    + intros [H1 H2]. destruct i as [|i]; [done|]. exists i. split; [|done]. apply IH. split; [done|].
      intros j Hj. apply (H2 (S j)). lia.
Qed.

Example memscan_sees_the_whole_int : memscan [255; 1] 0 (-1) 2 = Some 2 /\ memchr [255; 1] 0 (-1) 2 = Some (Some 0).
Proof. done. Qed.

(** ** Splitting with [strsep] *)

(** The loop [strsep] is made for: call it until it returns [NULL]. *)
Fixpoint strsep_all (calls : nat) (m : list byte) (s : option Z) (ct : Z) : option (list Z * list byte) :=
  match calls with
  | O => None
  | S calls =>
      '(token, s, m) ← strsep m s ct;
      match token with
      | None => Some ([], m)
      | Some token => '(tokens, m) ← strsep_all calls m s ct; Some (token :: tokens, m)
      end
  end.

(** Fields with a separator after each but the last. *)
Fixpoint weave (fs : list (list byte)) (ds : list byte) : list byte :=
  match fs, ds with
  | f :: fs, d :: ds => f ++ d :: weave fs ds
  | f :: _, [] => f
  | [], _ => []
  end.

(** Strings one behind the other, and where each starts. *)
Fixpoint laid_out (m : list byte) (p : Z) (fs : list (list byte)) : Prop :=
  match fs with [] => True | f :: fs => cstr m p f /\ laid_out m (p + Z.of_nat (length f) + 1) fs end.

Fixpoint starts (p : Z) (fs : list (list byte)) : list Z :=
  match fs with [] => [] | f :: fs => p :: starts (p + Z.of_nat (length f) + 1) fs end.

Lemma cstr_inside m m' p n q s :
  only_inside p n m m' -> clear_of q (Z.of_nat (length s) + 1) p n -> cstr m q s -> cstr m' q s.
Proof.
  intros [_ H]. revert q. induction s as [|c s IH]; intros q Hc Hs; unfold clear_of in *; cbn [cstr length] in *.
  - by rewrite H by lia.
  - destruct Hs as (L & N & Hs). split_and!; [by rewrite H by lia|done|]. apply IH; [lia|done].
Qed.

Lemma only_inside_trans p n p' n' m m1 m2 :
  only_inside p n m m1 -> only_inside p' n' m1 m2 -> p <= p' -> p' + n' <= p + n -> only_inside p n m m2.
Proof.
  intros [L1 H1] [L2 H2] Ha Hb. split; [lia|]. intros q Hq. rewrite H2, H1; [done|lia|].
  destruct (Z.le_gt_cases n' 0); lia.
Qed.

Lemma cstr_suffix m p u s : cstr m p (u ++ s) -> cstr m (p + Z.of_nat (length u)) s.
Proof.
  revert p. induction u as [|c u IH]; intros p; cbn [app cstr length]; [by rewrite Z.add_0_r|].
  intros (_ & _ & H%IH). by replace (p + Z.of_nat (S (length u))) with (p + 1 + Z.of_nat (length u)) by lia.
Qed.

(** A string cut at position [i]. *)
Lemma cstr_cut m p s i d m' :
  cstr m p s -> s !! i = Some d -> poke m (p + Z.of_nat i) [0] = Some m' ->
  cstr m' p (take i s) /\ cstr m' (p + Z.of_nat i + 1) (drop (S i) s).
Proof.
  intros Hs Hi Hp. pose proof (lookup_lt_Some _ _ _ Hi) as Hlt. pose proof (take_drop_middle s i d Hi) as Hsplit.
  assert (Ht : length (take i s) = i) by (rewrite length_take; lia). split.
  - rewrite <- (app_nil_r (take i s)). apply cstr_app.
    + apply cstr_area, area_app, proj1, (area_take _ _ _ i) in Hs.
      eapply area_poke; [done| |done]. unfold clear_of. lia.
    + by eapply Forall_take, cstr_nonzero.
    + rewrite Ht. apply poke_area in Hp. by destruct Hp.
  - eapply cstr_poke; [done|unfold clear_of; simpl; lia|]. rewrite <- Hsplit, cons_middle, app_assoc in Hs.
    apply cstr_suffix in Hs. rewrite length_app, Ht in Hs. simpl in Hs.
    by replace (p + Z.of_nat i + 1) with (p + Z.of_nat (i + 1)) by lia.
Qed.

Section Strsep.
Context (ct : Z) (set : list byte).
#[local] Abbreviation separates d := (inset set d = true).
#[local] Abbreviation plain f := (Forall (fun c => inset set c = false) f).

Lemma strsep_all_spec calls m p s :
  cstr m p s -> cstr m ct set -> clear_of ct (Z.of_nat (length set) + 1) p (Z.of_nat (length s)) ->
  (length s + 1 < calls)%nat ->
  exists fs ds m', s = weave fs ds /\ length fs = S (length ds) /\
    Forall (fun d => separates d) ds /\ Forall (fun f => plain f) fs /\
    strsep_all calls m (Some p) ct = Some (starts p fs, m') /\ laid_out m' p fs /\
    only_inside p (Z.of_nat (length s)) m m'.
Proof.
  revert m p s. induction calls as [|calls IH]; intros m p s Hs Hct Hc Hk; [lia|]. cbn [strsep_all strsep].
  unfold strpbrk. rewrite (strpbrk_loop_spec m ct set Hct _ p s Hs (cstr_turns _ _ _ Hs)). cbn [mbind option_bind].
  destruct (find_pos (inset set) s) as [i|] eqn:E; cbn [at_pos fmap option_fmap option_map].
  - apply find_pos_some in E as (d & Hi & Hd & Hpre). pose proof (lookup_lt_Some _ _ _ Hi) as Hlt.
    pose proof (cstr_fits _ _ _ Hs). rewrite store_byte by done.
    destruct (poke_defined m (p + Z.of_nat i) [0]) as [m1 Hp]; [lia|simpl; lia|]. rewrite Hp. cbn [mbind option_bind].
    destruct (cstr_cut m p s i d m1 Hs Hi Hp) as [H1 H2].
    assert (Ht : length (take i s) = i) by (rewrite length_take; lia).
    assert (Hr : length (drop (S i) s) = (length s - S i)%nat) by apply length_drop.
    assert (Hin : only_inside p (Z.of_nat (length s)) m m1) by (eapply poke_inside; [done|lia|simpl; lia]).
    destruct (IH m1 (p + Z.of_nat i + 1) (drop (S i) s)) as (fs & ds & m' & Hw & Hl & Hds & Hfs & -> & Hlay & Hin');
      [done|by eapply cstr_inside|unfold clear_of in *; lia|lia|]. cbn [mbind option_bind].
    exists (take i s :: fs), (d :: ds), m'. split_and!.
    + simpl. rewrite <- Hw. symmetry. by apply take_drop_middle.
    + simpl. by rewrite Hl.
    + by constructor.
    + by constructor.
    + cbn [starts]. by rewrite Ht.
    + cbn [laid_out]. rewrite Ht. split; [|done]. eapply cstr_inside; [done| |done]. unfold clear_of. lia.
    + eapply only_inside_trans; [done|done|lia|lia].
  - apply find_pos_none in E. exists [s], [], m. destruct calls as [|calls]; [lia|]. cbn. split_and!; try done; by constructor.
Qed.
End Strsep.

(** ** Trimming with [strstrip] *)

(** [s] less the white space around it. *)
Definition trimmed (s pre mid post : list byte) : Prop :=
  s = pre ++ mid ++ post /\ Forall (fun c => isspace c = true) (pre ++ post) /\
  (forall c, head mid = Some c -> isspace c = false) /\ (forall c, last mid = Some c -> isspace c = false).

(** Going back over white space. *)
Lemma strstrip_back_spec fuel m p s :
  area m p s -> (length s < fuel)%nat ->
  exists u post, s = u ++ post /\ Forall (fun c => isspace c = true) post /\
    (forall c, last u = Some c -> isspace c = false) /\
    strstrip_back fuel m p (p + Z.of_nat (length s) - 1) = Some (p + Z.of_nat (length u) - 1).
Proof.
  revert fuel. induction s as [|x s IH] using rev_ind; intros [|fuel] Ha Hf; [lia| |lia|]; cbn [strstrip_back].
  { exists [], []. rewrite (proj2 (Z.leb_gt p _)) by (simpl; lia). by repeat split. }
  rewrite length_app in *. simpl in Hf. apply area_app in Ha as [Ha [Hx _]].
  replace (p + Z.of_nat (length s + length [x]) - 1) with (p + Z.of_nat (length s)) by (simpl; lia).
  rewrite (proj2 (Z.leb_le p _)), Hx by lia. cbn [mbind option_bind]. destruct (isspace x) eqn:E.
  - destruct (IH fuel Ha) as (u & post & -> & Hp & Hu & ->); [lia|]. exists u, (post ++ [x]). split_and!; [by rewrite app_assoc| |done|done].
    apply Forall_app. split; [done|by constructor].
  - exists (s ++ [x]), []. split_and!; [by rewrite app_nil_r|done| |].
    + intros c. rewrite last_snoc. by intros [= <-].
    + rewrite length_app. simpl. f_equal. lia.
Qed.

Lemma strstrip_front_spec fuel m p s :
  cstr m p s -> (length s < fuel)%nat ->
  exists pre mid, s = pre ++ mid /\ Forall (fun c => isspace c = true) pre /\
    (forall c, head mid = Some c -> isspace c = false) /\
    strstrip_front fuel m p = Some (p + Z.of_nat (length pre)).
Proof.
  revert p s. induction fuel as [|fuel IH]; intros p s Hs Hf; [lia|]. cbn [strstrip_front]. at_head s.
  - exists [], []. split_and!; [done|constructor|done|simpl; f_equal; lia].
  - rewrite (proj2 (Z.eqb_neq c 0)) by done. cbn [negb andb]. destruct (isspace c) eqn:E.
    + destruct (IH _ s Hs) as (pre & mid & -> & Hp & Hm & ->); [lia|]. exists (c :: pre), mid.
      split_and!; [done|by constructor|done|]. cbn [length]. f_equal. lia.
    + exists [], (c :: s). split_and!; [done|constructor| |simpl; f_equal; lia]. by intros ? [= <-].
Qed.

(** [strstrip] returns the string without the white space around it, cut off in place. *)
Theorem strstrip_trims m p s :
  cstr m p s ->
  exists pre mid post m', trimmed s pre mid post /\ strstrip m p = Some (p + Z.of_nat (length pre), m') /\
    cstr m' (p + Z.of_nat (length pre)) mid /\ only_inside p (Z.of_nat (length s) + 1) m m'.
Proof.
  intros Hs. pose proof (cstr_turns _ _ _ Hs) as Hf. pose proof (cstr_fits _ _ _ Hs) as Hp. unfold strstrip.
  rewrite (strlen_spec _ _ _ Hs). cbn [mbind option_bind]. destruct (Z.eqb_spec (Z.of_nat (length s)) 0) as [H0|H0].
  { destruct s; [|simpl in H0; lia]. exists [], [], [], m. simpl. rewrite Z.add_0_r. split_and!; try done. }
  pose proof (cstr_area _ _ _ Hs) as [Ha _]%area_app.
  destruct (strstrip_back_spec (turns m) m p s Ha Hf) as (u & post & Hu & Hpost & Hlast & ->). cbn [mbind option_bind].
  rewrite Hu, length_app in Hp. rewrite store_byte by done.
  destruct (poke_defined m (p + Z.of_nat (length u) - 1 + 1) [0]) as [m' Hw]; [lia|simpl; lia|]. rewrite Hw. cbn [mbind option_bind].
  assert (Hu' : cstr m' p u).
  { rewrite <- (app_nil_r u). apply cstr_app.
    - eapply area_poke; [done|unfold clear_of; lia|]. rewrite Hu in Ha. by apply area_app in Ha as [Ha _].
    - apply cstr_nonzero in Hs. rewrite Hu in Hs. by apply Forall_app in Hs as [Hs _].
    - apply poke_area in Hw as [Hw _]. by replace (p + Z.of_nat (length u)) with (p + Z.of_nat (length u) - 1 + 1) by lia. }
  destruct (strstrip_front_spec (turns m') m' p u Hu' (cstr_turns _ _ _ Hu')) as (pre & mid & -> & Hpre & Hhead & ->).
  cbn [mbind option_bind]. exists pre, mid, post, m'. split_and!.
  - split_and!; [by rewrite Hu, app_assoc|by apply Forall_app|done|].
    intros c Hc. apply Hlast. by rewrite last_app, Hc.
  - done.
  - by apply cstr_suffix.
  - eapply poke_inside; [done|lia|]. rewrite Hu, !length_app. simpl. lia.
Qed.

(** ** The contract of [strsep] *)

(** Calling [strsep] until it returns [NULL] ends, after at most two calls more than
    the string has characters, and cuts the string into its fields in place: the tokens
    it returned, in order and each a string of its own, are the parts of the string
    between the characters of [ct]; no part has such a character, empty parts count,
    and put together with the characters cut out they are the string again.  Nothing
    outside the string is changed. *)
Theorem strsep_splits m p s ct set :
  cstr m p s -> cstr m ct set -> clear_of ct (Z.of_nat (length set) + 1) p (Z.of_nat (length s)) ->
  exists fs ds m', s = weave fs ds /\ length fs = S (length ds) /\
    Forall (fun d => d ∈ set) ds /\ Forall (fun f => Forall (fun c => c ∉ set) f) fs /\
    strsep_all (length s + 2) m (Some p) ct = Some (starts p fs, m') /\
    laid_out m' p fs /\ only_inside p (Z.of_nat (length s)) m m'.
Proof.
  intros Hs Hct Hc. destruct (strsep_all_spec ct set (length s + 2) m p s) as (fs & ds & m' & H1 & H2 & H3 & H4 & H5);
    [done|done|done|lia|].
  exists fs, ds, m'. split_and!; [done|done| | |apply H5..].
  - eapply Forall_impl; [exact H3|]. intros d. apply inset_elem.
  - eapply Forall_impl; [exact H4|]. intros f Hf. eapply Forall_impl; [exact Hf|]. intros c E Hin.
    apply inset_elem in Hin. simpl in *. congruence.
Qed.

Lemma strsep_splits_witness :
  exists fs ds m', [97; 44; 44; 98; 59; 99] = weave fs ds /\ length fs = S (length ds) /\
    strsep_all 8 [97; 44; 44; 98; 59; 99; 0; 44; 59; 0] (Some 0) 7 = Some (starts 0 fs, m') /\ laid_out m' 0 fs.
Proof.
  destruct (strsep_splits [97; 44; 44; 98; 59; 99; 0; 44; 59; 0] 0 [97; 44; 44; 98; 59; 99] 7 [44; 59])
    as (fs & ds & m' & H1 & H2 & _ & _ & H3 & H4 & _); [by vm_compute|by vm_compute|right; simpl; lia|].
  by exists fs, ds, m'.
Defined.

Example strsep_runs :
  strsep_all 8 [97; 44; 44; 98; 59; 99; 0; 44; 59; 0] (Some 0) 7 =
    Some ([0; 2; 3; 5], [97; 0; 0; 98; 0; 99; 0; 44; 59; 0]).
Proof. done. Qed.
End KernelText.
