(* ===== verification/KernelTree.v ===== *)
(** * KernelTree: the red-black trees of the board's kernel, as pointers

    [struct rb_node] and its operations (include/linux/rbtree.h, lib/rbtree.c) of the
    Linux kernel kept beside the agent.  Nodes are linked by pointers in both directions;
    the parent pointer and the colour share a word.

    A pointer is an address, 0 is [NULL]; [nodes] maps the address of every [rb_node]
    that exists to its contents, and [root] is the tree's [struct rb_root].  [None] is
    undefined behaviour: an access through [NULL] or to no node.

    This file has the operations, and what each does to the tree that the pointers
    represent; [KernelBalance] has the red-black trees. *)

From stdpp Require Import gmap.
From S2P Require Import Prelude.

Module KernelTree.

(** ** linux/rbtree.h *)

Record rb_node := mkNode { rb_parent_color : Z; rb_right : Z; rb_left : Z }.

Record rb_tree := mkRb { nodes : gmap Z rb_node; root : Z }.

Definition RB_RED : Z := 0.
Definition RB_BLACK : Z := 1.

(** Reading and writing a field of the node at [p]. *)
Definition field (f : rb_node -> Z) (s : rb_tree) (p : Z) : option Z := f <$> nodes s !! p.

Definition change (f : rb_node -> rb_node) (s : rb_tree) (p : Z) : option rb_tree :=
  n ← nodes s !! p; Some (mkRb (<[p := f n]> (nodes s)) (root s)).

Definition left := field rb_left.
Definition right := field rb_right.
Definition set_left (s : rb_tree) (p v : Z) : option rb_tree :=
  change (fun n => mkNode (rb_parent_color n) (rb_right n) v) s p.
Definition set_right (s : rb_tree) (p v : Z) : option rb_tree :=
  change (fun n => mkNode (rb_parent_color n) v (rb_left n)) s p.
Definition set_parent_color (f : Z -> Z) : rb_tree -> Z -> option rb_tree :=
  change (fun n => mkNode (f (rb_parent_color n)) (rb_right n) (rb_left n)).
Definition set_root (s : rb_tree) (p : Z) : rb_tree := mkRb (nodes s) p.

(** [~3] and [~1] as [unsigned long]. *)
Definition rb_parent := field (fun n => rb_parent_color n .& 0xFFFFFFFC).
Definition rb_color := field (fun n => rb_parent_color n .& 1).
Definition rb_is_red (s : rb_tree) (p : Z) : option bool := c ← rb_color s p; Some (c =? 0).
Definition rb_is_black (s : rb_tree) (p : Z) : option bool := c ← rb_color s p; Some (negb (c =? 0)).
Definition rb_set_red := set_parent_color (fun pc => pc .& 0xFFFFFFFE).
Definition rb_set_black := set_parent_color (fun pc => pc .| 1).
Definition rb_set_parent (s : rb_tree) (rb p : Z) : option rb_tree :=
  set_parent_color (fun pc => (pc .& 3) .| p) s rb.
Definition rb_set_color (s : rb_tree) (rb color : Z) : option rb_tree :=
  set_parent_color (fun pc => (pc .& 0xFFFFFFFE) .| color) s rb.

(** [struct rb_node **rb_link]: where the new node is to be hung. *)
Variant link := root_link | left_link (p : Z) | right_link (p : Z).

Definition rb_link_node (s : rb_tree) (node parent : Z) (rb_link : link) : option rb_tree :=
  s ← set_parent_color (fun _ => parent) s node;
  s ← set_right s node 0;
  s ← set_left s node 0;
  match rb_link with
  | root_link => Some (set_root s node)
  | left_link p => set_left s p node
  | right_link p => set_right s p node
  end.

(** A tree with no node, and the mark of a node that is in no tree: it is its own parent. *)
Definition RB_EMPTY_ROOT (s : rb_tree) : bool := root s =? 0.
Definition RB_EMPTY_NODE (s : rb_tree) (node : Z) : option bool := p ← rb_parent s node; Some (p =? node).
Definition RB_CLEAR_NODE (s : rb_tree) (node : Z) : option rb_tree := rb_set_parent s node node.

(** ** lib/rbtree.c *)

Definition __rb_rotate_left (s : rb_tree) (node : Z) : option rb_tree :=
  rght ← right s node;
  parent ← rb_parent s node;
  rl ← left s rght;
  s ← set_right s node rl;
  s ← (if rl =? 0 then Some s else rl ← left s rght; rb_set_parent s rl node);
  s ← set_left s rght node;
  s ← rb_set_parent s rght parent;
  s ← (if negb (parent =? 0) then
         pl ← left s parent;
         if node =? pl then set_left s parent rght else set_right s parent rght
       else Some (set_root s rght));
  rb_set_parent s node rght.

Definition __rb_rotate_right (s : rb_tree) (node : Z) : option rb_tree :=
  lft ← left s node;
  parent ← rb_parent s node;
  lr ← right s lft;
  s ← set_left s node lr;
  s ← (if lr =? 0 then Some s else lr ← right s lft; rb_set_parent s lr node);
  s ← set_right s lft node;
  s ← rb_set_parent s lft parent;
  s ← (if negb (parent =? 0) then
         pr ← right s parent;
         if node =? pr then set_right s parent lft else set_left s parent lft
       else Some (set_root s lft));
  rb_set_parent s node lft.

(** [p && rb_is_red(p)] and [!p || rb_is_black(p)]. *)
Definition red_node (s : rb_tree) (p : Z) : option bool := if p =? 0 then Some false else rb_is_red s p.
Definition black_or_null (s : rb_tree) (p : Z) : option bool := if p =? 0 then Some true else rb_is_black s p.

(** One turn of the loop of [rb_insert_color], with the parent on the left and on the
    right: the tree, and the node to go on with. *)
Definition insert_left (s : rb_tree) (node parent gparent : Z) : option (rb_tree * Z) :=
  uncle ← right s gparent;
  r ← red_node s uncle;
  if r : bool then
    s ← rb_set_black s uncle;
    s ← rb_set_black s parent;
    s ← rb_set_red s gparent;
    Some (s, gparent)
  else
    pr ← right s parent;
    '(s, parent, node) ← (if pr =? node then s ← __rb_rotate_left s parent; Some (s, node, parent)
                          else Some (s, parent, node));
    s ← rb_set_black s parent;
    s ← rb_set_red s gparent;
    s ← __rb_rotate_right s gparent;
    Some (s, node).

Definition insert_right (s : rb_tree) (node parent gparent : Z) : option (rb_tree * Z) :=
  uncle ← left s gparent;
  r ← red_node s uncle;
  if r : bool then
    s ← rb_set_black s uncle;
    s ← rb_set_black s parent;
    s ← rb_set_red s gparent;
    Some (s, gparent)
  else
    pl ← left s parent;
    '(s, parent, node) ← (if pl =? node then s ← __rb_rotate_right s parent; Some (s, node, parent)
                          else Some (s, parent, node));
    s ← rb_set_black s parent;
    s ← rb_set_red s gparent;
    s ← __rb_rotate_left s gparent;
    Some (s, node).

Definition insert_turn (s : rb_tree) (node parent : Z) : option (rb_tree * Z) :=
  gparent ← rb_parent s parent;
  gl ← left s gparent;
  if parent =? gl then insert_left s node parent gparent else insert_right s node parent gparent.

Fixpoint insert_loop (fuel : nat) (s : rb_tree) (node : Z) : option rb_tree :=
  match fuel with
  | O => None
  | S fuel =>
      parent ← rb_parent s node;
      r ← red_node s parent;
      if r : bool then '(s, node) ← insert_turn s node parent; insert_loop fuel s node
      else Some s
  end.

(** Every turn goes up two levels: as many turns as there are nodes are enough. *)
Definition rb_insert_color (s : rb_tree) (node : Z) : option rb_tree :=
  s ← insert_loop (S (size (nodes s))) s node;
  rb_set_black s (root s).

(** Both children of [other] are black or missing. *)
Definition both_black (s : rb_tree) (other : Z) : option bool :=
  l ← left s other;
  bl ← black_or_null s l;
  if bl : bool then r ← right s other; black_or_null s r else Some false.

(** One turn of the loop of [__rb_erase_color], with [node] on the left and on the right
    of [parent]: the part once [other] is black, and all of it.  The tree, [node] and
    [parent], and whether the loop was left by [break]. *)
Definition erase_left_black (s : rb_tree) (parent other : Z) : option (rb_tree * Z * Z * bool) :=
  both ← both_black s other;
  if both : bool then
    s ← rb_set_red s other;
    grand ← rb_parent s parent;
    Some (s, parent, grand, false)
  else
    far ← right s other;
    b ← black_or_null s far;
    '(s, other) ← (if b : bool then
                     near ← left s other;
                     s ← rb_set_black s near;
                     s ← rb_set_red s other;
                     s ← __rb_rotate_right s other;
                     other ← right s parent;
                     Some (s, other)
                   else Some (s, other));
    pc ← rb_color s parent;
    s ← rb_set_color s other pc;
    s ← rb_set_black s parent;
    far ← right s other;
    s ← rb_set_black s far;
    s ← __rb_rotate_left s parent;
    Some (s, root s, parent, true).

Definition erase_left (s : rb_tree) (parent : Z) : option (rb_tree * Z * Z * bool) :=
  other ← right s parent;
  r ← rb_is_red s other;
  if r : bool then
    s ← rb_set_black s other;
    s ← rb_set_red s parent;
    s ← __rb_rotate_left s parent;
    other ← right s parent;
    erase_left_black s parent other
  else erase_left_black s parent other.

Definition erase_right_black (s : rb_tree) (parent other : Z) : option (rb_tree * Z * Z * bool) :=
  both ← both_black s other;
  if both : bool then
    s ← rb_set_red s other;
    grand ← rb_parent s parent;
    Some (s, parent, grand, false)
  else
    far ← left s other;
    b ← black_or_null s far;
    '(s, other) ← (if b : bool then
                     near ← right s other;
                     s ← rb_set_black s near;
                     s ← rb_set_red s other;
                     s ← __rb_rotate_left s other;
                     other ← left s parent;
                     Some (s, other)
                   else Some (s, other));
    pc ← rb_color s parent;
    s ← rb_set_color s other pc;
    s ← rb_set_black s parent;
    far ← left s other;
    s ← rb_set_black s far;
    s ← __rb_rotate_right s parent;
    Some (s, root s, parent, true).

Definition erase_right (s : rb_tree) (parent : Z) : option (rb_tree * Z * Z * bool) :=
  other ← left s parent;
  r ← rb_is_red s other;
  if r : bool then
    s ← rb_set_black s other;
    s ← rb_set_red s parent;
    s ← __rb_rotate_right s parent;
    other ← left s parent;
    erase_right_black s parent other
  else erase_right_black s parent other.

Definition erase_turn (s : rb_tree) (node parent : Z) : option (rb_tree * Z * Z * bool) :=
  pl ← left s parent;
  if pl =? node then erase_left s parent else erase_right s parent.

Fixpoint erase_loop (fuel : nat) (s : rb_tree) (node parent : Z) : option (rb_tree * Z) :=
  match fuel with
  | O => None
  | S fuel =>
      b ← black_or_null s node;
      if b && negb (node =? root s) then
        '(s, node, parent, stop) ← erase_turn s node parent;
        if stop : bool then Some (s, node) else erase_loop fuel s node parent
      else Some (s, node)
  end.

Definition __rb_erase_color (s : rb_tree) (node parent : Z) : option rb_tree :=
  '(s, node) ← erase_loop (S (size (nodes s))) s node parent;
  if node =? 0 then Some s else rb_set_black s node.

(** [while (n->rb_left) n = n->rb_left] and its mirror image. *)
Fixpoint leftmost (fuel : nat) (s : rb_tree) (n : Z) : option Z :=
  match fuel with
  | O => None
  | S fuel => l ← left s n; if l =? 0 then Some n else leftmost fuel s l
  end.

Fixpoint rightmost (fuel : nat) (s : rb_tree) (n : Z) : option Z :=
  match fuel with
  | O => None
  | S fuel => r ← right s n; if r =? 0 then Some n else rightmost fuel s r
  end.

(** [node] put in the place of [old]. *)
Definition take_place (s : rb_tree) (old node : Z) : option rb_tree :=
  opc ← field rb_parent_color s old;
  s ← set_parent_color (fun _ => opc) s node;
  orr ← right s old;
  s ← set_right s node orr;
  ol ← left s old;
  s ← set_left s node ol;
  op ← rb_parent s old;
  s ← (if negb (op =? 0) then
         opl ← left s op;
         if opl =? old then set_left s op node else set_right s op node
       else Some (set_root s node));
  ol ← left s old;
  s ← rb_set_parent s ol node;
  orr ← right s old;
  (if orr =? 0 then Some s else rb_set_parent s orr node).

(** The part of [rb_erase] for a node [old] with two children: its successor takes its
    place.  The tree, [child], [parent] and [color]. *)
Definition erase_inner (s : rb_tree) (old : Z) : option (rb_tree * Z * Z * Z) :=
  node ← right s old;
  node ← leftmost (S (size (nodes s))) s node;
  child ← right s node;
  parent ← rb_parent s node;
  color ← rb_color s node;
  s ← (if child =? 0 then Some s else rb_set_parent s child parent);
  '(s, parent) ← (if parent =? old then s ← set_right s parent child; Some (s, node)
                  else s ← set_left s parent child; Some (s, parent));
  s ← take_place s old node;
  Some (s, child, parent, color).

(** The part for a node with at most one child. *)
Definition erase_outer (s : rb_tree) (node child : Z) : option (rb_tree * Z * Z * Z) :=
  parent ← rb_parent s node;
  color ← rb_color s node;
  s ← (if child =? 0 then Some s else rb_set_parent s child parent);
  s ← (if negb (parent =? 0) then
         pl ← left s parent;
         if pl =? node then set_left s parent child else set_right s parent child
       else Some (set_root s child));
  Some (s, child, parent, color).

Definition rb_erase (s : rb_tree) (node : Z) : option rb_tree :=
  nl ← left s node;
  nr ← right s node;
  '(s, child, parent, color) ←
    (if nl =? 0 then erase_outer s node nr
     else if nr =? 0 then erase_outer s node nl
     else erase_inner s node);
  if color =? RB_BLACK then __rb_erase_color s child parent else Some s.

(** ** Walking *)

Definition rb_first (s : rb_tree) : option Z :=
  let n := root s in
  if n =? 0 then Some 0 else leftmost (S (size (nodes s))) s n.

Definition rb_last (s : rb_tree) : option Z :=
  let n := root s in
  if n =? 0 then Some 0 else rightmost (S (size (nodes s))) s n.

(** [while ((parent = rb_parent(node)) && node == parent->rb_right) node = parent]. *)
Fixpoint climb (side : rb_tree -> Z -> option Z) (fuel : nat) (s : rb_tree) (node : Z) : option Z :=
  match fuel with
  | O => None
  | S fuel =>
      parent ← rb_parent s node;
      if parent =? 0 then Some parent
      else c ← side s parent; if node =? c then climb side fuel s parent else Some parent
  end.

Definition rb_next (s : rb_tree) (node : Z) : option Z :=
  parent ← rb_parent s node;
  if parent =? node then Some 0
  else
    r ← right s node;
    if negb (r =? 0) then leftmost (S (size (nodes s))) s r
    else climb right (S (size (nodes s))) s node.

Definition rb_prev (s : rb_tree) (node : Z) : option Z :=
  parent ← rb_parent s node;
  if parent =? node then Some 0
  else
    l ← left s node;
    if negb (l =? 0) then rightmost (S (size (nodes s))) s l
    else climb left (S (size (nodes s))) s node.

Definition rb_replace_node (s : rb_tree) (victim new : Z) : option rb_tree :=
  parent ← rb_parent s victim;
  s ← (if negb (parent =? 0) then
         pl ← left s parent;
         if victim =? pl then set_left s parent new else set_right s parent new
       else Some (set_root s new));
  vl ← left s victim;
  s ← (if vl =? 0 then Some s else rb_set_parent s vl new);
  vr ← right s victim;
  s ← (if vr =? 0 then Some s else rb_set_parent s vr new);
  v ← nodes s !! victim;
  change (fun _ => v) s new.

(** ** The word for parent and colour *)

Variant color := Red | Black.

Definition bit (c : color) : Z := match c with Red => RB_RED | Black => RB_BLACK end.
Definition pack (par : Z) (c : color) : Z := par .| bit c.

(** An aligned address, or [NULL]. *)
Definition aligned (p : Z) : Prop := 0 <= p < 2 ^ 32 /\ p mod 4 = 0.

Lemma aligned_low p i : aligned p -> 0 <= i < 2 -> Z.testbit p i = false.
Proof.
  intros [_ H] Hi. change 4 with (2 ^ 2) in H.
  rewrite <- (Z.mod_pow2_bits_low p 2 i), H by lia. apply Z.bits_0.
Qed.

Lemma aligned_high p i : aligned p -> 32 <= i -> Z.testbit p i = false.
Proof. intros [H _] Hi. by apply (testbit_small 32). Qed.

Lemma bit_high c i : 0 < i -> Z.testbit (bit c) i = false.
Proof. intros Hi. destruct c; [apply Z.bits_0|]. apply (testbit_small 1); [done|lia]. Qed.

(** Equality of words made of an address and a colour: the bits one by one. *)
Ltac word_eq :=
  intros; unfold pack; apply Z.bits_inj'; intros i Hi;
  rewrite ?Z.lor_spec, ?Z.land_spec, ?Z.lor_spec, ?Z.land_spec;
  let case_at k := (destruct (decide (i = k)) as [->|?]; [repeat match goal with H : aligned ?p |- _ => rewrite ?(aligned_low p _ H) by lia; clear H end;
     by repeat match goal with c : color |- _ => destruct c end|]) in
  case_at 0; case_at 1;
  rewrite ?bit_high by lia;
  match goal with
  | |- context [Z.testbit 0xFFFFFFFC i] => change 0xFFFFFFFC with (Z.ldiff (Z.ones 32) (Z.ones 2))
  | |- context [Z.testbit 0xFFFFFFFE i] => change 0xFFFFFFFE with (Z.ldiff (Z.ones 32) (Z.ones 1))
  | |- context [Z.testbit 3 i] => change 3 with (Z.ones 2)
  | |- context [Z.testbit 1 i] => change 1 with (Z.ones 1)
  | _ => idtac
  end;
  rewrite ?Z.ldiff_spec, ?Z.testbit_ones_nonneg by lia;
  destruct (decide (i < 32));
  repeat match goal with H : aligned ?p |- _ => rewrite ?(aligned_high p i H) by lia; clear H end;
  repeat match goal with
  | |- context [i <? ?n] => first [rewrite (proj2 (Z.ltb_lt i n)) by lia | rewrite (proj2 (Z.ltb_ge i n)) by lia]
  end;
  rewrite ?andb_false_r, ?andb_true_r, ?orb_false_r, ?orb_false_l; try done.

Lemma pack_parent p c : aligned p -> pack p c .& 0xFFFFFFFC = p.
Proof. word_eq. Qed.
Lemma pack_color p c : aligned p -> pack p c .& 1 = bit c.
Proof. word_eq. Qed.
Lemma pack_red p c : aligned p -> pack p c .& 0xFFFFFFFE = pack p Red.
Proof. word_eq. Qed.
Lemma pack_black p c : aligned p -> pack p c .| 1 = pack p Black.
Proof. word_eq. Qed.
Lemma pack_set_parent p c q : aligned p -> aligned q -> (pack p c .& 3) .| q = pack q c.
Proof. word_eq. Qed.
Lemma pack_set_color p c d : aligned p -> (pack p c .& 0xFFFFFFFE) .| bit d = pack p d.
Proof. word_eq. Qed.

(** ** The trees that pointers represent *)

Inductive tree := Leaf | Node (c : color) (l : tree) (x : Z) (r : tree).

Definition ptr (t : tree) : Z := match t with Leaf => 0 | Node _ _ x _ => x end.

Fixpoint inorder (t : tree) : list Z :=
  match t with Leaf => [] | Node _ l x r => inorder l ++ x :: inorder r end.

(** The nodes of [t] are in the store, [par] being the parent of its root. *)
Fixpoint holds (h : gmap Z rb_node) (par : Z) (t : tree) : Prop :=
  match t with
  | Leaf => True
  | Node c l x r => h !! x = Some (mkNode (pack par c) (ptr r) (ptr l)) /\ holds h x l /\ holds h x r
  end.

(** What is around a subtree, from the inside out. *)
Variant frame := InLeft (c : color) (x : Z) (r : tree) | InRight (c : color) (l : tree) (x : Z).

Definition top (f : frame) : Z := match f with InLeft _ x _ => x | InRight _ _ x => x end.
Definition up (k : list frame) : Z := match k with [] => 0 | f :: _ => top f end.

Definition plug1 (f : frame) (t : tree) : tree :=
  match f with InLeft c x r => Node c t x r | InRight c l x => Node c l x t end.
Fixpoint plug (k : list frame) (t : tree) : tree :=
  match k with [] => t | f :: k => plug k (plug1 f t) end.

Fixpoint before (k : list frame) : list Z :=
  match k with [] => [] | InLeft _ _ _ :: k => before k | InRight _ l x :: k => before k ++ inorder l ++ [x] end.
Fixpoint after (k : list frame) : list Z :=
  match k with [] => [] | InLeft _ x r :: k => x :: inorder r ++ after k | InRight _ _ _ :: k => after k end.

(** The nodes around a subtree whose root is [p] are in the store. *)
Fixpoint around (h : gmap Z rb_node) (rt : Z) (k : list frame) (p : Z) : Prop :=
  match k with
  | [] => rt = p
  | InLeft c x r :: k => h !! x = Some (mkNode (pack (up k) c) (ptr r) p) /\ holds h x r /\ around h rt k x
  | InRight c l x :: k => h !! x = Some (mkNode (pack (up k) c) p (ptr l)) /\ holds h x l /\ around h rt k x
  end.

Definition address (p : Z) : Prop := aligned p /\ p <> 0.

(** The tree [t] is at the pointers of [s]. *)
Record rep (s : rb_tree) (t : tree) : Prop := {
  rep_root : root s = ptr t;
  rep_nodes : holds (nodes s) 0 t;
  rep_ids : NoDup (inorder t);
  rep_addr : Forall address (inorder t) }.

Lemma inorder_plug k t : inorder (plug k t) = before k ++ inorder t ++ after k.
Proof.
  revert t. induction k as [|[c x r|c l x] k IH]; intros t; cbn [plug plug1 before after]; [by rewrite app_nil_r| |].
  - rewrite IH. simpl. by rewrite <- !app_assoc.
  - rewrite IH. simpl. by rewrite <- !app_assoc.
Qed.

Lemma plug_app k k' t : plug (k ++ k') t = plug k' (plug k t).
Proof. revert t. induction k as [|f k IH]; intros t; simpl; [done|]. apply IH. Qed.

Lemma holds_plug h rt k t :
  rt = ptr (plug k t) /\ holds h 0 (plug k t) <-> holds h (up k) t /\ around h rt k (ptr t).
Proof.
  revert t. induction k as [|[c x r|c l x] k IH]; intros t; cbn [plug plug1 around up top].
  - tauto.
  - rewrite IH. simpl. tauto.
  - rewrite IH. simpl. tauto.
Qed.

(** The same seen from a subtree. *)
Definition sibling (f : frame) : tree := match f with InLeft _ _ r => r | InRight _ l _ => l end.
Fixpoint ids (k : list frame) : list Z :=
  match k with [] => [] | f :: k => top f :: inorder (sibling f) ++ ids k end.

Record at_node (s : rb_tree) (k : list frame) (t : tree) : Prop := {
  at_tree : holds (nodes s) (up k) t;
  at_around : around (nodes s) (root s) k (ptr t);
  at_ids : NoDup (ids k ++ inorder t);
  at_addr : Forall address (ids k ++ inorder t) }.

Lemma ids_perm k t : before k ++ inorder t ++ after k ≡ₚ ids k ++ inorder t.
Proof.
  revert t. induction k as [|[c x r|c l x] k IH]; intros t; cbn [before after ids top sibling app]; [by rewrite app_nil_r|..].
  - specialize (IH (Node c t x r)). simpl in IH. rewrite <- !app_assoc in IH. simpl in IH. rewrite IH. solve_Permutation.
  - specialize (IH (Node c l x t)). simpl in IH. rewrite <- !app_assoc in *. simpl in *. rewrite IH. solve_Permutation.
Qed.

Lemma rep_at s k t : rep s (plug k t) <-> at_node s k t.
Proof.
  split.
  - intros [H1 H2 H3 H4]. destruct (proj1 (holds_plug (nodes s) (root s) k t)) as [H5 H6]; [done|].
    rewrite inorder_plug, ids_perm in H3, H4. by split.
  - intros [H1 H2 H3 H4]. destruct (proj2 (holds_plug (nodes s) (root s) k t)) as [H5 H6]; [done|].
    split; [done|done|..]; by rewrite inorder_plug, ids_perm.
Qed.

(** ** Frames of updates *)

Lemma holds_ext h h' par t : (forall q, q ∈ inorder t -> h' !! q = h !! q) -> holds h par t -> holds h' par t.
Proof.
  revert par. induction t as [|c l IHl x r IHr]; intros par; simpl; [done|]. intros H (H1 & H2 & H3).
  split_and!; [rewrite H by set_solver; done|apply IHl; [set_solver|done]|apply IHr; [set_solver|done]].
Qed.

Lemma around_ext h h' rt k p : (forall q, q ∈ ids k -> h' !! q = h !! q) -> around h rt k p -> around h' rt k p.
Proof.
  revert p. induction k as [|[c x r|c l x] k IH]; intros p; cbn [around ids top sibling]; [done|..];
    intros H (H1 & H2 & H3);
    (split_and!; [rewrite H by set_solver; done|eapply holds_ext; [|done]; set_solver|apply IH; [set_solver|done]]).
Qed.

(** Only nodes in [l] differ. *)
Definition only (l : list Z) (s s' : rb_tree) : Prop := forall q, q ∉ l -> nodes s' !! q = nodes s !! q.

Lemma field_eq f s p n : nodes s !! p = Some n -> field f s p = Some (f n).
Proof. intros H. unfold field. by rewrite H. Qed.

Lemma change_eq f s p n :
  nodes s !! p = Some n -> change f s p = Some (mkRb (<[p := f n]> (nodes s)) (root s)).
Proof. intros H. unfold change. by rewrite H. Qed.

Lemma change_only f s p s' : change f s p = Some s' -> only [p] s s' /\ root s' = root s.
Proof.
  unfold change. destruct (nodes s !! p) as [n|]; [|done]. intros [= <-]. split; [|done].
  intros q Hq. simpl. rewrite lookup_insert_ne; [done|]. set_solver.
Qed.

(** A read after a change. *)
Lemma change_at f s p n :
  nodes s !! p = Some n ->
  exists s', change f s p = Some s' /\ nodes s' !! p = Some (f n) /\ root s' = root s /\
    forall q, q <> p -> nodes s' !! q = nodes s !! q.
Proof.
  intros H. eexists. split; [by apply change_eq|]. simpl. split_and!; [by rewrite lookup_insert_eq|done|].
  intros q' Hq. by rewrite lookup_insert_ne.
Qed.

(** [if (p) rb_set_parent(p, par')] at the root of a subtree. *)
Lemma reparent s t par par' :
  holds (nodes s) par t -> aligned par -> aligned par' -> NoDup (inorder t) -> Forall address (inorder t) ->
  exists s', (if ptr t =? 0 then Some s else rb_set_parent s (ptr t) par') = Some s' /\ root s' = root s /\
    holds (nodes s') par' t /\ only (inorder t) s s'.
Proof.
  intros Ht Hp Hp' Hnd Ha. destruct t as [|c l x r]; [by exists s|]. cbn [ptr inorder] in *.
  assert (Hx : address x) by (eapply (Forall_forall _ _); [exact Ha|set_solver]).
  rewrite (proj2 (Z.eqb_neq x 0)) by apply Hx. destruct Ht as (H1 & H2 & H3).
  apply NoDup_app in Hnd as (_ & Hd & [Hr _]%NoDup_cons).
  unfold rb_set_parent, set_parent_color. eexists. split; [by apply change_eq|]. simpl. split_and!; [done| | | |].
  - rewrite lookup_insert_eq. do 2 f_equal. by apply pack_set_parent.
  - eapply holds_ext; [|done]. intros q Hq. apply lookup_insert_ne. intros <-. set_solver.
  - eapply holds_ext; [|done]. intros q Hq. apply lookup_insert_ne. by intros <-.
  - intros q Hq. apply lookup_insert_ne. set_solver.
Qed.

(** Hanging [new] where [p] was: in its parent or in the root; in the two orders in
    which the code asks on which side [p] was. *)
Definition relink_l (s : rb_tree) (parent p new : Z) : option rb_tree :=
  if negb (parent =? 0) then
    pl ← left s parent;
    if p =? pl then set_left s parent new else set_right s parent new
  else Some (set_root s new).

Definition relink_r (s : rb_tree) (parent p new : Z) : option rb_tree :=
  if negb (parent =? 0) then
    pr ← right s parent;
    if p =? pr then set_right s parent new else set_left s parent new
  else Some (set_root s new).

Lemma ptr_in t : t <> Leaf -> ptr t ∈ inorder t.
Proof. destruct t; [done|]. simpl. set_solver. Qed.

Lemma ptr_other t p : p <> 0 -> p ∉ inorder t -> p <> ptr t.
Proof. intros H0 Hp. destruct t; [done|]. simpl in *. set_solver. Qed.

Lemma relink_l_sym s parent p new :
  relink_l s parent p new =
    if negb (parent =? 0) then
      pl ← left s parent;
      if pl =? p then set_left s parent new else set_right s parent new
    else Some (set_root s new).
Proof.
  unfold relink_l. destruct (negb _); [|done]. destruct (left s parent) as [pl|]; [|done]. simpl. by rewrite Z.eqb_sym.
Qed.

Lemma relink s k p new :
  around (nodes s) (root s) k p -> p <> 0 -> p ∉ ids k -> NoDup (ids k) -> Forall address (ids k) ->
  exists s', relink_l s (up k) p new = Some s' /\ relink_r s (up k) p new = Some s' /\
    around (nodes s') (root s') k new /\ only (ids k) s s'.
Proof.
  intros Hk Hp0 Hp Hnd Ha. destruct k as [|f k]; [exists (set_root s new); by repeat split|]. cbn [ids up] in *.
  apply NoDup_cons in Hnd as [Hx Hnd]. apply Forall_cons in Ha as [[_ Hx0] _].
  assert (Hsib : p <> ptr (sibling f)) by (apply ptr_other; set_solver).
  unfold relink_l, relink_r, left, right, field. rewrite (proj2 (Z.eqb_neq (top f) 0)) by done.
  destruct f as [c x r|c l x]; cbn [around top sibling negb] in *; destruct Hk as (H1 & H2 & H3); rewrite H1; simpl;
    rewrite Z.eqb_refl, (proj2 (Z.eqb_neq p _)) by done;
    (unfold set_left, set_right, change; rewrite H1; eexists; split; [done|]; split; [done|]; simpl; split_and!;
      [by rewrite lookup_insert_eq
      |eapply holds_ext; [|done]; intros q Hq; apply lookup_insert_ne; intros <-; set_solver
      |eapply around_ext; [|done]; intros q Hq; apply lookup_insert_ne; intros <-; set_solver
      |intros q Hq; apply lookup_insert_ne; set_solver]).
Qed.

(** ** What the operations do to the tree *)

Lemma address_aligned p : address p -> aligned p.
Proof. by intros []. Qed.

Lemma aligned_0 : aligned 0.
Proof. done. Qed.

Lemma up_aligned k : Forall address (ids k) -> aligned (up k).
Proof. destruct k as [|f k]; [done|]. simpl. intros [H _]%Forall_cons. apply H. Qed.

#[local] Hint Resolve address_aligned aligned_0 up_aligned : core.

Section Reads.
Context (s : rb_tree) (k : list frame) (c : color) (l : tree) (x : Z) (r : tree).
Hypothesis H : at_node s k (Node c l x r).

Lemma at_up_aligned : aligned (up k).
Proof. apply up_aligned. destruct H as [_ _ _ Ha]. by apply Forall_app in Ha as [Ha _]. Qed.

Lemma at_address : address x.
Proof. destruct H as [_ _ _ Ha]. eapply (Forall_forall _ _); [exact Ha|set_solver]. Qed.

Lemma read_left : left s x = Some (ptr l).
Proof. destruct H as [[H1 _] _ _ _]. unfold left, field. by rewrite H1. Qed.
Lemma read_right : right s x = Some (ptr r).
Proof. destruct H as [[H1 _] _ _ _]. unfold right, field. by rewrite H1. Qed.
Lemma read_parent : rb_parent s x = Some (up k).
Proof.
  destruct H as [[H1 _] _ _ _]. unfold rb_parent, field. rewrite H1. simpl. f_equal. apply pack_parent, at_up_aligned.
Qed.
Lemma read_color : rb_color s x = Some (bit c).
Proof.
  destruct H as [[H1 _] _ _ _]. unfold rb_color, field. rewrite H1. simpl. f_equal. apply pack_color, at_up_aligned.
Qed.

Lemma recolor f d :
  (forall p, aligned p -> f (pack p c) = pack p d) ->
  exists s', set_parent_color f s x = Some s' /\ at_node s' k (Node d l x r) /\ only [x] s s'.
Proof.
  intros Hf. pose proof at_up_aligned as Hu. destruct H as [(H1 & H2 & H3) H4 H5 H6].
  destruct (change_at (fun n => mkNode (f (rb_parent_color n)) (rb_right n) (rb_left n)) s x _ H1) as (s' & E1 & E2 & E3 & E4).
  exists s'. split; [done|]. apply NoDup_app in H5 as (Hk & Hd & Hn). cbn [inorder] in *.
  rewrite <- Permutation_middle in Hn. apply NoDup_cons in Hn as [Hx Hn]. split.
  - split; [split_and!| |..].
    + rewrite E2. simpl. by rewrite Hf.
    + eapply holds_ext; [|done]. intros q Hq. apply E4. intros ->. set_solver.
    + eapply holds_ext; [|done]. intros q Hq. apply E4. intros ->. set_solver.
    + rewrite E3. eapply around_ext; [|done]. intros q Hq. apply E4. intros ->. set_solver.
    + cbn [inorder]. rewrite <- Permutation_middle. apply NoDup_app. split_and!; [done|set_solver|by apply NoDup_cons].
    + done.
  - intros q Hq. apply E4. set_solver.
Qed.
End Reads.

(** *** Nodes of different parts of a tree differ

    decided by counting how often a node occurs. *)

Fixpoint cnt (q : Z) (l : list Z) : nat :=
  match l with [] => O | x :: l => ((if decide (q = x) then 1 else 0) + cnt q l)%nat end.

Lemma cnt_app q l l' : cnt q (l ++ l') = (cnt q l + cnt q l')%nat.
Proof. induction l as [|x l IH]; simpl; [done|]. rewrite IH. lia. Qed.

Lemma elem_cnt q l : q ∈ l <-> (0 < cnt q l)%nat.
Proof.
  induction l as [|x l IH]; simpl; [split; [by intros ?%not_elem_of_nil|lia]|].
  rewrite elem_of_cons, IH. case_decide; [lia|]. split; [intros [?|?]; [done|lia]|intros; right; lia].
Qed.

Lemma NoDup_cnt l q : NoDup l -> (cnt q l <= 1)%nat.
Proof.
  induction 1 as [|x l Hx _ IH]; simpl; [lia|]. case_decide as E; [|lia]. subst. rewrite elem_cnt in Hx. lia.
Qed.

Lemma cnt_NoDup l : (forall q, (cnt q l <= 1)%nat) -> NoDup l.
Proof.
  induction l as [|x l IH]; intros H; [constructor|]. apply NoDup_cons. split.
  - rewrite elem_cnt. specialize (H x). simpl in H. rewrite decide_True in H by done. lia.
  - apply IH. intros q. specialize (H q). simpl in H. lia.
Qed.

(** Proves [q ∉ l], [q <> x] or a contradiction, from the [NoDup] hypothesis [H]. *)
Ltac apart H q :=
  let C := fresh "C" in
  pose proof (NoDup_cnt _ q H) as C;
  try (intro; match goal with E : q = _ |- _ => subst q | E : _ = q |- _ => subst q | _ => idtac end);
  cbn [inorder ids top sibling cnt] in C; repeat (rewrite cnt_app in C; cbn [cnt] in C);
  repeat match goal with M : _ ∈ _ |- _ => apply elem_cnt in M end;
  repeat match goal with M : ~ _ ∈ _ |- _ => rewrite elem_cnt in M end;
  cbn [inorder ids top sibling cnt] in *; repeat (rewrite cnt_app in *; cbn [cnt] in *);
  repeat case_decide; lia || congruence.

Section Writes.
Context (s : rb_tree) (p u r l : Z) (c : color).
Hypothesis H : nodes s !! p = Some (mkNode (pack u c) r l).
#[local] Abbreviation written s' n :=
  (nodes s' !! p = Some n /\ root s' = root s /\ forall q, q <> p -> nodes s' !! q = nodes s !! q).

Lemma parent_eq : aligned u -> rb_parent s p = Some u.
Proof. intros Hu. unfold rb_parent, field. rewrite H. simpl. by rewrite pack_parent. Qed.
Lemma left_eq : left s p = Some l.
Proof. unfold left, field. by rewrite H. Qed.
Lemma right_eq : right s p = Some r.
Proof. unfold right, field. by rewrite H. Qed.
Lemma write_left v : exists s', set_left s p v = Some s' /\ written s' (mkNode (pack u c) r v).
Proof. apply (change_at (fun n => mkNode (rb_parent_color n) (rb_right n) v) _ _ _ H). Qed.
Lemma write_right v : exists s', set_right s p v = Some s' /\ written s' (mkNode (pack u c) v l).
Proof. apply (change_at (fun n => mkNode (rb_parent_color n) v (rb_left n)) _ _ _ H). Qed.
Lemma write_parent v :
  aligned u -> aligned v -> exists s', rb_set_parent s p v = Some s' /\ written s' (mkNode (pack v c) r l).
Proof.
  intros Hu Hv. destruct (change_at (fun n => mkNode ((rb_parent_color n .& 3) .| v) (rb_right n) (rb_left n)) s p _ H)
    as (s' & E1 & E2 & E3 & E4). exists s'. split_and!; [done| |done|done]. rewrite E2. simpl. by rewrite pack_set_parent.
Qed.
End Writes.

(** The nodes that a rotation writes to are apart. *)
Lemma rotation_parts k c a x c' b y d :
  NoDup (ids k ++ inorder (Node c a x (Node c' b y d))) -> Forall address (ids k ++ inorder (Node c a x (Node c' b y d))) ->
  (address y /\ Forall address (inorder b) /\ Forall address (ids k)) /\ NoDup (inorder b) /\ x <> y /\
  (x ∉ ids k /\ y ∉ ids k) /\ (x ∉ inorder b /\ y ∉ inorder b) /\ forall q, q ∈ ids k -> q ∉ inorder b.
Proof.
  intros Hnd Had. split; [cbn [inorder] in Had; rewrite !Forall_app, !Forall_cons, Forall_app, Forall_cons in Had; tauto|]. split.
  { apply cnt_NoDup. intros q. pose proof (NoDup_cnt _ q Hnd) as C. cbn [inorder] in C.
    repeat (rewrite cnt_app in C; cbn [cnt] in C). lia. }
  split_and!; [apart Hnd x|apart Hnd x|apart Hnd y|apart Hnd x|apart Hnd y|intros q Hq; apart Hnd q].
Qed.

Lemma rotate_left s k c a x c' b y d :
  at_node s k (Node c a x (Node c' b y d)) ->
  exists s', __rb_rotate_left s x = Some s' /\ at_node s' k (Node c' (Node c a x b) y d) /\
    only (ids k ++ inorder (Node c a x (Node c' b y d))) s s'.
Proof.
  intros H. pose proof (at_up_aligned _ _ _ _ _ _ H) as Hu. pose proof (at_address _ _ _ _ _ _ H) as Ax.
  unfold __rb_rotate_left. rewrite (read_right _ _ _ _ _ _ H), (read_parent _ _ _ _ _ _ H). cbn [ptr mbind option_bind].
  destruct H as [(Hx & Ha & (Hy & Hb & Hd)) Hk Hnd Had]. cbn [ptr] in *.
  destruct (rotation_parts k c a x c' b y d Hnd Had) as ((Ay & Ab & Ak) & Nb & Hxy & (Hxk & Hyk) & (Hxb & Hyb) & Kb).
  rewrite (left_eq _ _ _ _ _ _ Hy). cbn [mbind option_bind].
  (* [node->rb_right = right->rb_left] *)
  destruct (write_right _ _ _ _ _ _ Hx (ptr b)) as (s1 & E1 & L1 & R1 & O1). rewrite E1. cbn [mbind option_bind].
  (* [rb_set_parent(right->rb_left, node)] *)
  assert (Hy1 : nodes s1 !! y = Some (mkNode (pack x c') (ptr d) (ptr b))) by (by rewrite O1 by congruence).
  assert (Hb1 : holds (nodes s1) y b) by (eapply holds_ext; [|done]; intros q Hq; apply O1; congruence).
  destruct (reparent s1 b y x Hb1) as (s2 & E2 & R2 & Hb2 & O2); [by auto..|].
  rewrite (left_eq _ _ _ _ _ _ Hy1). cbn [mbind option_bind]. rewrite E2. cbn [mbind option_bind].
  (* [right->rb_left = node] *)
  assert (Hy2 : nodes s2 !! y = Some (mkNode (pack x c') (ptr d) (ptr b))) by (by rewrite O2).
  destruct (write_left _ _ _ _ _ _ Hy2 x) as (s3 & E3 & L3 & R3 & O3). rewrite E3. cbn [mbind option_bind].
  destruct (write_parent _ _ _ _ _ _ L3 (up k)) as (s4 & E4 & L4 & R4 & O4); [by auto..|]. rewrite E4. cbn [mbind option_bind].
  (* the parent *)
  assert (Hk4 : around (nodes s4) (root s4) k x).
  { rewrite R4, R3, R2, R1. eapply around_ext; [|done]. intros q Hq. rewrite O4, O3, O2, O1; [done|congruence|auto|congruence..]. }
  destruct (relink s4 k x y Hk4) as (s5 & E5 & _ & Hk5 & O5); [apply Ax|done|by apply NoDup_app in Hnd as (? & _)|done|].
  unfold relink_l in E5. rewrite E5. cbn [mbind option_bind].
  assert (Hx5 : nodes s5 !! x = Some (mkNode (pack (up k) c) (ptr b) (ptr a))).
  { rewrite O5, O4, O3, O2; [done|done|congruence|congruence|done]. }
  destruct (write_parent _ _ _ _ _ _ Hx5 y) as (s6 & E6 & L6 & R6 & O6); [by auto..|]. exists s6. split; [done|].
  assert (Out : forall q, q ∉ ids k -> q ∉ inorder b -> q <> x -> q <> y -> nodes s6 !! q = nodes s !! q).
  { intros q Hq Hqb Hqx Hqy. by rewrite O6, O5, O4, O3, O2, O1. }
  split; [split|].
  - cbn [holds ptr]. split_and!.
    + by rewrite O6, O5, L4 by done.
    + done.
    + eapply holds_ext; [|exact Ha]. intros q Hq. apply Out; apart Hnd q.
    + eapply holds_ext; [|exact Hb2]. intros q Hq. rewrite O6, O5, O4, O3; [done|apart Hnd q..].
    + eapply holds_ext; [|exact Hd]. intros q Hq. apply Out; apart Hnd q.
  - rewrite R6. eapply around_ext; [|exact Hk5]. intros q Hq. apply O6. congruence.
  - cbn [inorder]. by rewrite <- app_assoc.
  - cbn [inorder]. by rewrite <- app_assoc.
  - intros q Hq. apply Out; set_solver.
Qed.

(** *** Left and right exchanged *)

Definition mirror_node (n : rb_node) : rb_node := mkNode (rb_parent_color n) (rb_left n) (rb_right n).
Definition mirror (s : rb_tree) : rb_tree := mkRb (mirror_node <$> nodes s) (root s).

Fixpoint mirror_tree (t : tree) : tree :=
  match t with Leaf => Leaf | Node c l x r => Node c (mirror_tree r) x (mirror_tree l) end.
Definition mirror_frame (f : frame) : frame :=
  match f with InLeft c x r => InRight c (mirror_tree r) x | InRight c l x => InLeft c x (mirror_tree l) end.

Lemma mirror_node_mirror n : mirror_node (mirror_node n) = n.
Proof. by destruct n. Qed.

Lemma mirror_mirror s : mirror (mirror s) = s.
Proof.
  destruct s as [h rt]. unfold mirror. simpl. f_equal. apply map_eq. intros p. rewrite !lookup_fmap.
  destruct (h !! p) as [n|]; [|done]. simpl. by rewrite mirror_node_mirror.
Qed.

Lemma mirror_tree_mirror t : mirror_tree (mirror_tree t) = t.
Proof. induction t as [|c l IHl x r IHr]; simpl; [done|]. by rewrite IHl, IHr. Qed.

Lemma mirror_frames (k : list frame) : mirror_frame <$> (mirror_frame <$> k) = k.
Proof.
  rewrite <- list_fmap_compose. rewrite <- (list_fmap_id k) at 2. apply list_fmap_ext. intros i f _.
  destruct f; simpl; by rewrite mirror_tree_mirror.
Qed.

Lemma mirror_ptr t : ptr (mirror_tree t) = ptr t.
Proof. by destruct t. Qed.

Lemma mirror_up k : up (mirror_frame <$> k) = up k.
Proof. by destruct k as [|[] k]. Qed.

Lemma mirror_inorder t : inorder (mirror_tree t) = reverse (inorder t).
Proof.
  induction t as [|c l IHl x r IHr]; simpl; [done|]. by rewrite IHl, IHr, reverse_app, reverse_cons, <- app_assoc.
Qed.

Lemma mirror_ids k : ids (mirror_frame <$> k) ≡ₚ ids k.
Proof.
  induction k as [|[c x r|c l x] k IH]; [done|..]; cbn [fmap list_fmap mirror_frame ids top sibling];
    rewrite mirror_inorder, reverse_Permutation; by rewrite <- IH.
Qed.

Lemma mirror_holds h par t : holds h par t -> holds (mirror_node <$> h) par (mirror_tree t).
Proof.
  revert par. induction t as [|c l IHl x r IHr]; intros par; simpl; [done|]. intros (H1 & H2 & H3).
  rewrite lookup_fmap, H1. simpl. unfold mirror_node. simpl. rewrite !mirror_ptr. auto.
Qed.

Lemma mirror_around h rt k p : around h rt k p -> around (mirror_node <$> h) rt (mirror_frame <$> k) p.
Proof.
  revert p. induction k as [|[c x r|c l x] k IH]; intros p; cbn [fmap list_fmap mirror_frame around]; [done|..];
    intros (H1 & H2%mirror_holds & H3); rewrite lookup_fmap, H1; simpl; unfold mirror_node; simpl;
    rewrite mirror_ptr, mirror_up; auto.
Qed.

Lemma mirror_at s k t : at_node s k t -> at_node (mirror s) (mirror_frame <$> k) (mirror_tree t).
Proof.
  intros [H1 H2 H3 H4]. split.
  - rewrite mirror_up. by apply mirror_holds.
  - rewrite mirror_ptr. by apply mirror_around.
  - by rewrite mirror_inorder, reverse_Permutation, mirror_ids.
  - by rewrite mirror_inorder, reverse_Permutation, mirror_ids.
Qed.

Lemma mirror_only l s s' : only l (mirror s) s' -> only l s (mirror s').
Proof.
  intros H q Hq. specialize (H q Hq). simpl in *. rewrite lookup_fmap, H, lookup_fmap.
  destruct (nodes s !! q) as [n|]; [|done]. simpl. by rewrite mirror_node_mirror.
Qed.

(** The operations on the mirrored tree. *)
Lemma mirror_left s p : left (mirror s) p = right s p.
Proof. unfold left, right, field. simpl. rewrite lookup_fmap. by destruct (nodes s !! p). Qed.
Lemma mirror_right s p : right (mirror s) p = left s p.
Proof. unfold left, right, field. simpl. rewrite lookup_fmap. by destruct (nodes s !! p). Qed.
Lemma mirror_parent s p : rb_parent (mirror s) p = rb_parent s p.
Proof. unfold rb_parent, field. simpl. rewrite lookup_fmap. by destruct (nodes s !! p). Qed.

Lemma mirror_change f g s p :
  (forall n, f (mirror_node n) = mirror_node (g n)) -> change f (mirror s) p = mirror <$> change g s p.
Proof.
  intros Hf. unfold change. simpl. rewrite lookup_fmap. destruct (nodes s !! p) as [n|]; [|done]. simpl.
  unfold mirror. simpl. rewrite fmap_insert. by rewrite Hf.
Qed.

Lemma mirror_set_left s p v : set_left (mirror s) p v = mirror <$> set_right s p v.
Proof. by apply mirror_change. Qed.
Lemma mirror_set_right s p v : set_right (mirror s) p v = mirror <$> set_left s p v.
Proof. by apply mirror_change. Qed.
Lemma mirror_set_parent s p v : rb_set_parent (mirror s) p v = mirror <$> rb_set_parent s p v.
Proof. by apply mirror_change. Qed.

Lemma mirror_rotate s p : __rb_rotate_left (mirror s) p = mirror <$> __rb_rotate_right s p.
Proof.
  unfold __rb_rotate_left, __rb_rotate_right. rewrite mirror_right. destruct (left s p) as [y|]; [|done]. simpl.
  rewrite mirror_parent. destruct (rb_parent s p) as [u|]; [|done]. simpl.
  rewrite mirror_left. destruct (right s y) as [b|]; [|done]. simpl.
  rewrite mirror_set_right. destruct (set_left s p b) as [s1|]; [|done]. simpl.
  replace (if b =? 0 then Some (mirror s1) else rl ← left (mirror s1) y; rb_set_parent (mirror s1) rl p)
    with (mirror <$> (if b =? 0 then Some s1 else lr ← right s1 y; rb_set_parent s1 lr p)).
  2:{ destruct (b =? 0); [done|]. rewrite mirror_left. destruct (right s1 y); [|done]. simpl. by rewrite mirror_set_parent. }
  destruct (if b =? 0 then _ else _) as [s2|]; [|done]. simpl.
  rewrite mirror_set_left. destruct (set_right s2 y p) as [s3|]; [|done]. simpl.
  rewrite mirror_set_parent. destruct (rb_set_parent s3 y u) as [s4|]; [|done]. simpl.
  replace (if negb (u =? 0) then pl ← left (mirror s4) u; if p =? pl then set_left (mirror s4) u y else set_right (mirror s4) u y
           else Some (set_root (mirror s4) y))
    with (mirror <$> relink_r s4 u p y).
  2:{ unfold relink_r. destruct (u =? 0); [done|]. simpl. rewrite mirror_left. destruct (right s4 u) as [r|]; [|done]. simpl.
      rewrite mirror_set_left, mirror_set_right. by destruct (p =? r). }
  unfold relink_r. destruct (if negb (u =? 0) then _ else _) as [s5|]; [|done]. simpl. apply mirror_set_parent.
Qed.

Lemma rotate_right s k c a x c' b y d :
  at_node s k (Node c (Node c' a x b) y d) ->
  exists s', __rb_rotate_right s y = Some s' /\ at_node s' k (Node c' a x (Node c b y d)) /\
    only (ids k ++ inorder (Node c (Node c' a x b) y d)) s s'.
Proof.
  intros H%mirror_at. destruct (rotate_left _ _ _ _ _ _ _ _ _ H) as (s' & E & H' & O).
  exists (mirror s'). split_and!.
  - rewrite mirror_rotate in E. destruct (__rb_rotate_right s y) as [s1|]; [|done]. simpl in E. injection E as <-.
    by rewrite mirror_mirror.
  - apply mirror_at in H'. simpl in H'. by rewrite mirror_frames, !mirror_tree_mirror in H'.
  - apply mirror_only. intros q Hq. apply O. intros Hin. apply Hq.
    rewrite <- mirror_ids, <- (reverse_Permutation (inorder _)), <- mirror_inorder. exact Hin.
Qed.

(** *** Taking a node out *)

Lemma nonzero l q : Forall address l -> q ∈ l -> q <> 0.
Proof. intros Ha Hq. rewrite Forall_forall in Ha. by apply Ha. Qed.

(** [x] has one child at most, [t]; then [t] can be hung where [x] is. *)
Lemma splice s k c x t T :
  at_node s k T -> T = Node c Leaf x t \/ T = Node c t x Leaf ->
  exists s1 s2, (if ptr t =? 0 then Some s else rb_set_parent s (ptr t) (up k)) = Some s1 /\
    root s1 = root s /\ only (inorder t) s s1 /\
    relink_l s1 (up k) x (ptr t) = Some s2 /\ at_node s2 k t /\ only (ids k ++ inorder t) s s2.
Proof.
  intros H HT.
  assert (Hx : holds (nodes s) x t /\ ptr T = x /\ ids k ++ inorder T ≡ₚ x :: ids k ++ inorder t).
  { destruct H as [H1 _ _ _]. destruct HT as [-> | ->]; simpl in H1; destruct_and! H1; split_and!; try done; simpl.
    - by rewrite Permutation_middle.
    - rewrite (Permutation_app_comm (inorder t)). simpl. by rewrite Permutation_middle. }
  destruct Hx as (Ht & Hp & Hperm). destruct H as [_ Hk Hnd Had]. rewrite Hp in Hk. rewrite Hperm in Hnd, Had.
  apply Forall_cons in Had as [Ax Had]. pose proof Had as [Ak At]%Forall_app.
  pose proof Hnd as [Hxn Hnd']%NoDup_cons. pose proof Hnd' as (Nk & Dk & Nt)%NoDup_app.
  destruct (reparent s t x (up k) Ht) as (s1 & E1 & R1 & Ht1 & O1); [by auto..|].
  assert (Hk1 : around (nodes s1) (root s1) k x).
  { rewrite R1. eapply around_ext; [|exact Hk]. intros q Hq. apply O1. by apply Dk. }
  destruct (relink s1 k x (ptr t) Hk1) as (s2 & E2 & _ & Hk2 & O2); [apply Ax|set_solver|done|done|].
  exists s1, s2. split_and!; try done.
  - split; try done. eapply holds_ext; [|exact Ht1]. intros q Hq. apply O2. intros Hq'. by apply (Dk q).
  - intros q [Hq1 Hq2]%not_elem_of_app. by rewrite O2, O1.
Qed.

Lemma erase_outer_spec s k c x t T :
  at_node s k T -> T = Node c Leaf x t \/ T = Node c t x Leaf ->
  exists s', erase_outer s x (ptr t) = Some (s', ptr t, up k, bit c) /\ at_node s' k t /\ only (ids k ++ inorder t) s s'.
Proof.
  intros H HT. destruct (splice s k c x t T H HT) as (s1 & s2 & E1 & _ & _ & E2 & H2 & O2).
  assert (Hr : rb_parent s x = Some (up k) /\ rb_color s x = Some (bit c)).
  { destruct HT as [-> | ->]; by rewrite (read_parent _ _ _ _ _ _ H), (read_color _ _ _ _ _ _ H). }
  destruct Hr as [Hr1 Hr2]. exists s2. split; [|done]. unfold erase_outer. rewrite Hr1, Hr2. cbn [mbind option_bind].
  rewrite E1. cbn [mbind option_bind]. rewrite relink_l_sym in E2. by rewrite E2.
Qed.

(** A node of the tree is exchanged for another. *)
Lemma exchange_parts k c l x r y :
  NoDup (ids k ++ inorder (Node c l x r)) -> Forall address (ids k ++ inorder (Node c l x r)) ->
  address y -> y ∉ ids k ++ inorder (Node c l x r) ->
  NoDup (y :: ids k ++ inorder (Node c l x r)) /\ (NoDup (ids k) /\ NoDup (inorder l) /\ NoDup (inorder r)) /\
  (Forall address (ids k) /\ Forall address (inorder l) /\ Forall address (inorder r)) /\
  NoDup (ids k ++ inorder (Node c l y r)) /\ Forall address (ids k ++ inorder (Node c l y r)).
Proof.
  intros Hnd Had Ay Hy. assert (Hall : NoDup (y :: ids k ++ inorder (Node c l x r))) by (by apply NoDup_cons).
  split; [done|]. split; [apply NoDup_app in Hnd as (? & _ & (? & _ & [_ ?]%NoDup_cons)%NoDup_app); done|].
  cbn [inorder] in *. rewrite !Forall_app, Forall_cons in *. split; [tauto|]. split; [|tauto].
  apply cnt_NoDup. intros q. pose proof (NoDup_cnt _ q Hall) as C. cbn [cnt] in *. repeat (rewrite cnt_app in *; cbn [cnt] in *). lia.
Qed.

(** The two parts of taking out a node with two children: its successor [y] is taken
    out, and put in its place. *)
Lemma take_place_spec s k c l x r y :
  at_node s k (Node c l x r) -> l <> Leaf -> address y -> y ∉ ids k ++ inorder (Node c l x r) -> is_Some (nodes s !! y) ->
  exists s', take_place s x y = Some s' /\ at_node s' k (Node c l y r) /\
    only (y :: ids k ++ inorder l ++ inorder r) s s'.
Proof.
  intros H Hl Ay Hyn [n Hy]. pose proof (at_up_aligned _ _ _ _ _ _ H) as Hu. pose proof (at_address _ _ _ _ _ _ H) as Ax.
  destruct H as [(Hx & Hl0 & Hr0) Hk Hnd Had]. cbn [ptr] in *.
  destruct (exchange_parts k c l x r y Hnd Had Ay Hyn) as (Hall & (Nk & Nl & Nr) & (Ak & Al & Ar) & Hnd' & Had').
  unfold take_place. rewrite (field_eq _ _ _ _ Hx). cbn [rb_parent_color mbind option_bind].
  (* the fields of [y] *)
  assert (Hxy : x <> y) by (apart Hall x).
  destruct (change_at (fun n => mkNode (pack (up k) c) (rb_right n) (rb_left n)) s y n Hy) as (s1 & E1 & L1 & R1 & O1).
  unfold set_parent_color at 1. rewrite E1. cbn [mbind option_bind].
  rewrite (right_eq s1 x (up k) (ptr r) (ptr l) c) by (by rewrite O1). cbn [mbind option_bind].
  destruct (write_right _ _ _ _ _ _ L1 (ptr r)) as (s2 & E2 & L2 & R2 & O2). rewrite E2. cbn [mbind option_bind].
  rewrite (left_eq s2 x (up k) (ptr r) (ptr l) c) by (by rewrite O2, O1). cbn [mbind option_bind].
  destruct (write_left _ _ _ _ _ _ L2 (ptr l)) as (s3 & E3 & L3 & R3 & O3). rewrite E3. cbn [mbind option_bind].
  assert (S3 : forall q, q <> y -> nodes s3 !! q = nodes s !! q) by (intros q Hq; by rewrite O3, O2, O1).
  clear E1 L1 O1 E2 L2 O2 E3 O3.
  (* the parent *)
  assert (Hx3 : nodes s3 !! x = Some (mkNode (pack (up k) c) (ptr r) (ptr l))) by (by rewrite S3).
  rewrite (parent_eq _ _ _ _ _ _ Hx3 Hu). cbn [mbind option_bind].
  assert (Hk3 : around (nodes s3) (root s3) k x).
  { rewrite R3, R2, R1. eapply around_ext; [|exact Hk]. intros q Hq. apply S3. apart Hall q. }
  destruct (relink s3 k x y Hk3) as (s4 & E4 & _ & Hk4 & O4); [apply Ax|apart Hall x|done|done|].
  rewrite relink_l_sym in E4. rewrite E4. cbn [mbind option_bind].
  (* the children *)
  assert (Hx4 : nodes s4 !! x = Some (mkNode (pack (up k) c) (ptr r) (ptr l))) by (rewrite O4; [done|apart Hall x]).
  rewrite (left_eq _ _ _ _ _ _ Hx4). cbn [mbind option_bind].
  assert (Hl4 : holds (nodes s4) x l) by (eapply holds_ext; [|exact Hl0]; intros q Hq; rewrite O4, S3; [done|apart Hall q..]).
  destruct (reparent s4 l x y Hl4) as (s5 & E5 & R5 & Hl5 & O5); [by auto..|].
  rewrite (proj2 (Z.eqb_neq (ptr l) 0)) in E5 by (by apply (nonzero _ _ Al), ptr_in). rewrite E5. cbn [mbind option_bind].
  rewrite (right_eq s5 x (up k) (ptr r) (ptr l) c) by (rewrite O5; [done|apart Hall x]). cbn [mbind option_bind].
  assert (Hr5 : holds (nodes s5) x r) by (eapply holds_ext; [|exact Hr0]; intros q Hq; rewrite O5, O4, S3; [done|apart Hall q..]).
  destruct (reparent s5 r x y Hr5) as (s6 & E6 & R6 & Hr6 & O6); [by auto..|].
  exists s6. split; [done|]. split; [split|].
  - cbn [holds]. split_and!.
    + rewrite O6, O5, O4; [done|apart Hall y..].
    + eapply holds_ext; [|exact Hl5]. intros q Hq. apply O6. apart Hall q.
    + done.
  - rewrite R6, R5. eapply around_ext; [|exact Hk4]. intros q Hq. rewrite O6, O5; [done|apart Hall q..].
  - exact Hnd'.
  - exact Had'.
  - intros q Hq. rewrite O6, O5, O4, S3; [done|set_solver..].
Qed.

(** *** Moving in a tree *)

Lemma refocus s k k' t : at_node s k (plug k' t) <-> at_node s (k' ++ k) t.
Proof. by rewrite <- !rep_at, plug_app. Qed.

Lemma down_left s k c l x r : at_node s k (Node c l x r) -> at_node s (InLeft c x r :: k) l.
Proof. apply (refocus s k [InLeft c x r] l). Qed.
Lemma down_right s k c l x r : at_node s k (Node c l x r) -> at_node s (InRight c l x :: k) r.
Proof. apply (refocus s k [InRight c l x] r). Qed.

Lemma holds_dom h par t q : holds h par t -> q ∈ inorder t -> is_Some (h !! q).
Proof.
  revert par. induction t as [|c l IHl x r IHr]; intros par; simpl; [set_solver|]. intros (H1 & H2 & H3).
  rewrite elem_of_app, elem_of_cons. intros [?|[->|?]]; eauto.
Qed.

Lemma around_dom h rt k p q : around h rt k p -> q ∈ ids k -> is_Some (h !! q).
Proof.
  revert p. induction k as [|[c x r|c l x] k IH]; intros p; cbn [around ids top sibling]; [set_solver|..];
    intros (H1 & H2 & H3); rewrite elem_of_cons, elem_of_app; intros [->|[?|?]]; eauto using holds_dom.
Qed.

Lemma at_size s k t : at_node s k t -> (length (ids k) + length (inorder t) <= size (nodes s))%nat.
Proof.
  intros [H1 H2 H3 _]. rewrite <- length_app, <- (size_list_to_set (C := gset Z)) by done. rewrite <- size_dom.
  apply subseteq_size. intros q Hq. apply elem_of_dom. apply elem_of_list_to_set, elem_of_app in Hq as [Hq|Hq].
  - by eapply around_dom.
  - by eapply holds_dom.
Qed.

Lemma ids_length k : (length k <= length (ids k))%nat.
Proof. induction k as [|f k IH]; simpl; [done|]. rewrite length_app. lia. Qed.

Lemma ids_app k k' : ids (k ++ k') = ids k ++ ids k'.
Proof. induction k as [|f k IH]; simpl; [done|]. by rewrite IH, <- app_assoc. Qed.

(** The way to the leftmost node. *)
Definition goes_left (f : frame) : Prop := match f with InLeft _ _ _ => True | InRight _ _ _ => False end.

Lemma leftmost_split t :
  t <> Leaf -> exists k c y r, t = plug k (Node c Leaf y r) /\ Forall goes_left k.
Proof.
  induction t as [|c l IHl x r _]; [done|]. intros _. destruct l as [|c' l' x' r'].
  - by exists [], c, x, r.
  - destruct IHl as (k & c1 & y & r1 & E & Hk); [done|]. exists (k ++ [InLeft c x r]), c1, y, r1.
    rewrite plug_app, <- E. split; [done|]. apply Forall_app. by repeat constructor.
Qed.

Lemma plug_not_leaf k t : t <> Leaf -> plug k t <> Leaf.
Proof. revert t. induction k as [|f k IH]; intros t Ht; simpl; [done|]. apply IH. by destruct f. Qed.

Lemma at_ptr_nonzero s k t : at_node s k t -> t <> Leaf -> ptr t <> 0.
Proof. intros [_ _ _ Ha] Ht. apply (nonzero (ids k ++ inorder t)); [done|]. apply elem_of_app. right. by apply ptr_in. Qed.

Lemma leftmost_spec fuel s k k' c y r :
  at_node s k (plug k' (Node c Leaf y r)) -> Forall goes_left k' -> (length k' < fuel)%nat ->
  leftmost fuel s (ptr (plug k' (Node c Leaf y r))) = Some y.
Proof.
  revert k fuel. induction k' as [|f k' IH] using rev_ind; intros k [|fuel] H Hk Hf; try lia; cbn [leftmost].
  - cbn [plug ptr] in *. rewrite (read_left _ _ _ _ _ _ H). done.
  - rewrite plug_app in *. cbn [plug] in *. apply Forall_app in Hk as [Hk Hf']. apply Forall_cons in Hf' as [Hf' _].
    destruct f as [c1 z r1|]; [|done]. cbn [plug1 ptr] in *. rewrite (read_left _ _ _ _ _ _ H). cbn [mbind option_bind].
    apply down_left in H. rewrite length_app in Hf. simpl in Hf.
    rewrite (proj2 (Z.eqb_neq _ 0)) by (eapply at_ptr_nonzero; [exact H|by apply plug_not_leaf]).
    apply (IH _ fuel H Hk). lia.
Qed.

Lemma refocus_perm k k' t : ids k ++ inorder (plug k' t) ≡ₚ ids (k' ++ k) ++ inorder t.
Proof. by rewrite <- ids_perm, <- inorder_plug, <- plug_app, inorder_plug, ids_perm. Qed.

(** Where the code for the successor's parent hangs its child. *)
Lemma successor_relink s k c l x k' y t :
  around (nodes s) (root s) (k' ++ InRight c l x :: k) y -> Forall goes_left k' ->
  NoDup (ids (k' ++ InRight c l x :: k)) -> Forall address (ids (k' ++ InRight c l x :: k)) ->
  y ∉ ids (k' ++ InRight c l x :: k) -> y <> 0 ->
  let parent := up (k' ++ InRight c l x :: k) in
  (if parent =? x then s ← set_right s parent t; Some (s, y) else s ← set_left s parent t; Some (s, parent)) =
  (s ← relink_l s parent y t; Some (s, up (k' ++ InRight c l y :: k))).
Proof.
  intros Ha Hk Hnd Had Hy Hy0. unfold relink_l. destruct k' as [|[c1 z r1|] k']; cbn [app up top ids around sibling] in *.
  - destruct Ha as (Hx & _). apply Forall_cons in Had as [Ax _].
    rewrite Z.eqb_refl, (proj2 (Z.eqb_neq x 0)), (left_eq _ _ _ _ _ _ Hx) by apply Ax. cbn [negb mbind option_bind].
    by rewrite (proj2 (Z.eqb_neq y _)) by (apply ptr_other; set_solver).
  - destruct Ha as (Hz & _). apply Forall_cons in Had as [Az _].
    rewrite (proj2 (Z.eqb_neq z 0)), (left_eq _ _ _ _ _ _ Hz), (proj2 (Z.eqb_neq z x)); [|intros ->|apply Az].
    + cbn [negb mbind option_bind]. by rewrite Z.eqb_refl.
    + apply NoDup_cons in Hnd as [Hnd _]. rewrite ids_app in Hnd. cbn [ids top] in Hnd. set_solver.
  - by apply Forall_cons in Hk as [? _].
Qed.

Lemma erase_inner_spec s k c l x k' cy y ry :
  at_node s k (Node c l x (plug k' (Node cy Leaf y ry))) -> l <> Leaf -> Forall goes_left k' ->
  exists s', erase_inner s x = Some (s', ptr ry, up (k' ++ InRight c l y :: k), bit cy) /\
    at_node s' (k' ++ InRight c l y :: k) ry /\
    only (ids k ++ inorder (Node c l x (plug k' (Node cy Leaf y ry)))) s s'.
Proof.
  intros H Hl Hk'. pose proof (down_right _ _ _ _ _ _ H) as Hr.
  pose proof (proj1 (refocus _ _ _ _) Hr) as Hy. set (K := k' ++ InRight c l x :: k) in *.
  pose proof (at_ids _ _ _ Hy) as Hnd. pose proof (at_address _ _ _ _ _ _ Hy) as Ay.
  unfold erase_inner. rewrite (read_right _ _ _ _ _ _ H). cbn [mbind option_bind].
  rewrite (leftmost_spec _ _ _ _ _ _ _ Hr Hk').
  2:{ pose proof (at_size _ _ _ Hy). pose proof (ids_length K). unfold K in *. rewrite length_app in *. lia. }
  cbn [mbind option_bind].
  rewrite (read_right _ _ _ _ _ _ Hy), (read_parent _ _ _ _ _ _ Hy), (read_color _ _ _ _ _ _ Hy). cbn [mbind option_bind].
  destruct (splice _ _ _ _ ry _ Hy (or_introl eq_refl)) as (s1 & s2 & E1 & R1 & O1 & E2 & H2 & O2).
  rewrite E1. cbn [mbind option_bind].
  pose proof (successor_relink s1 k c l x k' y (ptr ry)) as Hrel. cbv zeta in Hrel. fold K in Hrel. rewrite Hrel; [|..|apply Ay].
  2:{ rewrite R1. eapply around_ext; [|apply (at_around _ _ _ Hy)]. intros q Hq. apply O1. apart Hnd q. }
  2:{ done. } 2:{ by apply NoDup_app in Hnd as [? _]. } 2:{ pose proof (at_addr _ _ _ Hy) as Ha. by apply Forall_app in Ha as [? _]. }
  2:{ apart Hnd y. }
  rewrite E2. cbn [mbind option_bind].
  assert (H2' : at_node s2 k (Node c l x (plug k' ry))) by (by apply (refocus s2 k [InRight c l x] _), refocus).
  assert (Hperm : forall t, ids k ++ inorder (Node c l x (plug k' t)) ≡ₚ ids K ++ inorder t).
  { intros t. rewrite (refocus_perm k [InRight c l x] (plug k' t)). apply (refocus_perm (InRight c l x :: k) k' t). }
  destruct (take_place_spec s2 k c l x (plug k' ry) y H2' Hl Ay) as (s3 & E3 & H3 & O3).
  { rewrite Hperm. apart Hnd y. } { rewrite O2; [|apart Hnd y]. by eexists; apply (at_tree _ _ _ Hy). }
  rewrite E3. cbn [mbind option_bind]. exists s3. split; [done|]. split.
  - by apply refocus, (down_right _ _ _ _ _ _ H3).
  - intros q Hq. rewrite Hperm in Hq. pose proof (Hperm ry) as Hp. cbn [inorder] in Hq, Hp. rewrite O3, O2; [done|set_solver|].
    intros [->|Hin]%elem_of_cons; [set_solver|]. apply Hq.
    assert (Hin' : q ∈ ids k ++ inorder l ++ x :: inorder (plug k' ry)) by set_solver.
    rewrite Hp in Hin'. set_solver.
Qed.

(** *** Hanging a new node, and replacing one *)

(** The link at the place of an empty subtree. *)
Definition link_at (k : list frame) : link :=
  match k with [] => root_link | InLeft _ p _ :: _ => left_link p | InRight _ _ p :: _ => right_link p end.

Lemma link_node s k x :
  at_node s k Leaf -> address x -> x ∉ ids k -> is_Some (nodes s !! x) ->
  exists s', rb_link_node s x (up k) (link_at k) = Some s' /\ at_node s' k (Node Red Leaf x Leaf) /\ only (x :: ids k) s s'.
Proof.
  intros [_ Hk Hnd Had] Ax Hx [n Hn]. cbn [inorder] in *. rewrite app_nil_r in Hnd, Had. cbn [ptr] in Hk.
  unfold rb_link_node.
  destruct (change_at (fun n => mkNode (up k) (rb_right n) (rb_left n)) s x n Hn) as (s1 & E1 & L1 & R1 & O1).
  unfold set_parent_color. rewrite E1. cbn [mbind option_bind].
  assert (L1' : nodes s1 !! x = Some (mkNode (pack (up k) Red) (rb_right n) (rb_left n))).
  { rewrite L1. unfold pack. simpl. by rewrite Z.lor_0_r. }
  destruct (write_right _ _ _ _ _ _ L1' 0) as (s2 & E2 & L2 & R2 & O2). rewrite E2. cbn [mbind option_bind].
  destruct (write_left _ _ _ _ _ _ L2 0) as (s3 & E3 & L3 & R3 & O3). rewrite E3. cbn [mbind option_bind].
  assert (S3 : forall q, q <> x -> nodes s3 !! q = nodes s !! q) by (intros q Hq; by rewrite O3, O2, O1).
  assert (Hk3 : around (nodes s3) (root s3) k 0).
  { rewrite R3, R2, R1. eapply around_ext; [|exact Hk]. intros q Hq. apply S3. congruence. }
  assert (Hfin : exists s4, match link_at k with
      | root_link => Some (set_root s3 x) | left_link p => set_left s3 p x | right_link p => set_right s3 p x
      end = Some s4 /\ around (nodes s4) (root s4) k x /\ only (ids k) s3 s4).
  { destruct k as [|f k]; [by exists (set_root s3 x)|]. cbn [ids] in *. apply NoDup_cons in Hnd as [Hf _].
    destruct f as [c z r|c l z]; cbn [link_at around top sibling] in *; destruct Hk3 as (Hz & Hr & Hk3).
    - destruct (write_left _ _ _ _ _ _ Hz x) as (s4 & E4 & L4 & R4 & O4). exists s4. split_and!; [done|done|..].
      + eapply holds_ext; [|exact Hr]. intros q Hq. apply O4. set_solver.
      + rewrite R4. eapply around_ext; [|exact Hk3]. intros q Hq. apply O4. set_solver.
      + intros q Hq. apply O4. set_solver.
    - destruct (write_right _ _ _ _ _ _ Hz x) as (s4 & E4 & L4 & R4 & O4). exists s4. split_and!; [done|done|..].
      + eapply holds_ext; [|exact Hr]. intros q Hq. apply O4. set_solver.
      + rewrite R4. eapply around_ext; [|exact Hk3]. intros q Hq. apply O4. set_solver.
      + intros q Hq. apply O4. set_solver. }
  destruct Hfin as (s4 & E4 & Hk4 & O4). exists s4. split; [done|]. split; [split|].
  - cbn [holds ptr]. by rewrite O4, L3.
  - done.
  - cbn [inorder app]. rewrite (Permutation_app_comm (ids k)). by apply NoDup_cons.
  - cbn [inorder app]. rewrite (Permutation_app_comm (ids k)). by apply Forall_cons.
  - intros q Hq. rewrite O4, S3; [done|set_solver..].
Qed.

Lemma replace_node s k c l x r y :
  at_node s k (Node c l x r) -> address y -> y ∉ ids k ++ inorder (Node c l x r) -> is_Some (nodes s !! y) ->
  exists s', rb_replace_node s x y = Some s' /\ at_node s' k (Node c l y r) /\
    only (y :: ids k ++ inorder l ++ inorder r) s s'.
Proof.
  intros H Ay Hyn [n Hy]. pose proof (at_up_aligned _ _ _ _ _ _ H) as Hu. pose proof (at_address _ _ _ _ _ _ H) as Ax.
  unfold rb_replace_node. rewrite (read_parent _ _ _ _ _ _ H). cbn [mbind option_bind].
  destruct H as [(Hx & Hl0 & Hr0) Hk Hnd Had]. cbn [ptr] in *.
  destruct (exchange_parts k c l x r y Hnd Had Ay Hyn) as (Hall & (Nk & Nl & Nr) & (Ak & Al & Ar) & Hnd' & Had').
  destruct (relink s k x y Hk) as (s4 & E4 & _ & Hk4 & O4); [apply Ax|apart Hall x|done|done|].
  unfold relink_l in E4. rewrite E4. cbn [mbind option_bind].
  assert (Hx4 : nodes s4 !! x = Some (mkNode (pack (up k) c) (ptr r) (ptr l))) by (rewrite O4; [done|apart Hall x]).
  rewrite (left_eq _ _ _ _ _ _ Hx4). cbn [mbind option_bind].
  assert (Hl4 : holds (nodes s4) x l) by (eapply holds_ext; [|exact Hl0]; intros q Hq; rewrite O4; [done|apart Hall q..]).
  destruct (reparent s4 l x y Hl4) as (s5 & E5 & R5 & Hl5 & O5); [by auto..|]. rewrite E5. cbn [mbind option_bind].
  rewrite (right_eq s5 x (up k) (ptr r) (ptr l) c) by (rewrite O5; [done|apart Hall x]). cbn [mbind option_bind].
  assert (Hr5 : holds (nodes s5) x r) by (eapply holds_ext; [|exact Hr0]; intros q Hq; rewrite O5, O4; [done|apart Hall q..]).
  destruct (reparent s5 r x y Hr5) as (s6 & E6 & R6 & Hr6 & O6); [by auto..|]. rewrite E6. cbn [mbind option_bind].
  rewrite O6, O5, Hx4 by (apart Hall x). cbn [mbind option_bind].
  assert (Hy6 : nodes s6 !! y = Some n) by (rewrite O6, O5, O4; [done|apart Hall y..]).
  destruct (change_at (fun _ => mkNode (pack (up k) c) (ptr r) (ptr l)) s6 y n Hy6) as (s7 & E7 & L7 & R7 & O7).
  exists s7. split; [done|]. split; [split|].
  - cbn [holds]. split_and!; [done|..].
    + eapply holds_ext; [|exact Hl5]. intros q Hq. rewrite O7, O6; [done|apart Hall q..].
    + eapply holds_ext; [|exact Hr6]. intros q Hq. rewrite O7; [done|apart Hall q..].
  - rewrite R7, R6, R5. eapply around_ext; [|exact Hk4]. intros q Hq. rewrite O7, O6, O5; [done|apart Hall q..].
  - exact Hnd'.
  - exact Had'.
  - intros q Hq. rewrite O7, O6, O5, O4; [done|set_solver..].
Qed.

(** *** Walking *)

Lemma goes_left_before k : Forall goes_left k -> before k = [].
Proof. induction 1 as [|[c x r|] k H Hk IH]; done. Qed.

(** [leftmost] finds the first node in order. *)
Lemma leftmost_first s k t :
  at_node s k t -> t <> Leaf ->
  exists y l, inorder t = y :: l /\ leftmost (S (size (nodes s))) s (ptr t) = Some y.
Proof.
  intros H Ht. destruct (leftmost_split t Ht) as (k' & c & y & r & -> & Hk').
  rewrite inorder_plug, goes_left_before by done. exists y. eexists. split; [done|].
  eapply leftmost_spec; [done|done|]. apply refocus, at_size in H. pose proof (ids_length (k' ++ k)).
  rewrite length_app in *. lia.
Qed.

Lemma climb_right fuel s k t :
  at_node s k t -> t <> Leaf -> (length k < fuel)%nat -> climb right fuel s (ptr t) = Some (default 0 (head (after k))).
Proof.
  revert k t. induction fuel as [|fuel IH]; intros k t H Ht Hf; [lia|]. cbn [climb].
  destruct t as [|c l x r]; [done|]. cbn [ptr]. rewrite (read_parent _ _ _ _ _ _ H). cbn [mbind option_bind].
  destruct k as [|f k]; [done|]. cbn [up]. pose proof (proj2 (refocus s k [f] _) H) as Hup. cbn [plug] in Hup.
  pose proof (at_ids _ _ _ H) as Hnd. pose proof (at_address _ _ _ _ _ _ H) as [_ Hx0].
  destruct f as [c1 z r1|c1 l1 z]; cbn [plug1 top] in *; pose proof (at_address _ _ _ _ _ _ Hup) as [_ Hz0];
    rewrite (proj2 (Z.eqb_neq z 0)), (read_right _ _ _ _ _ _ Hup) by done; cbn [mbind option_bind ptr].
  - assert (Hne : x <> ptr r1) by (apply ptr_other; [done|]; apart Hnd x).
    by rewrite (proj2 (Z.eqb_neq _ _)) by done.
  - rewrite Z.eqb_refl. apply (IH k (Node c1 l1 z (Node c l x r)) Hup); [done|simpl in Hf; lia].
Qed.

Lemma first_node s t : rep s t -> rb_first s = Some (default 0 (head (inorder t))).
Proof.
  intros H. unfold rb_first. rewrite (rep_root _ _ H). destruct t as [|c l x r] eqn:E; [done|]. rewrite <- E in *.
  apply (rep_at s [] t) in H. assert (Ht : t <> Leaf) by (by rewrite E).
  rewrite (proj2 (Z.eqb_neq _ 0)) by (by eapply at_ptr_nonzero).
  destruct (leftmost_first s [] t H Ht) as (y & l' & -> & ->). done.
Qed.

Lemma next_node s k c l x r :
  at_node s k (Node c l x r) -> rb_next s x = Some (default 0 (head (inorder r ++ after k))).
Proof.
  intros H. unfold rb_next. rewrite (read_parent _ _ _ _ _ _ H). cbn [mbind option_bind].
  pose proof (at_ids _ _ _ H) as Hnd. pose proof (at_address _ _ _ _ _ _ H) as [_ Hx0].
  assert (Hu : up k <> x) by (destruct k as [|f k]; [done|]; cbn [up]; apart Hnd x).
  rewrite (proj2 (Z.eqb_neq _ x)), (read_right _ _ _ _ _ _ H) by done. cbn [mbind option_bind].
  destruct r as [|c' l' x' r'] eqn:E.
  - cbn [ptr inorder app negb]. rewrite Z.eqb_refl. cbn [negb]. apply (climb_right _ s k (Node c l x Leaf)); [done|done|].
    pose proof (at_size _ _ _ H). pose proof (ids_length k). lia.
  - rewrite <- E in *. assert (Hr : r <> Leaf) by (by rewrite E). apply down_right in H.
    rewrite (proj2 (Z.eqb_neq (ptr r) 0)) by (by eapply at_ptr_nonzero). cbn [negb].
    destruct (leftmost_first s _ r H Hr) as (y & l2 & -> & ->). done.
Qed.

(** The same to the other side, by mirroring. *)
Lemma mirror_size s : size (nodes (mirror s)) = size (nodes s).
Proof. unfold mirror. simpl. apply map_size_fmap. Qed.

Lemma mirror_leftmost fuel s p : leftmost fuel (mirror s) p = rightmost fuel s p.
Proof.
  revert p. induction fuel as [|fuel IH]; intros p; simpl; [done|]. rewrite mirror_left.
  destruct (right s p) as [r|]; [|done]. simpl. by rewrite IH.
Qed.

Lemma mirror_climb fuel s p : climb right fuel (mirror s) p = climb left fuel s p.
Proof.
  revert p. induction fuel as [|fuel IH]; intros p; simpl; [done|]. rewrite mirror_parent.
  destruct (rb_parent s p) as [u|]; [|done]. simpl. destruct (u =? 0); [done|]. rewrite mirror_right.
  destruct (left s u) as [v|]; [|done]. simpl. by rewrite IH.
Qed.

Lemma mirror_after k : after (mirror_frame <$> k) = reverse (before k).
Proof.
  induction k as [|[c x r|c l x] k IH]; [done|..]; cbn [fmap list_fmap mirror_frame after before]; rewrite IH; [done|].
  by rewrite !reverse_app, mirror_inorder.
Qed.

Lemma mirror_rep s t : rep s t -> rep (mirror s) (mirror_tree t).
Proof. intros H. by apply (rep_at s [] t), mirror_at, (rep_at (mirror s) [] (mirror_tree t)) in H. Qed.

Lemma last_node s t : rep s t -> rb_last s = Some (default 0 (last (inorder t))).
Proof.
  intros H%mirror_rep%first_node. rewrite mirror_inorder, head_reverse in H. rewrite <- H. unfold rb_first, rb_last.
  rewrite mirror_size. cbn [root mirror]. by rewrite mirror_leftmost.
Qed.

Lemma prev_node s k c l x r :
  at_node s k (Node c l x r) -> rb_prev s x = Some (default 0 (last (before k ++ inorder l))).
Proof.
  intros H%mirror_at. cbn [mirror_tree] in H. apply next_node in H.
  rewrite mirror_inorder, mirror_after, <- reverse_app, head_reverse in H. rewrite <- H. unfold rb_next, rb_prev.
  rewrite mirror_parent. destruct (rb_parent s x) as [u|]; [|done]. cbn [mbind option_bind]. destruct (u =? x); [done|].
  rewrite mirror_right. destruct (left s x) as [v|]; [|done]. cbn [mbind option_bind]. rewrite mirror_size.
  destruct (negb (v =? 0)); [by rewrite mirror_leftmost|by rewrite mirror_climb].
Qed.
End KernelTree.
