(* ===== verification/KernelBalance.v ===== *)
(** * KernelBalance: the red-black trees of the board's kernel stay balanced

    The operations of [KernelTree] on trees whose nodes are coloured so that no red node
    has a red child and every way down meets the same number of black ones:
    [rb_insert_color] and [rb_erase] restore this, and keep the order of the nodes. *)

From stdpp Require Import gmap.
From S2P Require Import Prelude KernelTree.
Import KernelTree.

Module KernelBalance.

(** ** Red-black trees *)

Definition tcolor (t : tree) : color := match t with Leaf => Black | Node c _ _ _ => c end.

(** A tree with [n] black nodes on every way down. *)
Fixpoint rb (n : nat) (t : tree) : Prop :=
  match t with
  | Leaf => n = O
  | Node Red l _ r => rb n l /\ rb n r /\ tcolor l = Black /\ tcolor r = Black
  | Node Black l _ r => match n with O => False | S n => rb n l /\ rb n r end
  end.

(** The trees [rb_insert_color] and [rb_erase] leave behind. *)
Definition balanced (t : tree) : Prop := (exists n, rb n t) /\ tcolor t = Black.

Definition fcolor (f : frame) : color := match f with InLeft c _ _ => c | InRight c _ _ => c end.

(** The colour of the parent; a tree's root is treated like the child of a red node. *)
Definition above (k : list frame) : color := match k with [] => Red | f :: _ => fcolor f end.

(** The surroundings of a subtree with [n] black nodes on every way down. *)
Fixpoint rbk (k : list frame) (n : nat) : Prop :=
  match k with
  | [] => True
  | f :: k =>
      rb n (sibling f) /\
      match fcolor f with
      | Red => tcolor (sibling f) = Black /\ above k = Black /\ rbk k n
      | Black => rbk k (S n)
      end
  end.

Definition fits (k : list frame) (t : tree) : Prop := above k = Red -> tcolor t = Black.

Lemma rb_plug1 f k n t :
  rbk (f :: k) n -> rb n t -> fits (f :: k) t -> exists m, rbk k m /\ rb m (plug1 f t) /\ fits k (plug1 f t).
Proof.
  unfold fits. destruct f as [[] x r|[] l x]; cbn [rbk sibling fcolor above plug1 tcolor]; intros H Ht Hf; destruct_and! H.
  - exists n. simpl. split_and!; auto. congruence.
  - exists (S n). simpl. auto.
  - exists n. simpl. split_and!; auto. congruence.
  - exists (S n). simpl. auto.
Qed.

Lemma rb_plug k n t : rbk k n -> rb n t -> fits k t -> balanced (plug k t).
Proof.
  revert n t. induction k as [|f k IH]; intros n t Hk Ht Hf.
  - split; [by exists n|]. by apply Hf.
  - destruct (rb_plug1 f k n t Hk Ht Hf) as (m & H1 & H2 & H3). by apply (IH m).
Qed.

Lemma rb_unplug k t : balanced (plug k t) -> exists n, rbk k n /\ rb n t /\ fits k t.
Proof.
  revert t. induction k as [|f k IH]; intros t H.
  - destruct H as [[n H] Hc]. exists n. split; [done|]. split; [exact H|]. intros _. exact Hc.
  - cbn [plug] in H. apply IH in H as (n & Hk & Ht & Hf). unfold fits in *.
    destruct f as [[] x r|[] l x]; cbn [plug1 rb tcolor rbk sibling fcolor above] in *.
    + exists n. destruct_and! Ht. destruct (above k); [by specialize (Hf eq_refl)|]. split_and!; auto.
    + destruct n as [|n]; [done|]. exists n. destruct_and! Ht. split_and!; auto; congruence.
    + exists n. destruct_and! Ht. destruct (above k); [by specialize (Hf eq_refl)|]. split_and!; auto.
    + destruct n as [|n]; [done|]. exists n. destruct_and! Ht. split_and!; auto; congruence.
Qed.

(** ** Steps on whole trees

    [step s t s' t']: the pointers of [s'] represent [t'], which has the nodes of [t] in
    the same order, and no node outside the tree was written. *)
Definition step (s : rb_tree) (t : tree) (s' : rb_tree) (t' : tree) : Prop :=
  rep s' t' /\ inorder t' = inorder t /\ only (inorder t) s s'.

Lemma step_refl s t : rep s t -> step s t s t.
Proof. by intros H. Qed.

Lemma step_trans s1 t1 s2 t2 s3 t3 : step s1 t1 s2 t2 -> step s2 t2 s3 t3 -> step s1 t1 s3 t3.
Proof.
  intros (H1 & I1 & O1) (H2 & I2 & O2). split_and!; [done|congruence|].
  intros q Hq. rewrite O2, O1; [done|done|congruence].
Qed.

Lemma step_at s k t s' t' :
  at_node s' k t' -> inorder t' = inorder t -> only (ids k ++ inorder t) s s' -> step s (plug k t) s' (plug k t').
Proof.
  intros H Hi Ho. split_and!; [by apply rep_at|by rewrite !inorder_plug, Hi|].
  intros q Hq. apply Ho. by rewrite <- ids_perm, <- inorder_plug.
Qed.

Lemma only_mono l l' s s' : only l s s' -> (forall q, q ∈ l -> q ∈ l') -> only l' s s'.
Proof. intros H Hl q Hq. apply H. auto. Qed.

Section Steps.
Context (s : rb_tree) (k : list frame).

Lemma op_recolor f c d l x r :
  (forall p, aligned p -> f (pack p c) = pack p d) -> rep s (plug k (Node c l x r)) ->
  exists s', set_parent_color f s x = Some s' /\ step s (plug k (Node c l x r)) s' (plug k (Node d l x r)).
Proof.
  intros Hf H%rep_at. destruct (recolor _ _ _ _ _ _ H f d Hf) as (s' & E & H' & O). exists s'. split; [done|].
  apply step_at; [done|done|]. eapply only_mono; [done|]. simpl. set_solver.
Qed.

Lemma op_black c l x r :
  rep s (plug k (Node c l x r)) ->
  exists s', rb_set_black s x = Some s' /\ step s (plug k (Node c l x r)) s' (plug k (Node Black l x r)).
Proof. apply op_recolor. intros p Hp. by apply pack_black. Qed.

Lemma op_red c l x r :
  rep s (plug k (Node c l x r)) ->
  exists s', rb_set_red s x = Some s' /\ step s (plug k (Node c l x r)) s' (plug k (Node Red l x r)).
Proof. apply op_recolor. intros p Hp. by apply pack_red. Qed.

Lemma op_color c l x r d :
  rep s (plug k (Node c l x r)) ->
  exists s', rb_set_color s x (bit d) = Some s' /\ step s (plug k (Node c l x r)) s' (plug k (Node d l x r)).
Proof. apply (op_recolor (fun pc => (pc .& 0xFFFFFFFE) .| bit d)). intros p Hp. by apply pack_set_color. Qed.

Lemma op_rotate_left c a x c' b y d :
  rep s (plug k (Node c a x (Node c' b y d))) ->
  exists s', __rb_rotate_left s x = Some s' /\
    step s (plug k (Node c a x (Node c' b y d))) s' (plug k (Node c' (Node c a x b) y d)).
Proof.
  intros H%rep_at. destruct (rotate_left _ _ _ _ _ _ _ _ _ H) as (s' & E & H' & O). exists s'. split; [done|].
  apply step_at; [done| |done]. simpl. by rewrite <- app_assoc.
Qed.

Lemma op_rotate_right c a x c' b y d :
  rep s (plug k (Node c (Node c' a x b) y d)) ->
  exists s', __rb_rotate_right s y = Some s' /\
    step s (plug k (Node c (Node c' a x b) y d)) s' (plug k (Node c' a x (Node c b y d))).
Proof.
  intros H%rep_at. destruct (rotate_right _ _ _ _ _ _ _ _ _ H) as (s' & E & H' & O). exists s'. split; [done|].
  apply step_at; [done| |done]. simpl. by rewrite <- app_assoc.
Qed.

Lemma see_left c l x r : rep s (plug k (Node c l x r)) -> left s x = Some (ptr l).
Proof. intros H%rep_at. by eapply read_left. Qed.
Lemma see_right c l x r : rep s (plug k (Node c l x r)) -> right s x = Some (ptr r).
Proof. intros H%rep_at. by eapply read_right. Qed.
Lemma see_parent c l x r : rep s (plug k (Node c l x r)) -> rb_parent s x = Some (up k).
Proof. intros H%rep_at. by eapply read_parent. Qed.
Lemma see_color c l x r : rep s (plug k (Node c l x r)) -> rb_color s x = Some (bit c).
Proof. intros H%rep_at. by eapply read_color. Qed.

(** Subtrees that are not both empty have different roots. *)
Lemma see_apart c l x r : rep s (plug k (Node c l x r)) -> l <> Leaf \/ r <> Leaf -> ptr r <> ptr l.
Proof.
  intros H%rep_at Hlr. pose proof (at_ids _ _ _ H) as Hnd.
  pose proof (at_ptr_nonzero _ _ _ (down_left _ _ _ _ _ _ H)). pose proof (at_ptr_nonzero _ _ _ (down_right _ _ _ _ _ _ H)).
  destruct l as [|c1 l1 x1 r1], r as [|c2 l2 x2 r2]; cbn [ptr] in *; [by destruct Hlr|naive_solver..|].
  apart Hnd x2.
Qed.

Lemma see_red t : rep s (plug k t) -> red_node s (ptr t) = Some (match tcolor t with Red => true | Black => false end).
Proof.
  intros H. destruct t as [|c l x r]; [done|]. unfold red_node, rb_is_red. cbn [ptr].
  rewrite (see_color _ _ _ _ H). apply rep_at in H. destruct (at_address _ _ _ _ _ _ H) as [_ Hx].
  rewrite (proj2 (Z.eqb_neq x 0)) by done. by destruct c.
Qed.

Lemma see_black t : rep s (plug k t) -> black_or_null s (ptr t) = Some (match tcolor t with Red => false | Black => true end).
Proof.
  intros H. destruct t as [|c l x r]; [done|]. unfold black_or_null, rb_is_black. cbn [ptr].
  rewrite (see_color _ _ _ _ H). apply rep_at in H. destruct (at_address _ _ _ _ _ _ H) as [_ Hx].
  rewrite (proj2 (Z.eqb_neq x 0)) by done. by destruct c.
Qed.
End Steps.

(** ** Insertion *)

(** Runs the next operation of the code, whose lemma at hand is [L]. *)
Ltac run L :=
  let s := fresh "s" in let E := fresh "E" in let St := fresh "St" in let H := fresh "H" in
  destruct L as (s & E & St); rewrite E; cbn [mbind option_bind]; pose proof (proj1 St) as H.

(** What a turn of the loop achieves: the red node that may have a red parent is nearer
    to the root. *)
Definition insert_progress (s : rb_tree) (k : list frame) (t : tree) (r : option (rb_tree * Z)) : Prop :=
  exists s' k' t', r = Some (s', ptr t') /\ step s (plug k t) s' (plug k' t') /\
    (exists n, rbk k' n /\ rb n t') /\ tcolor t' = Red /\ (length k' < length k)%nat.

Lemma insert_recolor s k n f gx ua u ub a x b :
  let U := Node Red ua u ub in
  rep s (plug (f :: InLeft Black gx U :: k) (Node Red a x b)) -> fcolor f = Red ->
  rbk (f :: InLeft Black gx U :: k) n -> rb n (Node Red a x b) ->
  insert_progress s (f :: InLeft Black gx U :: k) (Node Red a x b)
    (s ← rb_set_black s u; s ← rb_set_black s (top f); s ← rb_set_red s gx; Some (s, gx)).
Proof.
  intros U H Hf Hk Ht. unfold U in *. clear U.
  assert (Hp : exists l p r, plug1 f (Node Red a x b) = Node Red l p r /\ top f = p /\ rb n l /\ rb n r).
  { destruct f as [[] p S|[] S p]; cbn [rbk fcolor sibling] in *; try done; destruct_and! Hk; by eexists _, _, _. }
  destruct Hp as (l & p & r & Hf1 & -> & Hl & Hr). unfold insert_progress. cbn [plug plug1] in *. rewrite Hf1 in *.
  assert (Hk' : rbk k (S n) /\ rb n ua /\ rb n ub).
  { cbn [rbk] in Hk. rewrite Hf in Hk. cbn [fcolor sibling rb] in Hk. tauto. }
  run (op_black s (InRight Black (Node Red l p r) gx :: k) Red ua u ub H).
  run (op_black s0 (InLeft Black gx (Node Black ua u ub) :: k) Red l p r H0).
  run (op_red s1 k Black (Node Black l p r) gx (Node Black ua u ub) H1).
  exists s2, k, (Node Red (Node Black l p r) gx (Node Black ua u ub)). split_and!; [done| | |done|simpl; lia].
  - eapply step_trans; [exact St|]. eapply step_trans; [exact St0|exact St1].
  - exists (S n). cbn [rb tcolor]. tauto.
Qed.

Lemma insert_left_spec s k n f gx U a x b :
  rep s (plug (f :: InLeft Black gx U :: k) (Node Red a x b)) -> fcolor f = Red ->
  rbk (f :: InLeft Black gx U :: k) n -> rb n (Node Red a x b) ->
  insert_progress s (f :: InLeft Black gx U :: k) (Node Red a x b) (insert_left s x (top f) gx).
Proof.
  intros H Hf Hk Ht. unfold insert_left.
  rewrite (see_right s k Black (plug1 f (Node Red a x b)) gx U H). cbn [mbind option_bind].
  rewrite (see_red s (InRight Black (plug1 f (Node Red a x b)) gx :: k) U H). cbn [mbind option_bind].
  destruct (tcolor U) eqn:HU.
  { destruct U as [|[] ua u ub]; [done| |done]. by eapply insert_recolor. }
  assert (Hk' : rb n (sibling f) /\ tcolor (sibling f) = Black /\ rb n U /\ rbk k (S n) /\ rb n a /\ rb n b /\ tcolor a = Black /\ tcolor b = Black).
  { cbn [rbk] in Hk. rewrite Hf in Hk. cbn [fcolor sibling rb] in *. tauto. }
  destruct Hk' as (HS & HSc & HnU & Hkk & Ha & Hb & Hac & Hbc).
  destruct f as [[] p S|[] S p]; simpl in Hf; try done; cbn [top sibling plug1] in *.
  - (* the left child of the left child *)
    rewrite (see_right s (InLeft Black gx U :: k) Red (Node Red a x b) p S H). cbn [mbind option_bind].
    assert (Hne : ptr S <> x) by (by apply (see_apart s (InLeft Black gx U :: k) Red (Node Red a x b) p S H); left). rewrite (proj2 (Z.eqb_neq _ _)) by done. cbn [mbind option_bind].
    run (op_black s (InLeft Black gx U :: k) Red (Node Red a x b) p S H).
    run (op_red s0 k Black (Node Black (Node Red a x b) p S) gx U H0).
    run (op_rotate_right s1 k Red (Node Red a x b) p Black S gx U H1).
    exists s2, (InLeft Black p (Node Red S gx U) :: k), (Node Red a x b). split_and!; [done| | |done|simpl; lia].
    + eapply step_trans; [exact St|]. eapply step_trans; [exact St0|exact St1].
    + exists n. cbn [rbk rb fcolor sibling tcolor]. tauto.
  - (* the right child of the left child *)
    rewrite (see_right s (InLeft Black gx U :: k) Red S p (Node Red a x b) H). cbn [mbind option_bind ptr].
    rewrite Z.eqb_refl.
    run (op_rotate_left s (InLeft Black gx U :: k) Red S p Red a x b H).
    run (op_black s0 (InLeft Black gx U :: k) Red (Node Red S p a) x b H0).
    run (op_red s1 k Black (Node Black (Node Red S p a) x b) gx U H1).
    run (op_rotate_right s2 k Red (Node Red S p a) x Black b gx U H2).
    exists s3, (InLeft Black x (Node Red b gx U) :: k), (Node Red S p a). split_and!; [done| | |done|simpl; lia].
    + eapply step_trans; [exact St|]. eapply step_trans; [exact St0|]. eapply step_trans; [exact St1|exact St2].
    + exists n. cbn [rbk rb fcolor sibling tcolor]. tauto.
Qed.

(** *** The mirror image *)

Lemma mirror_see_color s p : rb_color (mirror s) p = rb_color s p.
Proof. unfold rb_color, field. simpl. rewrite lookup_fmap. by destruct (nodes s !! p). Qed.
Lemma mirror_see_red s p : red_node (mirror s) p = red_node s p.
Proof. unfold red_node, rb_is_red. by rewrite mirror_see_color. Qed.
Lemma mirror_recolor f s p : set_parent_color f (mirror s) p = mirror <$> set_parent_color f s p.
Proof. by apply mirror_change. Qed.
Lemma mirror_rotate' s p : __rb_rotate_right (mirror s) p = mirror <$> __rb_rotate_left s p.
Proof.
  rewrite <- (mirror_mirror s) at 2. rewrite mirror_rotate. destruct (__rb_rotate_right (mirror s) p) as [s'|]; [|done].
  simpl. by rewrite mirror_mirror.
Qed.

Definition mirror_fst (r : rb_tree * Z) : rb_tree * Z := (mirror (fst r), snd r).

(** Goes through code and its mirror image in step. *)
Ltac mirrored :=
  repeat (rewrite ?mirror_left, ?mirror_right, ?mirror_parent, ?mirror_see_color, ?mirror_see_red, ?mirror_recolor,
            ?mirror_rotate, ?mirror_rotate';
          match goal with
          | |- context [?m ≫= _] =>
              lazymatch m with
              | _ <$> ?m => destruct m eqn:?; [|done]
              | (if _ then _ else _) => fail
              | _ => destruct m eqn:?; [|done]
              end; cbn [mbind option_bind fmap option_fmap option_map]
          end).

Lemma mirror_insert s node parent gparent :
  insert_left (mirror s) node parent gparent = mirror_fst <$> insert_right s node parent gparent.
Proof.
  unfold insert_left, insert_right, rb_set_black, rb_set_red. mirrored. destruct (_ : bool) eqn:?; mirrored; [done|].
  destruct (_ =? node); [destruct (__rb_rotate_right s parent) as [s1|]; [|done]|];
    cbn [mbind option_bind fmap option_fmap option_map]; mirrored; done.
Qed.

Lemma mirror_tcolor t : tcolor (mirror_tree t) = tcolor t.
Proof. by destruct t. Qed.

Lemma mirror_rb n t : rb n t -> rb n (mirror_tree t).
Proof.
  revert n. induction t as [|[] l IHl x r IHr]; intros n; cbn [mirror_tree rb]; rewrite ?mirror_tcolor; [done|..].
  - intros (? & ? & ? & ?). auto.
  - destruct n; [done|]. intros []. auto.
Qed.

Lemma mirror_above k : above (mirror_frame <$> k) = above k.
Proof. by destruct k as [|[] k]. Qed.

Lemma mirror_rbk k n : rbk k n -> rbk (mirror_frame <$> k) n.
Proof.
  revert n. induction k as [|[[] x r|[] l x] k IH]; intros n; cbn [fmap list_fmap mirror_frame rbk sibling fcolor]; [done|..];
    fold (mirror_frame <$> k); rewrite ?mirror_tcolor, ?mirror_above; intros H; destruct_and! H; auto using mirror_rb.
Qed.

Lemma mirror_plug k t : mirror_tree (plug k t) = plug (mirror_frame <$> k) (mirror_tree t).
Proof. revert t. induction k as [|[] k IH]; intros t; [done|..]; simpl; by rewrite IH. Qed.

Lemma mirror_step s t s' t' : step (mirror s) (mirror_tree t) s' t' -> step s t (mirror s') (mirror_tree t').
Proof.
  intros (H & Hi & Ho). split_and!; [by apply mirror_rep|by rewrite mirror_inorder, Hi, mirror_inorder, reverse_involutive|].
  apply mirror_only. intros q Hq. apply Ho. by rewrite mirror_inorder, elem_of_reverse.
Qed.

Lemma mirror_progress s k t r :
  insert_progress (mirror s) (mirror_frame <$> k) (mirror_tree t) (mirror_fst <$> r) -> insert_progress s k t r.
Proof.
  intros (s' & k' & t' & E & St & (n & Hk & Ht) & Hc & Hl). exists (mirror s'), (mirror_frame <$> k'), (mirror_tree t').
  destruct r as [[s1 p]|]; [|done]. simpl in E. injection E as E1 E2. unfold mirror_fst in *. split_and!.
  - simpl in *. rewrite mirror_ptr. subst. by rewrite mirror_mirror.
  - rewrite <- mirror_plug in *. by apply mirror_step.
  - exists n. auto using mirror_rb, mirror_rbk.
  - by rewrite mirror_tcolor.
  - by rewrite !length_fmap in *.
Qed.

Lemma insert_right_spec s k n f gx U a x b :
  rep s (plug (f :: InRight Black U gx :: k) (Node Red a x b)) -> fcolor f = Red ->
  rbk (f :: InRight Black U gx :: k) n -> rb n (Node Red a x b) ->
  insert_progress s (f :: InRight Black U gx :: k) (Node Red a x b) (insert_right s x (top f) gx).
Proof.
  intros H Hf Hk Ht. apply mirror_progress. rewrite <- mirror_insert. apply mirror_rep in H. rewrite mirror_plug in H.
  replace (top f) with (top (mirror_frame f)) by (by destruct f).
  refine (insert_left_spec (mirror s) (fmap (M := list) mirror_frame k) n (mirror_frame f) gx (mirror_tree U) (mirror_tree b) x (mirror_tree a) H _ _ _).
  - by destruct f.
  - by apply mirror_rbk in Hk.
  - by apply mirror_rb in Ht.
Qed.

(** *** The loop *)

Lemma insert_turn_spec s k n f a x b :
  rep s (plug (f :: k) (Node Red a x b)) -> fcolor f = Red -> rbk (f :: k) n -> rb n (Node Red a x b) ->
  insert_progress s (f :: k) (Node Red a x b) (insert_turn s x (top f)).
Proof.
  intros H Hf Hk Ht. assert (Ha : above k = Black) by (cbn [rbk] in Hk; rewrite Hf in Hk; tauto).
  destruct k as [|g k]; [done|]. unfold insert_turn.
  assert (Hp : exists l p r, plug1 f (Node Red a x b) = Node Red l p r /\ top f = p) by (destruct f as [[] ? ?|[] ? ?]; try done; by eexists _, _, _).
  destruct Hp as (l & p & r & Hp & Hf').
  assert (H1 : rep s (plug (g :: k) (Node Red l p r))) by (rewrite <- Hp; exact H).
  rewrite Hf', (see_parent s (g :: k) Red l p r H1). cbn [mbind option_bind up].
  destruct g as [[] gx U|[] U gx]; simpl in Ha; try done; cbn [top].
  - rewrite (see_left s k Black _ gx U H1). cbn [mbind option_bind ptr]. rewrite Z.eqb_refl, <- Hf'.
    by apply (insert_left_spec s k n).
  - rewrite (see_left s k Black U gx _ H1). cbn [mbind option_bind].
    assert (Hne : p <> ptr U) by (by apply (see_apart s k Black U gx (Node Red l p r) H1); right).
    rewrite (proj2 (Z.eqb_neq _ _)) by done. rewrite <- Hf'. by apply (insert_right_spec s k n).
Qed.

Lemma insert_loop_spec fuel s k n a x b :
  rep s (plug k (Node Red a x b)) -> rbk k n -> rb n (Node Red a x b) -> (length k < fuel)%nat ->
  exists s' t', insert_loop fuel s x = Some s' /\ step s (plug k (Node Red a x b)) s' t' /\ t' <> Leaf /\ exists m, rb m t'.
Proof.
  revert s k n a x b. induction fuel as [|fuel IH]; intros s k n a x b H Hk Ht Hf; [lia|]. cbn [insert_loop].
  rewrite (see_parent s k Red a x b H). cbn [mbind option_bind]. destruct k as [|f k].
  { exists s, (Node Red a x b). split_and!; [done|by apply step_refl|done|by exists n]. }
  cbn [up].
  assert (Hr : red_node s (top f) = Some (match fcolor f with Red => true | Black => false end)).
  { destruct f as [c p S|c S p]; apply (see_red s k _ H). }
  rewrite Hr. cbn [mbind option_bind]. destruct (fcolor f) eqn:Hc.
  - destruct (insert_turn_spec s k n f a x b H Hc Hk Ht) as (s1 & k1 & t1 & E & St & (n1 & Hk1 & Ht1) & Hc1 & Hl).
    rewrite E. cbn [mbind option_bind]. destruct t1 as [|[] a1 x1 b1]; [done| |done]. cbn [ptr].
    destruct (IH s1 k1 n1 a1 x1 b1 (proj1 St) Hk1 Ht1) as (s2 & t2 & E2 & St2 & H2); [simpl in *; lia|].
    exists s2, t2. split; [done|]. split; [|done]. by eapply step_trans.
  - exists s, (plug (f :: k) (Node Red a x b)). split_and!; [done|by apply step_refl|by apply plug_not_leaf|].
    apply (rb_plug (f :: k) n); [done|done|]. unfold fits. simpl. by rewrite Hc.
Qed.

Lemma rb_blacken n c l x r : rb n (Node c l x r) -> exists m, rb m (Node Black l x r).
Proof. destruct c; [exists (S n)|by exists n]. simpl in *. tauto. Qed.

(** A red node without children, anywhere in a balanced tree. *)
Lemma insert_color s k x :
  rep s (plug k (Node Red Leaf x Leaf)) -> balanced (plug k Leaf) ->
  exists s' t', rb_insert_color s x = Some s' /\ step s (plug k (Node Red Leaf x Leaf)) s' t' /\ balanced t'.
Proof.
  intros H Hb. destruct (rb_unplug k Leaf Hb) as (n & Hk & -> & _). unfold rb_insert_color.
  destruct (insert_loop_spec (S (size (nodes s))) s k 0 Leaf x Leaf H Hk) as (s1 & t1 & E1 & St1 & Hl & m & Ht1); [done| |].
  { apply rep_at, at_size in H. pose proof (ids_length k). lia. }
  rewrite E1. cbn [mbind option_bind]. destruct t1 as [|c l r0 r]; [done|].
  rewrite (rep_root _ _ (proj1 St1)). cbn [ptr].
  destruct (op_black s1 [] c l r0 r (proj1 St1)) as (s2 & E2 & St2). exists s2, (Node Black l r0 r).
  split; [done|]. split; [by eapply step_trans|]. split; [|done]. by eapply rb_blacken.
Qed.

(** ** Removal *)

(** A subtree that lacks a black node: [n] on every way down, where [n + 1] are
    expected; if its root is red, blackening it sets that right. *)
Definition lacks (n : nat) (t : tree) : Prop :=
  match t with Node Red l _ r => rb n l /\ rb n r | _ => rb n t end.

(** What a turn of the loop achieves: the tree is balanced, or the subtree that lacks a
    node is nearer to the root or red. *)
Definition erase_progress (s : rb_tree) (k : list frame) (t : tree) (r : option (rb_tree * Z * Z * bool)) : Prop :=
  (exists s' t' p, r = Some (s', root s', p, true) /\ step s (plug k t) s' t' /\ balanced t') \/
  (exists s' k' t' n, r = Some (s', ptr t', up k', false) /\ step s (plug k t) s' (plug k' t') /\
     lacks n t' /\ rbk k' (S n) /\ (tcolor t' = Red \/ (length k' < length k)%nat)).

Lemma see_both s k a o b c :
  rep s (plug k (Node c a o b)) ->
  both_black s o = Some (match tcolor a, tcolor b with Black, Black => true | _, _ => false end).
Proof.
  intros H. unfold both_black. rewrite (see_left _ _ _ _ _ _ H). cbn [mbind option_bind].
  rewrite (see_black s (InLeft c o b :: k) a H). cbn [mbind option_bind]. destruct (tcolor a); [done|].
  rewrite (see_right _ _ _ _ _ _ H). cbn [mbind option_bind]. apply (see_black s (InRight c a o :: k) b H).
Qed.

(** The surroundings of a node of colour [c] whose children have [n] black nodes. *)
Definition room (c : color) (k : list frame) (n : nat) : Prop :=
  match c with Red => above k = Black /\ rbk k n | Black => rbk k (S n) end.

(** The far nephew is red: one rotation, and done. *)
Lemma erase_far s k n c t p a o b1 x b2 :
  let T := plug k (Node c t p (Node Black a o (Node Red b1 x b2))) in
  rep s T -> rb n t -> rb n a -> rb n b1 -> rb n b2 -> room c k (S n) ->
  exists s' t', (pc ← rb_color s p; s ← rb_set_color s o pc; s ← rb_set_black s p; far ← right s o;
                 s ← rb_set_black s far; s ← __rb_rotate_left s p; Some (s, root s, p, true)) = Some (s', root s', p, true) /\
    step s T s' t' /\ balanced t'.
Proof.
  intros T H Ht Ha Hb1 Hb2 Hk. rewrite (see_color s k _ _ _ _ H). cbn [mbind option_bind].
  run (op_color s (InRight c t p :: k) Black a o (Node Red b1 x b2) c H).
  run (op_black s0 k c t p (Node c a o (Node Red b1 x b2)) H0).
  rewrite (see_right s1 (InRight Black t p :: k) c a o _ H1). cbn [mbind option_bind ptr].
  run (op_black s1 (InRight c a o :: InRight Black t p :: k) Red b1 x b2 H1).
  run (op_rotate_left s2 k Black t p c a o (Node Black b1 x b2) H2).
  exists s3, (plug k (Node c (Node Black t p a) o (Node Black b1 x b2))). split; [done|]. split.
  - eapply step_trans; [exact St|]. eapply step_trans; [exact St0|]. eapply step_trans; [exact St1|exact St2].
  - destruct c; cbn [room] in Hk.
    + apply (rb_plug k (S n)); [tauto|cbn [rb tcolor]; tauto|]. unfold fits. destruct Hk as [-> _]. done.
    + apply (rb_plug k (S (S n))); [done|cbn [rb]; tauto|]. done.
Qed.

Lemma erase_left_black_spec s k n c t p a o b :
  let T := Node c t p (Node Black a o b) in
  rep s (plug k T) -> rb n t -> rb n a -> rb n b -> room c k (S n) ->
  (exists s' t', erase_left_black s p o = Some (s', root s', p, true) /\ step s (plug k T) s' t' /\ balanced t') \/
  (exists s', erase_left_black s p o = Some (s', p, up k, false) /\
     step s (plug k T) s' (plug k (Node c t p (Node Red a o b))) /\ rb n (Node Red a o b)).
Proof.
  intros T H Ht Ha Hb Hk. unfold erase_left_black.
  rewrite (see_both s (InRight c t p :: k) a o b Black H). cbn [mbind option_bind].
  destruct (tcolor b) eqn:Hcb.
  - (* the far nephew is red *)
    left. replace (match tcolor a with Red => false | Black => false end) with false by (by destruct (tcolor a)).
    rewrite (see_right s (InRight c t p :: k) Black a o b H). cbn [mbind option_bind].
    rewrite (see_black s (InRight Black a o :: InRight c t p :: k) b H), Hcb. cbn [mbind option_bind].
    destruct b as [|[] b1 x b2]; [done| |done]. cbn [rb] in Hb.
    destruct (erase_far s k n c t p a o b1 x b2 H) as (s' & t' & E & St & Hbal); [tauto..|].
    exists s', t'. by rewrite E.
  - destruct (tcolor a) eqn:Hca.
    + (* only the near nephew is red *)
      left. rewrite (see_right s (InRight c t p :: k) Black a o b H). cbn [mbind option_bind].
      rewrite (see_black s (InRight Black a o :: InRight c t p :: k) b H), Hcb. cbn [mbind option_bind].
      destruct a as [|[] a1 x a2]; [done| |done]. cbn [rb] in Ha.
      rewrite (see_left s (InRight c t p :: k) Black _ o b H). cbn [mbind option_bind ptr].
      run (op_black s (InLeft Black o b :: InRight c t p :: k) Red a1 x a2 H).
      run (op_red s0 (InRight c t p :: k) Black (Node Black a1 x a2) o b H0).
      run (op_rotate_right s1 (InRight c t p :: k) Red a1 x Black a2 o b H1).
      rewrite (see_right s2 k c t p _ H2). cbn [mbind option_bind ptr].
      destruct (erase_far s2 k n c t p a1 x a2 o b H2) as (s' & t' & E' & St' & Hbal); [tauto..|].
      exists s', t'. rewrite E'. split; [done|]. split; [|done].
      eapply step_trans; [exact St|]. eapply step_trans; [exact St0|]. eapply step_trans; [exact St1|exact St'].
    + (* both are black *)
      right. run (op_red s (InRight c t p :: k) Black a o b H).
      rewrite (see_parent s0 k c t p _ H0). cbn [mbind option_bind]. exists s0. split; [done|]. split; [done|].
      cbn [rb]. tauto.
Qed.

Lemma erase_left_spec s k n c p O t :
  rep s (plug (InLeft c p O :: k) t) -> rb n t -> rbk (InLeft c p O :: k) (S n) ->
  erase_progress s (InLeft c p O :: k) t (erase_left s p).
Proof.
  intros H Ht Hk. unfold erase_left. rewrite (see_right s k c t p O H). cbn [mbind option_bind].
  assert (HO : rb (S n) O /\ (c = Red -> tcolor O = Black) /\ room c k (S n)).
  { destruct c; cbn [rbk sibling fcolor room] in *; destruct_and! Hk; split_and!; tauto || done. }
  destruct HO as (HO & Hc & Hr). destruct O as [|co a o b]; [done|]. cbn [ptr].
  unfold rb_is_red. rewrite (see_color s (InRight c t p :: k) co a o b H). cbn [mbind option_bind].
  destruct co; cbn [bit RB_RED RB_BLACK Z.eqb].
  - (* a red brother: rotated away, his child is the new brother *)
    destruct c; [by specialize (Hc eq_refl)|]. cbn [rb] in HO. destruct HO as (Ha & Hb & Hca & Hcb).
    run (op_black s (InRight Black t p :: k) Red a o b H).
    run (op_red s0 k Black t p (Node Black a o b) H0).
    run (op_rotate_left s1 k Red t p Black a o b H1).
    rewrite (see_right s2 (InLeft Black o b :: k) Red t p a H2). cbn [mbind option_bind].
    destruct a as [|[] a1 x a2]; [done|done|]. cbn [rb ptr] in *. destruct Ha as [Ha1 Ha2].
    assert (St' : step s (plug (InLeft Black p (Node Red (Node Black a1 x a2) o b) :: k) t) s2
                    (plug (InLeft Black o b :: k) (Node Red t p (Node Black a1 x a2)))).
    { eapply step_trans; [exact St|]. eapply step_trans; [exact St0|exact St1]. }
    destruct (erase_left_black_spec s2 (InLeft Black o b :: k) n Red t p a1 x a2 H2)
      as [(s' & t' & E' & St2 & Hbal)|(s' & E' & St2 & Hrb)]; [done..|cbn; tauto| |].
    + left. exists s', t', p. split; [done|]. split; [|done]. by eapply step_trans.
    + right. exists s', (InLeft Black o b :: k), (Node Red t p (Node Red a1 x a2)), n. split; [done|].
      split; [by eapply step_trans|]. split; [done|]. split; [cbn; tauto|]. by left.
  - cbn [rb] in HO. destruct HO as [Ha Hb].
    destruct (erase_left_black_spec s k n c t p a o b H) as [(s' & t' & E' & St2 & Hbal)|(s' & E' & St2 & Hrb)]; [done..| |].
    + left. by exists s', t', p.
    + right. destruct c; cbn [room] in Hr.
      * exists s', k, (Node Red t p (Node Red a o b)), n. split; [done|]. split; [done|]. split; [done|].
        split; [tauto|]. by left.
      * exists s', k, (Node Black t p (Node Red a o b)), (S n). split; [done|]. split; [done|]. split; [done|].
        split; [done|]. right. simpl. lia.
Qed.

(** *** The mirror image *)

Definition mirror_turn (r : rb_tree * Z * Z * bool) : rb_tree * Z * Z * bool :=
  let '(s, node, parent, stop) := r in (mirror s, node, parent, stop).

Lemma mirror_see_black s p : black_or_null (mirror s) p = black_or_null s p.
Proof. unfold black_or_null, rb_is_black. by rewrite mirror_see_color. Qed.

Lemma mirror_both s k c a o b : rep s (plug k (Node c a o b)) -> both_black (mirror s) o = both_black s o.
Proof.
  intros H. rewrite (see_both _ _ _ _ _ _ H). apply mirror_rep in H. rewrite mirror_plug in H. cbn [mirror_tree] in H.
  rewrite (see_both _ _ _ _ _ _ H), !mirror_tcolor. by destruct (tcolor a), (tcolor b).
Qed.

Lemma mirror_erase_black s parent other :
  both_black (mirror s) other = both_black s other ->
  erase_left_black (mirror s) parent other = mirror_turn <$> erase_right_black s parent other.
Proof.
  intros Hb. unfold erase_left_black, erase_right_black, rb_set_black, rb_set_red, rb_set_color. rewrite Hb.
  destruct (both_black s other) as [[]|]; [..|done]; cbn [mbind option_bind].
  - mirrored. done.
  - rewrite mirror_right. destruct (left s other) as [far|]; [|done]. cbn [mbind option_bind].
    rewrite mirror_see_black. destruct (black_or_null s far) as [[]|]; [..|done]; cbn [mbind option_bind].
    + rewrite mirror_left. destruct (right s other) as [near|]; [|done]. cbn [mbind option_bind]. rewrite mirror_recolor.
      destruct (set_parent_color _ s near) as [s1|]; [|done]. cbn [mbind option_bind fmap option_fmap option_map].
      rewrite mirror_recolor. destruct (set_parent_color _ s1 other) as [s2|]; [|done]. cbn [mbind option_bind fmap option_fmap option_map].
      rewrite mirror_rotate'. destruct (__rb_rotate_left s2 other) as [s3|]; [|done]. cbn [mbind option_bind fmap option_fmap option_map].
      rewrite mirror_right. destruct (left s3 parent) as [o2|]; [|done]. cbn [mbind option_bind fmap option_fmap option_map].
      mirrored. done.
    + mirrored. done.
Qed.

Lemma erase_right_black_spec s k n c t p a o b :
  let T := Node c (Node Black a o b) p t in
  rep s (plug k T) -> rb n t -> rb n a -> rb n b -> room c k (S n) ->
  (exists s' t', erase_right_black s p o = Some (s', root s', p, true) /\ step s (plug k T) s' t' /\ balanced t') \/
  (exists s', erase_right_black s p o = Some (s', p, up k, false) /\
     step s (plug k T) s' (plug k (Node c (Node Red a o b) p t)) /\ rb n (Node Red a o b)).
Proof.
  intros T H Ht Ha Hb Hk. pose proof (mirror_rep _ _ H) as Hm. rewrite mirror_plug in Hm. cbn [T mirror_tree] in Hm.
  assert (E : erase_left_black (mirror s) p o = mirror_turn <$> erase_right_black s p o).
  { apply mirror_erase_black. by apply (mirror_both s (InLeft c p t :: k) Black a o b). }
  assert (Hk' : room c (mirror_frame <$> k) (S n)).
  { destruct c; cbn [room] in *; rewrite ?mirror_above; [split; [tauto|]|]; apply mirror_rbk; tauto. }
  destruct (erase_left_black_spec _ _ n _ _ _ _ _ _ Hm) as [(s' & t' & E' & St & Hbal)|(s' & E' & St & Hrb)];
    [by apply mirror_rb..|done| |]; rewrite E in E'; destruct (erase_right_black s p o) as [[[[s1 p1] p2] st]|]; try done;
    cbn [fmap option_fmap option_map mirror_turn] in E'; injection E' as <- -> -> ->.
  - left. exists s1, (mirror_tree t'). split; [done|]. split.
    + rewrite <- (mirror_mirror s1). apply mirror_step. by rewrite mirror_plug.
    + destruct Hbal as [[m Hm'] Hc]. split; [exists m; by apply mirror_rb|by rewrite mirror_tcolor].
  - right. exists s1. rewrite mirror_up. split; [done|]. split.
    + rewrite <- (mirror_mirror s1), <- (mirror_tree_mirror (plug k (Node c (Node Red a o b) p t))).
      apply mirror_step. by rewrite !mirror_plug.
    + apply mirror_rb in Hrb. cbn [mirror_tree] in Hrb. by rewrite !mirror_tree_mirror in Hrb.
Qed.

Lemma erase_right_spec s k n c p O t :
  rep s (plug (InRight c O p :: k) t) -> rb n t -> rbk (InRight c O p :: k) (S n) ->
  erase_progress s (InRight c O p :: k) t (erase_right s p).
Proof.
  intros H Ht Hk. unfold erase_right. rewrite (see_left s k c O p t H). cbn [mbind option_bind].
  assert (HO : rb (S n) O /\ (c = Red -> tcolor O = Black) /\ room c k (S n)).
  { destruct c; cbn [rbk sibling fcolor room] in *; destruct_and! Hk; split_and!; tauto || done. }
  destruct HO as (HO & Hc & Hr). destruct O as [|co a o b]; [done|]. cbn [ptr].
  unfold rb_is_red. rewrite (see_color s (InLeft c p t :: k) co a o b H). cbn [mbind option_bind].
  destruct co; cbn [bit RB_RED RB_BLACK Z.eqb].
  - destruct c; [by specialize (Hc eq_refl)|]. cbn [rb] in HO. destruct HO as (Ha & Hb & Hca & Hcb).
    run (op_black s (InLeft Black p t :: k) Red a o b H).
    run (op_red s0 k Black (Node Black a o b) p t H0).
    run (op_rotate_right s1 k Red a o Black b p t H1).
    rewrite (see_left s2 (InRight Black a o :: k) Red b p t H2). cbn [mbind option_bind].
    destruct b as [|[] b1 x b2]; [done|done|]. cbn [rb ptr] in *. destruct Hb as [Hb1 Hb2].
    assert (St' : step s (plug (InRight Black (Node Red a o (Node Black b1 x b2)) p :: k) t) s2
                    (plug (InRight Black a o :: k) (Node Red (Node Black b1 x b2) p t))).
    { eapply step_trans; [exact St|]. eapply step_trans; [exact St0|exact St1]. }
    destruct (erase_right_black_spec s2 (InRight Black a o :: k) n Red t p b1 x b2 H2)
      as [(s' & t' & E' & St2 & Hbal)|(s' & E' & St2 & Hrb)]; [done..|cbn; tauto| |].
    + left. exists s', t', p. split; [done|]. split; [|done]. by eapply step_trans.
    + right. exists s', (InRight Black a o :: k), (Node Red (Node Red b1 x b2) p t), n. split; [done|].
      split; [by eapply step_trans|]. split; [done|]. split; [cbn; tauto|]. by left.
  - cbn [rb] in HO. destruct HO as [Ha Hb].
    destruct (erase_right_black_spec s k n c t p a o b H) as [(s' & t' & E' & St2 & Hbal)|(s' & E' & St2 & Hrb)]; [done..| |].
    + left. by exists s', t', p.
    + right. destruct c; cbn [room] in Hr.
      * exists s', k, (Node Red (Node Red a o b) p t), n. split; [done|]. split; [done|]. split; [done|].
        split; [tauto|]. by left.
      * exists s', k, (Node Black (Node Red a o b) p t), (S n). split; [done|]. split; [done|]. split; [done|].
        split; [done|]. right. simpl. lia.
Qed.

(** *** The loop *)

Lemma plug_root f k t : ptr (plug (f :: k) t) ∈ ids (f :: k).
Proof.
  revert f t. induction k as [|g k IH]; intros f t.
  - destruct f; simpl; set_solver.
  - change (ptr (plug (g :: k) (plug1 f t)) ∈ ids (f :: g :: k)). specialize (IH g (plug1 f t)).
    cbn [ids] in *. set_solver.
Qed.

Lemma not_root s f k t : rep s (plug (f :: k) t) -> ptr t <> root s.
Proof.
  intros H. rewrite (rep_root _ _ H). pose proof (plug_root f k t) as Hin. apply rep_at in H.
  pose proof (at_ids _ _ _ H) as Hnd. pose proof (at_addr _ _ _ H) as Ha. intros E. rewrite <- E in Hin.
  destruct t as [|c l x r]; [|cbn [ptr] in *; apart Hnd x].
  apply Forall_app in Ha as [Ha _]. by apply (nonzero _ 0 Ha Hin).
Qed.

Lemma erase_turn_spec s f k n t :
  rep s (plug (f :: k) t) -> rb n t -> rbk (f :: k) (S n) ->
  erase_progress s (f :: k) t (erase_turn s (ptr t) (top f)).
Proof.
  intros H Ht Hk. unfold erase_turn. destruct f as [c p O|c O p]; cbn [top].
  - rewrite (see_left s k c t p O H). cbn [mbind option_bind]. rewrite Z.eqb_refl. by apply (erase_left_spec s k n).
  - rewrite (see_left s k c O p t H). cbn [mbind option_bind].
    assert (HO : O <> Leaf) by (destruct O; [by destruct Hk|done]).
    assert (Hne : ptr t <> ptr O) by (apply (see_apart s k c O p t H); by left).
    rewrite (proj2 (Z.eqb_neq _ _)) by done. by apply (erase_right_spec s k n).
Qed.

(** The loop and the blackening behind it. *)
Definition erase_rest (fuel : nat) (s : rb_tree) (node parent : Z) : option rb_tree :=
  '(s, node) ← erase_loop fuel s node parent;
  if node =? 0 then Some s else rb_set_black s node.

Lemma erase_blacken s k c l x r :
  rep s (plug k (Node c l x r)) ->
  exists s', (if x =? 0 then Some s else rb_set_black s x) = Some s' /\
    step s (plug k (Node c l x r)) s' (plug k (Node Black l x r)).
Proof.
  intros H. pose proof H as Ha%rep_at%at_address. rewrite (proj2 (Z.eqb_neq x 0)) by apply Ha. by apply op_black.
Qed.

Lemma erase_rest_spec fuel s k n t :
  rep s (plug k t) -> lacks n t -> rbk k (S n) -> (match tcolor t with Red => 0 | Black => length k end < fuel)%nat ->
  exists s' t', erase_rest fuel s (ptr t) (up k) = Some s' /\ step s (plug k t) s' t' /\ balanced t'.
Proof.
  revert s k n t. induction fuel as [|fuel IH]; intros s k n t H Ht Hk Hf; [lia|].
  unfold erase_rest. cbn [erase_loop]. rewrite (see_black s k t H). cbn [mbind option_bind].
  destruct (tcolor t) eqn:Hc.
  { (* a red node is made black *)
    destruct t as [|[] l x r]; [done| |done]. cbn [andb mbind option_bind ptr].
    destruct (erase_blacken s k Red l x r H) as (s' & E & St). exists s', (plug k (Node Black l x r)).
    split; [done|]. split; [done|]. by apply (rb_plug k (S n)). }
  assert (Ht' : rb n t) by (destruct t as [|[] l x r]; done).
  destruct k as [|f k].
  { (* the root *)
    rewrite (rep_root _ _ H). cbn [plug]. rewrite Z.eqb_refl. cbn [andb negb mbind option_bind].
    destruct t as [|[] l x r]; [|done|].
    - exists s, Leaf. split; [done|]. split; [done|]. split; [by exists 0%nat|done].
    - destruct (erase_blacken s [] Black l x r H) as (s' & E & St). exists s', (Node Black l x r).
      split; [done|]. split; [done|]. split; [by exists n|done]. }
  rewrite (proj2 (Z.eqb_neq _ _)) by (by eapply not_root). cbn [andb negb up].
  destruct (erase_turn_spec s f k n t H Ht' Hk)
    as [(s1 & t1 & p1 & E & St & Hb)|(s1 & k1 & t1 & n1 & E & St & Hl1 & Hk1 & Hm)]; rewrite E; cbn [mbind option_bind].
  - destruct Hb as [[m Hm] Hc1]. rewrite (rep_root _ _ (proj1 St)). destruct t1 as [|[] l x r]; [|done|].
    + exists s1, Leaf. split; [done|]. split; [done|]. split; [by exists m|done].
    + destruct (erase_blacken s1 [] Black l x r (proj1 St)) as (s' & E' & St'). exists s', (Node Black l x r).
      split; [done|]. split; [by eapply step_trans|]. split; [by exists m|done].
  - destruct (IH s1 k1 n1 t1 (proj1 St) Hl1 Hk1) as (s' & t' & E' & St' & Hb').
    { cbn [length] in *. destruct (tcolor t1); [lia|]. destruct Hm; [done|lia]. }
    exists s', t'. unfold erase_rest in E'. rewrite E'. split; [done|]. split; [|done]. by eapply step_trans.
Qed.

Lemma erase_color_spec s k n t :
  rep s (plug k t) -> rb n t -> rbk k (S n) ->
  exists s' t', __rb_erase_color s (ptr t) (up k) = Some s' /\ step s (plug k t) s' t' /\ balanced t'.
Proof.
  intros H Ht Hk. apply (erase_rest_spec (S (size (nodes s))) s k n t H).
  - destruct t as [|[] l x r]; [done| |done]. cbn [rb lacks] in *. tauto.
  - done.
  - apply rep_at, at_size in H. pose proof (ids_length k). destruct (tcolor t); lia.
Qed.

(** *** [rb_erase] *)

Lemma rbk_relabel k' c l x y k n : rbk (k' ++ InRight c l x :: k) n -> rbk (k' ++ InRight c l y :: k) n.
Proof.
  revert n. induction k' as [|f k' IH]; intros n; cbn [app rbk]; [done|].
  assert (Ha : above (k' ++ InRight c l y :: k) = above (k' ++ InRight c l x :: k)) by (by destruct k').
  rewrite Ha. destruct (fcolor f); naive_solver.
Qed.

(** What is left to do once the node is out, [color] being the colour that went. *)
Lemma erase_finish s k c n t :
  rep s (plug k t) -> rbk k (match c with Red => n | Black => S n end) -> rb n t -> (c = Red -> tcolor t = Black) ->
  exists s' t', (if bit c =? RB_BLACK then __rb_erase_color s (ptr t) (up k) else Some s) = Some s' /\
    step s (plug k t) s' t' /\ balanced t'.
Proof.
  intros H Hk Ht Hc. destruct c; cbn [bit].
  - exists s, (plug k t). split; [done|]. split; [by apply step_refl|]. apply (rb_plug k n); [done|done|]. intros _. auto.
  - by apply (erase_color_spec s k n t).
Qed.

(** The outcome of removing [x]. *)
Definition erased (s : rb_tree) (k : list frame) (c : color) (l : tree) (x : Z) (r : tree) (res : option rb_tree) : Prop :=
  exists s' t', res = Some s' /\ rep s' t' /\ balanced t' /\
    inorder t' = before k ++ (inorder l ++ inorder r) ++ after k /\ only (inorder (plug k (Node c l x r))) s s'.

Lemma erase_outer_node s k c l x r t :
  rep s (plug k (Node c l x r)) -> balanced (plug k (Node c l x r)) ->
  Node c l x r = Node c Leaf x t \/ Node c l x r = Node c t x Leaf ->
  erased s k c l x r ('(s, child, parent, color) ← erase_outer s x (ptr t);
                      if color =? RB_BLACK then __rb_erase_color s child parent else Some s).
Proof.
  intros Hat%rep_at Hb Hlr. destruct (erase_outer_spec s k c x t _ Hat Hlr) as (s1 & E1 & H1 & O1). rewrite E1. cbn [mbind option_bind].
  destruct (rb_unplug k _ Hb) as (n & Hk & Hn & _).
  assert (Hn' : exists m, rbk k (match c with Red => m | Black => S m end) /\ rb m t /\ (c = Red -> tcolor t = Black)).
  { destruct Hlr as [[= -> ->]|[= -> ->]]; destruct c; cbn [rb] in Hn; try (destruct n as [|n]; [done|]); exists n; naive_solver. }
  destruct Hn' as (m & Hk' & Hm & Hc). apply rep_at in H1.
  destruct (erase_finish s1 k c m t H1 Hk' Hm Hc) as (s2 & t2 & E2 & (H2 & I2 & O2) & B2). rewrite E2.
  assert (It : inorder l ++ inorder r = inorder t) by (destruct Hlr as [[= -> ->]|[= -> ->]]; [done|by rewrite app_nil_r]).
  exists s2, t2. split_and!; [done|done|done|by rewrite I2, inorder_plug, It|].
  intros q Hq. rewrite inorder_plug in *. cbn [inorder] in Hq. rewrite O2, O1; [done|..].
  - rewrite <- ids_perm, <- It. set_solver.
  - rewrite <- It. set_solver.
Qed.

Lemma erase_node s k c l x r :
  rep s (plug k (Node c l x r)) -> balanced (plug k (Node c l x r)) -> erased s k c l x r (rb_erase s x).
Proof.
  intros H Hb. unfold rb_erase. rewrite (see_left s k c l x r H), (see_right s k c l x r H). cbn [mbind option_bind].
  destruct (Z.eqb_spec (ptr l) 0) as [El|El].
  { destruct l; [by apply erase_outer_node; [..|left]|]. apply rep_at, down_left, at_ptr_nonzero in H; done. }
  destruct (Z.eqb_spec (ptr r) 0) as [Er|Er].
  { destruct r; [by apply erase_outer_node; [..|right]|]. apply rep_at, down_right, at_ptr_nonzero in H; done. }
  assert (Hl : l <> Leaf) by (by intros ->). assert (Hr : r <> Leaf) by (by intros ->).
  destruct (leftmost_split r Hr) as (k' & cy & y & ry & -> & Hk').
  pose proof (proj1 (rep_at _ _ _) H) as Hat. destruct (erase_inner_spec s k c l x k' cy y ry Hat Hl Hk') as (s1 & E1 & H1 & O1). rewrite E1. cbn [mbind option_bind].
  destruct (rb_unplug (k' ++ InRight c l x :: k) (Node cy Leaf y ry)) as (n & Hk%(rbk_relabel _ _ _ _ y) & Hn & _).
  { by rewrite plug_app. }
  assert (Hn' : exists m, rbk (k' ++ InRight c l y :: k) (match cy with Red => m | Black => S m end) /\ rb m ry /\ (cy = Red -> tcolor ry = Black)).
  { destruct cy; cbn [rb] in Hn; try (destruct n as [|n]; [done|]); exists n; naive_solver. }
  destruct Hn' as (m & Hk2 & Hm & Hc). apply rep_at in H1.
  destruct (erase_finish s1 _ cy m ry H1 Hk2 Hm Hc) as (s2 & t2 & E2 & (H2 & I2 & O2) & B2). rewrite E2.
  assert (Iq : inorder (plug (k' ++ InRight c l y :: k) ry) = before k ++ (inorder l ++ inorder (plug k' (Node cy Leaf y ry))) ++ after k).
  { rewrite plug_app. cbn [plug plug1]. rewrite inorder_plug. cbn [inorder]. rewrite !inorder_plug, !(goes_left_before k') by done.
    simpl. done. }
  exists s2, t2. split_and!; [done|done|done|by rewrite I2|].
  intros q Hq. rewrite O2, O1; [done|..].
  - rewrite <- ids_perm, <- inorder_plug. done.
  - rewrite Iq. rewrite inorder_plug in Hq. cbn [inorder] in Hq. set_solver.
Qed.

(** ** The contract

    A tree stands for the sequence of its nodes. *)

Definition order (s : rb_tree) (l : list Z) : Prop := exists t, rep s t /\ balanced t /\ inorder t = l.

(** A node that can be put into the tree. *)
Definition fresh (s : rb_tree) (l : list Z) (x : Z) : Prop := address x /\ x ∉ l /\ is_Some (nodes s !! x).

(** An empty place, with the node above it, between [l1] and [l2]. *)
Definition place (s : rb_tree) (l1 l2 : list Z) (parent : Z) (lk : link) : Prop :=
  match lk with
  | root_link => root s = 0 /\ parent = 0
  | left_link p => left s p = Some 0 /\ parent = p /\ head l2 = Some p
  | right_link p => right s p = Some 0 /\ parent = p /\ last l1 = Some p
  end.

(** What every user of the library does to insert. *)
Definition rb_insert (s : rb_tree) (x parent : Z) (lk : link) : option rb_tree :=
  s ← rb_link_node s x parent lk; rb_insert_color s x.

Lemma locate t x : x ∈ inorder t -> exists k c a b, t = plug k (Node c a x b).
Proof.
  induction t as [|c l IHl y r IHr]; simpl; [set_solver|].
  rewrite elem_of_app, elem_of_cons. intros [Hx|[->|Hx]].
  - destruct (IHl Hx) as (k & c' & a & b & ->). exists (k ++ [InLeft c y r]), c', a, b. by rewrite plug_app.
  - by exists [], c, l, r.
  - destruct (IHr Hx) as (k & c' & a & b & ->). exists (k ++ [InRight c l y]), c', a, b. by rewrite plug_app.
Qed.

Lemma split_unique (x : Z) l1 l2 k1 k2 : NoDup (l1 ++ x :: l2) -> l1 ++ x :: l2 = k1 ++ x :: k2 -> l1 = k1 /\ l2 = k2.
Proof.
  revert k1. induction l1 as [|a l1 IH]; intros [|b k1] Hnd H; simpl in *;
    apply NoDup_cons in Hnd as [Hn Hnd].
  - by injection H.
  - injection H as -> ->. set_solver.
  - injection H as -> <-. set_solver.
  - injection H as -> H. by destruct (IH k1 Hnd H) as [-> ->].
Qed.

(** The place of a node in the tree is its place in the sequence. *)
Lemma locate_order s l1 x l2 :
  order s (l1 ++ x :: l2) ->
  exists k c a b, rep s (plug k (Node c a x b)) /\ balanced (plug k (Node c a x b)) /\
    l1 = before k ++ inorder a /\ l2 = inorder b ++ after k.
Proof.
  intros (t & Hr & Hb & Hi). destruct (locate t x) as (k & c & a & b & ->); [rewrite Hi; set_solver|].
  exists k, c, a, b. rewrite inorder_plug in Hi. cbn [inorder] in Hi.
  assert (Heq : (before k ++ inorder a) ++ x :: (inorder b ++ after k) = l1 ++ x :: l2) by (rewrite <- Hi, <- !app_assoc; done).
  destruct (split_unique x (before k ++ inorder a) (inorder b ++ after k) l1 l2) as [-> ->]; [|done|done].
  pose proof (rep_ids _ _ Hr) as Hnd. rewrite inorder_plug in Hnd. cbn [inorder] in Hnd. by rewrite Heq, <- Hi.
Qed.

(** A node hung at an empty place is balanced in. *)
Lemma insert_at s k x :
  rep s (plug k Leaf) -> balanced (plug k Leaf) -> fresh s (before k ++ after k) x ->
  exists s', rb_insert s x (up k) (link_at k) = Some s' /\ order s' (before k ++ x :: after k) /\
    only (x :: before k ++ after k) s s'.
Proof.
  intros H Hb (Ax & Hx & Hn). assert (Hp : before k ++ after k ≡ₚ ids k) by (pose proof (ids_perm k Leaf) as Hp; by rewrite app_nil_r in Hp).
  apply rep_at in H. destruct (link_node s k x H Ax) as (s1 & E1 & H1 & O1); [by rewrite <- Hp|done|].
  unfold rb_insert. rewrite E1. cbn [mbind option_bind]. apply rep_at in H1.
  destruct (insert_color s1 k x H1 Hb) as (s2 & t2 & E2 & (H2 & I2 & O2) & B2).
  rewrite inorder_plug in I2, O2. cbn [inorder app] in I2, O2. exists s2. split; [done|]. split; [by exists t2|].
  intros q Hq. rewrite O2, O1; [done|by rewrite <- Hp|set_solver].
Qed.

Lemma insert_order s l1 l2 x parent lk :
  order s (l1 ++ l2) -> fresh s (l1 ++ l2) x -> place s l1 l2 parent lk ->
  exists s', rb_insert s x parent lk = Some s' /\ order s' (l1 ++ x :: l2) /\ only (x :: l1 ++ l2) s s'.
Proof.
  intros Ho Hf Hp. destruct lk as [|p|p]; cbn [place] in Hp.
  - destruct Hp as [Hr ->]. destruct Ho as (t & Ht & Hb & Hi).
    assert (t = Leaf) as ->.
    { rewrite (rep_root _ _ Ht) in Hr. destruct t as [|c a y b]; [done|]. by apply (rep_at s []), at_address in Ht as []. }
    symmetry in Hi. apply app_nil in Hi as [-> ->]. by apply (insert_at s [] x).
  - destruct Hp as (Hl & -> & Hh). destruct l2 as [|p' l2]; [done|]. injection Hh as ->.
    destruct (locate_order _ _ _ _ Ho) as (k & c & a & b & Hr & Hb & -> & ->). rewrite (see_left s k c a p b Hr) in Hl.
    assert (a = Leaf) as ->.
    { destruct a; [done|]. apply rep_at, down_left, at_ptr_nonzero in Hr; [|done]. congruence. }
    cbn [inorder] in *. rewrite app_nil_r in *. by apply (insert_at s (InLeft c p b :: k) x).
  - destruct Hp as (Hl & -> & Hh). destruct l1 as [|p' l1 _] using rev_ind; [done|]. rewrite last_snoc in Hh. injection Hh as ->.
    rewrite <- !app_assoc in *. cbn [app] in *.
    destruct (locate_order _ _ _ _ Ho) as (k & c & a & b & Hr & Hb & -> & ->). rewrite (see_right s k c a p b Hr) in Hl.
    assert (b = Leaf) as ->.
    { destruct b; [done|]. apply rep_at, down_right, at_ptr_nonzero in Hr; [|done]. congruence. }
    cbn [inorder app] in *. pose proof (insert_at s (InRight c a p :: k) x Hr Hb) as Hins. cbn [before after] in Hins.
    rewrite <- !app_assoc in *. by apply Hins.
Qed.

Lemma erase_order s l1 x l2 :
  order s (l1 ++ x :: l2) ->
  exists s', rb_erase s x = Some s' /\ order s' (l1 ++ l2) /\ only (l1 ++ x :: l2) s s'.
Proof.
  intros (k & c & a & b & Hr & Hb & -> & ->)%locate_order.
  destruct (erase_node s k c a x b Hr Hb) as (s' & t' & E & H' & B' & I' & O').
  exists s'. split; [done|]. rewrite inorder_plug in O'. cbn [inorder] in O'. split.
  - exists t'. by rewrite I', <- !app_assoc.
  - by rewrite <- !app_assoc in *.
Qed.

Lemma replace_order s l1 x l2 y :
  order s (l1 ++ x :: l2) -> fresh s (l1 ++ x :: l2) y ->
  exists s', rb_replace_node s x y = Some s' /\ order s' (l1 ++ y :: l2) /\ only (y :: l1 ++ l2) s s'.
Proof.
  intros (k & c & a & b & Hr & Hb & -> & ->)%locate_order (Ay & Hy & Hn). apply rep_at in Hr.
  destruct (replace_node s k c a x b y Hr Ay) as (s' & E & H' & O').
  - rewrite <- ids_perm. cbn [inorder]. by rewrite <- !app_assoc in *.
  - done.
  - exists s'. split; [done|]. split.
    + exists (plug k (Node c a y b)). split; [by apply rep_at|]. split.
      * destruct (rb_unplug k _ Hb) as (n & Hk & Ht & Hf). by apply (rb_plug k n).
      * rewrite inorder_plug. cbn [inorder]. by rewrite <- !app_assoc.
    + intros q Hq. apply O'. intros Hin. apply Hq. pose proof (ids_perm k Leaf) as Hp. rewrite app_nil_r in Hp. cbn [inorder app] in Hp.
      rewrite <- Hp in Hin. set_solver.
Qed.

(** Every place between two nodes is an empty child of one of them. *)
Lemma gap s k t l1 l2 :
  rep s (plug k t) -> t <> Leaf -> inorder t = l1 ++ l2 ->
  (exists p, head l2 = Some p /\ left s p = Some 0) \/ (exists p, last l1 = Some p /\ right s p = Some 0).
Proof.
  revert k l1 l2. induction t as [|c a IHa x b IHb]; intros k l1 l2 H Ht Hi; [done|]. cbn [inorder] in Hi.
  pose proof (see_left s k c a x b H) as Hl. pose proof (see_right s k c a x b H) as Hr.
  destruct (decide (length l1 <= length (inorder a))%nat) as [Hle|Hgt].
  - assert (Ha : inorder a = l1 ++ drop (length l1) (inorder a)).
    { rewrite <- (take_drop (length l1) (inorder a)) at 1. f_equal.
      rewrite <- (take_app_le _ (x :: inorder b)), Hi, take_app_length by lia. done. }
    assert (Hd : l2 = drop (length l1) (inorder a) ++ x :: inorder b).
    { rewrite Ha, <- app_assoc in Hi. by simplify_list_eq. }
    destruct a as [|ca a1 y a2].
    + left. exists x. destruct l1; [|simpl in Hle; lia]. by subst.
    + destruct (IHa (InLeft c x b :: k) l1 _ H ltac:(done) Ha) as [(p & Hp & Hz)|(p & Hp & Hz)]; [left|right]; exists p; [|done].
      rewrite Hd, head_app, Hp. done.
  - assert (Hsplit : exists b1, l1 = inorder a ++ x :: b1 /\ inorder b = b1 ++ l2).
    { apply app_eq_inv in Hi as [(m & Hm & _)|(m & -> & Hm)].
      - rewrite Hm, length_app in Hgt. lia.
      - destruct m as [|m0 m]; [rewrite app_nil_r in Hgt; lia|]. cbn [app] in Hm. injection Hm as <- Hm. by exists m. }
    destruct Hsplit as (b1 & -> & Hb). destruct b as [|cb b2 y b3].
    + right. exists x. cbn [inorder] in Hb. symmetry in Hb. apply app_nil in Hb as [-> ->]. by rewrite last_snoc.
    + destruct (IHb (InRight c a x :: k) b1 l2 H ltac:(done) Hb) as [(p & Hp & Hz)|(p & Hp & Hz)]; [left|right]; exists p; [done|].
      rewrite last_app, last_cons, Hp. done.
Qed.

Lemma gap_place s l1 l2 : order s (l1 ++ l2) -> exists parent lk, place s l1 l2 parent lk.
Proof.
  intros (t & Hr & _ & Hi). destruct t as [|c a x b] eqn:E.
  - exists 0, root_link. split; [|done]. apply (rep_root _ _ Hr).
  - rewrite <- E in *. destruct (gap s [] t l1 l2 Hr) as [(p & Hp & Hz)|(p & Hp & Hz)]; [by rewrite E|done|..].
    + by exists p, (left_link p).
    + by exists p, (right_link p).
Qed.

(** C29. A kernel red-black tree is a sequence of nodes.  Hanging a new node at any empty
    place and calling [rb_insert_color] puts it into the sequence there, and there is a
    place between any two neighbours; [rb_erase] takes a node out, [rb_replace_node] puts
    another in its place; [rb_first], [rb_last], [rb_next] and [rb_prev] walk along it,
    to [NULL] at its ends.  All of them return, on every balanced tree; they leave a
    balanced tree, all of whose pointers to parents and children agree, and write no
    node that is not in it. *)
Theorem rbtree_is_a_sequence s l :
  order s l ->
  (forall l1 l2 x parent lk, l = l1 ++ l2 -> fresh s l x -> place s l1 l2 parent lk ->
     exists s', rb_insert s x parent lk = Some s' /\ order s' (l1 ++ x :: l2) /\ only (x :: l) s s') /\
  (forall l1 l2, l = l1 ++ l2 -> exists parent lk, place s l1 l2 parent lk) /\
  (forall l1 x l2, l = l1 ++ x :: l2 ->
     (exists s', rb_erase s x = Some s' /\ order s' (l1 ++ l2) /\ only l s s') /\
     (forall y, fresh s l y -> exists s', rb_replace_node s x y = Some s' /\ order s' (l1 ++ y :: l2) /\ only (y :: l) s s') /\
     rb_next s x = Some (default 0 (head l2)) /\ rb_prev s x = Some (default 0 (last l1))) /\
  rb_first s = Some (default 0 (head l)) /\ rb_last s = Some (default 0 (last l)).
Proof.
  intros Ho. split_and!.
  - intros l1 l2 x parent lk ->. by apply insert_order.
  - intros l1 l2 ->. by apply gap_place.
  - intros l1 x l2 ->. split_and!.
    + by apply erase_order.
    + intros y Hy. destruct (replace_order s l1 x l2 y Ho Hy) as (s' & E & H' & O'). exists s'. split; [done|]. split; [done|].
      eapply only_mono; [done|]. set_solver.
    + destruct (locate_order _ _ _ _ Ho) as (k & c & a & b & Hr%rep_at & _ & _ & ->). by eapply next_node.
    + destruct (locate_order _ _ _ _ Ho) as (k & c & a & b & Hr%rep_at & _ & -> & _). by eapply prev_node.
  - destruct Ho as (t & Hr & _ & <-). by apply first_node.
  - destruct Ho as (t & Hr & _ & <-). by apply last_node.
Qed.

(** One black node at 8, and a node at 4 that is not in the tree. *)
Definition small_tree : rb_tree := mkRb {[ 8 := mkNode 1 0 0; 4 := mkNode 77 78 79 ]} 8.

Lemma small_tree_order : order small_tree [8].
Proof.
  exists (Node Black Leaf 8 Leaf). split_and!; [split|split; [by exists 1%nat|done]|done].
  - done.
  - by repeat split.
  - apply NoDup_singleton.
  - by repeat constructor.
Qed.

Lemma rbtree_is_a_sequence_witness :
  (exists s', rb_insert small_tree 4 8 (left_link 8) = Some s' /\ order s' [4; 8]) /\
  rb_next small_tree 8 = Some 0 /\ rb_first small_tree = Some 8.
Proof.
  destruct (rbtree_is_a_sequence small_tree [8] small_tree_order) as (H1 & _ & H3 & H4 & _). split_and!.
  - destruct (H1 [] [8] 4 8 (left_link 8)) as (s' & E & Ho & _); [done| |done|by exists s'].
    split_and!; [done|by apply not_elem_of_cons; split; [|apply not_elem_of_nil]|by eexists].
  - by destruct (H3 [] 8 [] eq_refl) as (_ & _ & Hn & _).
  - done.
Defined.

(** ** Empty trees and nodes outside of trees *)

Lemma empty_root s l : order s l -> RB_EMPTY_ROOT s = bool_decide (l = []).
Proof.
  intros (t & Hr & _ & <-). unfold RB_EMPTY_ROOT. rewrite (rep_root _ _ Hr).
  destruct t as [|c a x b]; [done|]. pose proof (rep_addr _ _ Hr) as Ha. cbn [ptr inorder] in *.
  apply Forall_app in Ha as [_ [[_ Hx] _]%Forall_cons].
  rewrite (proj2 (Z.eqb_neq x 0) Hx), bool_decide_false; [done|]. by destruct (inorder a).
Qed.

(** A node of a tree is not taken for a cleared one, ... *)
Lemma linked_is_not_clear s l x : order s l -> x ∈ l -> RB_EMPTY_NODE s x = Some false.
Proof.
  intros (t & Hr & _ & <-) Hx. destruct (locate t x Hx) as (k & c & a & b & ->). unfold RB_EMPTY_NODE.
  rewrite (see_parent s k c a x b Hr). cbn [mbind option_bind]. f_equal. apply Z.eqb_neq.
  apply rep_at in Hr. destruct k as [|f k]; cbn [up].
  - pose proof (rep_addr _ _ (proj2 (rep_at s [] (Node c a x b)) Hr)) as Ha. cbn [plug inorder] in Ha.
    apply Forall_app in Ha as [_ [[_ H0] _]%Forall_cons]. done.
  - pose proof (at_ids _ _ _ Hr) as Hnd. apart Hnd x.
Qed.

Lemma cleared_word pc x : aligned x -> ((pc .& 3) .| x) .& 0xFFFFFFFC = x.
Proof.
  intros Hx. rewrite Z.land_lor_distr_l, <- Z.land_assoc. change (3 .& 0xFFFFFFFC) with 0. rewrite Z.land_0_r, Z.lor_0_l.
  pose proof (pack_parent x Red Hx) as H. unfold pack in H. cbn [bit] in H. by rewrite Z.lor_0_r in H.
Qed.

(** ... and a cleared one is one. *)
Lemma clear_is_clear s x :
  address x -> is_Some (nodes s !! x) ->
  exists s', RB_CLEAR_NODE s x = Some s' /\ RB_EMPTY_NODE s' x = Some true /\ only [x] s s' /\ root s' = root s.
Proof.
  intros [Hx _] [n Hn]. unfold RB_CLEAR_NODE, rb_set_parent, set_parent_color.
  destruct (change_at (fun n => mkNode ((rb_parent_color n .& 3) .| x) (rb_right n) (rb_left n)) s x n Hn) as (s' & E & N & R & O).
  exists s'. split; [done|]. split; [|by apply change_only in E].
  unfold RB_EMPTY_NODE, rb_parent. rewrite (field_eq _ _ _ _ N). cbn [mbind option_bind rb_parent_color].
  by rewrite cleared_word, Z.eqb_refl.
Qed.

(** ** The height *)

Fixpoint height (t : tree) : nat := match t with Leaf => O | Node _ l _ r => S (Nat.max (height l) (height r)) end.

Lemma rb_full n t : rb n t -> (2 ^ n <= length (inorder t) + 1)%nat.
Proof.
  revert n. induction t as [|[] l IHl x r IHr]; intros n; cbn [rb inorder]; [by intros ->|..];
    rewrite length_app; cbn [length].
  - intros (Hl%IHl & Hr%IHr & _). lia.
  - destruct n as [|n]; [done|]. intros [Hl%IHl Hr%IHr]. simpl. lia.
Qed.

Lemma rb_height n t : rb n t -> (height t <= 2 * n + match tcolor t with Red => 1 | Black => 0 end)%nat.
Proof.
  revert n. induction t as [|[] l IHl x r IHr]; intros n; cbn [rb height tcolor]; [lia|..].
  - intros (Hl%IHl & Hr%IHr & Hcl & Hcr). rewrite Hcl, Hcr in *. lia.
  - destruct n as [|n]; [done|]. intros [Hl%IHl Hr%IHr]. destruct (tcolor l), (tcolor r); lia.
Qed.

Lemma balanced_height t : balanced t -> (height t <= 2 * Nat.log2 (length (inorder t) + 1))%nat.
Proof.
  intros [[n Hn] Hc]. pose proof (rb_height n t Hn) as Hh. rewrite Hc in Hh. pose proof (rb_full n t Hn) as Hf.
  apply Nat.log2_le_mono in Hf. rewrite Nat.log2_pow2 in Hf by lia. lia.
Qed.

Lemma height_plug k t : (length k + height t <= height (plug k t))%nat.
Proof.
  revert t. induction k as [|f k IH]; intros t; cbn [length plug]; [lia|]. specialize (IH (plug1 f t)).
  destruct f; cbn [plug1 height] in *; lia.
Qed.

(** [d] times to the parent. *)
Fixpoint ancestor (s : rb_tree) (d : nat) (x : Z) : option Z :=
  match d with O => Some x | S d => p ← rb_parent s x; ancestor s d p end.

Lemma ancestor_root s k t : rep s (plug k t) -> t <> Leaf -> ancestor s (S (length k)) (ptr t) = Some 0.
Proof.
  revert t. induction k as [|f k IH]; intros t H Ht; (destruct t as [|c a x b]; [done|]); cbn [ancestor ptr].
  - by rewrite (see_parent s [] c a x b H).
  - rewrite (see_parent s (f :: k) c a x b H). cbn [mbind option_bind up].
    replace (top f) with (ptr (plug1 f (Node c a x b))) by (by destruct f). apply IH; [done|]. by destruct f.
Qed.

(** A way down from a node: [true] to the left, [false] to the right. *)
Fixpoint descend (s : rb_tree) (way : list bool) (p : Z) : option Z :=
  match way with
  | [] => Some p
  | d :: way => if p =? 0 then None else c ← (if d then left s p else right s p); descend s way c
  end.

Lemma descend_height s k t way q :
  rep s (plug k t) -> descend s way (ptr t) = Some q -> q <> 0 -> (length way < height t)%nat.
Proof.
  revert k t. induction way as [|d way IH]; intros k t H E Hq; (destruct t as [|c a x b]; [|cbn [height length]; try lia]).
  - cbn in E. congruence.
  - done.
  - cbn [descend ptr] in E. destruct (x =? 0); [done|]. destruct d.
    + rewrite (see_left s k c a x b H) in E. pose proof (IH (InLeft c x b :: k) a H E Hq). lia.
    + rewrite (see_right s k c a x b H) in E. pose proof (IH (InRight c a x :: k) b H E Hq). lia.
Qed.

(** The trees the library builds: from an empty root, by the calls its users make. *)
Inductive built : rb_tree -> list Z -> Prop :=
| built_empty s : root s = 0 -> built s []
| built_insert s l1 l2 x parent lk s' :
    built s (l1 ++ l2) -> fresh s (l1 ++ l2) x -> place s l1 l2 parent lk ->
    rb_insert s x parent lk = Some s' -> built s' (l1 ++ x :: l2)
| built_erase s l1 x l2 s' : built s (l1 ++ x :: l2) -> rb_erase s x = Some s' -> built s' (l1 ++ l2)
| built_replace s l1 x l2 y s' :
    built s (l1 ++ x :: l2) -> fresh s (l1 ++ x :: l2) y -> rb_replace_node s x y = Some s' -> built s' (l1 ++ y :: l2).

Lemma built_order s l : built s l -> order s l.
Proof.
  induction 1 as [s Hs|s l1 l2 x parent lk s' _ IH Hf Hp E|s l1 x l2 s' _ IH E|s l1 x l2 y s' _ IH Hf E].
  - exists Leaf. split; [by split; [| |constructor|constructor]|]. by split; [split; [exists O|]|].
  - destruct (insert_order s l1 l2 x parent lk IH Hf Hp) as (s1 & E1 & Ho & _). congruence.
  - destruct (erase_order s l1 x l2 IH) as (s1 & E1 & Ho & _). congruence.
  - destruct (replace_order s l1 x l2 y IH Hf) as (s1 & E1 & Ho & _). congruence.
Qed.

(** C30. A tree is low however it was built: after any number of nodes hung at empty
    places and coloured by [rb_insert_color], erased by [rb_erase] and replaced by
    [rb_replace_node], from an empty root on, every way down by child pointers from the
    root has at most 2 * log2 (n + 1) nodes, [n] those in the tree, and from every node
    the parents lead to [NULL] in at most as many steps. *)
Theorem rbtree_is_low s l :
  built s l ->
  (forall way q, descend s way (root s) = Some q -> q <> 0 -> (length way < 2 * Nat.log2 (length l + 1))%nat) /\
  (forall x, x ∈ l -> exists d, (d <= 2 * Nat.log2 (length l + 1))%nat /\ ancestor s d x = Some 0).
Proof.
  intros (t & Hr & Hb & <-)%built_order. pose proof (balanced_height t Hb) as Hh. split.
  - intros way q E Hq. rewrite (rep_root _ _ Hr) in E. pose proof (descend_height s [] t way q Hr E Hq). lia.
  - intros x Hx. destruct (locate t x Hx) as (k & c & a & b & ->). exists (S (length k)). split.
    + etrans; [|done]. pose proof (height_plug k (Node c a x b)). simpl in *. lia.
    + by apply (ancestor_root s k (Node c a x b)).
Qed.

(** A run: nodes 4, 8, ..., 40 put in one behind the other; 16 taken out again. *)
Definition room_for (n : nat) : rb_tree :=
  mkRb (list_to_map ((fun i => (Z.of_nat (4 * i), mkNode 0 0 0)) <$> seq 1 n)) 0.

Fixpoint append_all (s : rb_tree) (xs : list Z) : option rb_tree :=
  match xs with
  | [] => Some s
  | x :: xs =>
      p ← rb_last s;
      s ← rb_insert s x p (if p =? 0 then root_link else right_link p);
      append_all s xs
  end.

Fixpoint walk (n : nat) (s : rb_tree) (x : Z) : option (list Z) :=
  match n with
  | O => Some []
  | S n => if x =? 0 then Some [] else y ← rb_next s x; l ← walk n s y; Some (x :: l)
  end.

Example tree_runs :
  (s ← append_all (room_for 10) [4; 8; 12; 16; 20; 24; 28; 32; 36; 40]; s ← rb_erase s 16; x ← rb_first s; walk 20 s x) =
    Some [4; 8; 12; 20; 24; 28; 32; 36; 40].
Proof. by vm_compute. Qed.

(** The first [n] nodes of 4, 8 and 12, appended: without rebalancing a list. *)
Definition appended (n : nat) : rb_tree := default (room_for 3) (append_all (room_for 3) (take n [4; 8; 12])).

Lemma appended_built : built (appended 3) [4; 8; 12].
Proof.
  assert (Hf : forall n x l, bool_decide (x <> 0 /\ 0 <= x < 2 ^ 32 /\ x mod 4 = 0 /\ x ∉ l /\ is_Some (nodes (appended n) !! x)) = true ->
    fresh (appended n) l x) by (intros n x l H%bool_decide_eq_true; by destruct_and! H; repeat split).
  apply (built_insert (appended 2) [4; 8] [] 12 8 (right_link 8)); [|by apply Hf; vm_compute|by vm_compute..].
  apply (built_insert (appended 1) [4] [] 8 4 (right_link 4)); [|by apply Hf; vm_compute|by vm_compute..].
  apply (built_insert (appended 0) [] [] 4 0 root_link); [|by apply Hf; vm_compute|by vm_compute..].
  by apply built_empty.
Qed.

Lemma rbtree_is_low_witness :
  root (appended 3) = 8 /\ (exists d, (d <= 4)%nat /\ ancestor (appended 3) d 12 = Some 0) /\
  (forall way q, descend (appended 3) way 8 = Some q -> q <> 0 -> (length way < 4)%nat).
Proof.
  destruct (rbtree_is_low (appended 3) [4; 8; 12] appended_built) as [Hd Hu]. split; [by vm_compute|]. split.
  - apply Hu. do 2 (apply elem_of_cons; right). apply elem_of_cons. by left.
  - exact Hd.
Defined.
End KernelBalance.
