(* ===== verification/KernelSearch.v ===== *)
(** * KernelSearch: the text search of the board's kernel

    include/linux/textsearch.h and lib/textsearch.c of the Linux kernel kept beside the
    agent: search algorithms are registered under a name, a search is prepared for a
    pattern with one of them, and then finds the pattern's occurrences in a text that the
    caller hands over block by block.  The algorithms are in [KernelKmp] (lib/ts_kmp.c),
    [KernelBm] (lib/ts_bm.c) and [KernelFsm] (lib/ts_fsm.c).

    [struct ts_ops] is reached through pointers: the registry has the objects by address,
    and the list of the addresses that are registered.  The control buffer of a search
    ([cb], 40 bytes that belong to the caller's [get_next_block]) is a type [C]; the
    private area behind a [struct ts_config] is the record of the algorithm.  [None] is
    undefined behaviour, or a loop without end. *)

From stdpp Require Import gmap strings.
From S2P Require Import Prelude KernelString.
Import KernelString.

Module KernelSearch.

(** ** linux/textsearch.h *)

Definition TS_AUTOLOAD : Z := 1.
Definition TS_IGNORECASE : Z := 2.
Definition UINT_MAX : Z := 2 ^ 32 - 1.

Definition ENOENT : Z := 2.
Definition ENOMEM : Z := 12.
Definition EEXIST : Z := 17.
Definition EINVAL : Z := 22.

(** The private areas: [struct ts_kmp], [struct ts_bm], [struct ts_fsm], and one of so
    many bytes that is not filled in yet. *)
Record ts_kmp := mkKmp { kmp_pattern : list Z; pattern_len : Z; prefix_tbl : list Z }.
Record ts_bm := mkBm { bm_pattern : list Z; patlen : Z; bad_shift : list Z; good_shift : list Z }.
Record ts_fsm_token := mkToken { type : Z; recur : Z; value : Z }.
Record ts_fsm := mkFsm { ntokens : Z; tokens : list ts_fsm_token }.
Variant ts_priv := Blank (size : Z) | Kmp (kmp : ts_kmp) | Bm (bm : ts_bm) | Fsm (fsm : ts_fsm).

Record ts_state (C : Type) := mkState { offset : Z; cb : C }.
Arguments mkState {C}. Arguments offset {C}. Arguments cb {C}.

(** [get_next_block(consumed, &dst, conf, state)]: the length it returns, the bytes that
    are there to be read at [dst], and the control buffer. *)
Definition block_fun (C : Type) : Type := Z -> C -> Z * list Z * C.

Record ts_config (C : Type) := mkConf {
  ops : Z;
  flags : Z;
  get_next_block : option (block_fun C);
  finish : option (C -> C);
  priv : ts_priv }.
Arguments mkConf {C}. Arguments ops {C}. Arguments flags {C}. Arguments get_next_block {C}.
Arguments finish {C}. Arguments priv {C}.

(** The result of a function that returns a [struct ts_config *] or an [ERR_PTR]. *)
Definition conf_or_err (C : Type) : Type := Z + ts_config C.

Record ts_ops (C : Type) := mkOps {
  name : option string;
  init : option (list Z -> Z -> Z -> option (conf_or_err C));
  find : option (ts_config C -> ts_state C -> option (Z * ts_state C));
  destroy : option (ts_config C -> ts_config C);
  get_pattern : option (ts_config C -> option (list Z));
  get_pattern_len : option (ts_config C -> option Z);
  owner : Z }.
Arguments mkOps {C}. Arguments name {C}. Arguments init {C}. Arguments find {C}. Arguments destroy {C}.
Arguments get_pattern {C}. Arguments get_pattern_len {C}. Arguments owner {C}.

(** The [struct ts_ops] that exist, and the list [ts_ops] of lib/textsearch.c. *)
Record registry (C : Type) := mkReg { objects : gmap Z (ts_ops C); algos : list Z }.
Arguments mkReg {C}. Arguments objects {C}. Arguments algos {C}.

(** [struct ts_config] has four words here. *)
Definition sizeof_ts_config : Z := 16.
Definition TS_PRIV_ALIGNTO : Z := 8.
Definition TS_PRIV_ALIGN (len : Z) : Z := u32 (len + TS_PRIV_ALIGNTO - 1) .& 0xFFFFFFF8.

Section Search.
Context {C Mod : Type}.
(** Is there memory for an allocation of this size? *)
Context (kzalloc : Z -> bool).
(** References to kernel modules, and loading one by its name. *)
Context (try_module_get : Z -> Mod -> option Mod) (module_put : Z -> Mod -> Mod).
Context (request_module : string -> registry C -> registry C).

(** The area that is left behind the configuration is what the allocation has of it. *)
Definition alloc_ts_config (payload : Z) : conf_or_err C :=
  let size := u32 (TS_PRIV_ALIGN sizeof_ts_config + payload) in
  if kzalloc size then inr (mkConf 0 0 None None (Blank (size - TS_PRIV_ALIGN sizeof_ts_config)))
  else inl (- ENOMEM).

Definition ops_of (reg : registry C) (conf : ts_config C) : option (ts_ops C) := objects reg !! ops conf.

Definition textsearch_next (reg : registry C) (conf : ts_config C) (state : ts_state C) : option (Z * ts_state C) :=
  o ← ops_of reg conf;
  f ← find o;
  '(ret, state) ← f conf state;
  Some (ret, match finish conf with Some fin => mkState (offset state) (fin (cb state)) | None => state end).

Definition textsearch_find (reg : registry C) (conf : ts_config C) (state : ts_state C) : option (Z * ts_state C) :=
  textsearch_next reg conf (mkState 0 (cb state)).

Definition textsearch_get_pattern (reg : registry C) (conf : ts_config C) : option (list Z) :=
  o ← ops_of reg conf; f ← get_pattern o; f conf.

Definition textsearch_get_pattern_len (reg : registry C) (conf : ts_config C) : option Z :=
  o ← ops_of reg conf; f ← get_pattern_len o; f conf.

(** ** lib/textsearch.c *)

(** The first registered algorithm of that name. *)
Fixpoint by_name (reg : registry C) (nm : string) (l : list Z) : option Z :=
  match l with
  | [] => None
  | o :: l => if bool_decide (objects reg !! o ≫= name = Some nm) then Some o else by_name reg nm l
  end.

Definition lookup_ts_algo (reg : registry C) (m : Mod) (nm : string) : option (Z * ts_ops C * Mod) :=
  o ← by_name reg nm (algos reg);
  obj ← objects reg !! o;
  m ← try_module_get (owner obj) m;
  Some (o, obj, m).

Definition complete (obj : ts_ops C) : bool :=
  match name obj, find obj, init obj, get_pattern obj, get_pattern_len obj with
  | Some _, Some _, Some _, Some _, Some _ => true
  | _, _, _, _, _ => false
  end.

Definition textsearch_register (reg : registry C) (o : Z) : option (Z * registry C) :=
  obj ← objects reg !! o;
  if complete obj then
    nm ← name obj;
    match by_name reg nm (algos reg) with
    | Some _ => Some (- EEXIST, reg)
    | None => Some (0, mkReg (objects reg) (algos reg ++ [o]))
    end
  else Some (- EINVAL, reg).

Fixpoint unlink (o : Z) (l : list Z) : option (list Z) :=
  match l with
  | [] => None
  | o' :: l => if o' =? o then Some l else cons o' <$> unlink o l
  end.

Definition textsearch_unregister (reg : registry C) (o : Z) : Z * registry C :=
  match unlink o (algos reg) with
  | Some l => (0, mkReg (objects reg) l)
  | None => (- ENOENT, reg)
  end.

Definition textsearch_prepare (reg : registry C) (m : Mod) (algo : string) (pattern : list Z) (len flags : Z) :
    option (conf_or_err C * registry C * Mod) :=
  if len =? 0 then Some (inl (- EINVAL), reg, m)
  else
    let '(reg, found) :=
      match lookup_ts_algo reg m algo with
      | None =>
          if negb (flags .& TS_AUTOLOAD =? 0) then
            let reg := request_module ("ts_" +:+ algo) reg in (reg, lookup_ts_algo reg m algo)
          else (reg, None)
      | found => (reg, found)
      end in
    match found with
    | None => Some (inl (- ENOENT), reg, m)
    | Some (o, obj, m) =>
        f ← init obj;
        conf ← f pattern len flags;
        match conf with
        | inl err => Some (inl err, reg, module_put (owner obj) m)
        | inr conf => Some (inr (mkConf o (KernelSearch.flags conf) (get_next_block conf) (finish conf) (priv conf)), reg, m)
        end
    end.

(** The configuration is freed as the algorithm leaves it. *)
Definition textsearch_destroy (reg : registry C) (m : Mod) (conf : ts_config C) : option (ts_config C * Mod) :=
  if ops conf =? 0 then Some (conf, m)
  else
    obj ← ops_of reg conf;
    let conf := match destroy obj with Some d => d conf | None => conf end in
    Some (conf, module_put (owner obj) m).

End Search.

(** [struct ts_linear_state], kept in [cb]: the bytes at [data], and [len]. *)
Record ts_linear_state := mkLinear { lin_len : Z; lin_data : list Z }.

Definition get_linear_data : block_fun ts_linear_state := fun consumed st =>
  if consumed <? lin_len st then (lin_len st - consumed, drop (Z.to_nat consumed) (lin_data st), st)
  else (0, [], st).

(** The configuration keeps [get_linear_data]. *)
Definition textsearch_find_continuous (reg : registry ts_linear_state) (conf : ts_config ts_linear_state)
    (state : ts_state ts_linear_state) (data : list Z) (len : Z) :
    option (Z * ts_state ts_linear_state * ts_config ts_linear_state) :=
  let conf := mkConf (ops conf) (flags conf) (Some get_linear_data) (finish conf) (priv conf) in
  '(ret, state) ← textsearch_find reg conf (mkState (offset state) (mkLinear len data));
  Some (ret, state, conf).

(** ** What the algorithms have in common *)

Definition ignores_case (flags : Z) : bool := negb (flags .& TS_IGNORECASE =? 0).
Definition folded (icase : bool) (c : Z) : Z := if icase then toupper c else c.

(** Writing to a table of words. *)
Definition set_at (l : list Z) (i v : Z) : option (list Z) :=
  if (0 <=? i) && (i <? Z.of_nat (length l)) then Some (<[Z.to_nat i := v]> l) else None.

(** [toupper] of every byte, or [memcpy], to where [room] bytes are. *)
Definition copy_pattern (pattern : list Z) (len flags room : Z) : option (list Z) :=
  if (len <=? Z.of_nat (length pattern)) && (len <=? room) then
    Some (folded (ignores_case flags) <$> take (Z.to_nat len) pattern)
  else None.

(** ** What a search is to find *)

(** The pattern [p] stands in the text [t] at [i]; at [i] for the first time from [o] on;
    nowhere from [o] on. *)
Definition occurs (p t : list Z) (i : nat) : Prop := p `prefix_of` drop i t.
Definition first_from (p t : list Z) (o i : nat) : Prop :=
  (o <= i)%nat /\ occurs p t i /\ forall j, (o <= j < i)%nat -> ~ occurs p t j.
Definition nowhere (p t : list Z) (o : nat) : Prop := forall j, (o <= j)%nat -> ~ occurs p t j.

(** A search from [o] on answers [r]. *)
Definition finds (p t : list Z) (o : nat) (r : Z) : Prop :=
  (r = UINT_MAX /\ nowhere p t o) \/ exists i, r = Z.of_nat i /\ first_from p t o i.

(** It answers [r] and leaves off at [o']. *)
Definition answers (p t : list Z) (o : nat) (r o' : Z) : Prop :=
  (r = UINT_MAX /\ o' = Z.of_nat o /\ nowhere p t o) \/
  exists i, r = Z.of_nat i /\ o' = Z.of_nat (i + length p) /\ first_from p t o i.

(** What [get_next_block] promises: the text from [consumed] on, some of it if there is any. *)
Class Delivers {C} (next : block_fun C) (ok : C -> Prop) (text : list Z) : Prop :=
  delivers : forall (consumed : nat) c n d c',
    ok c -> next (Z.of_nat consumed) c = (n, d, c') ->
    ok c' /\ 0 <= n /\ ((consumed < length text)%nat -> 0 < n) /\
    (0 < n -> Z.of_nat consumed + n <= Z.of_nat (length text)) /\
    take (Z.to_nat n) d = take (Z.to_nat n) (drop consumed text).

(** And what some algorithms rely on: it hands over all of the text in one block. *)
Class Whole {C} (next : block_fun C) (ok : C -> Prop) (text : list Z) : Prop := {
  whole_delivers :: Delivers next ok text;
  whole : forall (consumed : nat) c n d c',
    ok c -> next (Z.of_nat consumed) c = (n, d, c') -> (consumed < length text)%nat ->
    n = Z.of_nat (length text) - Z.of_nat consumed }.

Lemma answers_finds p t o r o' : answers p t o r o' -> finds p t o r.
Proof. intros [(-> & _ & H)|(i & -> & _ & H)]; [by left|right; by exists i]. Qed.

Lemma linear_delivers data len :
  0 <= len <= Z.of_nat (length data) -> Delivers get_linear_data (fun st => st = mkLinear len data) (take (Z.to_nat len) data).
Proof.
  intros Hlen consumed c n d c' -> E. unfold get_linear_data in E. cbn [lin_len lin_data] in E.
  rewrite length_take. case_bool; to_prop; injection E as <- <- <-; (split; [done|]); (split; [lia|]); (split; [lia|]); (split; [lia|]).
  - rewrite Nat2Z.id, !take_drop_commute, take_take. do 2 f_equal. lia.
  - done.
Qed.

Lemma linear_whole data len :
  0 <= len <= Z.of_nat (length data) -> Whole get_linear_data (fun st => st = mkLinear len data) (take (Z.to_nat len) data).
Proof.
  intros Hlen. split; [by apply linear_delivers|]. intros consumed c n d c' -> E Hc. rewrite length_take in *.
  unfold get_linear_data in E. cbn [lin_len lin_data] in E. case_bool; to_prop; [|lia]. injection E as <- <- <-. lia.
Qed.

(** A text that comes three bytes at a time. *)
Definition three_bytes (text : list Z) : block_fun unit := fun consumed c =>
  let block := take 3 (drop (Z.to_nat consumed) text) in (Z.of_nat (length block), block, c).

Lemma three_bytes_deliver text : Delivers (three_bytes text) (fun _ => True) text.
Proof.
  intros consumed c n d c' _ [= <- <- <-]. rewrite !Nat2Z.id, length_take, length_drop. split_and!; [done|lia|lia|lia|].
  rewrite take_take. f_equal. lia.
Qed.

Lemma occurs_length p t i : p <> [] -> occurs p t i -> (i + length p <= length t)%nat.
Proof.
  intros Hp [k Hk]. apply (f_equal length) in Hk. rewrite length_drop, length_app in Hk. destruct p; [done|]. simpl in *. lia.
Qed.

Lemma occurs_lookup p t i :
  (i + length p <= length t)%nat -> occurs p t i <-> forall k, (k < length p)%nat -> t !! (i + k)%nat = p !! k.
Proof.
  intros Hi. unfold occurs. split.
  - intros Hp k Hk. destruct (lookup_lt_is_Some_2 p k Hk) as [x Hx]. rewrite <- lookup_drop, Hx. by eapply prefix_lookup_Some.
  - intros H. exists (drop (length p) (drop i t)). rewrite <- (take_drop (length p) (drop i t)) at 1. f_equal.
    apply list_eq. intros k. destruct (decide (k < length p)%nat).
    + by rewrite lookup_take_lt, lookup_drop, H by lia.
    + rewrite lookup_take_ge, lookup_ge_None_2 by lia. done.
Qed.

(** An occurrence is the end of what has been read. *)
Lemma occurs_suffix p t i : (i + length p <= length t)%nat -> occurs p t i <-> p `suffix_of` take (i + length p) t.
Proof.
  intros Hi. unfold occurs. split.
  - intros [k Hk]. exists (take i t). rewrite <- (take_drop i t) at 1. rewrite Hk, take_app_add'; [|rewrite length_take; lia].
    by rewrite take_app_length.
  - intros [k Hk]. exists (drop (i + length p) t).
    assert (Hlen : length k = i) by (apply (f_equal length) in Hk; rewrite length_take, length_app in Hk; lia).
    rewrite <- (take_drop (i + length p) t) at 1. rewrite Hk, <- app_assoc, drop_app_length'; done.
Qed.

Lemma occurs_drop p t o i : occurs p (drop o t) i <-> occurs p t (o + i).
Proof. unfold occurs. by rewrite drop_drop. Qed.

Lemma first_from_drop p t o i : first_from p (drop o t) 0 i -> first_from p t o (o + i).
Proof.
  intros (_ & Hi & Hj). split; [lia|]. split; [by apply occurs_drop|].
  intros j Hoj Hp. apply (Hj (j - o)%nat); [lia|]. apply occurs_drop. by replace (o + (j - o))%nat with j by lia.
Qed.

Lemma nowhere_drop p t o : nowhere p (drop o t) 0 -> nowhere p t o.
Proof.
  intros H j Hj Hp. apply (H (j - o)%nat); [lia|]. apply occurs_drop. by replace (o + (j - o))%nat with j by lia.
Qed.

(** ** The registry *)

Section Registry.
Context {C : Type}.
Implicit Types (reg : registry C) (l : list Z).

Lemma by_name_app reg nm l l' : by_name reg nm (l ++ l') = match by_name reg nm l with Some o => Some o | None => by_name reg nm l' end.
Proof. induction l as [|o l IH]; simpl; [done|]. by case_bool_decide. Qed.

Lemma by_name_in reg nm l o : by_name reg nm l = Some o -> o ∈ l /\ objects reg !! o ≫= name = Some nm.
Proof.
  induction l as [|o' l IH]; simpl; [done|]. case_bool_decide as H; [|intros [? ?]%IH; split; [by right|done]].
  intros [= <-]. split; [left|done].
Qed.

(** No two registered algorithms share a name. *)
Definition names_differ reg : Prop :=
  forall i j o o' nm, algos reg !! i = Some o -> algos reg !! j = Some o' ->
    objects reg !! o ≫= name = Some nm -> objects reg !! o' ≫= name = Some nm -> i = j.

Lemma by_name_none reg nm l o : by_name reg nm l = None -> o ∈ l -> objects reg !! o ≫= name <> Some nm.
Proof.
  induction l as [|o' l IH]; simpl; [by intros _ ?%not_elem_of_nil|]. case_bool_decide as H; [done|].
  intros Hl [->|Ho]%elem_of_cons; [done|by apply IH].
Qed.

(** Registering keeps the names apart, and makes the algorithm known by its name. *)
Lemma register_spec reg o obj nm :
  objects reg !! o = Some obj -> complete obj = true -> name obj = Some nm -> names_differ reg ->
  (by_name reg nm (algos reg) <> None /\ textsearch_register reg o = Some (- EEXIST, reg)) \/
  (exists reg', textsearch_register reg o = Some (0, reg') /\ objects reg' = objects reg /\ algos reg' = algos reg ++ [o] /\
     by_name reg' nm (algos reg') = Some o /\ names_differ reg').
Proof.
  intros Ho Hc Hn Hd. unfold textsearch_register. rewrite Ho. cbn [mbind option_bind]. rewrite Hc, Hn. cbn [mbind option_bind].
  destruct (by_name reg nm (algos reg)) as [o'|] eqn:E; [by left|right]. eexists. split; [done|]. cbn [objects algos].
  split; [done|]. split; [done|]. assert (Hname : objects reg !! o ≫= name = Some nm) by (by rewrite Ho). split.
  - assert (Hsame : forall l, by_name (mkReg (objects reg) (algos reg ++ [o])) nm l = by_name reg nm l).
    { induction l as [|o' l IH]; [done|]. cbn [by_name objects]. by rewrite IH. }
    rewrite Hsame, by_name_app, E. cbn [by_name]. by rewrite bool_decide_true.
  - assert (Hnew : forall k x nm', (algos reg ++ [o]) !! k = Some x -> objects reg !! x ≫= name = Some nm' ->
              (k < length (algos reg))%nat /\ algos reg !! k = Some x /\ nm' <> nm \/ k = length (algos reg) /\ nm' = nm).
    { intros k x nm' Hk Hx. apply lookup_app_Some in Hk as [Hk|[Hge Hk]].
      - left. split; [by eapply lookup_lt_Some|]. split; [done|]. intros ->.
        by apply (by_name_none reg nm (algos reg) x E); [by eapply list_elem_of_lookup_2|].
      - right. apply list_lookup_singleton_Some in Hk as [Hk <-]. split; [lia|]. congruence. }
    intros i j x y nm' Hi Hj Hx Hy. cbn [objects algos] in *.
    destruct (Hnew _ _ _ Hi Hx) as [(_ & Hi' & Hn1)|[Hi' Hn1]], (Hnew _ _ _ Hj Hy) as [(_ & Hj' & Hn2)|[Hj' Hn2]]; try congruence.
    by apply (Hd i j x y nm').
Qed.

End Registry.

(** ** What an algorithm promises

    Of the pattern's area, and of every search in a text in one piece that is [fit] for
    the algorithm. *)
Class Algorithm (obj : ts_ops ts_linear_state) (fit : bool -> list Z -> list Z -> Prop) : Prop := {
  algo_complete : complete obj = true;
  algo_works : forall pattern len flags, 0 < len <= Z.of_nat (length pattern) -> Forall byte_ok pattern -> 5 * len < 2 ^ 32 - 2048 ->
    exists f, init obj = Some f /\
    (f pattern len flags = Some (inl (- ENOMEM)) \/
     exists area, f pattern len flags = Some (inr (mkConf 0 flags None None area)) /\
     let icase := ignores_case flags in let p := folded icase <$> take (Z.to_nat len) pattern in
     forall ptr data n (o : nat), 0 <= n <= Z.of_nat (length data) -> fit icase p (take (Z.to_nat n) data) ->
     exists fd r o', find obj = Some fd /\
       fd (mkConf ptr flags (Some get_linear_data) None area) (mkState (Z.of_nat o) (mkLinear n data)) =
         Some (r, mkState o' (mkLinear n data)) /\
       finds p (folded icase <$> take (Z.to_nat n) data) o r) }.

Section Client.
Context {Mod : Type} (kzalloc : Z -> bool).
Context (try_module_get : Z -> Mod -> option Mod) (module_put : Z -> Mod -> Mod).
Context (request_module : string -> registry ts_linear_state -> registry ts_linear_state).
Local Notation prepare := (textsearch_prepare try_module_get module_put request_module).

(** A registered algorithm is found, unless its module is going. *)
Lemma prepare_known reg m algo pattern len flags o obj m' f :
  len <> 0 -> by_name reg algo (algos reg) = Some o -> objects reg !! o = Some obj -> try_module_get (owner obj) m = Some m' ->
  init obj = Some f ->
  prepare reg m algo pattern len flags =
    (conf ← f pattern len flags;
     match conf with
     | inl err => Some (inl err, reg, module_put (owner obj) m')
     | inr conf => Some (inr (mkConf o (KernelSearch.flags conf) (get_next_block conf) (finish conf) (priv conf)), reg, m')
     end).
Proof.
  intros Hlen Hb Ho Hm Hi. unfold textsearch_prepare. rewrite (proj2 (Z.eqb_neq len 0)) by done.
  assert (lookup_ts_algo try_module_get reg m algo = Some (o, obj, m')) as ->.
  { unfold lookup_ts_algo. rewrite Hb. cbn [mbind option_bind]. rewrite Ho. cbn [mbind option_bind]. by rewrite Hm. }
  by rewrite Hi.
Qed.

(** A search that could be prepared finds what there is to be found, and gives back the
    module when it is destroyed; one that could not gives it back at once. *)
Lemma search_works reg m algo pattern len flags o obj m' fit :
  Algorithm obj fit ->
  by_name reg algo (algos reg) = Some o -> objects reg !! o = Some obj -> try_module_get (owner obj) m = Some m' ->
  0 < len <= Z.of_nat (length pattern) -> Forall byte_ok pattern -> 5 * len < 2 ^ 32 - 2048 ->
  prepare reg m algo pattern len flags = Some (inl (- ENOMEM), reg, module_put (owner obj) m') \/
  exists conf, prepare reg m algo pattern len flags = Some (inr conf, reg, m') /\
    (o <> 0 -> exists c, textsearch_destroy module_put reg m' conf = Some (c, module_put (owner obj) m')) /\
    let icase := ignores_case flags in let p := folded icase <$> take (Z.to_nat len) pattern in
    forall st data n, 0 <= n <= Z.of_nat (length data) -> fit icase p (take (Z.to_nat n) data) ->
    exists r st' conf', textsearch_find_continuous reg conf st data n = Some (r, st', conf') /\
      finds p (folded icase <$> take (Z.to_nat n) data) 0 r.
Proof.
  intros Ha Hb Ho Hm Hlen Hbytes H32. destruct (algo_works pattern len flags Hlen Hbytes H32) as (f & Hf & Hcase).
  rewrite (prepare_known reg m algo pattern len flags o obj m' f ltac:(lia) Hb Ho Hm Hf). destruct Hcase as [->|(area & -> & Hsearch)]; [by left|right].
  cbn [mbind option_bind]. eexists. split; [done|]. split.
  { intros H0. unfold textsearch_destroy, ops_of. cbn [ops]. rewrite (proj2 (Z.eqb_neq o 0)), Ho by done. by eexists. }
  intros st data n Hn Hfit.
  destruct (Hsearch o data n 0%nat Hn Hfit) as (fd & r & o' & Hfd & Hr & Hfinds).
  unfold textsearch_find_continuous, textsearch_find, textsearch_next, ops_of. cbn [ops KernelSearch.flags finish priv cb].
  rewrite Ho. cbn [mbind option_bind]. rewrite Hfd. cbn [mbind option_bind]. change 0 with (Z.of_nat 0) at 1. rewrite Hr. cbn [mbind option_bind]. by eexists _, _, _.
Qed.
End Client.

End KernelSearch.
