(* ===== verification/KernelKmp.v ===== *)
(** * KernelKmp: the search of Knuth, Morris and Pratt in the board's kernel

    lib/ts_kmp.c: the table of the pattern's borders, and the search, which carries on
    over the ends of the blocks the text comes in. *)

From stdpp Require Import gmap strings.
From S2P Require Import Prelude KernelString KernelSearch.
Import KernelString KernelSearch.

Module KernelKmp.

(** ** lib/ts_kmp.c *)

(** [while (q > 0 && f(pattern[q]) != c) q = prefix_tbl[q - 1];] *)
Fixpoint fall_back (fuel : nat) (f : Z -> Z) (pattern tbl : list Z) (c q : Z) : option Z :=
  match fuel with
  | O => None
  | S fuel =>
      if 0 <? q then
        x ← load pattern q;
        if f x =? c then Some q else q ← load tbl (q - 1); fall_back fuel f pattern tbl c q
      else Some q
  end.

(** The loop, and [if (f(pattern[q]) == c) q++;] *)
Definition advance (fuel : nat) (f : Z -> Z) (pattern tbl : list Z) (c q : Z) : option Z :=
  q ← fall_back fuel f pattern tbl c q;
  x ← load pattern q;
  Some (if f x =? c then u32 (q + 1) else q).

Fixpoint kmp_block (n : nat) (icase : bool) (kmp : ts_kmp) (text : list Z) (i q : Z) : option (Z + Z) :=
  match n with
  | O => Some (inr q)
  | S n =>
      c ← load text i;
      q ← advance (S (Z.to_nat (pattern_len kmp))) id (kmp_pattern kmp) (prefix_tbl kmp) (folded icase c) q;
      if q =? pattern_len kmp then Some (inl i) else kmp_block n icase kmp text (i + 1) q
  end.

Fixpoint kmp_loop {C} (fuel : nat) (icase : bool) (kmp : ts_kmp) (next : block_fun C) (state : ts_state C) (consumed q : Z) :
    option (Z * ts_state C) :=
  match fuel with
  | O => None
  | S fuel =>
      let '(text_len, text, c) := next consumed (cb state) in
      let state := mkState (offset state) c in
      if text_len =? 0 then Some (UINT_MAX, state)
      else
        r ← kmp_block (Z.to_nat text_len) icase kmp text 0 q;
        match r with
        | inl i =>
            let state := mkState (u32 (consumed + i + 1)) c in
            Some (u32 (offset state - pattern_len kmp), state)
        | inr q => kmp_loop fuel icase kmp next state (u32 (consumed + text_len)) q
        end
  end.

(** [fuel] bounds the number of blocks. *)
Definition kmp_find {C} (fuel : nat) (conf : ts_config C) (state : ts_state C) : option (Z * ts_state C) :=
  match priv conf with
  | Kmp kmp =>
      next ← get_next_block conf;
      kmp_loop fuel (ignores_case (flags conf)) kmp next state (offset state) 0
  | _ => None
  end.

Fixpoint prefix_loop (n fuel : nat) (f : Z -> Z) (pattern tbl : list Z) (k q : Z) : option (list Z) :=
  match n with
  | O => Some tbl
  | S n =>
      c ← load pattern q;
      k ← advance fuel f pattern tbl (f c) k;
      tbl ← set_at tbl q k;
      prefix_loop n fuel f pattern tbl k (q + 1)
  end.

Definition kmp_prefix_tbl (pattern : list Z) (len : Z) (tbl : list Z) (flags : Z) : option (list Z) :=
  prefix_loop (Z.to_nat (len - 1)) (S (Z.to_nat len)) (folded (ignores_case flags)) pattern tbl 0 1.

(** Two words, the table and the pattern; the area is zeroed. *)
Definition kmp_init {C} (kzalloc : Z -> bool) (pattern : list Z) (len flags : Z) : option (conf_or_err C) :=
  let prefix_tbl_len := u32 (len * 4) in
  let priv_size := u32 (8 + len + prefix_tbl_len) in
  match alloc_ts_config kzalloc priv_size with
  | inl err => Some (inl err)
  | inr conf =>
      match priv conf with
      | Blank size =>
          if size <? 8 then None
          else
            tbl ← kmp_prefix_tbl pattern len (replicate (Z.to_nat ((size - 8) `div` 4)) 0) flags;
            pat ← copy_pattern pattern len flags (size - 8 - prefix_tbl_len);
            Some (inr (mkConf (ops conf) flags (get_next_block conf) (finish conf) (Kmp (mkKmp pat len tbl))))
      | _ => None
      end
  end.

Definition kmp_get_pattern {C} (conf : ts_config C) : option (list Z) :=
  match priv conf with Kmp kmp => Some (kmp_pattern kmp) | _ => None end.

Definition kmp_get_pattern_len {C} (conf : ts_config C) : option Z :=
  match priv conf with Kmp kmp => Some (pattern_len kmp) | _ => None end.

Definition kmp_ops {C} (fuel : nat) (kzalloc : Z -> bool) (this_module : Z) : ts_ops C :=
  mkOps (Some "kmp"%string) (Some (kmp_init kzalloc)) (Some (kmp_find fuel)) None
    (Some kmp_get_pattern) (Some kmp_get_pattern_len) this_module.

(** ** Prefixes that are suffixes *)

Lemma suffix_shorter (a b t : list Z) :
  a `suffix_of` t -> b `suffix_of` t -> (length a <= length b)%nat -> a `suffix_of` b.
Proof.
  intros [k ->] [k' Hk] Hlen. apply app_eq_app in Hk as (l & [[-> ->]|[-> ->]]); [by exists l|].
  rewrite length_app in Hlen. destruct l; [by exists []|simpl in Hlen; lia].
Qed.

Lemma suffix_snoc_iff (a t : list Z) x y : a ++ [x] `suffix_of` t ++ [y] <-> a `suffix_of` t /\ x = y.
Proof.
  split.
  - intros [k Hk]. rewrite app_assoc in Hk. apply app_inj_tail in Hk as [-> ->]. split; [by exists k|done].
  - intros [[k ->] ->]. exists k. by rewrite app_assoc.
Qed.

Section Borders.
Context (p : list Z).

(** [q] is the longest start of [p], not all of it, at the end of [t]. *)
Definition best (t : list Z) (q : nat) : Prop :=
  (q < length p)%nat /\ take q p `suffix_of` t /\
  forall q', (q' <= length p)%nat -> take q' p `suffix_of` t -> (q' <= q)%nat.

(** The first [n] entries of the table: the longest proper border of each start. *)
Definition table_ok (tbl : list Z) (n : nat) : Prop :=
  forall q, (0 < q <= n)%nat -> exists k, tbl !! (q - 1)%nat = Some (Z.of_nat k) /\ (k < q)%nat /\
    take k p `suffix_of` take q p /\ forall k', (k' < q)%nat -> take k' p `suffix_of` take q p -> (k' <= k)%nat.

Context (f : Z -> Z) (pattern : list Z).
Hypothesis Hp : p `prefix_of` (f <$> pattern).

Lemma load_pattern q : (q < length p)%nat -> exists x, load pattern (Z.of_nat q) = Some x /\ p !! q = Some (f x).
Proof.
  intros Hq. destruct (lookup_lt_is_Some_2 p q Hq) as [y Hy]. pose proof (prefix_lookup_Some _ _ _ _ Hy Hp) as H.
  rewrite list_lookup_fmap in H. apply fmap_Some in H as (x & Hx & ->). exists x.
  unfold load. by rewrite (proj2 (Z.leb_le 0 _)), Nat2Z.id by lia.
Qed.

Lemma fall_back_spec tbl n c q fuel :
  table_ok tbl n -> (q <= n)%nat -> (q < length p)%nat -> (q < fuel)%nat ->
  exists q', fall_back fuel f pattern tbl c (Z.of_nat q) = Some (Z.of_nat q') /\ (q' <= q)%nat /\
    take q' p `suffix_of` take q p /\ (q' = 0%nat \/ p !! q' = Some c) /\
    forall k, (k <= q)%nat -> take k p `suffix_of` take q p -> p !! k = Some c -> (k <= q')%nat.
Proof.
  intros Ht. revert q. induction fuel as [|fuel IH]; intros q Hn Hq Hf; [lia|]. cbn [fall_back].
  destruct (Z.ltb_spec 0 (Z.of_nat q)) as [H0|H0].
  2: { exists q. split_and!; [done|lia|done|left; lia|lia]. }
  destruct (load_pattern q Hq) as (x & -> & Hx). cbn [mbind option_bind].
  destruct (Z.eqb_spec (f x) c) as [<-|Hc].
  { exists q. split_and!; [done|lia|done|by right|done]. }
  destruct (Ht q) as (k & Hk & Hkq & Hsuf & Hmax); [lia|].
  assert (load tbl (Z.of_nat q - 1) = Some (Z.of_nat k)) as ->.
  { unfold load. rewrite (proj2 (Z.leb_le 0 _)) by lia. by replace (Z.to_nat (Z.of_nat q - 1)) with (q - 1)%nat by lia. }
  cbn [mbind option_bind]. destruct (IH k) as (q' & -> & Hq' & Hs' & Hm & Hall); [lia..|].
  exists q'. split_and!; [done|lia|by etrans|done|]. intros j Hj Hsj Hjc.
  destruct (decide (j = q)) as [->|]; [congruence|].
  assert (Hjk : (j <= k)%nat) by (apply Hmax; [lia|done]). apply Hall; [done| |done].
  apply (suffix_shorter _ _ (take q p)); [done..|]. rewrite !length_take. lia.
Qed.

Lemma take_snoc q x : p !! q = Some x -> take (S q) p = take q p ++ [x].
Proof. apply take_S_r. Qed.

(** One more character: from the longest start to the longest start, or all of [p]. *)
Lemma advance_spec tbl n t c q fuel :
  Z.of_nat (length p) < 2 ^ 32 -> table_ok tbl n -> (q <= n)%nat -> (q < fuel)%nat -> best t q ->
  exists q', advance fuel f pattern tbl c (Z.of_nat q) = Some (Z.of_nat q') /\ (q' <= length p)%nat /\
    take q' p `suffix_of` t ++ [c] /\
    forall k, (k <= length p)%nat -> take k p `suffix_of` t ++ [c] -> (k <= q')%nat.
Proof.
  intros Hlen Ht Hn Hf (Hq & Hs & Hmax). unfold advance.
  destruct (fall_back_spec tbl n c q fuel Ht Hn Hq Hf) as (r & -> & Hr & Hsr & Hm & Hall). cbn [mbind option_bind].
  destruct (load_pattern r) as (x & -> & Hx); [lia|]. cbn [mbind option_bind].
  assert (Hup : forall k, (k <= length p)%nat -> take k p `suffix_of` t ++ [c] -> k = 0%nat \/ (k <= S r /\ p !! r = Some c)%nat).
  { intros [|k] Hk Hsk; [by left|right]. destruct (lookup_lt_is_Some_2 p k) as [y Hy]; [lia|].
    rewrite (take_snoc k y Hy) in Hsk. apply suffix_snoc_iff in Hsk as [Hsk ->].
    assert (Hkq : (k <= q)%nat) by (apply Hmax; [lia|done]).
    assert (Hkr : (k <= r)%nat).
    { apply Hall; [done| |done]. apply (suffix_shorter _ _ t); [done..|]. rewrite !length_take. lia. }
    split; [lia|]. destruct Hm as [->|Hm]; [|done]. by replace k with 0%nat in Hy by lia. }
  destruct (Z.eqb_spec (f x) c) as [<-|Hc].
  - exists (S r). split_and!; [|lia| |].
    + f_equal. unfold u32. rewrite Z.mod_small; lia.
    + rewrite (take_snoc r (f x) Hx). apply suffix_snoc_iff. split; [|done]. by etrans.
    + intros k Hk Hsk. destruct (Hup k Hk Hsk) as [->|[? _]]; lia.
  - exists r. destruct Hm as [->|Hm]; [|congruence]. split_and!; [done|lia|apply suffix_nil|].
    intros k Hk Hsk. destruct (Hup k Hk Hsk) as [->|[_ ?]]; [lia|congruence].
Qed.

(** The starts of [p] at the end of all of it but the first character are its borders. *)
Lemma border_iff q k : (0 < q <= length p)%nat -> (k < q)%nat ->
  take k p `suffix_of` take q p <-> take k p `suffix_of` drop 1 (take q p).
Proof.
  intros Hq Hk. destruct (take q p) as [|x l] eqn:E; [done|]. simpl. rewrite drop_0. split; [|apply suffix_cons_r].
  apply (f_equal length) in E as Hl. rewrite length_take in Hl. simpl in Hl.
  intros Hs. apply (suffix_shorter _ _ (x :: l)); [done|by apply suffix_cons_r|]. rewrite length_take. lia.
Qed.

Lemma prefix_loop_spec n fuel tbl k q :
  Z.of_nat (length p) < 2 ^ 32 -> (length p <= length tbl)%nat -> (length p < fuel)%nat ->
  (0 < q)%nat -> (q + n = length p)%nat -> (k < q)%nat -> best (drop 1 (take q p)) k -> table_ok tbl q ->
  exists tbl', prefix_loop n fuel f pattern tbl (Z.of_nat k) (Z.of_nat q) = Some tbl' /\ table_ok tbl' (length p).
Proof.
  intros Hlen Htbl Hfuel. revert tbl k q Htbl. induction n as [|n IH]; intros tbl k q Htbl H0 Hq Hk Hb Ht; cbn [prefix_loop].
  { exists tbl. split; [done|]. by replace (length p) with q by lia. }
  destruct (load_pattern q) as (x & -> & Hx); [lia|]. cbn [mbind option_bind].
  destruct (advance_spec tbl q (drop 1 (take q p)) (f x) k fuel Hlen Ht) as (k' & -> & Hk' & Hs & Hmax); [lia|lia|done|]. cbn [mbind option_bind].
  assert (Hd : drop 1 (take q p) ++ [f x] = drop 1 (take (S q) p)).
  { rewrite (take_snoc q (f x) Hx), drop_app_le; [done|]. rewrite length_take. lia. }
  rewrite Hd in *. assert (Hkq : (k' < S q)%nat).
  { destruct Hs as [l Hs]. apply (f_equal length) in Hs. rewrite length_app, length_drop, !length_take in Hs. lia. }
  unfold set_at. rewrite (proj2 (Z.leb_le 0 _)), (proj2 (Z.ltb_lt _ _)), Nat2Z.id by lia. cbn [andb mbind option_bind].
  replace (Z.of_nat q + 1) with (Z.of_nat (S q)) by lia.
  apply IH; [by rewrite length_insert|lia..| |].
  - split; [lia|]. split; [done|]. intros r Hr. by apply Hmax.
  - intros r Hr. destruct (decide (r = S q)) as [->|].
    + exists k'. split; [simpl; rewrite Nat.sub_0_r; apply list_lookup_insert_eq; lia|]. split; [done|].
      split; [by apply border_iff; [lia..|]|]. intros j Hj Hjs. apply border_iff in Hjs; [|lia..]. apply Hmax; [lia|done].
    + destruct (Ht r) as (j & Hj & Hrest); [lia|]. exists j. split; [|done]. rewrite list_lookup_insert_ne by lia. done.
Qed.

End Borders.

(** ** The table that [kmp_init] builds *)

Definition kmp_ok (kmp : ts_kmp) (p : list Z) : Prop :=
  kmp_pattern kmp = p /\ pattern_len kmp = Z.of_nat (length p) /\ table_ok p (prefix_tbl kmp) (length p).

Lemma prefix_tbl_spec pattern len m flags :
  0 < len <= Z.of_nat (length pattern) -> len < 2 ^ 32 -> (Z.to_nat len <= m)%nat ->
  exists tbl, kmp_prefix_tbl pattern len (replicate m 0) flags = Some tbl /\
    table_ok (folded (ignores_case flags) <$> take (Z.to_nat len) pattern) tbl (Z.to_nat len).
Proof.
  intros Hlen H32 Hm. set (f := folded (ignores_case flags)). set (p := f <$> take (Z.to_nat len) pattern).
  assert (Hl : length p = Z.to_nat len) by (unfold p; rewrite length_fmap, length_take; lia).
  unfold kmp_prefix_tbl. rewrite <- Hl. apply (prefix_loop_spec p f pattern) with (k := 0%nat) (q := 1%nat).
  - unfold p. rewrite <- (take_drop (Z.to_nat len) pattern) at 2. rewrite fmap_app. by apply prefix_app_r.
  - lia.
  - rewrite length_replicate. lia.
  - lia.
  - lia.
  - lia.
  - lia.
  - destruct p as [|x l]; [simpl in Hl; lia|]. simpl. split; [simpl; lia|]. split; [apply suffix_nil|].
    intros q Hq [k Hk]. apply (f_equal length) in Hk. rewrite length_app, length_take in Hk. simpl in *. lia.
  - intros q Hq. replace q with 1%nat by lia. exists 0%nat. split; [apply lookup_replicate_2; lia|]. split; [lia|].
    split; [apply suffix_nil|]. lia.
Qed.

(** [kmp_init], if the size of the area does not overflow. *)
Lemma kmp_init_spec {C} kzalloc pattern len flags :
  0 < len <= Z.of_nat (length pattern) -> 24 + 5 * len < 2 ^ 32 ->
  (kzalloc (24 + 5 * len) = false /\ @kmp_init C kzalloc pattern len flags = Some (inl (- ENOMEM))) \/
  (kzalloc (24 + 5 * len) = true /\
   exists kmp, @kmp_init C kzalloc pattern len flags = Some (inr (mkConf 0 flags None None (Kmp kmp))) /\
     kmp_ok kmp (folded (ignores_case flags) <$> take (Z.to_nat len) pattern)).
Proof.
  intros Hlen H32. unfold kmp_init, alloc_ts_config.
  assert (Hs : forall z, 0 <= z < 2 ^ 32 -> u32 z = z) by (intros; by apply Z.mod_small).
  change (TS_PRIV_ALIGN sizeof_ts_config) with 16.
  rewrite (Hs (len * 4)), (Hs (8 + len + len * 4)), (Hs (16 + _)) by lia.
  replace (16 + (8 + len + len * 4)) with (24 + 5 * len) by lia.
  destruct (kzalloc (24 + 5 * len)); [right|by left]. split; [done|]. cbn [priv].
  case_bool; to_prop; [lia|].
  destruct (prefix_tbl_spec pattern len (Z.to_nat ((24 + 5 * len - 16 - 8) `div` 4)) flags) as (tbl & -> & Ht); [done|lia| |].
  { apply Z2Nat.inj_le; [lia|apply Z.div_pos; lia|]. apply Z.div_le_lower_bound; lia. }
  cbn [mbind option_bind]. unfold copy_pattern. rewrite !(proj2 (Z.leb_le _ _)) by lia. cbn [andb mbind option_bind].
  eexists. split; [reflexivity|]. split; [done|]. rewrite length_fmap, length_take. split; [simpl; lia|]. simpl.
  by replace (Z.to_nat len `min` length pattern)%nat with (Z.to_nat len) by lia.
Qed.

(** The size is computed without a check: here 8 bytes are asked for. *)
Lemma kmp_init_overflows {C} kzalloc pattern flags :
  kzalloc 8 = true -> @kmp_init C kzalloc pattern 858993456 flags = None.
Proof.
  intros H. unfold kmp_init, alloc_ts_config. change (TS_PRIV_ALIGN sizeof_ts_config) with 16.
  replace (u32 (16 + _)) with 8 by (by vm_compute). rewrite H. cbn [priv]. by rewrite (proj2 (Z.ltb_lt (8 - 16) 8)) by lia.
Qed.

(** ** The search *)

Section Find.
Context (kmp : ts_kmp) (p : list Z) (icase : bool).
Hypothesis Hkmp : kmp_ok kmp p.
Hypothesis Hp : p <> [].
Hypothesis Hlen : Z.of_nat (length p) < 2 ^ 32.

(** [n] characters of [s] are read without a match. *)
Definition seen (s : list Z) (n q : nat) : Prop :=
  best p (take n s) q /\ forall j, (j + length p <= n)%nat -> ~ occurs p s j.

Lemma seen_0 s : seen s 0 0.
Proof.
  assert (length p <> 0%nat) by by destruct p. split; [|lia]. split; [lia|]. split; [apply suffix_nil|].
  intros q Hq [k Hk]. rewrite take_0 in Hk. apply (f_equal length) in Hk. rewrite length_app, length_take in Hk. simpl in Hk. lia.
Qed.

(** One character: a match at its end, or none yet. *)
Lemma seen_step s n q c :
  seen s n q -> s !! n = Some c ->
  exists q', advance (S (Z.to_nat (pattern_len kmp))) id (kmp_pattern kmp) (prefix_tbl kmp) c (Z.of_nat q) = Some (Z.of_nat q') /\
    (q' = length p /\ (length p <= S n)%nat /\ first_from p s 0 (S n - length p) \/ (q' < length p)%nat /\ seen s (S n) q').
Proof.
  destruct Hkmp as (-> & -> & Ht). intros [Hb Hno] Hc. pose proof (lookup_lt_Some _ _ _ Hc) as Hn.
  destruct (advance_spec p id p ltac:(by rewrite list_fmap_id) _ _ (take n s) c q (S (Z.to_nat (Z.of_nat (length p)))) Hlen Ht)
    as (q' & -> & Hq' & Hs & Hmax); [destruct Hb; lia..|done|].
  rewrite <- (take_S_r _ _ _ Hc) in *. exists q'. split; [done|].
  destruct (decide (q' = length p)) as [->|Hne]; [left|right].
  - rewrite take_ge in Hs by lia. assert (Hl : (length p <= S n)%nat).
    { destruct Hs as [k Hs]. apply (f_equal length) in Hs. rewrite length_app, length_take in Hs. lia. }
    split; [done|]. split; [done|]. split; [lia|]. split.
    + apply occurs_suffix; [lia|]. by replace (S n - length p + length p)%nat with (S n) by lia.
    + intros j Hj. apply Hno. lia.
  - split; [lia|]. split; [split; [lia|]; by split|]. intros j Hj Ho.
    destruct (decide (j + length p = S n)%nat) as [Hj'|]; [|apply (Hno j); [lia|done]].
    apply occurs_suffix in Ho; [|lia]. rewrite Hj' in Ho. assert (length p <= q')%nat; [|lia].
    apply Hmax; [done|]. by rewrite take_ge by lia.
Qed.

Lemma kmp_block_spec s d b n i q :
  (forall k, (k < n)%nat -> exists c, d !! (i + k)%nat = Some c /\ s !! (b + k)%nat = Some (folded icase c)) -> seen s b q ->
  (exists k, kmp_block n icase kmp d (Z.of_nat i) (Z.of_nat q) = Some (inl (Z.of_nat (i + k))) /\ (k < n)%nat /\
     (length p <= S (b + k))%nat /\ first_from p s 0 (S (b + k) - length p)) \/
  (exists q', kmp_block n icase kmp d (Z.of_nat i) (Z.of_nat q) = Some (inr (Z.of_nat q')) /\ seen s (b + n) q').
Proof.
  revert b i q. induction n as [|n IH]; intros b i q Hd Hseen; cbn [kmp_block].
  { right. exists q. by rewrite Nat.add_0_r. }
  destruct (Hd 0%nat) as (c & Hdc & Hc); [lia|]. rewrite !Nat.add_0_r in *.
  unfold load at 1 2. rewrite (proj2 (Z.leb_le 0 _)), Nat2Z.id, Hdc by lia. cbn [mbind option_bind].
  destruct (seen_step s b q _ Hseen Hc) as (q' & -> & Hq'). cbn [mbind option_bind].
  replace (pattern_len kmp) with (Z.of_nat (length p)) by (symmetry; apply Hkmp).
  destruct Hq' as [(-> & Hl & Hf)|[Hq' Hs]].
  - rewrite Z.eqb_refl. left. exists 0%nat. rewrite !Nat.add_0_r. split_and!; [done|lia|done|done].
  - rewrite (proj2 (Z.eqb_neq _ _)) by lia. replace (Z.of_nat i + 1) with (Z.of_nat (S i)) by lia.
    destruct (IH (S b) (S i) q') as [(k & -> & Hk & Hl & Hf)|(q2 & -> & Hs2)]; [|done|left|right].
    + intros k Hk. destruct (Hd (S k)) as (c' & H1 & H2); [lia|]. exists c'.
      by replace (S i + k)%nat with (i + S k)%nat by lia; replace (S b + k)%nat with (b + S k)%nat by lia.
    + exists (S k). replace (b + S k)%nat with (S b + k)%nat by lia. split_and!; [do 3 f_equal; lia|lia|done|done].
    + exists q2. split; [done|]. by replace (b + S n)%nat with (S b + n)%nat by lia.
Qed.

Lemma block_chars (text d : list Z) o b n :
  take n d = take n (drop (o + b) text) -> (o + b + n <= length text)%nat ->
  forall k, (k < n)%nat -> exists c, d !! (0 + k)%nat = Some c /\ (folded icase <$> drop o text) !! (b + k)%nat = Some (folded icase c).
Proof.
  intros Hd Hn k Hk. destruct (lookup_lt_is_Some_2 text (o + b + k)) as [c Hc]; [lia|]. exists c. split.
  - rewrite <- (lookup_take_lt d n) by lia. rewrite Hd, lookup_take_lt, lookup_drop by lia. done.
  - rewrite list_lookup_fmap, lookup_drop, Nat.add_assoc, Hc. done.
Qed.

Lemma kmp_loop_spec {C} (next : block_fun C) ok text fuel st o b q :
  Delivers next ok text -> Z.of_nat (length text) < 2 ^ 32 -> ok (cb st) -> offset st = Z.of_nat o ->
  (o + b <= length text \/ b = 0)%nat -> (length text - (o + b) < fuel)%nat -> seen (folded icase <$> drop o text) b q ->
  exists r st', kmp_loop fuel icase kmp next st (Z.of_nat (o + b)) (Z.of_nat q) = Some (r, st') /\ ok (cb st') /\
    answers p (folded icase <$> text) o r (offset st').
Proof.
  intros Hnext H32. revert st b q. induction fuel as [|fuel IH]; intros st b q Hok Ho Hb Hf Hs; [lia|]. cbn [kmp_loop].
  destruct (next (Z.of_nat (o + b)) (cb st)) as [[n d] c] eqn:E.
  destruct (Hnext _ _ _ _ _ Hok E) as (Hc & Hn & Hpos & Hend & Hd).
  case_bool; to_prop.
  - subst n. eexists _, _. split; [done|]. split; [done|]. left. split; [done|]. split; [done|]. apply nowhere_drop.
    rewrite <- fmap_drop. intros j _ Hj. apply occurs_length in Hj as Hl; [|done]. rewrite length_fmap, length_drop in Hl.
    assert (~ (o + b < length text)%nat) by lia. apply (proj2 Hs j); [|done]. assert (length p <> 0%nat) by by destruct p. lia.
  - change 0 with (Z.of_nat 0) at 1.
    destruct (kmp_block_spec (folded icase <$> drop o text) d b (Z.to_nat n) 0 q) as [(k & -> & Hk & Hl & Hi)|(q' & -> & Hs')];
      [by apply block_chars; [|lia]|done|..]; cbn [mbind option_bind offset].
    + eexists _, _. split; [done|]. split; [done|]. right. exists (o + (S (b + k) - length p))%nat. cbn [offset].
      replace (pattern_len kmp) with (Z.of_nat (length p)) by (symmetry; apply Hkmp). unfold u32.
      rewrite (Z.mod_small (_ + 1)) by lia. rewrite Z.mod_small by lia. split; [lia|]. split; [lia|].
      apply first_from_drop. by rewrite <- fmap_drop.
    + replace (u32 (Z.of_nat (o + b) + n)) with (Z.of_nat (o + (b + Z.to_nat n))) by (unfold u32; rewrite Z.mod_small; lia).
      apply (IH (mkState (offset st) c)); [done|done|left; lia|lia|done].
Qed.

Lemma kmp_find_spec {C} (next : block_fun C) ok text fuel conf st o :
  Delivers next ok text -> Z.of_nat (length text) < 2 ^ 32 -> (length text < fuel)%nat ->
  priv conf = Kmp kmp -> get_next_block conf = Some next -> ignores_case (flags conf) = icase ->
  ok (cb st) -> offset st = Z.of_nat o ->
  exists r st', kmp_find fuel conf st = Some (r, st') /\ ok (cb st') /\ answers p (folded icase <$> text) o r (offset st').
Proof.
  intros Hnext H32 Hf Hpriv Hg Hi Hok Ho. unfold kmp_find. rewrite Hpriv, Hg, Hi, Ho. cbn [mbind option_bind].
  replace (Z.of_nat o) with (Z.of_nat (o + 0)) by lia.
  apply (kmp_loop_spec next ok text fuel st o 0 0); [done..|by right|lia|apply seen_0].
Qed.

End Find.

(** ** The promise *)

Definition kmp_fit (fuel : nat) (icase : bool) (p text : list Z) : Prop :=
  (length text < fuel)%nat /\ Z.of_nat (length text) < 2 ^ 32.

#[export] Instance kmp_algorithm fuel kzalloc this_module : Algorithm (kmp_ops fuel kzalloc this_module) (kmp_fit fuel).
Proof.
  split; [done|]. intros pattern len flags Hlen Hbytes H32. exists (kmp_init kzalloc). split; [done|].
  destruct (@kmp_init_spec ts_linear_state kzalloc pattern len flags Hlen ltac:(lia)) as [[_ ->]|[_ (kmp & -> & Hkmp)]]; [by left|right].
  eexists. split; [done|]. intros icase p ptr data n o Hn [Hf Ht].
  assert (Hl : length p = Z.to_nat len) by (unfold p; rewrite length_fmap, length_take; lia).
  destruct (kmp_find_spec kmp p icase Hkmp) with (next := get_linear_data) (ok := fun st => st = mkLinear n data)
    (text := take (Z.to_nat n) data) (fuel := fuel) (conf := mkConf ptr flags (Some get_linear_data) None (Kmp kmp))
    (st := mkState (Z.of_nat o) (mkLinear n data)) (o := o) as (r & [o' c] & E & Hc & Hr);
    [destruct p; [simpl in Hl; lia|done]|lia|by apply linear_delivers|done..|].
  simpl in Hc. subst c. exists (kmp_find fuel), r, o'. split; [done|]. split; [done|]. by eapply answers_finds.
Qed.

(** The search of Knuth, Morris and Pratt is right however the text is cut into
    blocks: with the area [kmp_init] prepared, [kmp_find] answers where the pattern stands
    first from the search's offset on, or [UINT_MAX] if it stands nowhere, and sets the
    offset behind what it found, so that the next call goes on there.  With
    [TS_IGNORECASE] the same holds of the pattern and the text in capitals.  The callback
    is assumed to hand over the text from where it is asked, in pieces of any size. *)
Theorem kmp_finds_in_blocks {C} (next : block_fun C) ok text kzalloc pattern len flags
    (conf : ts_config C) fin fuel st (o : nat) :
  Delivers next ok text -> Z.of_nat (length text) < 2 ^ 32 -> (length text < fuel)%nat ->
  0 < len <= Z.of_nat (length pattern) -> 24 + 5 * len < 2 ^ 32 ->
  kmp_init kzalloc pattern len flags = Some (inr conf) -> ok (cb st) -> offset st = Z.of_nat o ->
  let fold := folded (ignores_case flags) in
  exists r st', kmp_find fuel (mkConf (ops conf) flags (Some next) fin (priv conf)) st = Some (r, st') /\ ok (cb st') /\
    answers (fold <$> take (Z.to_nat len) pattern) (fold <$> text) o r (offset st').
Proof.
  intros Hnext Ht Hf Hlen H32 Hi Hok Ho fold.
  destruct (@kmp_init_spec C kzalloc pattern len flags Hlen H32) as [[_ E]|[_ (kmp & E & Hkmp)]]; rewrite E in Hi; [done|].
  injection Hi as <-. assert (Hl : length (fold <$> take (Z.to_nat len) pattern) = Z.to_nat len) by (rewrite length_fmap, length_take; lia).
  eapply (kmp_find_spec kmp _ (ignores_case flags) Hkmp); try done; [|fold fold; lia].
  intros E'. fold fold in E'. rewrite E' in Hl. simpl in Hl. lia.
Qed.

(** "aba" in the text "abaababa", which comes three bytes at a time, from 1 on. *)
Definition some_conf : ts_config unit :=
  match kmp_init (fun _ => true) [97; 98; 97] 3 0 with Some (inr conf) => conf | _ => mkConf 0 0 None None (Blank 0) end.

Lemma kmp_finds_in_blocks_witness :
  exists r st', kmp_find 9 (mkConf 0 0 (Some (three_bytes [97; 98; 97; 97; 98; 97; 98; 97])) None (priv some_conf)) (mkState 1 tt) =
    Some (r, st') /\ answers [97; 98; 97] [97; 98; 97; 97; 98; 97; 98; 97] 1 r (offset st').
Proof.
  destruct (kmp_finds_in_blocks (three_bytes [97; 98; 97; 97; 98; 97; 98; 97]) (fun _ => True) [97; 98; 97; 97; 98; 97; 98; 97]
    (fun _ => true) [97; 98; 97] 3 0 some_conf None 9 (mkState 1 tt) 1) as (r & st' & E & _ & H);
    [apply three_bytes_deliver|by simpl; lia|simpl; lia|simpl; lia|lia|by vm_compute|done|done|].
  exists r, st'. split; [exact E|exact H].
Defined.

Example kmp_runs :
  kmp_find 9 (mkConf 0 0 (Some (three_bytes [97; 98; 97; 97; 98; 97; 98; 97])) None (priv some_conf)) (mkState 1 tt) =
    Some (3, mkState 6 tt).
Proof. by vm_compute. Qed.

End KernelKmp.
