(* ===== verification/KernelBm.v ===== *)
(** * KernelBm: the search of Boyer and Moore in the board's kernel

    lib/ts_bm.c: the tables of how far the pattern can be moved, by the character that
    does not match and by the characters that do, and the search. *)

From stdpp Require Import gmap strings.
From S2P Require Import Prelude KernelString KernelSearch.
Import KernelString KernelSearch.

Module KernelBm.

(** ** lib/ts_bm.c *)

Definition ASIZE : Z := 256.

(** How many characters match, from the end of the pattern; [None] behind [Some] is the
    whole pattern. *)
Fixpoint match_back (n : nat) (icase : bool) (bm : ts_bm) (text : list Z) (shift i : Z) : option (option Z) :=
  match n with
  | O => Some None
  | S n =>
      c ← load text (shift - i);
      x ← load (bm_pattern bm) (patlen bm - 1 - i);
      if folded icase c =? x then match_back n icase bm text shift (i + 1) else Some (Some i)
  end.

(** The inner loop: the end of a match, or where the next block is looked at first. *)
Fixpoint bm_block (fuel : nat) (icase : bool) (bm : ts_bm) (text : list Z) (text_len shift : Z) : option (Z + Z) :=
  match fuel with
  | O => None
  | S fuel =>
      if u32 shift <? text_len then
        r ← match_back (Z.to_nat (patlen bm)) icase bm text shift 0;
        match r with
        | None => Some (inl shift)
        | Some i =>
            c ← load text (shift - i);
            bs ← load (bad_shift bm) c;
            gs ← load (good_shift bm) i;
            bm_block fuel icase bm text text_len (Z.max (i32 (shift - i + bs)) (i32 (shift + gs)))
        end
      else Some (inr shift)
  end.

Fixpoint bm_loop {C} (fuel : nat) (icase : bool) (bm : ts_bm) (next : block_fun C) (state : ts_state C) (consumed shift : Z) :
    option (Z * ts_state C) :=
  match fuel with
  | O => None
  | S fuel =>
      let '(text_len, text, c) := next consumed (cb state) in
      let state := mkState (offset state) c in
      if text_len =? 0 then Some (UINT_MAX, state)
      else
        r ← bm_block (S (Z.to_nat text_len)) icase bm text text_len shift;
        match r with
        | inl shift => Some (u32 (consumed + (shift - (patlen bm - 1))), state)
        | inr shift => bm_loop fuel icase bm next state (u32 (consumed + text_len)) shift
        end
  end.

Definition bm_find {C} (fuel : nat) (conf : ts_config C) (state : ts_state C) : option (Z * ts_state C) :=
  match priv conf with
  | Bm bm =>
      next ← get_next_block conf;
      bm_loop fuel (ignores_case (flags conf)) bm next state (offset state) (i32 (patlen bm - 1))
  | _ => None
  end.

Fixpoint sub_loop (fuel : nat) (pattern : list Z) (i j x y g : Z) : option bool :=
  match fuel with
  | O => None
  | S fuel =>
      a ← load pattern x;
      b ← load pattern y;
      if a =? b then
        if y - 1 <? 0 then Some true
        else if g - 1 =? 0 then
          a ← load pattern (i - 1);
          b ← load pattern (j - 1);
          Some (negb (a =? b))
        else sub_loop fuel pattern i j (x - 1) (y - 1) (g - 1)
      else Some false
  end.

Definition subpattern (pattern : list Z) (i j g : Z) : option bool :=
  sub_loop (Z.to_nat (j + g)) pattern i j (i + g - 1) (j + g - 1) g.

Fixpoint bad_loop (n : nat) (icase : bool) (pattern : list Z) (patlen i : Z) (tbl : list Z) : option (list Z) :=
  match n with
  | O => Some tbl
  | S n =>
      c ← load pattern i;
      tbl ← set_at tbl c (patlen - 1 - i);
      tbl ← (if icase then set_at tbl (tolower c) (patlen - 1 - i) else Some tbl);
      bad_loop n icase pattern patlen (i + 1) tbl
  end.

Fixpoint fill_loop (n : nat) (patlen i : Z) (tbl : list Z) : option (list Z) :=
  match n with
  | O => Some tbl
  | S n => tbl ← set_at tbl i patlen; fill_loop n patlen (i + 1) tbl
  end.

(** [for (j = i - 1; j >= 1 - g; j--)]: the first [j] with a subpattern. *)
Fixpoint good_inner (n : nat) (pattern : list Z) (patlen i g j : Z) (tbl : list Z) : option (list Z) :=
  match n with
  | O => Some tbl
  | S n =>
      s ← subpattern pattern i j g;
      if s : bool then set_at tbl g (patlen - j - g) else good_inner n pattern patlen i g (j - 1) tbl
  end.

Fixpoint good_outer (n : nat) (pattern : list Z) (patlen i g : Z) (tbl : list Z) : option (list Z) :=
  match n with
  | O => Some tbl
  | S n =>
      tbl ← good_inner (Z.to_nat (i - 1 - (1 - g) + 1)) pattern patlen i g (i - 1) tbl;
      good_outer n pattern patlen (i - 1) (g + 1) tbl
  end.

(** [bad_shift] and [good_shift]; the latter is the area [tbl]. *)
Definition bm_prefix_tbl (pattern : list Z) (patlen : Z) (tbl : list Z) (flags : Z) : option (list Z * list Z) :=
  bad ← bad_loop (Z.to_nat (patlen - 1)) (ignores_case flags) pattern patlen 0 (replicate (Z.to_nat ASIZE) patlen);
  good ← set_at tbl 0 1;
  good ← fill_loop (Z.to_nat (patlen - 1)) patlen 1 good;
  good ← good_outer (Z.to_nat (patlen - 1)) pattern patlen (patlen - 1) 1 good;
  Some (bad, good).

(** Two words and [bad_shift], then [good_shift] and the pattern. *)
Definition bm_init {C} (kzalloc : Z -> bool) (pattern : list Z) (len flags : Z) : option (conf_or_err C) :=
  let prefix_tbl_len := u32 (len * 4) in
  let priv_size := u32 (8 + 4 * ASIZE + len + prefix_tbl_len) in
  match alloc_ts_config kzalloc priv_size with
  | inl err => Some (inl err)
  | inr conf =>
      match priv conf with
      | Blank size =>
          if size <? 8 + 4 * ASIZE then None
          else
            pat ← copy_pattern pattern len flags (size - (8 + 4 * ASIZE) - prefix_tbl_len);
            '(bad, good) ← bm_prefix_tbl pat len (replicate (Z.to_nat ((size - (8 + 4 * ASIZE)) `div` 4)) 0) flags;
            Some (inr (mkConf (ops conf) flags (get_next_block conf) (finish conf) (Bm (mkBm pat len bad good))))
      | _ => None
      end
  end.

Definition bm_get_pattern {C} (conf : ts_config C) : option (list Z) :=
  match priv conf with Bm bm => Some (bm_pattern bm) | _ => None end.

Definition bm_get_pattern_len {C} (conf : ts_config C) : option Z :=
  match priv conf with Bm bm => Some (patlen bm) | _ => None end.

Definition bm_ops {C} (fuel : nat) (kzalloc : Z -> bool) (this_module : Z) : ts_ops C :=
  mkOps (Some "bm"%string) (Some (bm_init kzalloc)) (Some (bm_find fuel)) None
    (Some bm_get_pattern) (Some bm_get_pattern_len) this_module.

(** ** The tables *)

Definition get (l : list Z) (i : Z) : Z := l !!! Z.to_nat i.
Definition size (l : list Z) : Z := Z.of_nat (length l).

Lemma load_get l i : 0 <= i < size l -> load l i = Some (get l i).
Proof. intros Hi. unfold load, get, size in *. rewrite (proj2 (Z.leb_le 0 i)) by lia. apply list_lookup_lookup_total_lt. lia. Qed.

Lemma set_at_get l i v : 0 <= i < size l ->
  exists l', set_at l i v = Some l' /\ size l' = size l /\ get l' i = v /\ forall k, 0 <= k -> k <> i -> get l' k = get l k.
Proof.
  unfold set_at, get, size. intros Hi. rewrite (proj2 (Z.leb_le 0 i)), (proj2 (Z.ltb_lt i _)) by lia.
  eexists. split; [done|]. rewrite length_insert. split; [done|]. split; [apply list_lookup_total_insert_eq; lia|].
  intros k Hk Hne. apply list_lookup_total_insert_ne. lia.
Qed.

Section Tables.
Context (p : list Z).
Local Notation m := (size p).

(** The last [g] characters of the pattern would match [e] places further left, and the
    one before them would be another. *)
Definition recurs (g e : Z) : Prop :=
  (forall k, 0 <= k < g -> k + e < m -> get p (m - 1 - k) = get p (m - 1 - k - e)) /\
  (g + e < m -> get p (m - 1 - g) <> get p (m - 1 - g - e)).

Lemma sub_loop_spec fuel i j g h :
  1 <= i -> j < i -> 1 <= h <= g -> i + g = m -> 0 <= j + h - 1 -> (Z.to_nat (j + h) <= fuel)%nat ->
  exists b, sub_loop fuel p i j (i + h - 1) (j + h - 1) h = Some b /\ (recurs g (i - j) -> b = true).
Proof.
  revert h. induction fuel as [|fuel IH]; intros h Hi Hj Hh Hg Hy Hf; [lia|]. cbn [sub_loop].
  rewrite (load_get p (i + h - 1)), (load_get p (j + h - 1)) by lia. cbn [mbind option_bind].
  destruct (Z.eqb_spec (get p (i + h - 1)) (get p (j + h - 1))) as [E|E].
  2: { exists false. split; [done|]. intros [H _]. specialize (H (g - h)). exfalso. apply E.
       replace (i + h - 1) with (m - 1 - (g - h)) by lia. rewrite H by lia. f_equal. lia. }
  destruct (Z.ltb_spec (j + h - 1 - 1) 0); [by exists true|]. destruct (Z.eqb_spec (h - 1) 0) as [H1|H1].
  - rewrite (load_get p (i - 1)), (load_get p (j - 1)) by lia. cbn [mbind option_bind]. eexists. split; [done|].
    intros [_ Hne]. apply negb_true_iff, Z.eqb_neq.
    replace (i - 1) with (m - 1 - g) by lia. replace (j - 1) with (m - 1 - g - (i - j)) by lia. apply Hne. lia.
  - replace (i + h - 1 - 1) with (i + (h - 1) - 1) by lia. replace (j + h - 1 - 1) with (j + (h - 1) - 1) by lia. apply IH; lia.
Qed.

Lemma subpattern_spec i j g : 1 <= i -> j < i -> 1 <= g -> i + g = m -> 1 - g <= j ->
  exists b, subpattern p i j g = Some b /\ (recurs g (i - j) -> b = true).
Proof. intros. apply sub_loop_spec; lia. Qed.

(** Entry [g]: no further than to the nearest recurrence. *)
Definition good_entry (v g : Z) : Prop := 1 <= v <= m /\ forall e, 1 <= e < m -> recurs g e -> v <= e.
Definition good_ok (tbl : list Z) : Prop := m <= size tbl /\ forall g, 0 <= g < m -> good_entry (get tbl g) g.

Lemma good_inner_spec n i g j tbl :
  1 <= i -> 1 <= g -> i + g = m -> j < i -> Z.of_nat n = j - (1 - g) + 1 -> m <= size tbl -> get tbl g = m ->
  (forall e, 1 <= e < i - j -> ~ recurs g e) ->
  exists tbl', good_inner n p m i g j tbl = Some tbl' /\ size tbl' = size tbl /\ good_entry (get tbl' g) g /\
    forall k, 0 <= k -> k <> g -> get tbl' k = get tbl k.
Proof.
  revert j. induction n as [|n IH]; intros j Hi Hg Hm Hj Hn Hs H0 Hno; cbn [good_inner].
  { exists tbl. split; [done|]. split; [done|]. split; [|done]. rewrite H0. split; [lia|]. intros e He Hr.
    exfalso. apply (Hno e); [lia|done]. }
  destruct (subpattern_spec i j g) as (b & -> & Hb); [lia..|]. cbn [mbind option_bind]. destruct b.
  - destruct (set_at_get tbl g (m - j - g)) as (tbl' & -> & Hs' & Hg' & Hk); [lia|]. exists tbl'. split; [done|].
    split; [done|]. split; [|done]. rewrite Hg'. split; [lia|]. intros e He Hr.
    destruct (Z.le_gt_cases (m - j - g) e); [done|]. exfalso. apply (Hno e); [lia|done].
  - apply IH; [lia..|done|]. intros e He Hr. destruct (decide (e = i - j)) as [->|]; [|apply (Hno e); [lia|done]].
    by specialize (Hb Hr).
Qed.

Lemma good_outer_spec n g tbl :
  1 <= g -> Z.of_nat n = m - g -> m <= size tbl ->
  (forall k, 0 <= k < g -> good_entry (get tbl k) k) -> (forall k, g <= k < m -> get tbl k = m) ->
  exists tbl', good_outer n p m (m - g) g tbl = Some tbl' /\ good_ok tbl'.
Proof.
  revert g tbl. induction n as [|n IH]; intros g tbl Hg Hn Hs Hdone Hrest; cbn [good_outer].
  { exists tbl. split; [done|]. split; [done|]. intros k Hk. apply Hdone. lia. }
  destruct (good_inner_spec (Z.to_nat (m - g - 1 - (1 - g) + 1)) (m - g) g (m - g - 1) tbl)
    as (tbl' & -> & Hs' & He & Hk); [lia..|apply Hrest; lia|lia|]. cbn [mbind option_bind].
  replace (m - g - 1) with (m - (g + 1)) by lia. apply IH; [lia..| |].
  - intros k Hk'. destruct (decide (k = g)) as [->|]; [done|]. rewrite Hk by lia. apply Hdone. lia.
  - intros k Hk'. rewrite Hk by lia. apply Hrest. lia.
Qed.

Lemma fill_loop_spec n i tbl :
  0 <= i -> i + Z.of_nat n <= size tbl ->
  exists tbl', fill_loop n m i tbl = Some tbl' /\ size tbl' = size tbl /\
    (forall k, i <= k < i + Z.of_nat n -> get tbl' k = m) /\ forall k, 0 <= k < i -> get tbl' k = get tbl k.
Proof.
  revert i tbl. induction n as [|n IH]; intros i tbl Hi Hs; cbn [fill_loop]; [exists tbl; split_and!; [done|done|lia|done]|].
  destruct (set_at_get tbl i m) as (tbl1 & -> & Hs1 & Hi1 & Hk1); [lia|]. cbn [mbind option_bind].
  destruct (IH (i + 1) tbl1) as (tbl' & -> & Hs' & Hin & Hout); [lia..|]. exists tbl'. split; [done|]. split; [lia|]. split.
  - intros k Hk. destruct (decide (k = i)) as [->|]; [rewrite Hout by lia; done|apply Hin; lia].
  - intros k Hk. rewrite Hout by lia. apply Hk1; lia.
Qed.

(** The entry of a character: no further than to its nearest place in the pattern. *)
Definition stands (icase : bool) (c k : Z) : Prop := c = get p k \/ (icase = true /\ c = tolower (get p k)).
Definition bad_upto (icase : bool) (tbl : list Z) (i : Z) : Prop :=
  size tbl = ASIZE /\ forall c, byte_ok c -> 0 <= get tbl c <= m /\ forall k, 0 <= k < i -> stands icase c k -> get tbl c <= m - 1 - k.

Context (Hbytes : Forall byte_ok p).

Lemma get_byte k : 0 <= k < m -> byte_ok (get p k).
Proof.
  intros Hk. rewrite Forall_lookup in Hbytes. apply (Hbytes (Z.to_nat k)). unfold get, size in *.
  apply list_lookup_lookup_total_lt. lia.
Qed.

(** Writing the entry of a character that stands at [i]. *)
Lemma bad_write tbl c i :
  byte_ok c -> size tbl = ASIZE -> 0 <= i < m -> (forall d, byte_ok d -> 0 <= get tbl d <= m) ->
  exists tbl', set_at tbl c (m - 1 - i) = Some tbl' /\ size tbl' = ASIZE /\ get tbl' c = m - 1 - i /\
    (forall d, byte_ok d -> 0 <= get tbl' d <= m) /\ forall d, byte_ok d -> d <> c -> get tbl' d = get tbl d.
Proof.
  intros Hc Hs Hi Hr. destruct (set_at_get tbl c (m - 1 - i)) as (tbl' & -> & Hs' & Hg & Hk).
  { unfold ASIZE, byte_ok in *. lia. }
  exists tbl'. split_and!; [done|lia|done| |].
  - intros d Hd. destruct (decide (d = c)) as [->|]; [lia|]. rewrite Hk by (unfold byte_ok in *; lia). by apply Hr.
  - intros d Hd Hne. apply Hk; unfold byte_ok in *; lia.
Qed.

Lemma bad_loop_spec n icase i tbl :
  0 <= i -> i + Z.of_nat n < m -> bad_upto icase tbl i ->
  exists tbl', bad_loop n icase p m i tbl = Some tbl' /\ bad_upto icase tbl' (i + Z.of_nat n).
Proof.
  revert i tbl. induction n as [|n IH]; intros i tbl Hi Hn [Hs Ht]; cbn [bad_loop].
  { exists tbl. by rewrite Z.add_0_r. }
  rewrite load_get by lia. cbn [mbind option_bind]. pose proof (get_byte i ltac:(lia)) as Hb.
  destruct (bad_write tbl (get p i) i) as (t1 & -> & Hs1 & Hg1 & Hr1 & Hk1); [done|done|lia|by intros; apply Ht|].
  cbn [mbind option_bind].
  assert (exists t2, (if icase then set_at t1 (tolower (get p i)) (m - 1 - i) else Some t1) = Some t2 /\ bad_upto icase t2 (i + 1))
    as (t2 & -> & Ht2); cycle 1.
  { cbn [mbind option_bind]. replace (i + Z.of_nat (S n)) with (i + 1 + Z.of_nat n) by lia. apply IH; [lia|lia|done]. }
  assert (Hold : forall d k, byte_ok d -> 0 <= k < i -> stands icase d k -> get t1 d <= m - 1 - k).
  { intros d k Hd Hk Hst. destruct (decide (d = get p i)) as [->|]; [lia|]. rewrite Hk1 by done. by apply Ht. }
  destruct icase.
  - destruct (bad_write t1 (tolower (get p i)) i) as (t2 & -> & Hs2 & Hg2 & Hr2 & Hk2);
      [apply tolower_byte|done|lia|done|]. exists t2. split; [done|]. split; [done|]. intros d Hd. split; [by apply Hr2|].
    intros k Hk Hst. destruct (decide (d = tolower (get p i))) as [->|Hne]; [lia|]. rewrite Hk2 by done.
    destruct (decide (k = i)) as [->|]; [|apply Hold; [done|lia|done]]. destruct Hst as [->|[_ ->]]; [lia|done].
  - exists t1. split; [done|]. split; [done|]. intros d Hd. split; [by apply Hr1|]. intros k Hk Hst.
    destruct (decide (k = i)) as [->|]; [|apply Hold; [done|lia|done]]. destruct Hst as [->|[? _]]; [lia|done].
Qed.

Definition bad_ok (icase : bool) (tbl : list Z) : Prop := bad_upto icase tbl (m - 1).

Lemma bm_prefix_tbl_spec n flags :
  1 <= m -> m <= Z.of_nat n ->
  exists bad good, bm_prefix_tbl p m (replicate n 0) flags = Some (bad, good) /\ bad_ok (ignores_case flags) bad /\ good_ok good.
Proof.
  intros Hm Hn. unfold bm_prefix_tbl. set (icase := ignores_case flags).
  destruct (bad_loop_spec (Z.to_nat (m - 1)) icase 0 (replicate (Z.to_nat ASIZE) m)) as (bad & -> & Hbad); [lia|lia| |].
  { split; [by unfold size; rewrite length_replicate|]. intros c Hc. unfold get.
    rewrite lookup_total_replicate_2 by (unfold ASIZE, byte_ok in *; lia). split; [lia|]. lia. }
  cbn [mbind option_bind]. destruct (set_at_get (replicate n 0) 0 1) as (g1 & -> & Hs1 & Hg1 & _).
  { unfold size. rewrite length_replicate. lia. }
  unfold size in Hs1 at 2. rewrite length_replicate in Hs1. cbn [mbind option_bind].
  destruct (fill_loop_spec (Z.to_nat (m - 1)) 1 g1) as (g2 & -> & Hs2 & Hin & Hout); [lia|lia|]. cbn [mbind option_bind].
  destruct (good_outer_spec (Z.to_nat (m - 1)) 1 g2) as (good & -> & Hgood); [lia|lia|lia| |intros; apply Hin; lia|].
  { intros k Hk. replace k with 0 by lia. rewrite Hout, Hg1 by lia. split; [lia|]. lia. }
  exists bad, good. split; [done|]. split; [|done]. unfold bad_ok. by replace (m - 1) with (0 + Z.of_nat (Z.to_nat (m - 1))) by lia.
Qed.

End Tables.

(** ** The search in a block *)

Definition bm_ok (bm : ts_bm) (p : list Z) (icase : bool) : Prop :=
  bm_pattern bm = p /\ patlen bm = size p /\ bad_ok p icase (bad_shift bm) /\ good_ok p (good_shift bm).

(** Characters that are found in [bad_shift] when case is ignored. *)
Definition plain (c : Z) : Prop := c = toupper c \/ c = tolower (toupper c).

(** In this character set, all but the small sharp s and the small y with diaeresis,
    which are letters in lower case with no capital of their own. *)
Lemma plain_iff c : byte_ok c -> plain c <-> c <> 0xDF /\ c <> 0xFF.
Proof.
  assert (H : Forall (fun c => (c = toupper c \/ c = tolower (toupper c)) <-> c <> 0xDF /\ c <> 0xFF) (seqZ 0 256))
    by (apply (bool_decide_unpack _); by vm_compute).
  intros Hc. rewrite Forall_forall in H. apply H, elem_of_seqZ. unfold byte_ok in Hc. lia.
Qed.

Section Find.
Context (bm : ts_bm) (p : list Z) (icase : bool) (t : list Z) (n : Z).
Local Notation m := (size p).
Hypothesis Hbm : bm_ok bm p icase.
Hypothesis Hm : 1 <= m.
Hypothesis Hn : n <= size t.
Hypothesis Hsmall : n + m < 2 ^ 31.
Hypothesis Hbytes : Forall byte_ok (take (Z.to_nat n) t).
Hypothesis Hplain : icase = true -> Forall plain (take (Z.to_nat n) t).

(** The pattern stands in the text with its end at [e]. *)
Definition ends_at (e : Z) : Prop := forall k, 0 <= k < m -> folded icase (get t (e - k)) = get p (m - 1 - k).

(** It differs first at the [i]th character from the end. *)
Definition differs (e i : Z) : Prop :=
  0 <= i < m /\ (forall k, 0 <= k < i -> folded icase (get t (e - k)) = get p (m - 1 - k)) /\
  folded icase (get t (e - i)) <> get p (m - 1 - i).

Lemma match_back_spec c e i :
  i + Z.of_nat c = m -> 0 <= i -> m - 1 <= e < size t ->
  (forall k, 0 <= k < i -> folded icase (get t (e - k)) = get p (m - 1 - k)) ->
  (match_back c icase bm t e i = Some None /\ ends_at e) \/ (exists i', match_back c icase bm t e i = Some (Some i') /\ differs e i').
Proof.
  destruct Hbm as (Hpat & Hlen & _). revert i. induction c as [|c IH]; intros i Hi H0 He Hk; cbn [match_back].
  { left. split; [done|]. intros k Hk'. apply Hk. lia. }
  rewrite Hpat, Hlen, !load_get by lia. cbn [mbind option_bind].
  destruct (Z.eqb_spec (folded icase (get t (e - i))) (get p (m - 1 - i))) as [E|E].
  - apply IH; [lia|lia|done|]. intros k Hk'. destruct (decide (k = i)) as [->|]; [done|]. apply Hk. lia.
  - right. exists i. split; [done|]. split; [lia|]. done.
Qed.

Lemma text_get (Q : Z -> Prop) k : Forall Q (take (Z.to_nat n) t) -> 0 <= k < n -> Q (get t k).
Proof.
  intros HQ Hk. rewrite Forall_lookup in HQ. apply (HQ (Z.to_nat k)). unfold get, size in *.
  rewrite lookup_take_lt by lia. apply list_lookup_lookup_total_lt. lia.
Qed.

Lemma folded_stands c k : byte_ok c -> (icase = true -> plain c) -> folded icase c = get p k -> stands p icase c k.
Proof.
  intros Hc Hpl E. unfold folded in E. destruct icase; [|by left]. destruct (Hpl eq_refl) as [H|H].
  - left. congruence.
  - right. split; [done|]. congruence.
Qed.

(** Neither table moves the pattern past a match. *)
Lemma bad_skips e i e' :
  m - 1 <= e < n -> differs e i -> e < e' < e - i + get (bad_shift bm) (get t (e - i)) -> ~ ends_at e'.
Proof.
  destruct Hbm as (_ & _ & [_ Hbad] & _). intros He (Hi & _) He' Hhit.
  assert (Hc : byte_ok (get t (e - i))) by (apply text_get; [done|lia]).
  destruct (Hbad _ Hc) as [Hr Hmin]. specialize (Hhit (e' - (e - i))). replace (e' - (e' - (e - i))) with (e - i) in Hhit by lia.
  apply folded_stands in Hhit; [|done| |lia].
  - apply Hmin in Hhit; lia.
  - intros Hic. apply text_get; [by apply Hplain|lia].
Qed.

Lemma good_skips e i e' :
  m - 1 <= e < n -> differs e i -> e < e' < e + get (good_shift bm) i -> ~ ends_at e'.
Proof.
  destruct Hbm as (_ & _ & _ & [_ Hgood]). intros He (Hi & Heq & Hne) He' Hhit.
  destruct (Hgood i Hi) as [Hr Hmin]. specialize (Hmin (e' - e)).
  assert (get (good_shift bm) i <= e' - e); [|lia]. apply Hmin; [lia|]. split.
  - intros k Hk Hke. rewrite <- Heq by done. replace (m - 1 - k - (e' - e)) with (m - 1 - (k + (e' - e))) by lia.
    rewrite <- Hhit by lia. do 2 f_equal. lia.
  - intros Hlt E. apply Hne. rewrite E. replace (m - 1 - i - (e' - e)) with (m - 1 - (i + (e' - e))) by lia.
    rewrite <- Hhit by lia. do 2 f_equal. lia.
Qed.

Lemma bm_block_spec fuel e :
  m - 1 <= e < 2 ^ 31 -> (Z.to_nat (n - e) < fuel)%nat ->
  (exists e', bm_block fuel icase bm t n e = Some (inl e') /\ e <= e' < n /\ ends_at e' /\ forall x, e <= x < e' -> ~ ends_at x) \/
  (exists e', bm_block fuel icase bm t n e = Some (inr e') /\ forall x, e <= x < n -> ~ ends_at x).
Proof.
  pose proof Hbm as (_ & Hlen & [Hbs Hbad] & [Hgs Hgood]).
  revert e. induction fuel as [|fuel IH]; intros e He Hf; [lia|]. cbn [bm_block].
  rewrite Hlen. unfold u32. rewrite Z.mod_small by lia. destruct (Z.ltb_spec e n) as [Hen|Hen]; [|right; exists e; split; [done|lia]].
  destruct (match_back_spec (Z.to_nat m) e 0) as [[-> Hhit]|(i & -> & Hd)]; [lia..| |]; cbn [mbind option_bind].
  { left. exists e. split_and!; [done|lia|lia|done|lia]. }
  pose proof Hd as (Hi & _ & Hne).
  assert (Hc : byte_ok (get t (e - i))) by (apply text_get; [done|lia]). destruct (Hbad _ Hc) as [Hb _].
  destruct (Hgood i Hi) as [Hg _]. unfold byte_ok in Hc.
  rewrite (load_get t) by lia. cbn [mbind option_bind]. rewrite (load_get (bad_shift bm)) by (rewrite Hbs; unfold ASIZE; lia).
  cbn [mbind option_bind]. rewrite (load_get (good_shift bm)) by lia. cbn [mbind option_bind]. rewrite !i32_small by lia.
  set (e1 := Z.max _ _). assert (Hskip : forall x, e <= x < e1 -> ~ ends_at x).
  { intros x Hx. destruct (decide (x = e)) as [->|]; [intros Hh; by apply Hne, Hh|].
    destruct (Z.max_spec (e - i + get (bad_shift bm) (get t (e - i))) (e + get (good_shift bm) i)) as [[_ E]|[_ E]];
      fold e1 in E; rewrite E in Hx; [eapply good_skips|eapply bad_skips]; try done; lia. }
  destruct (IH e1) as [(e' & -> & He' & Hh & Hno)|(e' & -> & Hno)]; [lia|lia|left|right]; exists e'; (split; [done|]).
  - split; [lia|]. split; [done|]. intros x Hx. destruct (Z.lt_ge_cases x e1); [apply Hskip|apply Hno]; lia.
  - intros x Hx. destruct (Z.lt_ge_cases x e1); [apply Hskip|apply Hno]; lia.
Qed.

Lemma ends_at_occurs i :
  (i + length p <= Z.to_nat n)%nat -> ends_at (Z.of_nat i + (m - 1)) <-> occurs p (folded icase <$> take (Z.to_nat n) t) i.
Proof.
  intros Hi. unfold size in *. rewrite occurs_lookup by (rewrite length_fmap, length_take; lia).
  assert (Hc : forall k, (k < length p)%nat ->
    folded icase (get t (Z.of_nat i + Z.of_nat k)) = get p (Z.of_nat k) <-> (folded icase <$> take (Z.to_nat n) t) !! (i + k)%nat = p !! k).
  { intros k Hk. rewrite list_lookup_fmap, lookup_take_lt by lia. unfold get.
    replace (Z.to_nat (Z.of_nat i + Z.of_nat k)) with (i + k)%nat by lia. rewrite Nat2Z.id.
    rewrite (list_lookup_lookup_total_lt t (i + k)), (list_lookup_lookup_total_lt p k) by lia. simpl. split; congruence. }
  split.
  - intros Hh k Hk. apply Hc; [done|]. specialize (Hh (Z.of_nat (length p) - 1 - Z.of_nat k)). unfold size in Hh.
    replace (Z.of_nat (length p) - 1 - (Z.of_nat (length p) - 1 - Z.of_nat k)) with (Z.of_nat k) in Hh by lia.
    rewrite <- Hh by lia. do 2 f_equal. lia.
  - intros Ho k Hk. unfold size in *. specialize (Ho (Z.to_nat (Z.of_nat (length p) - 1 - k))).
    rewrite <- Hc in Ho by lia. rewrite Z2Nat.id in Ho by lia. rewrite <- Ho by lia. do 2 f_equal. lia.
Qed.

End Find.

(** If the text is one block, what [bm_find] answers is right; it does not remember
    where it has been. *)
Lemma bm_find_spec {C} (next : block_fun C) ok text bm p icase fuel conf st o :
  bm_ok bm p icase -> p <> [] -> Whole next ok text -> Z.of_nat (length text) + size p < 2 ^ 31 ->
  Forall byte_ok text -> (icase = true -> Forall plain text) -> (2 <= fuel)%nat ->
  priv conf = Bm bm -> get_next_block conf = Some next -> ignores_case (flags conf) = icase ->
  ok (cb st) -> offset st = Z.of_nat o ->
  exists r st', bm_find fuel conf st = Some (r, st') /\ ok (cb st') /\ offset st' = offset st /\
    finds p (folded icase <$> text) o r.
Proof.
  intros Hbm Hp Hnext Hsmall Hb Hpl Hf Hpriv Hg Hi Hok Ho. unfold bm_find. rewrite Hpriv, Hg, Hi, Ho. cbn [mbind option_bind].
  assert (Hm : 1 <= size p) by (unfold size; destruct p; [done|simpl; lia]).
  replace (patlen bm) with (size p) by (symmetry; apply Hbm). rewrite i32_small by lia.
  destruct fuel as [|[|fuel]]; [lia|lia|]. cbn [bm_loop]. destruct (next (Z.of_nat o) (cb st)) as [[n d] c] eqn:E.
  destruct (whole_delivers _ _ _ _ _ Hok E) as (Hc & Hn & Hpos & Hend & Hd).
  assert (Hshort : forall j, occurs p (folded icase <$> text) j -> (j + length p <= length text)%nat).
  { intros j Hj. apply occurs_length in Hj; [|done]. by rewrite length_fmap in Hj. }
  destruct (Z.eqb_spec n 0) as [->|Hn0].
  { eexists _, _. split; [done|]. split; [done|]. split; [done|]. left. split; [done|]. intros j Hj Hocc. apply Hshort in Hocc.
    destruct p; [done|]. simpl in Hocc. lia. }
  assert (Hol : (o < length text)%nat) by lia. pose proof (whole _ _ _ _ _ Hok E Hol) as Hnn.
  assert (Hall : take (Z.to_nat n) d = drop o text) by (rewrite Hd; apply take_ge; rewrite length_drop; lia).
  assert (Hnd : n <= size d).
  { unfold size. apply (f_equal length) in Hall. rewrite length_take, length_drop in Hall. lia. }
  assert (Hocc : forall i, (i + length p <= Z.to_nat n)%nat -> ends_at p icase d (Z.of_nat i + (size p - 1)) <-> occurs p (folded icase <$> text) (o + i)).
  { intros i Hi'. rewrite (ends_at_occurs p icase d n) by done. rewrite Hall, fmap_drop. apply occurs_drop. }
  destruct (bm_block_spec bm p icase d n Hbm Hm Hnd) with (fuel := S (Z.to_nat n)) (e := size p - 1)
    as [(e & -> & He & Hh & Hno)|(e & -> & Hno)]; [lia|rewrite Hall; by apply Forall_drop|intros; rewrite Hall; apply Forall_drop; auto|lia|lia|..];
    cbn [mbind option_bind].
  - replace (patlen bm) with (size p) by (symmetry; apply Hbm). eexists _, _. split; [done|]. split; [done|]. split; [done|].
    right. exists (o + Z.to_nat (e - (size p - 1)))%nat. unfold size in *. split; [unfold u32; rewrite Z.mod_small; lia|]. split; [lia|].
    split; [apply Hocc; [lia|]; by replace (Z.of_nat _ + _) with e by lia|]. intros j Hj Hjo.
    replace j with (o + (j - o))%nat in Hjo by lia. apply Hocc in Hjo; [|lia]. revert Hjo. apply Hno. lia.
  - replace (u32 (Z.of_nat o + n)) with (Z.of_nat (length text)) by (unfold u32; rewrite Z.mod_small; lia). cbn [bm_loop cb offset].
    destruct (next (Z.of_nat (length text)) c) as [[n' d'] c'] eqn:E'.
    destruct (whole_delivers _ _ _ _ _ Hc E') as (Hc' & Hn' & _ & Hend' & _). rewrite (proj2 (Z.eqb_eq n' 0)) by lia.
    eexists _, _. split; [done|]. split; [done|]. split; [done|]. left. split; [done|]. intros j Hj Hjo. apply Hshort in Hjo as Hl.
    replace j with (o + (j - o))%nat in Hjo by lia. apply Hocc in Hjo; [|lia]. revert Hjo. apply Hno. unfold size in *. lia.
Qed.

(** ** The area that [bm_init] prepares *)

Lemma bm_init_spec {C} kzalloc pattern len flags :
  0 < len <= Z.of_nat (length pattern) -> Forall byte_ok pattern -> 1048 + 5 * len < 2 ^ 32 ->
  (kzalloc (1048 + 5 * len) = false /\ @bm_init C kzalloc pattern len flags = Some (inl (- ENOMEM))) \/
  (kzalloc (1048 + 5 * len) = true /\
   exists bm, @bm_init C kzalloc pattern len flags = Some (inr (mkConf 0 flags None None (Bm bm))) /\
     bm_ok bm (folded (ignores_case flags) <$> take (Z.to_nat len) pattern) (ignores_case flags)).
Proof.
  intros Hlen Hbytes H32. unfold bm_init, alloc_ts_config, ASIZE.
  assert (Hs : forall z, 0 <= z < 2 ^ 32 -> u32 z = z) by (intros; by apply Z.mod_small).
  change (TS_PRIV_ALIGN sizeof_ts_config) with 16. change (8 + 4 * 256) with 1032.
  rewrite (Hs (len * 4)), (Hs (1032 + len + len * 4)), (Hs (16 + _)) by lia.
  replace (16 + (1032 + len + len * 4)) with (1048 + 5 * len) by lia.
  destruct (kzalloc (1048 + 5 * len)); [right|by left]. split; [done|]. cbn [priv].
  rewrite (proj2 (Z.ltb_ge _ 1032)) by lia. unfold copy_pattern. rewrite !(proj2 (Z.leb_le _ _)) by lia. cbn [andb mbind option_bind].
  set (p := folded (ignores_case flags) <$> take (Z.to_nat len) pattern).
  assert (Hl : len = size p) by (unfold size, p; rewrite length_fmap, length_take; lia).
  assert (Hpb : Forall byte_ok p).
  { apply Forall_fmap, Forall_take. apply (Forall_impl _ _ _ Hbytes). intros c Hc. unfold folded. simpl.
    destruct (ignores_case flags); [apply toupper_byte|done]. }
  destruct (bm_prefix_tbl_spec p Hpb (Z.to_nat ((1048 + 5 * len - 16 - 1032) `div` 4)) flags)
    as (bad & good & E & Hbad & Hgood); [lia| |].
  { rewrite Z2Nat.id; [|apply Z.div_pos; lia]. apply Z.div_le_lower_bound; lia. }
  rewrite <- Hl in E. rewrite E. cbn [mbind option_bind]. eexists. split; [reflexivity|]. by split_and!.
Qed.

Definition bm_fit (fuel : nat) (icase : bool) (p text : list Z) : Prop :=
  (2 <= fuel)%nat /\ Z.of_nat (length text) + size p < 2 ^ 31 /\ Forall byte_ok text /\ (icase = true -> Forall plain text).

#[export] Instance bm_algorithm fuel kzalloc this_module : Algorithm (bm_ops fuel kzalloc this_module) (bm_fit fuel).
Proof.
  split; [done|]. intros pattern len flags Hlen Hbytes H32. exists (bm_init kzalloc). split; [done|].
  destruct (@bm_init_spec ts_linear_state kzalloc pattern len flags Hlen Hbytes ltac:(lia)) as [[_ ->]|[_ (bm & -> & Hbm)]]; [by left|right].
  eexists. split; [done|]. intros icase p ptr data n o Hn (Hf & Hs & Hb & Hpl).
  destruct (bm_find_spec get_linear_data (fun st => st = mkLinear n data) (take (Z.to_nat n) data) bm p icase fuel
    (mkConf ptr flags (Some get_linear_data) None (Bm bm)) (mkState (Z.of_nat o) (mkLinear n data)) o) as (r & [o' c] & E & Hc & _ & Hr);
    [done| |by apply linear_whole|done..|].
  { intros E. apply (f_equal length) in E. unfold p in E. rewrite length_fmap, length_take in E. simpl in E. lia. }
  simpl in Hc. subst c. by exists (bm_find fuel), r, o'.
Qed.

(** ** Where it goes wrong *)

Definition conf_of {C} (pattern : list Z) (flags : Z) (next : block_fun C) : ts_config C :=
  match @bm_init C (fun _ => true) pattern (size pattern) flags with
  | Some (inr conf) => mkConf 1 flags (Some next) None (priv conf)
  | _ => mkConf 0 0 None None (Blank 0)
  end.

(** [textsearch_next] finds the same occurrence for ever: "ab" in "abab". *)
Example bm_finds_the_same_again :
  let conf := conf_of [97; 98] 0 get_linear_data in
  let st := mkState 0 (mkLinear 4 [97; 98; 97; 98]) in
  bm_find 3 conf st = Some (0, st).
Proof. by vm_compute. Qed.

(** What stands in the second block, all of it there, is missed: "cc" and "ab". *)
Example bm_misses_in_later_blocks :
  let next : block_fun unit := fun consumed c =>
    if consumed =? 0 then (2, [99; 99], c) else if consumed =? 2 then (2, [97; 98], c) else (0, [], c) in
  bm_find 5 (conf_of [97; 98] 0 next) (mkState 0 tt) = Some (UINT_MAX, mkState 0 tt).
Proof. by vm_compute. Qed.

(** Ignoring case, a small y with diaeresis is not always found, although it matches. *)
Example bm_misses_some_letters :
  let st := mkState 0 (mkLinear 3 [120; 0xFF; 97]) in
  bm_find 3 (conf_of [0xFF; 97] TS_IGNORECASE get_linear_data) st = Some (UINT_MAX, st) /\
  occurs (toupper <$> [0xFF; 97]) (toupper <$> [120; 0xFF; 97]) 1.
Proof. split; [by vm_compute|]. exists []. by vm_compute. Qed.

End KernelBm.
