(* ===== verification/KernelFsm.v ===== *)
(** * KernelFsm: the search for sequences of character classes in the board's kernel

    lib/ts_fsm.c: a pattern is a sequence of tokens, each with the characters it stands
    for and how often they may come. *)

From stdpp Require Import gmap strings.
From S2P Require Import Prelude KernelString KernelSearch.
Import KernelString KernelSearch.

Module KernelFsm.

(** ** linux/textsearch_fsm.h *)

Definition TS_FSM_SPECIFIC : Z := 0.
Definition TS_FSM_WILDCARD : Z := 1.
Definition TS_FSM_DIGIT : Z := 2.
Definition TS_FSM_XDIGIT : Z := 3.
Definition TS_FSM_PRINT : Z := 4.
Definition TS_FSM_ALPHA : Z := 5.
Definition TS_FSM_ALNUM : Z := 6.
Definition TS_FSM_ASCII : Z := 7.
Definition TS_FSM_CNTRL : Z := 8.
Definition TS_FSM_GRAPH : Z := 9.
Definition TS_FSM_LOWER : Z := 10.
Definition TS_FSM_UPPER : Z := 11.
Definition TS_FSM_PUNCT : Z := 12.
Definition TS_FSM_SPACE : Z := 13.
Definition TS_FSM_TYPE_MAX : Z := 13.

Definition TS_FSM_SINGLE : Z := 0.
Definition TS_FSM_PERHAPS : Z := 1.
Definition TS_FSM_ANY : Z := 2.
Definition TS_FSM_MULTI : Z := 3.
Definition TS_FSM_HEAD_IGNORE : Z := 4.
Definition TS_FSM_RECUR_MAX : Z := 4.

(** ** lib/ts_fsm.c *)

Definition _A : Z := 0x100.
Definition _W : Z := 0x200.

(** In the order of the types. *)
Definition token_map : list Z :=
  [0; _W; _D; _D .| _X; _P .| _U .| _L .| _D .| _SP; _U .| _L; _U .| _L .| _D; _A; _C; _P .| _U .| _L .| _D; _L; _U; _P; _S].

Definition token_lookup_tbl : list Z :=
  [_W .| _A .| _C; _W .| _A .| _C; _W .| _A .| _C; _W .| _A .| _C;   (* 0-3 *)
   _W .| _A .| _C; _W .| _A .| _C; _W .| _A .| _C; _W .| _A .| _C;   (* 4-7 *)
   _W .| _A .| _C; _W .| _A .| _C .| _S; _W .| _A .| _C .| _S; _W .| _A .| _C .| _S;   (* 8-11 *)
   _W .| _A .| _C .| _S; _W .| _A .| _C .| _S; _W .| _A .| _C; _W .| _A .| _C;   (* 12-15 *)
   _W .| _A .| _C; _W .| _A .| _C; _W .| _A .| _C; _W .| _A .| _C;   (* 16-19 *)
   _W .| _A .| _C; _W .| _A .| _C; _W .| _A .| _C; _W .| _A .| _C;   (* 20-23 *)
   _W .| _A .| _C; _W .| _A .| _C; _W .| _A .| _C; _W .| _A .| _C;   (* 24-27 *)
   _W .| _A .| _C; _W .| _A .| _C; _W .| _A .| _C; _W .| _A .| _C;   (* 28-31 *)
   _W .| _A .| _S .| _SP; _W .| _A .| _P; _W .| _A .| _P; _W .| _A .| _P;   (* 32-35 *)
   _W .| _A .| _P; _W .| _A .| _P; _W .| _A .| _P; _W .| _A .| _P;   (* 36-39 *)
   _W .| _A .| _P; _W .| _A .| _P; _W .| _A .| _P; _W .| _A .| _P;   (* 40-43 *)
   _W .| _A .| _P; _W .| _A .| _P; _W .| _A .| _P; _W .| _A .| _P;   (* 44-47 *)
   _W .| _A .| _D; _W .| _A .| _D; _W .| _A .| _D; _W .| _A .| _D;   (* 48-51 *)
   _W .| _A .| _D; _W .| _A .| _D; _W .| _A .| _D; _W .| _A .| _D;   (* 52-55 *)
   _W .| _A .| _D; _W .| _A .| _D; _W .| _A .| _P; _W .| _A .| _P;   (* 56-59 *)
   _W .| _A .| _P; _W .| _A .| _P; _W .| _A .| _P; _W .| _A .| _P;   (* 60-63 *)
   _W .| _A .| _P; _W .| _A .| _U .| _X; _W .| _A .| _U .| _X; _W .| _A .| _U .| _X;   (* 64-67 *)
   _W .| _A .| _U .| _X; _W .| _A .| _U .| _X; _W .| _A .| _U .| _X; _W .| _A .| _U;   (* 68-71 *)
   _W .| _A .| _U; _W .| _A .| _U; _W .| _A .| _U; _W .| _A .| _U;   (* 72-75 *)
   _W .| _A .| _U; _W .| _A .| _U; _W .| _A .| _U; _W .| _A .| _U;   (* 76-79 *)
   _W .| _A .| _U; _W .| _A .| _U; _W .| _A .| _U; _W .| _A .| _U;   (* 80-83 *)
   _W .| _A .| _U; _W .| _A .| _U; _W .| _A .| _U; _W .| _A .| _U;   (* 84-87 *)
   _W .| _A .| _U; _W .| _A .| _U; _W .| _A .| _U; _W .| _A .| _P;   (* 88-91 *)
   _W .| _A .| _P; _W .| _A .| _P; _W .| _A .| _P; _W .| _A .| _P;   (* 92-95 *)
   _W .| _A .| _P; _W .| _A .| _L .| _X; _W .| _A .| _L .| _X; _W .| _A .| _L .| _X;   (* 96-99 *)
   _W .| _A .| _L .| _X; _W .| _A .| _L .| _X; _W .| _A .| _L .| _X; _W .| _A .| _L;   (* 100-103 *)
   _W .| _A .| _L; _W .| _A .| _L; _W .| _A .| _L; _W .| _A .| _L;   (* 104-107 *)
   _W .| _A .| _L; _W .| _A .| _L; _W .| _A .| _L; _W .| _A .| _L;   (* 108-111 *)
   _W .| _A .| _L; _W .| _A .| _L; _W .| _A .| _L; _W .| _A .| _L;   (* 112-115 *)
   _W .| _A .| _L; _W .| _A .| _L; _W .| _A .| _L; _W .| _A .| _L;   (* 116-119 *)
   _W .| _A .| _L; _W .| _A .| _L; _W .| _A .| _L; _W .| _A .| _P;   (* 120-123 *)
   _W .| _A .| _P; _W .| _A .| _P; _W .| _A .| _P; _W .| _A .| _C;   (* 124-127 *)
   _W; _W; _W; _W;   (* 128-131 *)
   _W; _W; _W; _W;   (* 132-135 *)
   _W; _W; _W; _W;   (* 136-139 *)
   _W; _W; _W; _W;   (* 140-143 *)
   _W; _W; _W; _W;   (* 144-147 *)
   _W; _W; _W; _W;   (* 148-151 *)
   _W; _W; _W; _W;   (* 152-155 *)
   _W; _W; _W; _W;   (* 156-159 *)
   _W .| _S .| _SP; _W .| _P; _W .| _P; _W .| _P;   (* 160-163 *)
   _W .| _P; _W .| _P; _W .| _P; _W .| _P;   (* 164-167 *)
   _W .| _P; _W .| _P; _W .| _P; _W .| _P;   (* 168-171 *)
   _W .| _P; _W .| _P; _W .| _P; _W .| _P;   (* 172-175 *)
   _W .| _P; _W .| _P; _W .| _P; _W .| _P;   (* 176-179 *)
   _W .| _P; _W .| _P; _W .| _P; _W .| _P;   (* 180-183 *)
   _W .| _P; _W .| _P; _W .| _P; _W .| _P;   (* 184-187 *)
   _W .| _P; _W .| _P; _W .| _P; _W .| _P;   (* 188-191 *)
   _W .| _U; _W .| _U; _W .| _U; _W .| _U;   (* 192-195 *)
   _W .| _U; _W .| _U; _W .| _U; _W .| _U;   (* 196-199 *)
   _W .| _U; _W .| _U; _W .| _U; _W .| _U;   (* 200-203 *)
   _W .| _U; _W .| _U; _W .| _U; _W .| _U;   (* 204-207 *)
   _W .| _U; _W .| _U; _W .| _U; _W .| _U;   (* 208-211 *)
   _W .| _U; _W .| _U; _W .| _U; _W .| _P;   (* 212-215 *)
   _W .| _U; _W .| _U; _W .| _U; _W .| _U;   (* 216-219 *)
   _W .| _U; _W .| _U; _W .| _U; _W .| _L;   (* 220-223 *)
   _W .| _L; _W .| _L; _W .| _L; _W .| _L;   (* 224-227 *)
   _W .| _L; _W .| _L; _W .| _L; _W .| _L;   (* 228-231 *)
   _W .| _L; _W .| _L; _W .| _L; _W .| _L;   (* 232-235 *)
   _W .| _L; _W .| _L; _W .| _L; _W .| _L;   (* 236-239 *)
   _W .| _L; _W .| _L; _W .| _L; _W .| _L;   (* 240-243 *)
   _W .| _L; _W .| _L; _W .| _L; _W .| _P;   (* 244-247 *)
   _W .| _L; _W .| _L; _W .| _L; _W .| _L;   (* 248-251 *)
   _W .| _L; _W .| _L; _W .| _L; _W .| _L].

Definition match_token (t : ts_fsm_token) (d : Z) : bool :=
  if negb (type t =? 0) then negb (token_lookup_tbl !!! Z.to_nat d .& type t =? 0) else value t =? d.

(** The variables of [fsm_find]. *)
Record scan (C : Type) := mkScan { consumed : Z; block_idx : Z; block_len : Z; data : list Z; scan_cb : C }.
Arguments mkScan {C}. Arguments consumed {C}. Arguments block_idx {C}. Arguments block_len {C}. Arguments data {C}.
Arguments scan_cb {C}.

(** How a try ends: at the labels [no_match], [found_match] and [startover]. *)
Variant outcome := no_match | found_match | startover.

(** How the loops of [TS_FSM_ANY] and [TS_FSM_HEAD_IGNORE] end. *)
Variant skipped := reached | refused | ended.

Section Find.
Context {C : Type} (next_block : block_fun C).

Definition end_of_data (s : scan C) : bool * scan C :=
  if block_len s <=? block_idx s then
    let consumed := u32 (consumed s + block_idx s) in
    let '(n, d, c) := next_block consumed (scan_cb s) in
    (n =? 0, mkScan consumed 0 n d c)
  else (false, s).

Definition bump (s : scan C) : scan C :=
  mkScan (consumed s) (u32 (block_idx s + 1)) (block_len s) (data s) (scan_cb s).

(** [match_token(t, data[block_idx])] *)
Definition here (s : scan C) (t : ts_fsm_token) : option bool := c ← load (data s) (block_idx s); Some (match_token t c).

Fixpoint skip (fuel : nat) (cur next : ts_fsm_token) (s : scan C) : option (skipped * scan C) :=
  match fuel with
  | O => None
  | S fuel =>
      m ← here s next;
      if m : bool then Some (reached, s)
      else
        m ← here s cur;
        if m : bool then
          let '(e, s) := end_of_data (bump s) in
          if e : bool then Some (ended, s) else skip fuel cur next s
        else Some (refused, s)
  end.

(** [TOKEN_MISMATCH()] *)
Definition token_mismatch (strict : bool) (s : scan C) (start : Z) : option (outcome * scan C * Z) :=
  if strict then Some (no_match, s, start) else Some (startover, bump s, start).

(** [TS_FSM_ANY], and the rest of [TS_FSM_MULTI]; [go_on] is the loop at the next token. *)
Definition run_any (fuel : nat) (strict : bool) (cur : ts_fsm_token) (next : option ts_fsm_token)
    (go_on : scan C -> option (outcome * scan C * Z)) (s : scan C) (start : Z) : option (outcome * scan C * Z) :=
  match next with
  | None => Some (found_match, s, start)
  | Some next =>
      let '(e, s) := end_of_data s in
      if e : bool then go_on s
      else
        '(r, s) ← skip fuel cur next s;
        match r with
        | reached => go_on s
        | refused => token_mismatch strict s start
        | ended => Some (no_match, s, start)
        end
  end.

(** One try, from [startover] on: the loop over the tokens. *)
Fixpoint try_tokens (fuel : nat) (strict : bool) (l : list ts_fsm_token) (s : scan C) (start : Z) : option (outcome * scan C * Z) :=
  match l with
  | [] => let '(e, s) := end_of_data s in Some (if e : bool then found_match else no_match, s, start)
  | cur :: l =>
      let any s := run_any fuel strict cur (head l) (fun s => try_tokens fuel strict l s start) s start in
      if recur cur =? TS_FSM_SINGLE then
        let '(e, s) := end_of_data s in
        if e : bool then Some (no_match, s, start)
        else
          m ← here s cur;
          if m : bool then try_tokens fuel strict l (bump s) start else token_mismatch strict s start
      else if recur cur =? TS_FSM_PERHAPS then
        let '(e, s) := end_of_data s in
        if e : bool then try_tokens fuel strict l s start
        else
          m ← here s cur;
          try_tokens fuel strict l (if m : bool then bump s else s) start
      else if recur cur =? TS_FSM_MULTI then
        let '(e, s) := end_of_data s in
        if e : bool then Some (no_match, s, start)
        else
          m ← here s cur;
          if m : bool then any (bump s) else token_mismatch strict s start
      else if recur cur =? TS_FSM_ANY then any s
      else if recur cur =? TS_FSM_HEAD_IGNORE then
        let '(e, s) := end_of_data s in
        if e : bool then try_tokens fuel strict l s start
        else
          next ← head l;
          '(r, s) ← skip fuel cur next s;
          match r with
          | reached => try_tokens fuel strict l s (u32 (consumed s + block_idx s))
          | _ => Some (no_match, s, start)
          end
      else try_tokens fuel strict l (bump s) start
  end.

(** The tries; the result is [match_start], and [state->offset] if it was set. *)
Fixpoint tries (n fuel : nat) (strict : bool) (l : list ts_fsm_token) (s : scan C) : option (Z * option Z * C) :=
  match n with
  | O => None
  | S n =>
      '(r, s, start) ← try_tokens fuel strict l s (u32 (consumed s + block_idx s));
      match r with
      | no_match => Some (UINT_MAX, None, scan_cb s)
      | found_match => Some (start, Some (u32 (consumed s + block_idx s)), scan_cb s)
      | startover => tries n fuel strict l s
      end
  end.

End Find.

(** [fuel] bounds the tries and the characters skipped in one. *)
Definition fsm_find {C} (fuel : nat) (conf : ts_config C) (state : ts_state C) : option (Z * ts_state C) :=
  match priv conf with
  | Fsm fsm =>
      next ← get_next_block conf;
      let '(e, s) := end_of_data next (mkScan (offset state) 0 0 [] (cb state)) in
      if e : bool then Some (UINT_MAX, mkState (offset state) (scan_cb s))
      else
        t0 ← head (tokens fsm);
        '(r, o, c) ← tries next fuel fuel (negb (recur t0 =? TS_FSM_HEAD_IGNORE)) (tokens fsm) s;
        Some (r, mkState (default (offset state) o) c)
  | _ => None
  end.

(** The check of token [i] of [n]. *)
Definition token_ok (n i : Z) (t : ts_fsm_token) : bool :=
  negb ((TS_FSM_TYPE_MAX <? type t) || (TS_FSM_RECUR_MAX <? recur t)) &&
  negb ((recur t =? TS_FSM_HEAD_IGNORE) && (negb (i =? 0) || (i =? n - 1))).

(** The pattern is an array of [struct ts_fsm_token], a 16-bit word and two bytes each,
    that are read and checked one by one; [None] behind [Some] if one is refused. *)
Fixpoint read_tokens (k : nat) (n i : Z) (pattern : list Z) : option (option (list ts_fsm_token)) :=
  match k, pattern with
  | O, _ => Some (Some [])
  | S k, b0 :: b1 :: b2 :: b3 :: rest =>
      let t := mkToken (b0 + 256 * b1) b2 b3 in
      if token_ok n i t then l ← read_tokens k n (i + 1) rest; Some (option_map (cons t) l) else Some None
  | S _, _ => None
  end.

Definition fsm_init {C} (kzalloc : Z -> bool) (pattern : list Z) (len flags : Z) : option (conf_or_err C) :=
  let n := len `div` 4 in
  let priv_size := u32 (4 + len) in
  if negb (len `mod` 4 =? 0) || (n <? 1) then Some (inl (- EINVAL))
  else if ignores_case flags then Some (inl (- EINVAL))
  else
    l ← read_tokens (Z.to_nat n) n 0 pattern;
    match l with
    | None => Some (inl (- EINVAL))
    | Some l =>
      match alloc_ts_config kzalloc priv_size with
      | inl err => Some (inl err)
      | inr conf =>
          match priv conf with
          | Blank size =>
              if size <? 4 + len then None
              else
                let l := (fun t => mkToken (token_map !!! Z.to_nat (type t)) (recur t) (value t)) <$> l in
                Some (inr (mkConf (ops conf) flags (get_next_block conf) (finish conf) (Fsm (mkFsm n l))))
          | _ => None
          end
      end
    end.

(** The tokens as they are kept, with their types translated. *)
Definition fsm_get_pattern {C} (conf : ts_config C) : option (list Z) :=
  match priv conf with
  | Fsm fsm => Some (t ← tokens fsm; [u8 (type t); u8 (type t .>> 8); recur t; value t])
  | _ => None
  end.

Definition fsm_get_pattern_len {C} (conf : ts_config C) : option Z :=
  match priv conf with Fsm fsm => Some (u32 (ntokens fsm * 4)) | _ => None end.

Definition fsm_ops {C} (fuel : nat) (kzalloc : Z -> bool) (this_module : Z) : ts_ops C :=
  mkOps (Some "fsm"%string) (Some (fsm_init kzalloc)) (Some (fsm_find fuel)) None
    (Some fsm_get_pattern) (Some fsm_get_pattern_len) this_module.

(** ** The classes of characters *)

(** A type stands for a predicate of [linux/ctype.h]. *)
Definition class_of (ty : Z) : Z -> bool :=
  default (fun _ => true) ([fun _ => false; fun _ => true; isdigit; isxdigit; isprint; isalpha; isalnum; isascii; iscntrl; isgraph;
    islower; isupper; ispunct; isspace] !! Z.to_nat ty).

Lemma token_class c ty r v :
  byte_ok c -> 0 < ty <= TS_FSM_TYPE_MAX -> match_token (mkToken (token_map !!! Z.to_nat ty) r v) c = class_of ty c.
Proof.
  assert (H : Forall (fun ty => Forall (fun c => match_token (mkToken (token_map !!! Z.to_nat ty) 0 0) c = class_of ty c) (seqZ 0 256))
                (seqZ 1 13)) by (apply (bool_decide_unpack _); by vm_compute).
  intros Hc Ht. rewrite Forall_forall in H. specialize (H ty). rewrite Forall_forall in H. unfold TS_FSM_TYPE_MAX, byte_ok in *.
  rewrite <- H; [|apply elem_of_seqZ; lia..]. unfold match_token. cbn [type value].
  assert (Hne : token_map !!! Z.to_nat ty <> 0).
  { assert (Forall (fun ty => token_map !!! Z.to_nat ty <> 0) (seqZ 1 13)) as Hf by (apply (bool_decide_unpack _); by vm_compute).
    rewrite Forall_forall in Hf. apply Hf, elem_of_seqZ. lia. }
  by rewrite (proj2 (Z.eqb_neq _ 0)) by done.
Qed.

(** ** What a sequence of tokens matches *)

Inductive matches : list ts_fsm_token -> list Z -> Prop :=
  | matches_nil : matches [] []
  | matches_one t l c s :
      recur t = TS_FSM_SINGLE \/ recur t = TS_FSM_PERHAPS -> match_token t c -> matches l s -> matches (t :: l) (c :: s)
  | matches_none t l s : recur t = TS_FSM_PERHAPS -> matches l s -> matches (t :: l) s
  | matches_many t l a s :
      recur t = TS_FSM_ANY \/ (recur t = TS_FSM_MULTI /\ a <> []) -> Forall (match_token t) a -> matches l s ->
      matches (t :: l) (a ++ s)
  (* what is ignored comes before the match *)
  | matches_head t l s : recur t = TS_FSM_HEAD_IGNORE -> matches l s -> matches (t :: l) s.

(** A token that is not [TS_FSM_HEAD_IGNORE]. *)
Definition inner (t : ts_fsm_token) : Prop := 0 <= recur t <= TS_FSM_MULTI.

Section Text.
Context (text : list Z).

(** The text between two places. *)
Definition seg (a b : nat) : list Z := take (b - a) (drop a text).

Lemma seg_nil a : seg a a = [].
Proof. unfold seg. by rewrite Nat.sub_diag. Qed.

Lemma seg_app a b c : (a <= b <= c)%nat -> seg a c = seg a b ++ seg b c.
Proof.
  intros H. unfold seg. replace (c - a)%nat with ((b - a) + (c - b))%nat by lia.
  rewrite <- take_take_drop, drop_drop. by replace (a + (b - a))%nat with b by lia.
Qed.

Lemma seg_one a c : text !! a = Some c -> seg a (S a) = [c].
Proof.
  intros H. unfold seg. replace (S a - a)%nat with 1%nat by lia. by rewrite (drop_S _ _ _ H).
Qed.

Context {C : Type} (next : block_fun C) (ok : C -> Prop).
Hypothesis Hnext : Delivers next ok text.
Hypothesis H32 : Z.of_nat (length text) < 2 ^ 32.

(** The search stands at place [q] of the text. *)
Definition standing (s : scan C) (q : nat) : Prop :=
  ok (scan_cb s) /\ 0 <= consumed s /\ 0 <= block_idx s <= block_len s /\ consumed s + block_idx s = Z.of_nat q /\ Z.of_nat q < 2 ^ 32 /\
  (0 < block_len s -> consumed s + block_len s <= Z.of_nat (length text)) /\
  take (Z.to_nat (block_len s)) (data s) = take (Z.to_nat (block_len s)) (drop (Z.to_nat (consumed s)) text).

Definition inside (s : scan C) : Prop := block_idx s < block_len s.

Lemma end_of_data_spec s q :
  standing s q ->
  (exists s', end_of_data next s = (true, s') /\ standing s' q /\ (length text <= q)%nat) \/
  (exists s', end_of_data next s = (false, s') /\ standing s' q /\ inside s' /\ (q < length text)%nat).
Proof.
  intros (Hok & Hc & Hi & Hq & Hq32 & Hend & Hd). unfold end_of_data. destruct (Z.leb_spec (block_len s) (block_idx s)) as [Hle|Hlt].
  - rewrite Hq. unfold u32. rewrite Z.mod_small by lia. destruct (next (Z.of_nat q) (scan_cb s)) as [[n d] c] eqn:E.
    destruct (Hnext _ _ _ _ _ Hok E) as (Hc' & Hn & Hpos & Hend' & Hd').
    assert (Hst : standing (mkScan (Z.of_nat q) 0 n d c) q) by (split_and!; cbn; rewrite ?Nat2Z.id; [done|lia..|done]).
    destruct (Z.eqb_spec n 0); [left|right]; (eexists; split; [done|]; split; [done|]); [lia|]. unfold inside. cbn. lia.
  - right. exists s. unfold inside. split_and!; [done|done|lia|lia].
Qed.

Lemma here_spec s q : standing s q -> inside s -> exists c, text !! q = Some c /\ (q < length text)%nat /\ forall t, here s t = Some (match_token t c).
Proof.
  intros (_ & Hc & Hi & Hq & _ & Hend & Hd) Hin. unfold inside in Hin. destruct (lookup_lt_is_Some_2 text q) as [c Hc']; [lia|].
  exists c. split; [done|]. split; [by eapply lookup_lt_Some|]. intros t. unfold here, load. rewrite (proj2 (Z.leb_le 0 _)) by lia.
  assert (data s !! Z.to_nat (block_idx s) = Some c) as ->; [|done].
  rewrite <- (lookup_take_lt _ (Z.to_nat (block_len s))) by lia. rewrite Hd, lookup_take_lt, lookup_drop by lia.
  by replace (Z.to_nat (consumed s) + Z.to_nat (block_idx s))%nat with q by lia.
Qed.

Lemma bump_spec s q : standing s q -> inside s -> standing (bump s) (S q).
Proof.
  intros (Hok & Hc & Hi & Hq & _ & Hend & Hd) Hin. unfold inside, bump in *. unfold u32.
  split_and!; cbn; rewrite ?Z.mod_small by lia; [done|lia..|done].
Qed.

Lemma skip_spec fuel cur nxt s q :
  standing s q -> inside s -> (length text - q < fuel)%nat ->
  exists r s' q', skip next fuel cur nxt s = Some (r, s') /\ standing s' q' /\ (q <= q')%nat /\ Forall (match_token cur) (seg q q') /\
    (r = refused -> inside s').
Proof.
  revert s q. induction fuel as [|fuel IH]; intros s q Hs Hin Hf; [lia|]. cbn [skip].
  destruct (here_spec s q Hs Hin) as (c & Hc & Hlt & Hh). rewrite !Hh. cbn [mbind option_bind].
  destruct (match_token nxt c); [exists reached, s, q; rewrite seg_nil; by split_and!|]. cbn [mbind option_bind].
  destruct (match_token cur c) eqn:Em; [|exists refused, s, q; rewrite seg_nil; by split_and!].
  assert (Hone : Forall (match_token cur) (seg q (S q))) by (rewrite (seg_one q c Hc); constructor; [by rewrite Em|done]).
  destruct (end_of_data_spec (bump s) (S q) (bump_spec s q Hs Hin)) as [(s' & -> & Hs' & _)|(s' & -> & Hs' & Hin' & Hl)].
  - exists ended, s', (S q). split_and!; [done|done|lia|done|done].
  - destruct (IH s' (S q) Hs' Hin') as (r & s2 & q2 & E & Hs2 & Hq2 & Hall & Hr); [lia|]. exists r, s2, q2. split_and!; [done|done|lia| |done].
    rewrite (seg_app q (S q) q2) by lia. by apply Forall_app.
Qed.

(** What becomes of a try that stands at [q]: it goes on to a later place; starting over,
    it has got on; a match is what [P] says. *)
Definition fares (strict : bool) (q : nat) (start : Z) (P : list Z -> Prop) (res : option (outcome * scan C * Z)) : Prop :=
  exists r s' q' start', res = Some (r, s', start') /\ standing s' q' /\ (q <= q')%nat /\
    (r = startover -> strict = false /\ (q < q' <= length text)%nat) /\ (r = found_match -> start' = start /\ P (seg q q')).

Lemma fares_from strict q q1 start P P1 res :
  (q <= q1)%nat -> fares strict q1 start P1 res -> (forall b, P1 b -> P (seg q q1 ++ b)) -> fares strict q start P res.
Proof.
  intros Hq (r & s' & q' & start' & -> & Hs & Hq' & Hso & Hf) HP. exists r, s', q', start'. split_and!; [done|done|lia| |].
  - intros Hr. destruct (Hso Hr). split; [done|lia].
  - intros Hr. destruct (Hf Hr) as [-> HP1]. split; [done|]. rewrite (seg_app q q1 q') by lia. by apply HP.
Qed.

Lemma fares_here strict q start P P1 res : fares strict q start P1 res -> (forall b, P1 b -> P b) -> fares strict q start P res.
Proof. intros Hf HP. apply (fares_from strict q q start P P1); [lia|done|]. rewrite seg_nil. by apply HP. Qed.

Lemma fares_not strict q q1 start P s : standing s q1 -> (q <= q1)%nat -> fares strict q start P (Some (no_match, s, start)).
Proof. intros Hs Hq. by exists no_match, s, q1, start. Qed.

Lemma fares_found strict q start (P : list Z -> Prop) s : standing s q -> P [] -> fares strict q start P (Some (found_match, s, start)).
Proof. intros Hs HP. exists found_match, s, q, start. rewrite seg_nil. split_and!; [done|done|lia|done|done]. Qed.

Lemma fares_mismatch strict q q1 start P s :
  standing s q1 -> inside s -> (q <= q1)%nat -> fares strict q start P (token_mismatch strict s start).
Proof.
  intros Hs Hin Hq. unfold token_mismatch. destruct strict; [by eapply fares_not|].
  exists startover, (bump s), (S q1), start. split_and!; [done|by apply bump_spec|lia| |done].
  destruct (here_spec s q1 Hs Hin) as (_ & _ & Hlt & _). split; [done|lia].
Qed.

Lemma run_any_spec fuel strict cur l go_on start s q :
  (length text < fuel)%nat -> (forall s q, standing s q -> fares strict q start (matches l) (go_on s)) -> (l = [] -> matches l []) ->
  standing s q ->
  fares strict q start (fun b => exists a b', b = a ++ b' /\ Forall (match_token cur) a /\ matches l b')
    (run_any next fuel strict cur (head l) go_on s start).
Proof.
  intros Hfuel Hgo Hnil Hs. unfold run_any. destruct l as [|nxt l'] eqn:El; cbn [head].
  - apply fares_found; [done|]. exists [], []. by split_and!; [| |apply Hnil].
  - rewrite <- El in *. destruct (end_of_data_spec s q Hs) as [(s' & -> & Hs' & _)|(s' & -> & Hs' & Hin & _)].
    + apply (fares_here _ _ _ _ _ _ (Hgo s' q Hs')). intros b Hb. by exists [], b.
    + destruct (skip_spec fuel cur nxt s' q Hs' Hin) as (r & s2 & q2 & -> & Hs2 & Hq2 & Hall & Hr); [lia|]. cbn [mbind option_bind].
      destruct r; [|eapply fares_mismatch; [done|by apply Hr|done]|by eapply fares_not].
      apply (fares_from _ _ _ _ _ _ _ Hq2 (Hgo s2 q2 Hs2)). intros b Hb. by exists (seg q q2), b.
Qed.

Ltac known_recur :=
  repeat match goal with |- context [?a =? ?b] => let v := eval vm_compute in (a =? b) in change (a =? b) with v end; cbv iota beta.

Lemma try_tokens_spec fuel strict l s q start :
  (length text < fuel)%nat -> Forall inner l -> standing s q -> fares strict q start (matches l) (try_tokens next fuel strict l s start).
Proof.
  intros Hfuel Hl. revert s q. induction Hl as [|cur l Hcur Hl IH]; intros s q Hs; cbn [try_tokens].
  { destruct (end_of_data_spec s q Hs) as [(s' & -> & Hs' & _)|(s' & -> & Hs' & _)].
    - apply fares_found; [done|constructor].
    - by eapply fares_not. }
  assert (Hany : forall s q, standing s q ->
    fares strict q start (fun b => exists a b', b = a ++ b' /\ Forall (match_token cur) a /\ matches l b')
      (run_any next fuel strict cur (head l) (fun s => try_tokens next fuel strict l s start) s start)).
  { intros s1 q1. apply run_any_spec; [done|done|]. intros ->. constructor. }
  assert (Hone : forall s' c, text !! q = Some c -> match_token cur c = true -> standing s' q -> inside s' ->
            recur cur = TS_FSM_SINGLE \/ recur cur = TS_FSM_PERHAPS ->
            fares strict q start (matches (cur :: l)) (try_tokens next fuel strict l (bump s') start)).
  { intros s' c Hc Hm Hs' Hin Hr. eapply (fares_from _ _ (S q)); [lia|by apply IH, bump_spec|].
    intros b Hb. rewrite (seg_one q c Hc). apply matches_one; [done|by rewrite Hm|done]. }
  assert (recur cur = TS_FSM_SINGLE \/ recur cur = TS_FSM_PERHAPS \/ recur cur = TS_FSM_MULTI \/ recur cur = TS_FSM_ANY)
    as [Hr|[Hr|[Hr|Hr]]] by (unfold inner, TS_FSM_SINGLE, TS_FSM_PERHAPS, TS_FSM_MULTI, TS_FSM_ANY in *; lia);
    rewrite Hr; known_recur.
  - destruct (end_of_data_spec s q Hs) as [(s' & -> & Hs' & _)|(s' & -> & Hs' & Hin & _)]; [by eapply fares_not|].
    destruct (here_spec s' q Hs' Hin) as (c & Hc & _ & ->). cbn [mbind option_bind].
    destruct (match_token cur c) eqn:Em; [by eapply Hone; eauto|by eapply fares_mismatch].
  - destruct (end_of_data_spec s q Hs) as [(s' & -> & Hs' & _)|(s' & -> & Hs' & Hin & _)].
    { apply (fares_here _ _ _ _ _ _ (IH s' q Hs')). intros b Hb. by apply matches_none. }
    destruct (here_spec s' q Hs' Hin) as (c & Hc & _ & ->). cbn [mbind option_bind].
    destruct (match_token cur c) eqn:Em; [by eapply Hone; eauto|].
    apply (fares_here _ _ _ _ _ _ (IH s' q Hs')). intros b Hb. by apply matches_none.
  - destruct (end_of_data_spec s q Hs) as [(s' & -> & Hs' & _)|(s' & -> & Hs' & Hin & _)]; [by eapply fares_not|].
    destruct (here_spec s' q Hs' Hin) as (c & Hc & _ & ->). cbn [mbind option_bind].
    destruct (match_token cur c) eqn:Em; [|by eapply fares_mismatch].
    eapply (fares_from _ _ (S q)); [lia|by apply Hany, bump_spec|]. intros b (a & b' & -> & Ha & Hb).
    rewrite (seg_one q c Hc), app_assoc. apply matches_many; [by right|constructor; [by rewrite Em|done]|done].
  - apply (fares_here _ _ _ _ _ _ (Hany s q Hs)). intros b (a & b' & -> & Ha & Hb). by apply matches_many; [left|..].
Qed.

(** The pattern that [fsm_init] lets through. *)
Definition pattern_ok (l : list ts_fsm_token) : Prop :=
  match l with
  | [] => False
  | t :: l => (recur t = TS_FSM_HEAD_IGNORE /\ l <> [] \/ inner t) /\ Forall inner l
  end.

(** A try of the whole pattern. *)
Definition tried (l : list ts_fsm_token) (strict : bool) (q : nat) (res : option (outcome * scan C * Z)) : Prop :=
  exists r s' q' start', res = Some (r, s', start') /\ standing s' q' /\
    (r = startover -> strict = false /\ (q < q' <= length text)%nat) /\
    (r = found_match -> exists q0, start' = Z.of_nat q0 /\ (q <= q0 <= q')%nat /\ (strict = true -> q0 = q) /\ matches l (seg q0 q')).

Lemma fares_tried l strict q res : fares strict q (Z.of_nat q) (matches l) res -> tried l strict q res.
Proof.
  intros (r & s' & q' & start' & -> & Hs & Hq & Hso & Hf). exists r, s', q', start'. split_and!; [done|done|done|].
  intros Hr. destruct (Hf Hr) as [-> Hm]. exists q. split_and!; [done|lia|lia|done|done].
Qed.

Lemma try_pattern_spec fuel l s q :
  (length text < fuel)%nat -> pattern_ok l -> standing s q ->
  let strict := match l with t :: _ => negb (recur t =? TS_FSM_HEAD_IGNORE) | [] => true end in
  tried l strict q (try_tokens next fuel strict l s (Z.of_nat q)).
Proof.
  intros Hfuel Hl Hs. destruct l as [|t l]; [done|]. destruct Hl as [[[Hr Hne]|Ht] Hl].
  2: { apply fares_tried, try_tokens_spec; [done|by constructor|done]. }
  rewrite Hr. cbn [try_tokens]. rewrite Hr. known_recur. change (negb true) with false.
  destruct (end_of_data_spec s q Hs) as [(s' & -> & Hs' & _)|(s' & -> & Hs' & Hin & _)].
  { apply fares_tried. eapply fares_here; [by apply try_tokens_spec|]. intros b Hb. by apply matches_head. }
  destruct l as [|nxt l']; [done|]. cbn [head mbind option_bind].
  destruct (skip_spec fuel t nxt s' q Hs' Hin) as (r & s2 & q2 & -> & Hs2 & Hq2 & _ & _); [lia|]. cbn [mbind option_bind].
  destruct r; [|by eapply fares_tried, fares_not..].
  assert (u32 (consumed s2 + block_idx s2) = Z.of_nat q2) as ->.
  { destruct Hs2 as (_ & _ & _ & -> & ? & _). unfold u32. apply Z.mod_small. lia. }
  destruct (try_tokens_spec fuel false (nxt :: l') s2 q2 (Z.of_nat q2) Hfuel Hl Hs2) as (r & s3 & q3 & start' & E & Hs3 & Hq3 & Hso & Hf).
  exists r, s3, q3, start'. split_and!; [done|done| |].
  - intros Hr'. destruct (Hso Hr'). split; [done|lia].
  - intros Hr'. destruct (Hf Hr') as [-> Hm]. exists q2. split_and!; [done|lia|lia|done|by apply matches_head].
Qed.

(** The tries end, and what they find is a match. *)
Lemma tries_spec n fuel l s q :
  (length text < fuel)%nat -> (length text - q < n)%nat -> pattern_ok l -> standing s q ->
  let strict := match l with t :: _ => negb (recur t =? TS_FSM_HEAD_IGNORE) | [] => true end in
  (exists c, tries next n fuel strict l s = Some (UINT_MAX, None, c) /\ ok c) \/
  (exists q0 q1 c, tries next n fuel strict l s = Some (Z.of_nat q0, Some (Z.of_nat q1), c) /\ ok c /\
     (q <= q0 <= q1)%nat /\ (strict = true -> q0 = q) /\ matches l (seg q0 q1)).
Proof.
  intros Hfuel Hn Hl Hs strict. revert s q Hn Hs. induction n as [|n IH]; intros s q Hn Hs; [lia|]. cbn [tries].
  assert (u32 (consumed s + block_idx s) = Z.of_nat q) as -> by (destruct Hs as (_ & _ & _ & -> & ? & _); unfold u32; apply Z.mod_small; lia).
  destruct (try_pattern_spec fuel l s q Hfuel Hl Hs) as (r & s' & q' & start' & E & Hs' & Hso & Hf). fold strict in E, Hso, Hf.
  rewrite E. cbn [mbind option_bind]. destruct r.
  - left. exists (scan_cb s'). split; [done|apply Hs'].
  - right. destruct (Hf eq_refl) as (q0 & -> & Hq & Hst & Hm). exists q0, q', (scan_cb s'). split_and!; [|apply Hs'|lia|lia|done|done].
    do 4 f_equal. destruct Hs' as (_ & _ & _ & -> & ? & _). unfold u32. apply Z.mod_small. lia.
  - destruct (Hso eq_refl) as [Hst Hq']. destruct (IH s' q') as [Hno|(q0 & q1 & c & Ht & Hc & Hq & _ & Hm)]; [lia|done|by left|right].
    exists q0, q1, c. split_and!; [done|done|lia|lia|by rewrite Hst|done].
Qed.

End Text.

(** ** The patterns that [fsm_init] accepts *)

(** A token as it is kept. *)
Definition kept (t : ts_fsm_token) : ts_fsm_token := mkToken (token_map !!! Z.to_nat (type t)) (recur t) (value t).

Lemma read_tokens_spec k n i pattern l :
  Forall byte_ok pattern -> read_tokens k n i pattern = Some (Some l) ->
  length l = k /\ forall j t, l !! j = Some t -> token_ok n (i + Z.of_nat j) t = true /\ 0 <= recur t.
Proof.
  revert i pattern l. induction k as [|k IH]; intros i pattern l Hb; cbn [read_tokens]; [intros [= <-]; split; [done|]; by intros [] ?|].
  destruct pattern as [|b0 [|b1 [|b2 [|b3 rest]]]]; try done. set (t := mkToken (b0 + 256 * b1) b2 b3).
  destruct (token_ok n i t) eqn:Ht; [|done]. apply (Forall_drop _ 2) in Hb as Hb2. apply (Forall_drop _ 4) in Hb as Hb4. cbn [drop] in *.
  rewrite ?drop_0 in *. destruct (read_tokens k n (i + 1) rest) as [[l'|]|] eqn:E; [|done|done]. intros [= <-].
  destruct (IH _ _ _ Hb4 E) as [Hl Hj]. split; [simpl; lia|]. intros [|j] u.
  - intros [= <-]. rewrite Z.add_0_r. split; [done|]. apply Forall_cons in Hb2 as [Hb2 _]. unfold byte_ok in Hb2. simpl. lia.
  - simpl. intros Hu. replace (i + Z.of_nat (S j)) with (i + 1 + Z.of_nat j) by lia. by apply Hj.
Qed.

Lemma fsm_init_spec {C} kzalloc pattern len flags (conf : ts_config C) :
  Forall byte_ok pattern -> 0 <= len -> fsm_init kzalloc pattern len flags = Some (inr conf) ->
  exists l, read_tokens (Z.to_nat (len `div` 4)) (len `div` 4) 0 pattern = Some (Some l) /\
    priv conf = Fsm (mkFsm (len `div` 4) (kept <$> l)) /\ pattern_ok (kept <$> l).
Proof.
  intros Hb H0. unfold fsm_init. case_match eqn:Hlen; [done|]. apply orb_false_iff in Hlen as [_ Hlen]. to_prop.
  case_match; [done|]. destruct (read_tokens _ _ _ _) as [[l|]|] eqn:E; [|done..]. cbn [mbind option_bind].
  unfold alloc_ts_config. destruct (kzalloc _); [|done]. cbn [priv]. case_match; [done|]. intros [= <-].
  exists l. split; [done|]. split; [done|]. destruct (read_tokens_spec _ _ _ _ _ Hb E) as [Hl Hj].
  destruct l as [|t l]; [simpl in Hl; lia|]. assert (Hin : forall j u, (t :: l) !! j = Some u -> recur u = TS_FSM_HEAD_IGNORE /\ j = 0%nat /\ (len `div` 4 <> 1) \/ inner u).
  { intros j u Hu. destruct (Hj j u Hu) as [Hok Hr]. unfold token_ok in Hok. apply andb_prop in Hok as [Hrm Hhd].
    apply negb_true_iff in Hrm, Hhd. apply orb_false_iff in Hrm as [_ Hrm]. apply Z.ltb_ge in Hrm.
    destruct (Z.eqb_spec (recur u) TS_FSM_HEAD_IGNORE) as [Hh|Hh]; [left|right].
    - cbn [andb] in Hhd. apply orb_false_iff in Hhd as [Hhd Hlast]. apply negb_false_iff, Z.eqb_eq in Hhd. apply Z.eqb_neq in Hlast.
      split_and!; [done|lia|lia].
    - unfold inner, TS_FSM_RECUR_MAX, TS_FSM_HEAD_IGNORE, TS_FSM_MULTI in *. lia. }
  cbn. split.
  - destruct (Hin 0%nat t eq_refl) as [(Hh & _ & Hn)|Hh]; [left|by right]. split; [done|]. destruct l; [simpl in Hl; lia|done].
  - apply Forall_fmap, Forall_lookup. intros j u Hu. destruct (Hin (S j) u Hu) as [(_ & ? & _)|Hh]; [done|]. done.
Qed.


(** Anything, digits and an x; and anything and "aab". *)
Definition digits_x : list Z := [1; 0; 4; 0; 2; 0; 3; 0; 0; 0; 0; 120].
Definition aab : list Z := [1; 0; 4; 0; 0; 0; 0; 97; 0; 0; 0; 97; 0; 0; 0; 98].

Definition conf_for (pattern : list Z) : ts_config unit :=
  match fsm_init (fun _ => true) pattern (Z.of_nat (length pattern)) 0 with Some (inr conf) => conf | _ => mkConf 0 0 None None (Blank 0) end.


Example fsm_runs :
  fsm_find 6 (mkConf 0 0 (Some (three_bytes [97; 98; 49; 50; 120])) None (priv (conf_for digits_x))) (mkState 0 tt) = Some (2, mkState 5 tt).
Proof. by vm_compute. Qed.

(** A match that starts in a failed try is missed: "aab" at the end of "aaab". *)
Example fsm_misses_overlapping :
  fsm_find 6 (mkConf 0 0 (Some (three_bytes [97; 97; 97; 98])) None (priv (conf_for aab))) (mkState 0 tt) = Some (UINT_MAX, mkState 0 tt) /\
  match priv (conf_for aab) with Fsm fsm => matches (tokens fsm) (seg [97; 97; 97; 98] 1 4) | _ => False end.
Proof.
  split; [by vm_compute|]. vm_compute priv. cbn [tokens]. apply matches_head; [done|].
  repeat (apply matches_one; [by left|by compute|]). constructor.
Qed.

End KernelFsm.
