(* ===== verification/KernelMatch.v ===== *)
(** * KernelMatch: the search algorithms of the board's kernel under one roof

    The three algorithms are registered as their modules are loaded, and a search is
    prepared, run over a text in one piece and destroyed through lib/textsearch.c. *)

From stdpp Require Import gmap strings.
From S2P Require Import Prelude KernelString KernelSearch KernelKmp KernelBm KernelFsm.
Import KernelSearch.

Module KernelMatch.

Section Modules.
Context {C : Type} (fuel : nat) (kzalloc : Z -> bool).

(** The addresses of [kmp_ops], [bm_ops] and [fsm_ops], also taken for their modules. *)
Definition kmp_at : Z := 1.
Definition bm_at : Z := 2.
Definition fsm_at : Z := 3.

Definition all_ops : gmap Z (ts_ops C) :=
  list_to_map [(kmp_at, KernelKmp.kmp_ops fuel kzalloc kmp_at); (bm_at, KernelBm.bm_ops fuel kzalloc bm_at);
               (fsm_at, KernelFsm.fsm_ops fuel kzalloc fsm_at)].

Definition init_kmp (reg : registry C) : option (Z * registry C) := textsearch_register reg kmp_at.
Definition exit_kmp (reg : registry C) : Z * registry C := textsearch_unregister reg kmp_at.
Definition init_bm (reg : registry C) : option (Z * registry C) := textsearch_register reg bm_at.
Definition exit_bm (reg : registry C) : Z * registry C := textsearch_unregister reg bm_at.
Definition init_fsm (reg : registry C) : option (Z * registry C) := textsearch_register reg fsm_at.
Definition exit_fsm (reg : registry C) : Z * registry C := textsearch_unregister reg fsm_at.

(** All three modules are loaded. *)
Definition loaded : registry C := mkReg all_ops [kmp_at; bm_at; fsm_at].

Lemma modules_load :
  ('(e1, reg) ← init_kmp (mkReg all_ops []); '(e2, reg) ← init_bm reg; '(e3, reg) ← init_fsm reg; Some ([e1; e2; e3], reg)) =
    Some ([0; 0; 0], loaded).
Proof. done. Qed.

(** A module that goes is no longer found, and the others are. *)
Lemma modules_unload : exit_bm loaded = (0, mkReg all_ops [kmp_at; fsm_at]) /\ exit_bm (snd (exit_bm loaded)) = (- ENOENT, snd (exit_bm loaded)).
Proof. done. Qed.

End Modules.

Section Searches.
Context {Mod : Type} (fuel : nat) (kzalloc : Z -> bool).
Context (try_module_get : Z -> Mod -> option Mod) (module_put : Z -> Mod -> Mod).
Context (request_module : string -> registry ts_linear_state -> registry ts_linear_state).

(** The algorithms for a pattern of bytes: their name, their address, and the texts they
    are fit for. *)
Definition byte_search (algo : string) (o : Z) (fit : bool -> list Z -> list Z -> Prop) : Prop :=
  (algo = "kmp" /\ o = kmp_at /\ fit = KernelKmp.kmp_fit fuel) \/ (algo = "bm" /\ o = bm_at /\ fit = KernelBm.bm_fit fuel).

(** C34. The text search finds the first occurrence: once the modules are loaded, a search
    prepared by [textsearch_prepare] with "kmp" or "bm" answers, in
    [textsearch_find_continuous], where the pattern stands first in the text, or
    [UINT_MAX] if it does not, letters in capitals if the flags say so; the only failure
    is that there is no memory; and the reference to the module that was taken is given
    back, by [textsearch_destroy] or at once after the failure.  "bm" is fit for texts that
    together with the pattern are shorter than 2^31 and, if case is ignored, have none of
    the two characters that it does not find. *)
Theorem textsearch_finds_the_first algo o fit m m' pattern len flags :
  byte_search algo o fit -> try_module_get o m = Some m' ->
  0 < len <= Z.of_nat (length pattern) -> Forall byte_ok pattern -> 5 * len < 2 ^ 32 - 2048 ->
  let reg := loaded fuel kzalloc in
  let prepared := textsearch_prepare try_module_get module_put request_module reg m algo pattern len flags in
  prepared = Some (inl (- ENOMEM), reg, module_put o m') \/
  exists conf, prepared = Some (inr conf, reg, m') /\
    (exists c, textsearch_destroy module_put reg m' conf = Some (c, module_put o m')) /\
    let fold := folded (ignores_case flags) in let p := fold <$> take (Z.to_nat len) pattern in
    forall st data n, 0 <= n <= Z.of_nat (length data) -> fit (ignores_case flags) p (take (Z.to_nat n) data) ->
    exists r st' conf', textsearch_find_continuous reg conf st data n = Some (r, st', conf') /\
      finds p (fold <$> take (Z.to_nat n) data) 0 r.
Proof.
  intros Ha Hm Hlen Hb H32 reg prepared.
  assert (exists obj, Algorithm obj fit /\ by_name reg algo (algos reg) = Some o /\ objects reg !! o = Some obj /\ owner obj = o /\ o <> 0)
    as (obj & Hobj & Hn & Ho & Hw & H0).
  { destruct Ha as [(-> & -> & ->)|(-> & -> & ->)]; eexists; split; [|done| |done].
    - exact (KernelKmp.kmp_algorithm fuel kzalloc kmp_at).
    - exact (KernelBm.bm_algorithm fuel kzalloc bm_at). }
  rewrite <- Hw in Hm. destruct (search_works try_module_get module_put request_module reg m algo pattern len flags o obj m' fit Hobj Hn Ho Hm Hlen Hb H32)
    as [E|(conf & E & Hd & Hf)]; rewrite Hw in *; [by left|right]. exists conf. split; [done|]. split; [by apply Hd|done].
Qed.

End Searches.

(** "chicken", ignoring case, with either algorithm; the modules count their references. *)
Definition count_get (o : Z) (m : Z) : option Z := Some (m + 1).
Definition count_put (o : Z) (m : Z) : Z := m - 1.
Definition chicken : list Z := [99; 104; 105; 99; 107; 101; 110].

(** "My CHICKEN". *)
Definition my_chicken : list Z := [77; 121; 32; 67; 72; 73; 67; 75; 69; 78].

Lemma textsearch_finds_the_first_witness :
  let reg : registry ts_linear_state := loaded 9 (fun _ => true) in
  exists conf,
    textsearch_prepare count_get count_put (fun _ reg => reg) reg 0 "bm"%string chicken 7 TS_IGNORECASE = Some (inr conf, reg, 1) /\
    (exists c, textsearch_destroy count_put reg 1 conf = Some (c, 0)) /\
    exists r st' conf', textsearch_find_continuous reg conf (mkState 0 (mkLinear 0 [])) my_chicken 10 = Some (r, st', conf') /\
      finds (folded true <$> chicken) (folded true <$> my_chicken) 0 r.
Proof.
  destruct (textsearch_finds_the_first 9 (fun _ => true) count_get count_put (fun _ reg => reg) "bm"%string bm_at (KernelBm.bm_fit 9) 0 1
    chicken 7 TS_IGNORECASE) as [E|(conf & E & Hd & Hf)]; [by right|done|simpl; lia|unfold chicken; repeat constructor; by compute|lia|..].
  - exfalso. apply (f_equal (fun r => match r with Some (inr _, _, _) => true | _ => false end)) in E. revert E. by vm_compute.
  - exists conf. split; [exact E|]. split; [exact Hd|]. apply (Hf (mkState 0 (mkLinear 0 [])) my_chicken 10); [simpl; lia|].
    split; [lia|]. split; [vm_compute; reflexivity|].
    split; [|intros _]; apply (bool_decide_unpack _); vm_compute; exact I.
Defined.

(** The search of the example in lib/textsearch.c. *)
Example chicken_is_found :
  let text := [87; 101; 32; 100; 97; 110; 99; 101; 32; 116; 104; 101; 32; 102; 117; 110; 107; 121; 32; 99; 104; 105; 99; 107; 101; 110] in
  let run algo :=
    '(c, reg, _) ← textsearch_prepare count_get count_put (fun _ reg => reg) (loaded 30 (fun _ => true)) 0 algo chicken 7 TS_AUTOLOAD;
    conf ← match c with inr conf => Some conf | inl _ => None end;
    '(r, _, _) ← textsearch_find_continuous reg conf (mkState 5 (mkLinear 0 [])) text 26;
    Some r in
  run "kmp"%string = Some 19 /\ run "bm"%string = Some 19.
Proof. by vm_compute. Qed.

End KernelMatch.
