(* ===== verification/KernelNumber.v ===== *)
(** * KernelNumber: reading and printing numbers in the board's kernel

    The first part of lib/vsprintf.c of the Linux kernel kept beside the agent: the
    functions that read a number from a string, and those that produce its digits, five
    at a time and with multiplications and shifts in the place of divisions.

    Memory is a list of bytes, as in [KernelString]; [unsigned long] has 32 bits. *)

From S2P Require Import Prelude KernelFifo KernelString KernelSearch.
Import KernelFifo KernelString.

Module KernelNumber.

Definition u64 (z : Z) : Z := z mod 2 ^ 64.
Definition i64 (z : Z) : Z := (z + 2 ^ 63) mod 2 ^ 64 - 2 ^ 63.

(** ** Reading *)

Definition TOLOWER (x : Z) : Z := x .| 0x20.

Definition simple_guess_base (m : list byte) (cp : Z) : option Z :=
  c0 ← load m cp;
  if c0 =? 48 then
    c1 ← load m (cp + 1);
    if TOLOWER c1 =? 120 then c2 ← load m (cp + 2); Some (if isxdigit c2 then 16 else 8) else Some 8
  else Some 10.

Definition digit_value (c : Z) : Z := if isdigit c then c - 48 else TOLOWER c - 97 + 10.

(** [result] is kept in [unsigned long] or [unsigned long long]: [wrap]. *)
Fixpoint strto_loop (fuel : nat) (wrap : Z -> Z) (m : list byte) (cp base result : Z) : option (Z * Z) :=
  match fuel with
  | O => None
  | S fuel =>
      c ← load m cp;
      if isxdigit c then
        let value := digit_value c in
        if base <=? value then Some (result, cp)
        else strto_loop fuel wrap m (cp + 1) base (wrap (result * base + value))
      else Some (result, cp)
  end.

(** The value, and where the number ends. *)
Definition simple_strto (wrap : Z -> Z) (m : list byte) (cp base : Z) : option (Z * Z) :=
  base ← (if base =? 0 then simple_guess_base m cp else Some base);
  cp ← (if base =? 16 then
          c0 ← load m cp;
          if c0 =? 48 then c1 ← load m (cp + 1); Some (if TOLOWER c1 =? 120 then cp + 2 else cp) else Some cp
        else Some cp);
  strto_loop (turns m) wrap m cp base 0.

Definition simple_strtoul : list byte -> Z -> Z -> option (Z * Z) := simple_strto u32.
Definition simple_strtoull : list byte -> Z -> Z -> option (Z * Z) := simple_strto u64.

Definition simple_strtol (m : list byte) (cp base : Z) : option (Z * Z) :=
  c ← load m cp;
  if c =? 45 then '(v, e) ← simple_strtoul m (cp + 1) base; Some (i32 (u32 (- v)), e)
  else '(v, e) ← simple_strtoul m cp base; Some (i32 v, e).

Definition simple_strtoll (m : list byte) (cp base : Z) : option (Z * Z) :=
  c ← load m cp;
  if c =? 45 then '(v, e) ← simple_strtoull m (cp + 1) base; Some (i64 (u64 (- v)), e)
  else '(v, e) ← simple_strtoull m cp base; Some (i64 v, e).

(** What is returned, and [*res]. *)
Definition strict_strto (wrap : Z -> Z) (m : list byte) (cp base : Z) : option (Z * Z) :=
  len ← strlen m cp;
  if len =? 0 then Some (- KernelSearch.EINVAL, 0)
  else
    '(val, tail) ← simple_strto wrap m cp base;
    if tail =? cp then Some (- KernelSearch.EINVAL, 0)
    else
      c ← load m tail;
      if (c =? 0) || ((len =? u32 (tail - cp + 1)) && (c =? 10)) then Some (0, val) else Some (- KernelSearch.EINVAL, 0).

Definition strict_strtoul : list byte -> Z -> Z -> option (Z * Z) := strict_strto u32.
Definition strict_strtoull : list byte -> Z -> Z -> option (Z * Z) := strict_strto u64.

Definition strict_strtol (m : list byte) (cp base : Z) : option (Z * Z) :=
  c ← load m cp;
  if c =? 45 then
    '(ret, res) ← strict_strtoul m (cp + 1) base;
    Some (ret, if ret =? 0 then i32 (- i32 res) else i32 res)
  else '(ret, res) ← strict_strtoul m cp base; Some (ret, i32 res).

Definition strict_strtoll (m : list byte) (cp base : Z) : option (Z * Z) :=
  c ← load m cp;
  if c =? 45 then
    '(ret, res) ← strict_strtoull m (cp + 1) base;
    Some (ret, if ret =? 0 then i64 (- i64 res) else i64 res)
  else '(ret, res) ← strict_strtoull m cp base; Some (ret, i64 res).

(** The value, and the string behind it; the kernel is built with [-fwrapv]. *)
Fixpoint skip_atoi_loop (fuel : nat) (m : list byte) (s i : Z) : option (Z * Z) :=
  match fuel with
  | O => None
  | S fuel =>
      c ← load m s;
      if isdigit c then skip_atoi_loop fuel m (s + 1) (i32 (i * 10 + c - 48)) else Some (i, s)
  end.

Definition skip_atoi (m : list byte) (s : Z) : option (Z * Z) := skip_atoi_loop (turns m) m s 0.

(** ** Decimal digits, the last one first *)

Definition put_dec_trunc (q : Z) : list Z :=
  let d1 := (q .>> 4) .& 0xF in
  let d2 := (q .>> 8) .& 0xF in
  let d3 := q .>> 12 in
  let d0 := u32 (6 * (d3 + d2 + d1) + (q .& 0xF)) in
  let q := u32 (d0 * 0xCD) .>> 11 in
  let d0 := d0 - 10 * q in
  let d1 := u32 (q + 9 * d3 + 5 * d2 + d1) in
  [u8 (d0 + 48)] ++
  if negb (d1 =? 0) then
    let q := u32 (d1 * 0xCD) .>> 11 in
    let d1 := d1 - 10 * q in
    let d2 := u32 (q + 2 * d2) in
    [u8 (d1 + 48)] ++
    if negb (d2 =? 0) || negb (d3 =? 0) then
      let q := u32 (d2 * 0xD) .>> 7 in
      let d2 := d2 - 10 * q in
      let d3 := u32 (q + 4 * d3) in
      [u8 (d2 + 48)] ++
      if negb (d3 =? 0) then
        let q := u32 (d3 * 0xCD) .>> 11 in
        let d3 := d3 - 10 * q in
        [u8 (d3 + 48)] ++ if negb (q =? 0) then [u8 (q + 48)] else []
      else []
    else []
  else [].

Definition put_dec_full (q : Z) : list Z :=
  let d1 := (q .>> 4) .& 0xF in
  let d2 := (q .>> 8) .& 0xF in
  let d3 := q .>> 12 in
  let d0 := u32 (6 * (d3 + d2 + d1) + (q .& 0xF)) in
  let q := u32 (d0 * 0xCD) .>> 11 in
  let d0 := d0 - 10 * q in
  let d1 := u32 (q + 9 * d3 + 5 * d2 + d1) in
  let q := u32 (d1 * 0xCD) .>> 11 in
  let d1 := d1 - 10 * q in
  let d2 := u32 (q + 2 * d2) in
  let q := u32 (d2 * 0xD) .>> 7 in
  let d2 := d2 - 10 * q in
  let d3 := u32 (q + 4 * d3) in
  let q := u32 (d3 * 0xCD) .>> 11 in
  let d3 := d3 - 10 * q in
  [u8 (d0 + 48); u8 (d1 + 48); u8 (d2 + 48); u8 (d3 + 48); u8 (q + 48)].

Fixpoint put_dec_loop (fuel : nat) (num : Z) : option (list Z) :=
  match fuel with
  | O => None
  | S fuel =>
      if num <? 100000 then Some (put_dec_trunc num)
      else rest ← put_dec_loop fuel (num / 100000); Some (put_dec_full (num mod 100000) ++ rest)
  end.

(** 2^64 is less than 100000^4. *)
Definition put_dec (num : Z) : option (list Z) := put_dec_loop 4 num.

(** ** Digits *)

(** The digits of [n], the last one first. *)
Fixpoint digits (fuel : nat) (base n : Z) : list Z :=
  match fuel with
  | O => []
  | S fuel => if n <? base then [n] else n mod base :: digits fuel base (n / base)
  end.

(** A number of [unsigned long long] has at most 64 digits. *)
Definition numeral (base n : Z) : list Z := digits 64 base n.

Lemma digits_fuel fuel fuel' base n :
  1 < base -> 0 <= n < base ^ Z.of_nat fuel -> (0 < fuel)%nat -> (fuel <= fuel')%nat -> digits fuel' base n = digits fuel base n.
Proof.
  intros Hb. revert fuel' n. induction fuel as [|fuel IH]; intros fuel' n Hn H0 Hf; [lia|]. destruct fuel' as [|fuel']; [lia|].
  cbn [digits]. destruct (Z.ltb_spec n base); [done|]. f_equal. destruct fuel as [|fuel].
  { rewrite Z.pow_1_r in Hn. lia. }
  apply IH; [|lia|lia]. rewrite Nat2Z.inj_succ, Z.pow_succ_r in Hn by lia.
  split; [apply Z.div_pos; lia|]. apply Z.div_lt_upper_bound; lia.
Qed.

Lemma digits_ok fuel base n : 1 < base -> 0 <= n -> Forall (fun d => 0 <= d < base) (digits fuel base n).
Proof.
  intros Hb. revert n. induction fuel as [|fuel IH]; intros n Hn; cbn [digits]; [constructor|].
  destruct (Z.ltb_spec n base); [by repeat constructor|]. constructor; [by apply Z.mod_pos_bound; lia|].
  apply IH, Z.div_pos; lia.
Qed.

(** Five decimal digits. *)
Lemma digits_five fuel n :
  100000 <= n -> digits (S (S (S (S (S fuel))))) 10 n =
    [n mod 10; n / 10 mod 10; n / 100 mod 10; n / 1000 mod 10; n / 10000 mod 10] ++ digits fuel 10 (n / 100000).
Proof.
  intros Hn. cbn [digits app]. repeat rewrite Z.div_div by lia.
  repeat match goal with |- context [?x <? 10] => rewrite (proj2 (Z.ltb_ge x 10)) by (Z.to_euclidean_division_equations; lia) end.
  done.
Qed.

(** *** Division by multiplication *)

Lemma div10_cd x : 0 <= x < 1000 -> u32 (x * 0xCD) .>> 11 = x / 10.
Proof.
  intros Hx. unfold u32. rewrite Z.mod_small, Z.shiftr_div_pow2 by lia. change (2 ^ 11) with 2048.
  Z.to_euclidean_division_equations. lia.
Qed.

Lemma div10_d x : 0 <= x < 64 -> u32 (x * 0xD) .>> 7 = x / 10.
Proof.
  intros Hx. unfold u32. rewrite Z.mod_small, Z.shiftr_div_pow2 by lia. change (2 ^ 7) with 128.
  Z.to_euclidean_division_equations. lia.
Qed.

(** The hexadecimal digits of [q], and what the carries are. *)
Lemma hex_digits q :
  0 <= q < 100000 ->
  exists d1 d2 d3 e, (q .>> 4) .& 0xF = d1 /\ (q .>> 8) .& 0xF = d2 /\ q .>> 12 = d3 /\ q .& 0xF = e /\
    0 <= d1 < 16 /\ 0 <= d2 < 16 /\ 0 <= d3 < 25 /\ 0 <= e < 16 /\ q = 4096 * d3 + 256 * d2 + 16 * d1 + e.
Proof.
  intros Hq. change 0xF with (Z.ones 4). rewrite !Z.land_ones, !Z.shiftr_div_pow2 by lia.
  change (2 ^ 4) with 16. change (2 ^ 8) with 256. change (2 ^ 12) with 4096.
  eexists _, _, _, _. split_and!; try done; Z.to_euclidean_division_equations; lia.
Qed.

Lemma u32_id x : 0 <= x < 2 ^ 32 -> u32 x = x.
Proof. apply Z.mod_small. Qed.

(** What is left after each digit. *)
Lemma carries q d1 d2 d3 e :
  0 <= q < 100000 -> 0 <= d1 < 16 -> 0 <= d2 < 16 -> 0 <= d3 < 25 -> 0 <= e < 16 -> q = 4096 * d3 + 256 * d2 + 16 * d1 + e ->
  let D0 := 6 * (d3 + d2 + d1) + e in
  let D1 := D0 / 10 + 9 * d3 + 5 * d2 + d1 in
  let D2 := D1 / 10 + 2 * d2 in
  let D3 := D2 / 10 + 4 * d3 in
  (0 <= D0 < 1000 /\ 0 <= D1 < 1000 /\ 0 <= D2 < 64 /\ 0 <= D3 < 1000) /\
  (D0 - 10 * (D0 / 10) = q mod 10 /\ D1 - 10 * (D1 / 10) = q / 10 mod 10 /\ D2 - 10 * (D2 / 10) = q / 100 mod 10 /\
   D3 - 10 * (D3 / 10) = q / 1000 mod 10 /\ D3 / 10 = q / 10000 mod 10) /\
  (D1 = 0 <-> q / 10 = 0) /\ q / 100 = D2 + 40 * d3 /\ q / 1000 = D3 /\ D3 / 10 = q / 10000.
Proof.
  intros Hq H1 H2 H3 He E D0 D1 D2 D3.
  assert (0 <= D0 < 1000 /\ D0 - 10 * (D0 / 10) = q mod 10) as [? E0] by (unfold D0; Z.to_euclidean_division_equations; lia).
  assert (0 <= D1 < 340 /\ q / 10 = D1 + 10 * (40 * d3 + 2 * d2)) as [? HD1] by (unfold D1, D0; Z.to_euclidean_division_equations; lia).
  assert (HZ : D1 = 0 -> d3 = 0 /\ d2 = 0) by (unfold D1; Z.to_euclidean_division_equations; lia).
  clearbody D0 D1. assert (HD2 : q / 100 = D2 + 40 * d3 /\ 0 <= D2 < 64).
  { change 100 with (10 * 10). rewrite <- Z.div_div, HD1 by lia. unfold D2. Z.to_euclidean_division_equations. lia. }
  clearbody D2. destruct HD2 as [HD2 ?]. assert (HD3 : q / 1000 = D3 /\ 0 <= D3 < 1000).
  { change 1000 with (100 * 10) at 1. rewrite <- Z.div_div, HD2 by lia. unfold D3. Z.to_euclidean_division_equations. lia. }
  clearbody D3. destruct HD3 as [HD3 ?].
  assert (HD4 : q / 10000 = D3 / 10) by (change 10000 with (1000 * 10); rewrite <- Z.div_div, HD3 by lia; done).
  split; [lia|]. rewrite HD1, HD2, HD3, HD4. split; [|lia]. split_and!; [done|..]; Z.to_euclidean_division_equations; lia.
Qed.

Lemma u8_digit d : 0 <= d < 10 -> u8 (d + 48) = d + 48.
Proof. intros Hd. apply u8_small. unfold byte_ok. lia. Qed.

Lemma put_dec_full_spec q :
  0 <= q < 100000 ->
  put_dec_full q = (fun d => d + 48) <$> [q mod 10; q / 10 mod 10; q / 100 mod 10; q / 1000 mod 10; q / 10000 mod 10].
Proof.
  intros Hq. unfold put_dec_full. destruct (hex_digits q Hq) as (d1 & d2 & d3 & e & -> & -> & -> & -> & H1 & H2 & H3 & He & Eq).
  destruct (carries q d1 d2 d3 e Hq H1 H2 H3 He Eq) as ((B0 & B1 & B2 & B3) & (E0 & E1 & E2 & E3 & E4) & _).
  rewrite (u32_id (6 * _ + _)), div10_cd by lia. rewrite (u32_id (_ + 9 * _ + _ + _)), div10_cd by lia.
  rewrite (u32_id (_ + 2 * _)), div10_d by lia. rewrite (u32_id (_ + 4 * _)), div10_cd by lia.
  rewrite E0, E1, E2, E3, E4. cbn [fmap list_fmap]. by rewrite !u8_digit by (apply Z.mod_pos_bound; lia).
Qed.

Lemma digits_next fuel base n :
  1 < base -> 0 <= n -> digits (S fuel) base n = n mod base :: if n / base =? 0 then [] else digits fuel base (n / base).
Proof.
  intros Hb Hn. cbn [digits]. destruct (Z.ltb_spec n base).
  - rewrite Z.mod_small, Z.div_small by lia. done.
  - assert (1 <= n / base) by (apply Z.div_le_lower_bound; lia). by rewrite (proj2 (Z.eqb_neq _ 0)) by lia.
Qed.

Lemma put_dec_trunc_spec q : 0 <= q < 100000 -> put_dec_trunc q = (fun d => d + 48) <$> numeral 10 q.
Proof.
  intros Hq. unfold put_dec_trunc. destruct (hex_digits q Hq) as (d1 & d2 & d3 & e & -> & -> & -> & -> & H1 & H2 & H3 & He & Eq).
  destruct (carries q d1 d2 d3 e Hq H1 H2 H3 He Eq) as ((B0 & B1 & B2 & B3) & (E0 & E1 & E2 & E3 & E4) & Z1 & Z2 & Z3 & Z4).
  rewrite (u32_id (6 * _ + _)), div10_cd by lia. rewrite (u32_id (_ + 9 * _ + _ + _)), div10_cd by lia.
  rewrite (u32_id (_ + 2 * _)), div10_d by lia. rewrite (u32_id (_ + 4 * _)), div10_cd by lia.
  assert (Hnn : forall k, 0 < k -> 0 <= q / k) by (intros; apply Z.div_pos; lia).
  assert (Hdig : forall x, u8 (x mod 10 + 48) = x mod 10 + 48) by (intros; apply u8_digit, Z.mod_pos_bound; lia).
  rewrite E0, E1, E2, E3, Z4, !Hdig. unfold numeral. rewrite (digits_next 63) by lia. cbn [fmap list_fmap app]. f_equal.
  destruct (Z.eqb_spec (q / 10) 0) as [Hz|Hz]; [by rewrite (proj2 (Z.eqb_eq _ 0)) by tauto|].
  rewrite (proj2 (Z.eqb_neq _ 0)) by tauto. cbn [negb]. rewrite (digits_next 62), Z.div_div by (auto with lia).
  cbn [fmap list_fmap app]. f_equal. change (10 * 10) with 100. rewrite Z2.
  set (D2 := (_ / 10 + 2 * d2)) in *. set (D3 := D2 / 10 + 4 * d3) in *. clearbody D2.
    assert (negb (D2 =? 0) || negb (d3 =? 0) = negb (D2 + 40 * d3 =? 0)) as ->.
  { clear - B2 H3. destruct (Z.eqb_spec D2 0), (Z.eqb_spec d3 0), (Z.eqb_spec (D2 + 40 * d3) 0); simpl; try done; exfalso; lia. }
  rewrite <- Z2. destruct (Z.eqb_spec (q / 100) 0) as [Hz2|Hz2]; [done|]. cbn [negb].
  rewrite (digits_next 61), Z.div_div by (auto with lia). cbn [fmap list_fmap app]. f_equal. change (100 * 10) with 1000. rewrite Z3.
  destruct (Z.eqb_spec D3 0) as [Hz3|Hz3]; [done|]. cbn [negb]. rewrite <- Z3.
  rewrite (digits_next 60), Z.div_div by (auto with lia). cbn [fmap list_fmap app]. f_equal. change (1000 * 10) with 10000.
  destruct (Z.eqb_spec (q / 10000) 0) as [Hz4|Hz4]; [done|]. cbn [negb].
  assert (q / 10000 < 10) by (apply Z.div_lt_upper_bound; lia). cbn [digits]. rewrite (proj2 (Z.ltb_lt _ 10)) by lia.
  cbn [fmap list_fmap]. by rewrite u8_digit by auto with lia.
Qed.

(** A digit of the last five. *)
Lemma last_five n k j : 0 < k -> 0 < j -> 100000 = k * 10 * j -> n mod 100000 / k mod 10 = n / k mod 10.
Proof.
  intros Hk Hj E. rewrite (Z.div_mod n 100000) at 2 by lia. set (r := n mod 100000). set (t := n / 100000).
  clearbody r t. replace (100000 * t + r) with (r + (j * t * 10) * k) by (rewrite E; ring). rewrite Z.div_add by lia.
  by rewrite Z.mod_add by lia.
Qed.

Lemma put_dec_loop_spec fuel k n :
  0 <= n < 10 ^ (5 * Z.of_nat fuel) -> (0 < fuel)%nat -> (5 * fuel <= k)%nat ->
  put_dec_loop fuel n = Some ((fun d => d + 48) <$> digits k 10 n).
Proof.
  revert k n. induction fuel as [|fuel IH]; intros k n Hn H0 Hk; [lia|]. cbn [put_dec_loop]. destruct (Z.ltb_spec n 100000) as [Hs|Hs].
  - rewrite put_dec_trunc_spec by lia. do 2 f_equal. unfold numeral.
    rewrite (digits_fuel 5 64), (digits_fuel 5 k) by (try lia; change (10 ^ Z.of_nat 5) with 100000; lia). done.
  - destruct fuel as [|fuel].
    { change (10 ^ (5 * Z.of_nat 1)) with 100000 in Hn. lia. }
    do 5 (destruct k as [|k]; [lia|]). rewrite digits_five by done. rewrite (IH k).
    + cbn [mbind option_bind]. rewrite put_dec_full_spec by (apply Z.mod_pos_bound; lia). rewrite fmap_app. do 3 f_equal.
      assert (n mod 100000 mod 10 = n mod 10) as -> by (Z.to_euclidean_division_equations; lia).
      by rewrite (last_five n 10 1000), (last_five n 100 100), (last_five n 1000 10), (last_five n 10000 1) by lia.
    + replace (5 * Z.of_nat (S (S fuel))) with (5 + 5 * Z.of_nat (S fuel)) in Hn by lia. rewrite Z.pow_add_r in Hn by lia.
      change (10 ^ 5) with 100000 in Hn. split; [apply Z.div_pos; lia|]. apply Z.div_lt_upper_bound; lia.
    + lia.
    + lia.
Qed.

(** The decimal digits are those of the number. *)
Lemma put_dec_spec n : 0 <= n < 2 ^ 64 -> put_dec n = Some ((fun d => d + 48) <$> numeral 10 n).
Proof.
  intros Hn. apply put_dec_loop_spec; [|lia|lia]. change (10 ^ (5 * Z.of_nat 4)) with 100000000000000000000.
  change (2 ^ 64) with 18446744073709551616 in Hn. lia.
Qed.

(** ** What is read *)

Definition digit_of (base c : Z) : bool := isxdigit c && (digit_value c <? base).

(** The digits a string starts with, and their value. *)
Fixpoint leading (base : Z) (s : list Z) : list Z :=
  match s with c :: s => if digit_of base c then c :: leading base s else [] | [] => [] end.

Definition value (base a : Z) (l : list Z) : Z := foldl (fun a c => a * base + digit_value c) a l.

Definition char_at (s : list Z) (i : nat) : Z := default 0 (s !! i).
Definition starts_0x (s : list Z) : bool := (char_at s 0 =? 48) && (TOLOWER (char_at s 1) =? 120).

Definition base_of (base : Z) (s : list Z) : Z :=
  if base =? 0 then
    if char_at s 0 =? 48 then if starts_0x s && isxdigit (char_at s 2) then 16 else 8 else 10
  else base.

Definition prefix_length (base : Z) (s : list Z) : nat := if (base =? 16) && starts_0x s then 2 else 0.

(** The number at the start of a string: its value, and its length. *)
Definition number_in (base : Z) (s : list Z) : Z * nat :=
  let b := base_of base s in
  let k := prefix_length b s in
  let ds := leading b (drop k s) in
  (value b 0 ds, (k + length ds)%nat).

Lemma cstr_at m p s i : cstr m p s -> (i <= length s)%nat -> load m (p + Z.of_nat i) = Some (char_at s i).
Proof.
  unfold char_at. revert p i. induction s as [|c s IH]; intros p i; simpl.
  - intros H Hi. replace i with 0%nat by lia. by rewrite Z.add_0_r.
  - intros (Hc & _ & Hs) Hi. destruct i as [|i]; [by rewrite Z.add_0_r|]. simpl. rewrite <- IH with (p := p + 1) by (done || lia). f_equal. lia.
Qed.

Lemma cstr_drop m p s n : cstr m p s -> (n <= length s)%nat -> cstr m (p + Z.of_nat n) (drop n s).
Proof.
  revert p n. induction s as [|c s IH]; intros p n H Hn; simpl in *.
  - replace n with 0%nat by lia. by rewrite Z.add_0_r.
  - destruct n as [|n]; [rewrite Z.add_0_r; done|]. simpl. replace (p + Z.of_nat (S n)) with (p + 1 + Z.of_nat n) by lia. apply IH; [apply H|lia].
Qed.

Lemma not_xdigit_0 : isxdigit 0 = false.
Proof. done. Qed.

Section Reading.
Context (W : Z) (wrap : Z -> Z) (m : list byte).
Hypothesis HW : 0 < W.
Hypothesis Hwrap : forall z, wrap z = z mod W.

Lemma strto_loop_spec fuel cp base a s :
  cstr m cp s -> (length s < fuel)%nat ->
  strto_loop fuel wrap m cp base (wrap a) = Some (wrap (value base a (leading base s)), cp + Z.of_nat (length (leading base s))).
Proof.
  revert cp a s. induction fuel as [|fuel IH]; intros cp a s Hs Hf; [lia|]. cbn [strto_loop]. destruct s as [|c s].
  - rewrite Hs. cbn [mbind option_bind]. rewrite not_xdigit_0. cbn. by rewrite Z.add_0_r.
  - destruct Hs as (-> & Hc & Hs). cbn [mbind option_bind leading]. unfold digit_of.
    destruct (isxdigit c); cbn [andb]; [|by rewrite Z.add_0_r].
    destruct (Z.leb_spec base (digit_value c)) as [Hle|Hlt]; [rewrite (proj2 (Z.ltb_ge _ _)) by lia; by rewrite Z.add_0_r|].
    rewrite (proj2 (Z.ltb_lt _ _)) by lia.
    replace (wrap (wrap a * base + digit_value c)) with (wrap (a * base + digit_value c)).
    + simpl in Hf. rewrite (IH (cp + 1) _ s) by (done || lia). cbn [value foldl length]. do 2 f_equal. lia.
    + rewrite !Hwrap. rewrite (Z.add_mod (a mod W * base)), Z.mul_mod_idemp_l, <- Z.add_mod by lia. done.
Qed.

Lemma guess_base_spec cp s : cstr m cp s -> simple_guess_base m cp = Some (base_of 0 s).
Proof.
  intros Hs. unfold simple_guess_base, base_of, starts_0x. pose proof (cstr_at m cp s 0 Hs ltac:(lia)) as H0. rewrite Z.add_0_r in H0.
  rewrite H0. cbn [mbind option_bind Z.eqb]. destruct (Z.eqb_spec (char_at s 0) 48) as [E|E]; [|done]. cbn [andb].
  assert (Hl : (1 <= length s)%nat) by (destruct s; [done|simpl; lia]).
  rewrite (cstr_at m cp s 1 Hs Hl : load m (cp + 1) = _). cbn [mbind option_bind].
  destruct (Z.eqb_spec (TOLOWER (char_at s 1)) 120) as [E1|E1]; [|done]. cbn [andb].
  assert (Hl2 : (2 <= length s)%nat) by (destruct s as [|? [|]]; [done..|simpl; lia]).
  by rewrite (cstr_at m cp s 2 Hs Hl2 : load m (cp + 2) = _).
Qed.

(** [simple_strtoul] and [simple_strtoull] read the number at the start of the string,
    and lose what does not fit. *)
Lemma simple_strto_spec cp base s :
  cstr m cp s ->
  simple_strto wrap m cp base = Some (wrap (fst (number_in base s)), cp + Z.of_nat (snd (number_in base s))).
Proof.
  intros Hs. unfold simple_strto, number_in. cbn [fst snd].
  assert ((if base =? 0 then simple_guess_base m cp else Some base) = Some (base_of base s)) as ->.
  { unfold base_of at 1. destruct (Z.eqb_spec base 0) as [->|]; [|done]. rewrite (guess_base_spec cp s Hs). done. }
  cbn [mbind option_bind]. set (b := base_of base s).
  assert ((if b =? 16 then c0 ← load m cp; if c0 =? 48 then c1 ← load m (cp + 1); Some (if TOLOWER c1 =? 120 then cp + 2 else cp) else Some cp
           else Some cp) = Some (cp + Z.of_nat (prefix_length b s)) /\ (prefix_length b s <= length s)%nat) as [-> Hk].
  { unfold prefix_length, starts_0x. destruct (b =? 16); cbn [andb]; [|rewrite Z.add_0_r; split; [done|lia]].
    pose proof (cstr_at m cp s 0 Hs ltac:(lia)) as H0. rewrite Z.add_0_r in H0. rewrite H0. cbn [mbind option_bind].
    destruct (Z.eqb_spec (char_at s 0) 48) as [E|E]; cbn [andb]; [|rewrite Z.add_0_r; split; [done|lia]].
    assert (Hl : (1 <= length s)%nat) by (destruct s; [done|simpl; lia]). rewrite (cstr_at m cp s 1 Hs Hl : load m (cp + 1) = _). cbn [mbind option_bind].
    destruct (Z.eqb_spec (TOLOWER (char_at s 1)) 120) as [E1|E1]; [|rewrite Z.add_0_r; split; [done|lia]].
    split; [done|]. destruct s as [|? [|]]; [done..|simpl; lia]. }
  cbn [mbind option_bind]. pose proof (cstr_drop m cp s _ Hs Hk) as Hd. pose proof (cstr_turns _ _ _ Hd) as Ht.
  replace 0 with (wrap 0) at 1 by (rewrite Hwrap; apply Z.mod_0_l; lia).
  rewrite (strto_loop_spec _ _ b 0 _ Hd Ht). do 2 f_equal. lia.
Qed.

(** [strict_strtoul] and [strict_strtoull] want a number and nothing behind it, but for a
    newline. *)
Definition strictly (base : Z) (s : list Z) : Z * Z :=
  let '(v, n) := number_in base s in
  if (0 <? n)%nat && bool_decide (drop n s = [] \/ drop n s = [10]) then (0, wrap v) else (- KernelSearch.EINVAL, 0).

Lemma number_in_length base s : (snd (number_in base s) <= length s)%nat.
Proof.
  assert (Hl : forall b l, (length (leading b l) <= length l)%nat).
  { intros b l. induction l as [|c l IH]; simpl; [done|]. destruct (digit_of b c); simpl; lia. }
  unfold number_in. cbn [snd]. set (b := base_of base s). specialize (Hl b (drop (prefix_length b s) s)). rewrite length_drop in Hl.
  assert (prefix_length b s <= length s)%nat; [|lia]. unfold prefix_length, starts_0x.
  destruct (b =? 16); cbn [andb]; [|lia]. destruct s as [|? [|]]; [done| |].
  - change (TOLOWER (char_at _ 1) =? 120) with false. rewrite andb_false_r. simpl. lia.
  - case_match; simpl; lia.
Qed.

Lemma strict_strto_spec cp base s :
  cstr m cp s -> Z.of_nat (length s) + 1 < 2 ^ 32 -> strict_strto wrap m cp base = Some (strictly base s).
Proof.
  intros Hs Hlen. unfold strict_strto, strictly. rewrite (strlen_spec m cp s Hs). cbn [mbind option_bind].
  destruct (number_in base s) as [v n] eqn:E. pose proof (number_in_length base s) as Hn. rewrite E in Hn. simpl in Hn.
  destruct s as [|c s'] eqn:Es; [simpl in Hn; by replace n with 0%nat by lia|]. rewrite <- Es in *.
  rewrite (proj2 (Z.eqb_neq _ 0)) by (rewrite Es; simpl; lia). rewrite (simple_strto_spec cp base s Hs), E. cbn [mbind option_bind fst snd].
  destruct (Nat.ltb_spec 0 n) as [H0|H0]; cbn [andb]; [|by rewrite (proj2 (Z.eqb_eq _ cp)) by lia].
  rewrite (proj2 (Z.eqb_neq _ cp)) by lia. rewrite (cstr_at m cp s n Hs Hn). cbn [mbind option_bind].
  assert (Hdrop : forall l, drop n s = l -> length s = (n + length l)%nat) by (intros l <-; rewrite length_drop; lia).
  assert (Hc : char_at s n = char_at (drop n s) 0) by (unfold char_at; rewrite lookup_drop; do 2 f_equal; lia).
  rewrite u32_id by lia. rewrite Hc. pose proof (cstr_nonzero _ _ _ (cstr_drop m cp s n Hs Hn)) as Hnz. clear Hc.
  destruct (drop n s) as [|x l] eqn:Ed; [done|]. change (char_at (x :: l) 0) with x. apply Forall_cons in Hnz as [Hx _].
  specialize (Hdrop (x :: l) eq_refl). rewrite (proj2 (Z.eqb_neq x 0)) by done. cbn [orb].
  destruct l as [|y l]; simpl in Hdrop.
  - rewrite (proj2 (Z.eqb_eq _ _)) by lia. cbn [andb]. destruct (Z.eqb_spec x 10) as [->|Hx10]; [done|].
    rewrite bool_decide_false; [done|]. intros [?|[= ->]]; done.
  - rewrite (proj2 (Z.eqb_neq (Z.of_nat _) _)) by lia. cbn [andb]. rewrite bool_decide_false; [done|]. by intros [?|?].
Qed.

End Reading.

(** ** Reading back *)

(** [digits[d] | locase] *)
Definition hex_chars : list Z := [48; 49; 50; 51; 52; 53; 54; 55; 56; 57; 65; 66; 67; 68; 69; 70].
Definition digit_char (locase d : Z) : Z := (hex_chars !!! Z.to_nat d) .| locase.

Lemma digit_char_spec locase d :
  locase = 0 \/ locase = 0x20 -> 0 <= d < 16 ->
  isxdigit (digit_char locase d) = true /\ digit_value (digit_char locase d) = d /\ 48 <= digit_char locase d < 103 /\
  TOLOWER (digit_char locase d) <> 120 /\ (d < 10 -> digit_char locase d = d + 48).
Proof.
  assert (H : Forall (fun d => Forall (fun lc => isxdigit (digit_char lc d) = true /\ digit_value (digit_char lc d) = d /\
     48 <= digit_char lc d < 103 /\ TOLOWER (digit_char lc d) <> 120 /\ (d < 10 -> digit_char lc d = d + 48)) [0; 0x20]) (seqZ 0 16))
    by (apply (bool_decide_unpack _); by vm_compute).
  intros Hl Hd. rewrite Forall_forall in H. specialize (H d). rewrite Forall_forall in H. apply H; [apply elem_of_seqZ; lia|].
  destruct Hl as [->| ->]; repeat constructor.
Qed.

(** The text of a number. *)
Definition printed (locase base n : Z) : list Z := digit_char locase <$> reverse (numeral base n).

Section Printed.
Context (locase base : Z).
Hypothesis Hcase : locase = 0 \/ locase = 0x20.
Hypothesis Hbase : 1 < base <= 16.

Lemma value_digits fuel n :
  (0 < fuel)%nat -> 0 <= n < base ^ Z.of_nat fuel -> value base 0 (digit_char locase <$> reverse (digits fuel base n)) = n.
Proof.
  revert n. induction fuel as [|fuel IH]; intros n H0 Hn; [lia|]. cbn [digits]. destruct (Z.ltb_spec n base) as [Hs|Hs].
  - cbn. apply (digit_char_spec locase n); [done|lia].
  - rewrite reverse_cons, fmap_app. unfold value. rewrite foldl_app. fold (value base 0 (digit_char locase <$> reverse (digits fuel base (n / base)))).
    destruct fuel as [|fuel]; [rewrite Z.pow_1_r in Hn; lia|]. pose proof (Z.mod_pos_bound n base ltac:(lia)).
    rewrite IH; [|lia|].
    + cbn. destruct (digit_char_spec locase (n mod base) Hcase) as (_ & -> & _); [lia|]. pose proof (Z.div_mod n base). lia.
    + rewrite Nat2Z.inj_succ, Z.pow_succ_r in Hn by lia. split; [apply Z.div_pos; lia|]. apply Z.div_lt_upper_bound; lia.
Qed.

Lemma printed_value n : 0 <= n < 2 ^ 64 -> value base 0 (printed locase base n) = n.
Proof.
  intros Hn. apply value_digits; [lia|]. split; [lia|]. apply Z.lt_le_trans with (2 ^ 64); [lia|].
  change (Z.of_nat 64) with 64. apply Z.pow_le_mono_l. lia.
Qed.

Lemma printed_chars n : 0 <= n -> Forall (fun c => digit_of base c = true /\ 48 <= c < 103 /\ TOLOWER c <> 120) (printed locase base n).
Proof.
  intros Hn. apply Forall_fmap, Forall_reverse. apply (Forall_impl _ _ _ (digits_ok 64 base n ltac:(lia) Hn)). intros d Hd. simpl.
  destruct (digit_char_spec locase d Hcase) as (Hx & Hv & Hr & Hl & _); [lia|]. split; [|done]. unfold digit_of. rewrite Hx, Hv. simpl.
  apply Z.ltb_lt. lia.
Qed.

Lemma leading_all l rest :
  Forall (fun c => digit_of base c = true) l -> digit_of base (char_at rest 0) = false -> leading base (l ++ rest) = l.
Proof.
  intros Hl Hr. induction Hl as [|c l Hc Hl IH]; simpl.
  - destruct rest as [|c rest]; [done|]. change (char_at (c :: rest) 0) with c in Hr. simpl. by rewrite Hr.
  - by rewrite Hc, IH.
Qed.

Lemma printed_nonempty n : printed locase base n <> [].
Proof.
  unfold printed, numeral. rewrite <- length_zero_iff_nil, length_fmap, length_reverse. cbn [digits]. by destruct (n <? base).
Qed.

(** The number is read in its own base, up to a character that is no digit. *)
Lemma number_in_printed n rest :
  0 <= n < 2 ^ 64 -> digit_of base (char_at rest 0) = false -> TOLOWER (char_at rest 0) <> 120 ->
  number_in base (printed locase base n ++ rest) = (n, length (printed locase base n)).
Proof.
  intros Hn Hr Hx. pose proof (printed_chars n ltac:(lia)) as Hc. pose proof (printed_nonempty n) as Hne.
  unfold number_in. assert (base_of base (printed locase base n ++ rest) = base) as -> by (unfold base_of; rewrite (proj2 (Z.eqb_neq base 0)) by lia; done).
  assert (prefix_length base (printed locase base n ++ rest) = 0%nat) as ->.
  { unfold prefix_length, starts_0x. rewrite (proj2 (Z.eqb_neq (TOLOWER _) 120)), !andb_false_r; [done|].
    destruct (printed locase base n) as [|c [|c' l]]; [done|done|]. rewrite !Forall_cons in Hc. apply Hc. }
  cbn [drop]. rewrite drop_0, leading_all, printed_value; [done|lia| |done]. eapply Forall_impl; [exact Hc|]. tauto.
Qed.

End Printed.

(** The strings 4294967296 in base 10 and 0x in base 16 are both taken for 0. *)
Lemma strict_takes_zero :
  strict_strtoul [52; 50; 57; 52; 57; 54; 55; 50; 57; 54; 0] 0 10 = Some (0, 0) /\ strict_strtoul [48; 120; 0] 0 16 = Some (0, 0).
Proof. by vm_compute. Qed.

End KernelNumber.
