(* ===== verification/KernelPrintf.v ===== *)
(** * KernelPrintf: formatted output in the board's kernel

    What lib/vsprintf.c of the Linux kernel kept beside the agent prints for one
    conversion: [number], [string] and [pointer] with the functions that are called for
    [%p].  File KernelFormat has the rest of the output side.

    What is printed goes to memory at [buf], as long as that is before [end]; what the
    arguments point to is read from the same memory, as it is then.  The kernel is built
    with [-fwrapv], so that [int] wraps; pointers do not.  [None] is undefined behaviour.

    The lemmas say that each of them puts one text, [number_text] and so on, that depends
    on its arguments only. *)

From S2P Require Import Prelude KernelFifo KernelString KernelNumber.
Import KernelFifo KernelString KernelNumber.

Module KernelPrintf.

Definition ZEROPAD : Z := 1.
Definition SIGN : Z := 2.
Definition PLUS : Z := 4.
Definition SPACE : Z := 8.
Definition LEFT : Z := 16.
Definition SMALL : Z := 32.
Definition SPECIAL : Z := 64.

Variant format_type :=
  | FORMAT_TYPE_NONE | FORMAT_TYPE_WIDTH | FORMAT_TYPE_PRECISION | FORMAT_TYPE_CHAR | FORMAT_TYPE_STR
  | FORMAT_TYPE_PTR | FORMAT_TYPE_PERCENT_CHAR | FORMAT_TYPE_INVALID | FORMAT_TYPE_LONG_LONG | FORMAT_TYPE_ULONG
  | FORMAT_TYPE_LONG | FORMAT_TYPE_USHORT | FORMAT_TYPE_SHORT | FORMAT_TYPE_UINT | FORMAT_TYPE_INT
  | FORMAT_TYPE_NRCHARS | FORMAT_TYPE_SIZE_T | FORMAT_TYPE_PTRDIFF.

Record printf_spec := mkSpec { type : format_type; flags : Z; field_width : Z; base : Z; precision : Z; qualifier : Z }.

Definition with_flags (s : printf_spec) (f : Z) : printf_spec :=
  mkSpec (type s) f (field_width s) (base s) (precision s) (qualifier s).
Definition with_width (s : printf_spec) (w : Z) : printf_spec :=
  mkSpec (type s) (flags s) w (base s) (precision s) (qualifier s).
Definition with_base (s : printf_spec) (b : Z) : printf_spec :=
  mkSpec (type s) (flags s) (field_width s) b (precision s) (qualifier s).
Definition with_precision (s : printf_spec) (p : Z) : printf_spec :=
  mkSpec (type s) (flags s) (field_width s) (base s) p (qualifier s).
Definition with_qualifier (s : printf_spec) (q : Z) : printf_spec :=
  mkSpec (type s) (flags s) (field_width s) (base s) (precision s) q.
Definition with_type (s : printf_spec) (t : format_type) : printf_spec :=
  mkSpec t (flags s) (field_width s) (base s) (precision s) (qualifier s).

Definition has (f b : Z) : bool := negb (f .& b =? 0).

(** ** Writing, up to the end of the buffer *)

(** Memory, and [buf] or [str]. *)
Definition out : Type := list byte * Z.

(** [if (buf < end) *buf = c; ++buf;] *)
Definition put (fin : Z) (o : out) (c : Z) : option out :=
  m ← (if snd o <? fin then store (fst o) (snd o) c else Some (fst o)); Some (m, snd o + 1).

(** [while (--w >= 0)] put [c]: with what is left of [w]. *)
Fixpoint pad_loop (fuel : nat) (fin c : Z) (o : out) (w : Z) : option (out * Z) :=
  match fuel with
  | O => None
  | S fuel =>
      let w := i32 (w - 1) in
      if 0 <=? w then o ← put fin o c; pad_loop fuel fin c o w else Some (o, w)
  end.

(** The number of turns is known at the start. *)
Definition pad_turns (w : Z) : nat := S (S (Z.to_nat (i32 (w - 1)))).
Definition pad (fin c : Z) (o : out) (w : Z) : option (out * Z) := pad_loop (pad_turns w) fin c o w.

Fixpoint put_all (fin : Z) (o : out) (l : list Z) : option out :=
  match l with [] => Some o | c :: l => o ← put fin o c; put_all fin o l end.

(** ** number *)

(** [do tmp[i++] = digits[(unsigned char) num & mask] | locase; while (num >>= shift);] *)
Fixpoint digit_loop (fuel : nat) (mask shift locase num : Z) : option (list Z) :=
  match fuel with
  | O => None
  | S fuel =>
      let c := digit_char locase (u8 num .& mask) in
      let num := num .>> shift in
      if num =? 0 then Some [c] else l ← digit_loop fuel mask shift locase num; Some (c :: l)
  end.

Definition tmp_size : nat := 66.

(** The digits, the last one first. *)
Definition number_digits (num bas locase : Z) : option (list Z) :=
  if num =? 0 then Some [48]
  else if negb (bas =? 10) then digit_loop tmp_size (bas - 1) (if bas =? 16 then 4 else 3) locase num
  else put_dec num.

(** The sign or 0, the number without it, and the field width. *)
Definition take_sign (flags num w : Z) : Z * Z * Z :=
  if has flags SIGN then
    if i64 num <? 0 then (45, u64 (- i64 num), i32 (w - 1))
    else if has flags PLUS then (43, num, i32 (w - 1))
    else if has flags SPACE then (32, num, i32 (w - 1))
    else (0, num, w)
  else (0, num, w).

Definition number (o : out) (fin num : Z) (spec : printf_spec) : option out :=
  let need_pfx := has (flags spec) SPECIAL && negb (base spec =? 10) in
  let locase := flags spec .& SMALL in
  let flags := if has (flags spec) LEFT then flags spec .& (Z.lnot ZEROPAD) else flags spec in
  let '(sign, num, w) := take_sign flags num (field_width spec) in
  let w := if need_pfx then let w := i32 (w - 1) in if base spec =? 16 then i32 (w - 1) else w else w in
  tmp ← number_digits num (base spec) locase;
  let i := Z.of_nat (length tmp) in
  let prec := if precision spec <? i then i else precision spec in
  let w := i32 (w - prec) in
  '(o, w) ← (if negb (has flags (ZEROPAD + LEFT)) then pad fin 32 o w else Some (o, w));
  o ← (if negb (sign =? 0) then put fin o sign else Some o);
  o ← (if need_pfx then
         o ← put fin o 48;
         if base spec =? 16 then put fin o (88 .| locase) else Some o
       else Some o);
  '(o, w) ← (if negb (has flags LEFT) then pad fin (if has flags ZEROPAD then 48 else 32) o w else Some (o, w));
  o ← put_all fin o (replicate (Z.to_nat (prec - i)) 48);
  o ← put_all fin o (reverse tmp);
  '(o, _) ← pad fin 32 o w;
  Some o.

(** ** string *)

(** [while (len < field_width--)] put a space. *)
Fixpoint field_loop (fuel : nat) (fin len : Z) (o : out) (w : Z) : option (out * Z) :=
  match fuel with
  | O => None
  | S fuel =>
      if len <? w then o ← put fin o 32; field_loop fuel fin len o (i32 (w - 1)) else Some (o, i32 (w - 1))
  end.

Definition field (fin len : Z) (o : out) (w : Z) : option (out * Z) := field_loop (S (Z.to_nat (w - len))) fin len o w.

Definition PAGE_SIZE : Z := 4096.

(** A string in memory, or an array of the function's own. *)
Variant source := At (s : Z) | Own (l : list byte).

Definition null_text : list Z := [60; 78; 85; 76; 76; 62].

Definition source_at (s : Z) : source := if s <? PAGE_SIZE then Own (null_text ++ [0]) else At s.

Definition source_strnlen (m : list byte) (s : source) (n : Z) : option Z :=
  match s with At s => strnlen m s n | Own l => strnlen l 0 n end.
Definition source_char (m : list byte) (s : source) (i : Z) : option byte :=
  match s with At s => load m (s + i) | Own l => load l i end.

(** [if (buf < end) *buf = *s; ++buf; ++s;] *)
Fixpoint copy_chars (count : nat) (fin : Z) (o : out) (s : source) (i : Z) : option out :=
  match count with
  | O => Some o
  | S count =>
      o ← (if snd o <? fin then c ← source_char (fst o) s i; put fin o c else Some (fst o, snd o + 1));
      copy_chars count fin o s (i + 1)
  end.

Definition string (o : out) (fin : Z) (s : source) (spec : printf_spec) : option out :=
  len ← source_strnlen (fst o) s (u32 (precision spec));
  '(o, w) ← (if negb (has (flags spec) LEFT) then field fin len o (field_width spec) else Some (o, field_width spec));
  o ← copy_chars (Z.to_nat len) fin o s 0;
  '(o, _) ← field fin len o w;
  Some o.

(** ** What [%p] prints *)

(** [*p++ = c] in an array of the function's own. *)
Definition push (o : out) (c : Z) : option out := m ← store (fst o) (snd o) c; Some (m, snd o + 1).

Fixpoint push_all (o : out) (l : list Z) : option out :=
  match l with [] => Some o | c :: l => o ← push o c; push_all o l end.

(** An array of [n] bytes, its contents are not known yet. *)
Definition array (n : nat) : out := (replicate n 0, 0).

Definition hex_asc : list Z := [48; 49; 50; 51; 52; 53; 54; 55; 56; 57; 97; 98; 99; 100; 101; 102].
Definition hex_asc_lo (x : Z) : Z := hex_asc !!! Z.to_nat (x .& 0x0f).
Definition hex_asc_hi (x : Z) : Z := hex_asc !!! Z.to_nat ((x .& 0xf0) .>> 4).

Definition pack_hex_byte (o : out) (b : Z) : option out :=
  o ← push o (hex_asc_hi b); push o (hex_asc_lo b).

(** A 32-bit word of memory, the low byte first. *)
Definition load_word (m : list byte) (p : Z) : option Z :=
  d ← peek m p 4; Some (foldr (fun b a => b + 256 * a) 0 d).
Definition word_bytes (v : Z) : list byte := [u8 v; u8 (v .>> 8); u8 (v .>> 16); u8 (v .>> 24)].

Definition IORESOURCE_IO : Z := 0x100.
Definition IORESOURCE_MEM : Z := 0x200.
Definition IO_RSRC_PRINTK_SIZE : Z := 4.
Definition MEM_RSRC_PRINTK_SIZE : Z := 8.

(** [sym] has room for [4 * sizeof(resource_size_t) + 8] characters; [start], [end] and
    [flags] are the first, the second and the fourth word of [struct resource]. *)
Definition resource_string (o : out) (fin res : Z) (spec : printf_spec) : option out :=
  flags ← load_word (fst o) (res + 12);
  let size := if has flags IORESOURCE_IO then IO_RSRC_PRINTK_SIZE
              else if has flags IORESOURCE_MEM then MEM_RSRC_PRINTK_SIZE else -1 in
  let num_spec := mkSpec FORMAT_TYPE_NONE (SPECIAL .| SMALL .| ZEROPAD) size 16 (-1) 0 in
  p ← push (array 24) 91;
  first ← load_word (fst o) res;
  p ← number p 24 first num_spec;
  p ← push p 45;
  last ← load_word (fst o) (res + 4);
  p ← number p 24 last num_spec;
  p ← push p 93;
  p ← push p 0;
  string o fin (Own (fst p)) spec.

(** [for (i = from; i < from + count; i++)] with the colons of an address. *)
Fixpoint mac_loop (count : nat) (rd : list byte) (addr i : Z) (colons : bool) (p : out) : option out :=
  match count with
  | O => Some p
  | S count =>
      b ← load rd (addr + i);
      p ← pack_hex_byte p b;
      p ← (if colons && negb (i =? 5) then push p 58 else Some p);
      mac_loop count rd addr (i + 1) colons p
  end.

Definition mac_address_string (o : out) (fin addr : Z) (spec : printf_spec) : option out :=
  p ← mac_loop 6 (fst o) addr 0 (negb (has (flags spec) SPECIAL)) (array 18);
  p ← push p 0;
  string o fin (Own (fst p)) (with_flags spec (flags spec .& Z.lnot SPECIAL)).

Fixpoint ip6_loop (count : nat) (rd : list byte) (addr i : Z) (colons : bool) (p : out) : option out :=
  match count with
  | O => Some p
  | S count =>
      b ← load rd (addr + 2 * i);
      p ← pack_hex_byte p b;
      b ← load rd (addr + (2 * i + 1));
      p ← pack_hex_byte p b;
      p ← (if colons && negb (i =? 7) then push p 58 else Some p);
      ip6_loop count rd addr (i + 1) colons p
  end.

Definition ip6_addr_string (o : out) (fin addr : Z) (spec : printf_spec) : option out :=
  p ← ip6_loop 8 (fst o) addr 0 (negb (has (flags spec) SPECIAL)) (array 40);
  p ← push p 0;
  string o fin (Own (fst p)) (with_flags spec (flags spec .& Z.lnot SPECIAL)).

(** [temp] holds three digits, the last one first. *)
Fixpoint ip4_loop (count : nat) (rd : list byte) (addr i : Z) (p : out) : option out :=
  match count with
  | O => Some p
  | S count =>
      b ← load rd (addr + i);
      let temp := put_dec_trunc b in
      p ← (if (length temp <=? 3)%nat then push_all p (reverse temp) else None);
      p ← (if negb (i =? 3) then push p 46 else Some p);
      ip4_loop count rd addr (i + 1) p
  end.

Definition ip4_addr_string (o : out) (fin addr : Z) (spec : printf_spec) : option out :=
  p ← ip4_loop 4 (fst o) addr 0 (array 16);
  p ← push p 0;
  string o fin (Own (fst p)) (with_flags spec (flags spec .& Z.lnot SPECIAL)).

Definition paren_null : list Z := [40; 110; 117; 108; 108; 41].

(** The number a pointer is printed as when no extension is meant. *)
Definition pointer_number (o : out) (fin ptr : Z) (spec : printf_spec) : option out :=
  let spec := with_flags spec (flags spec .| SMALL) in
  let spec := if field_width spec =? -1 then with_flags (with_width spec 8) (flags spec .| ZEROPAD) else spec in
  number o fin ptr (with_base spec 16).

Definition KSYM_NAME_LEN : Z := 128.
Definition MODULE_NAME_LEN : Z := 64 - 4.
Definition KSYM_SYMBOL_LEN : Z := 18 + (KSYM_NAME_LEN - 1) + 2 * (32 * 3 / 10) + (MODULE_NAME_LEN - 1) + 1.

(** What [sprint_symbol] of kernel/kallsyms.c makes of an address depends on the table
    of symbols that the build of the kernel generates. *)
Section Symbols.
Context (sprint_symbol : Z -> list Z).

Definition symbol_string (o : out) (fin ptr : Z) (spec : printf_spec) : option out :=
  let sym := sprint_symbol ptr in
  if Z.of_nat (length sym) <? KSYM_SYMBOL_LEN then string o fin (Own (sym ++ [0])) spec else None.

(** The last cases of the [switch]. *)
Definition ip_address (fmt : Z) (o : out) (fin ptr : Z) (spec : printf_spec) : option out :=
  d ← load (fst o) (fmt + 1);
  if d =? 54 then ip6_addr_string o fin ptr spec
  else if d =? 52 then ip4_addr_string o fin ptr spec
  else pointer_number o fin ptr (with_flags spec (flags spec .& Z.lnot SPECIAL)).

Definition pointer_switch (c fmt : Z) (o : out) (fin ptr : Z) (spec : printf_spec) : option out :=
  let special := with_flags spec (flags spec .| SPECIAL) in
  if (c =? 70) || (c =? 83) then symbol_string o fin ptr spec
  else if c =? 82 then resource_string o fin ptr spec
  else if c =? 109 then mac_address_string o fin ptr special
  else if c =? 77 then mac_address_string o fin ptr spec
  else if c =? 105 then ip_address fmt o fin ptr special
  else if c =? 73 then ip_address fmt o fin ptr spec
  else pointer_number o fin ptr spec.

Definition pointer (fmt : Z) (o : out) (fin ptr : Z) (spec : printf_spec) : option out :=
  if ptr =? 0 then string o fin (Own (paren_null ++ [0])) spec
  else c ← load (fst o) fmt; pointer_switch c fmt o fin ptr spec.

End Symbols.

(** ** Texts *)

Lemma put_all_app fin o a b : put_all fin o (a ++ b) = (o ← put_all fin o a; put_all fin o b).
Proof. revert o. induction a as [|c a IH]; intros o; [done|]. cbn [app put_all]. destruct (put fin o c) as [o'|]; [apply IH|done]. Qed.

Lemma put_all_one fin o c : put_all fin o [c] = put fin o c.
Proof. cbn [put_all]. by destruct (put fin o c). Qed.

Lemma poke_fits m p d : 0 <= p -> p + Z.of_nat (length d) <= Z.of_nat (length m) -> exists m', poke m p d = Some m'.
Proof. intros H1 H2. unfold poke. rewrite (proj2 (Z.leb_le 0 p)), (proj2 (Z.leb_le _ _)) by done. by eexists. Qed.

Lemma put_next fin o c o' : put fin o c = Some o' -> snd o' = snd o + 1.
Proof. unfold put. destruct (if snd o <? fin then _ else Some (fst o)) as [m|]; [|done]. by intros [= <-]. Qed.

Lemma put_all_full fin m buf l : fin <= buf -> put_all fin (m, buf) l = Some (m, buf + Z.of_nat (length l)).
Proof.
  revert buf. induction l as [|c l IH]; intros buf Hf; cbn [put_all length]; [by rewrite Z.add_0_r|].
  unfold put. cbn [fst snd]. rewrite (proj2 (Z.ltb_ge buf fin)) by lia. cbn [mbind option_bind]. rewrite IH by lia. do 2 f_equal. lia.
Qed.

(** What is in memory then: as much of the text as there is room for. *)
Lemma put_all_spec fin m buf l :
  0 <= buf <= fin -> Z.min fin (buf + Z.of_nat (length l)) <= Z.of_nat (length m) -> bytes_ok l ->
  exists m', put_all fin (m, buf) l = Some (m', buf + Z.of_nat (length l)) /\ poke m buf (take (Z.to_nat (fin - buf)) l) = Some m'.
Proof.
  revert m buf. induction l as [|c l IH]; intros m buf Hb Hf Hl.
  { exists m. cbn [length] in *. rewrite take_nil, Z.add_0_r in *. split; [done|]. apply poke_nil. lia. }
  cbn [length] in Hf. destruct (decide (buf = fin)) as [->|Hne].
  { exists m. rewrite put_all_full, Z.sub_diag by lia. split; [done|]. apply poke_nil. lia. }
  apply bytes_ok_cons in Hl as [Hc Hl]. cbn [put_all]. unfold put. cbn [fst snd]. rewrite (proj2 (Z.ltb_lt buf fin)), store_byte by (done || lia).
  replace (Z.to_nat (fin - buf)) with (S (Z.to_nat (fin - (buf + 1)))) by lia. cbn [take length]. rewrite (poke_cons m buf c (take _ l)).
  destruct (poke_fits m buf [c]) as [m1 E]; [lia|cbn [length]; lia|]. rewrite E.
  apply poke_length in E as (Hlen & _ & _). cbn [mbind option_bind]. rewrite <- Hlen in Hf.
  destruct (IH m1 (buf + 1)) as (m' & H1 & H2); [lia|lia|done|]. exists m'. rewrite H1, H2. split; [do 2 f_equal; lia|done].
Qed.

Lemma pad_loop_spec fuel fin c o w :
  - 2 ^ 31 < w < 2 ^ 31 -> (Z.to_nat w < fuel)%nat ->
  pad_loop fuel fin c o w = (o ← put_all fin o (replicate (Z.to_nat w) c); Some (o, if 0 <? w then -1 else w - 1)).
Proof.
  revert o w. induction fuel as [|fuel IH]; intros o w Hw Hf; [lia|]. cbn [pad_loop]. rewrite i32_small by lia.
  destruct (Z.ltb_spec 0 w) as [H0|H0].
  - rewrite (proj2 (Z.leb_le 0 (w - 1))) by lia. replace (Z.to_nat w) with (S (Z.to_nat (w - 1))) by lia. cbn [replicate put_all].
    destruct (put fin o c) as [o'|]; [|done]. cbn [mbind option_bind]. rewrite IH by lia.
    destruct (put_all _ _ _) as [o2|]; [|done]. cbn [mbind option_bind]. do 2 f_equal. destruct (Z.ltb_spec 0 (w - 1)); lia.
  - rewrite (proj2 (Z.leb_gt 0 (w - 1))) by lia. by replace (Z.to_nat w) with 0%nat by lia.
Qed.

Lemma pad_spec fin c o w :
  - 2 ^ 31 < w < 2 ^ 31 ->
  pad fin c o w = (o ← put_all fin o (replicate (Z.to_nat w) c); Some (o, if 0 <? w then -1 else w - 1)).
Proof. intros Hw. apply pad_loop_spec; [done|]. unfold pad_turns. rewrite i32_small by lia. lia. Qed.

Lemma pad_none fin c o w : - 2 ^ 31 < w <= 0 -> pad fin c o w = Some (o, w - 1).
Proof. intros Hw. rewrite pad_spec by lia. replace (Z.to_nat w) with 0%nat by lia. cbn. by rewrite (proj2 (Z.ltb_ge 0 w)) by lia. Qed.

(** Behind a loop there is nothing left to fill up. *)
Lemma pad_after fin c o w :
  - 2 ^ 31 + 2 < w < 2 ^ 31 -> let v := if 0 <? w then -1 else w - 1 in pad fin c o v = Some (o, v - 1).
Proof. intros Hw v. apply pad_none. unfold v. destruct (Z.ltb_spec 0 w); lia. Qed.

Lemma field_loop_spec fuel fin len o w :
  0 <= len -> - 2 ^ 31 < w < 2 ^ 31 -> (Z.to_nat (w - len) < fuel)%nat ->
  field_loop fuel fin len o w = (o ← put_all fin o (replicate (Z.to_nat (w - len)) 32); Some (o, if len <? w then len - 1 else w - 1)).
Proof.
  intros Hlen. revert o w. induction fuel as [|fuel IH]; intros o w Hw Hf; [lia|]. cbn [field_loop]. rewrite i32_small by lia.
  destruct (Z.ltb_spec len w) as [H0|H0].
  - replace (Z.to_nat (w - len)) with (S (Z.to_nat (w - 1 - len))) by lia. cbn [replicate put_all].
    destruct (put fin o 32) as [o'|]; [|done]. cbn [mbind option_bind]. rewrite IH by lia.
    destruct (put_all _ _ _) as [o2|]; [|done]. cbn [mbind option_bind]. do 2 f_equal. destruct (Z.ltb_spec len (w - 1)); lia.
  - by replace (Z.to_nat (w - len)) with 0%nat by lia.
Qed.

(** *** Flags *)

Lemma has_testbit f k : 0 <= k -> has f (2 ^ k) = Z.testbit f k.
Proof.
  intros Hk. unfold has. destruct (Z.testbit f k) eqn:E.
  - apply negb_true_iff, Z.eqb_neq. intros H. apply (f_equal (fun z => Z.testbit z k)) in H.
    rewrite Z.land_spec, Z.pow2_bits_true, E, Z.bits_0 in H by done. done.
  - apply negb_false_iff, Z.eqb_eq. apply Z.bits_inj'. intros i Hi. rewrite Z.land_spec, Z.bits_0.
    destruct (decide (i = k)) as [->|]; [by rewrite E|]. rewrite Z.pow2_bits_false by lia. apply andb_false_r.
Qed.

Lemma has_clear f j k : 0 <= j -> 0 <= k -> j <> k -> has (f .& Z.lnot (2 ^ j)) (2 ^ k) = has f (2 ^ k).
Proof. intros Hj Hk Hne. rewrite !has_testbit, Z.land_spec, Z.lnot_spec, Z.pow2_bits_false by lia. apply andb_true_r. Qed.

Lemma has_set f j k : 0 <= j -> 0 <= k -> has (f .| 2 ^ j) (2 ^ k) = has f (2 ^ k) || (j =? k).
Proof. intros Hj Hk. rewrite !has_testbit, Z.lor_spec, Z.pow2_bits_eqb by lia. done. Qed.

Lemma has_two f a b : has f (a .| b) = has f a || has f b.
Proof.
  unfold has. rewrite Z.land_lor_distr_r. destruct (Z.eqb_spec (f .& a) 0) as [->|Ha]; [by rewrite Z.lor_0_l|].
  rewrite (proj2 (Z.eqb_neq _ 0)); [done|]. intros [? _]%Z.lor_eq_0_iff. done.
Qed.

(** *** Digits *)

Lemma low_bits num k : 0 <= num -> 0 <= k <= 8 -> u8 num .& (2 ^ k - 1) = num mod 2 ^ k.
Proof.
  intros Hn Hk. rewrite Z.sub_1_r, <- Z.ones_equiv, Z.land_ones by lia. unfold u8. change 256 with (2 ^ 8).
  rewrite (Z.mod_mod_divide num (2 ^ 8) (2 ^ k)) by (exists (2 ^ (8 - k)); rewrite <- Z.pow_add_r by lia; f_equal; lia).
  done.
Qed.

Lemma digit_loop_spec fuel k locase num :
  1 <= k <= 8 -> (0 < fuel)%nat -> 0 <= num < (2 ^ k) ^ Z.of_nat fuel ->
  digit_loop fuel (2 ^ k - 1) k locase num = Some (digit_char locase <$> digits fuel (2 ^ k) num).
Proof.
  intros Hk. assert (Hb : 2 <= 2 ^ k) by (change 2 with (2 ^ 1) at 1; apply Z.pow_le_mono_r; lia).
  revert num. induction fuel as [|fuel IH]; intros num H0 Hn; [lia|]. rewrite digits_next by lia. cbn [digit_loop fmap list_fmap].
  rewrite low_bits, Z.shiftr_div_pow2 by lia. destruct (Z.eqb_spec (num / 2 ^ k) 0) as [E|E]; [done|].
  assert (0 <= num / 2 ^ k) by (apply Z.div_pos; lia). destruct fuel as [|fuel].
  { exfalso. apply E, Z.div_small. rewrite Z.pow_1_r in Hn. lia. }
  rewrite IH; [done|lia|]. split; [done|]. rewrite Nat2Z.inj_succ, Z.pow_succ_r in Hn by lia. apply Z.div_lt_upper_bound; lia.
Qed.

Definition base_ok (b : Z) : Prop := b = 8 \/ b = 10 \/ b = 16.
Definition locase_ok (c : Z) : Prop := c = 0 \/ c = 0x20.

Lemma number_digits_spec num bas locase :
  0 <= num < 2 ^ 64 -> base_ok bas -> locase_ok locase ->
  number_digits num bas locase = Some (digit_char locase <$> numeral bas num).
Proof.
  intros Hn Hb Hc. unfold number_digits. destruct (Z.eqb_spec num 0) as [->|H0].
  { destruct Hb as [->|[->| ->]], Hc as [->| ->]; done. }
  assert (Hloop : forall k, 3 <= k <= 4 -> digit_loop tmp_size (2 ^ k - 1) k locase num = Some (digit_char locase <$> numeral (2 ^ k) num)).
  { intros k Hk. assert (0 <= num < (2 ^ k) ^ Z.of_nat 64).
    { split; [lia|]. rewrite <- Z.pow_mul_r by lia. apply Z.lt_le_trans with (2 ^ 64); [lia|]. apply Z.pow_le_mono_r; lia. }
    rewrite digit_loop_spec; [|lia|unfold tmp_size; lia|].
    - unfold numeral. rewrite (digits_fuel 64 tmp_size); [done|..|lia|unfold tmp_size; lia]; [|done]. apply Z.pow_gt_1; lia.
    - split; [lia|]. eapply Z.lt_le_trans; [apply H|]. apply Z.pow_le_mono_r; unfold tmp_size; lia. }
  destruct Hb as [->|[->| ->]]; cbn [Z.eqb Pos.eqb negb]; [apply (Hloop 3); lia| |apply (Hloop 4); lia].
  rewrite put_dec_spec by done. f_equal. apply list_fmap_ext. intros i d Hd.
  assert (0 <= d < 10) by (apply (Forall_lookup_1 _ _ _ _ (digits_ok 64 10 num ltac:(lia) ltac:(lia)) Hd)).
  symmetry. apply digit_char_spec; [done|lia|lia].
Qed.

(** *** number *)

(** What is printed for a number: the sign, the prefix, and the digits with the zeroes
    the precision asks for; the field is filled up with zeroes between them, or with
    spaces on one side. *)
Definition sign_text (f num : Z) : list Z :=
  if has f SIGN then if i64 num <? 0 then [45] else if has f PLUS then [43] else if has f SPACE then [32] else [] else [].
Definition magnitude (f num : Z) : Z := if has f SIGN && (i64 num <? 0) then - i64 num else num.
Definition prefix_text (f bas : Z) : list Z :=
  if has f SPECIAL && negb (bas =? 10) then 48 :: if bas =? 16 then [if has f SMALL then 120 else 88] else [] else [].
Definition body_text (f bas prec num : Z) : list Z :=
  let l := printed (f .& SMALL) bas (magnitude f num) in replicate (Z.to_nat (prec - Z.of_nat (length l))) 48 ++ l.
Definition fill (w : Z) (l : list Z) (c : Z) : list Z := replicate (Z.to_nat (w - Z.of_nat (length l))) c.

Definition number_text (spec : printf_spec) (num : Z) : list Z :=
  let f := flags spec in
  let front := sign_text f num ++ prefix_text f (base spec) in
  let body := body_text f (base spec) (precision spec) num in
  let fill := fill (field_width spec) (front ++ body) in
  if has f LEFT then front ++ body ++ fill 32
  else if has f ZEROPAD then front ++ fill 48 ++ body
  else fill 32 ++ front ++ body.

Definition sane (spec : printf_spec) : Prop :=
  -1 <= field_width spec <= 2 ^ 30 /\ -1 <= precision spec <= 2 ^ 30.

Lemma u64_id z : 0 <= z < 2 ^ 64 -> u64 z = z.
Proof. apply Z.mod_small. Qed.

Lemma i64_range z : - 2 ^ 63 <= i64 z < 2 ^ 63.
Proof. unfold i64. pose proof (Z.mod_pos_bound (z + 2 ^ 63) (2 ^ 64)). lia. Qed.

Lemma magnitude_range f num : 0 <= num < 2 ^ 64 -> 0 <= magnitude f num < 2 ^ 64.
Proof.
  intros Hn. unfold magnitude. pose proof (i64_range num). destruct (has f SIGN); [|done]. simpl. destruct (Z.ltb_spec (i64 num) 0); lia.
Qed.

Lemma take_sign_spec f num w :
  0 <= num < 2 ^ 64 -> - 2 ^ 30 <= w <= 2 ^ 30 ->
  exists sign, take_sign f num w = (sign, magnitude f num, w - Z.of_nat (length (sign_text f num))) /\
    sign_text f num = if sign =? 0 then [] else [sign].
Proof.
  intros Hn Hw. unfold take_sign, magnitude, sign_text. pose proof (i64_range num).
  destruct (has f SIGN); cbn [andb]; [destruct (Z.ltb_spec (i64 num) 0); [|destruct (has f PLUS); [|destruct (has f SPACE)]]|];
    eexists; (split; [|cycle 1]); try rewrite u64_id by lia; try rewrite i32_small by lia; cbn [length]; try rewrite Z.sub_0_r; done.
Qed.

(** [LEFT] overrides [ZEROPAD]. *)
Definition effective (f : Z) : Z := if has f LEFT then f .& Z.lnot ZEROPAD else f.

Lemma effective_other f k : 0 < k -> has (effective f) (2 ^ k) = has f (2 ^ k).
Proof. intros Hk. unfold effective. destruct (has f LEFT); [apply (has_clear f 0); lia|done]. Qed.

Lemma take_sign_effective f num w : take_sign (effective f) num w = take_sign f num w.
Proof. unfold take_sign. by rewrite (effective_other f 1 : _ -> has _ SIGN = has f SIGN), (effective_other f 2 : _ -> has _ PLUS = has f PLUS), (effective_other f 3 : _ -> has _ SPACE = has f SPACE) by lia. Qed.

Lemma locase_of f : f .& SMALL = if has f SMALL then 0x20 else 0.
Proof.
  change SMALL with (2 ^ 5). rewrite has_testbit by lia. apply Z.bits_inj'. intros i Hi. rewrite Z.land_spec.
  destruct (decide (i = 5)) as [->|Hne].
  - rewrite Z.pow2_bits_true, andb_true_r by lia. by destruct (Z.testbit f 5).
  - rewrite Z.pow2_bits_false, andb_false_r by lia. destruct (Z.testbit f 5); [|by rewrite Z.bits_0].
    change 0x20 with (2 ^ 5). by rewrite Z.pow2_bits_false by lia.
Qed.

Lemma locase_of_ok f : locase_ok (f .& SMALL).
Proof. rewrite locase_of. unfold locase_ok. destruct (has f SMALL); auto. Qed.

Lemma prefix_spec f bas fin o :
  (if has f SPECIAL && negb (bas =? 10) then o ← put fin o 48; if bas =? 16 then put fin o (88 .| (f .& SMALL)) else Some o else Some o) =
  put_all fin o (prefix_text f bas).
Proof.
  unfold prefix_text. destruct (has f SPECIAL && negb (bas =? 10)); [|done]. cbn [put_all]. destruct (put fin o 48) as [o'|]; [|done].
  cbn [mbind option_bind]. destruct (bas =? 16); [|done]. rewrite put_all_one, locase_of. by destruct (has f SMALL).
Qed.

Lemma prefix_width f bas w :
  - 2 ^ 30 - 1 <= w <= 2 ^ 30 ->
  (if has f SPECIAL && negb (bas =? 10) then let w := i32 (w - 1) in if bas =? 16 then i32 (w - 1) else w else w) =
  w - Z.of_nat (length (prefix_text f bas)).
Proof.
  intros Hw. unfold prefix_text. destruct (has f SPECIAL && negb (bas =? 10)); [|cbn; lia].
  cbv zeta. rewrite (i32_small (w - 1)) by lia. destruct (bas =? 16); cbn [length]; [rewrite i32_small|]; lia.
Qed.

Lemma digits_length fuel bas n : (length (digits fuel bas n) <= fuel)%nat.
Proof. revert n. induction fuel as [|fuel IH]; intros n; [done|]. cbn [digits]. destruct (n <? bas); simpl; [lia|]. specialize (IH (n / bas)). lia. Qed.

Lemma put_sign fin o sign : (if negb (sign =? 0) then put fin o sign else Some o) = put_all fin o (if sign =? 0 then [] else [sign]).
Proof. destruct (sign =? 0); [done|]. by rewrite put_all_one. Qed.

(** One more text of a sequence of them. *)
Ltac put_step :=
  rewrite ?put_all_app;
  match goal with |- context [put_all ?fin ?o ?l] => destruct (put_all fin o l) as [?|]; [|done] end;
  cbn [mbind option_bind].

(** [number] prints that text. *)
Lemma number_spec o fin num spec :
  0 <= num < 2 ^ 64 -> base_ok (base spec) -> sane spec -> number o fin num spec = put_all fin o (number_text spec num).
Proof.
  intros Hn Hb [Hw Hp]. unfold number, number_text. fold (effective (flags spec)). rewrite take_sign_effective.
  set (f := flags spec) in *. destruct (take_sign_spec f num (field_width spec)) as (sign & -> & Hs); [done|lia|].
  assert (Hsl : Z.of_nat (length (sign_text f num)) <= 1) by (rewrite Hs; destruct (sign =? 0); simpl; lia).
  rewrite prefix_width by lia. rewrite number_digits_spec by (auto using magnitude_range, locase_of_ok). cbn [mbind option_bind].
  set (n := numeral _ _). assert (Hnl : (length n <= 64)%nat) by apply digits_length. rewrite length_fmap.
  assert (Hpl : Z.of_nat (length (prefix_text f (base spec))) <= 2) by (unfold prefix_text; repeat case_match; simpl; lia).
  set (prec := if precision spec <? _ then _ else _).
  assert (Hbody : body_text f (base spec) (precision spec) num = replicate (Z.to_nat (prec - Z.of_nat (length n))) 48 ++ reverse (digit_char (f .& SMALL) <$> n)).
  { unfold body_text, printed. fold n. rewrite <- fmap_reverse, length_fmap, length_reverse. do 2 f_equal. unfold prec. case_bool; to_prop; lia. }
  assert (Hprec : Z.of_nat (length n) <= prec <= 2 ^ 30) by (unfold prec; case_bool; to_prop; lia).
  assert (Hbl : Z.of_nat (length (body_text f (base spec) (precision spec) num)) = prec).
  { rewrite Hbody, length_app, length_replicate, length_reverse, length_fmap. lia. }
  rewrite i32_small by lia. set (w := _ - prec). assert (Hwr : - 2 ^ 31 + 100 < w <= 2 ^ 30) by lia.
  assert (Hfill : forall c, fill (field_width spec) ((sign_text f num ++ prefix_text f (base spec)) ++ body_text f (base spec) (precision spec) num) c = replicate (Z.to_nat w) c).
  { intros c. unfold fill. f_equal. rewrite !length_app. lia. }
  rewrite !Hfill. clearbody w prec n.
  change (ZEROPAD + LEFT) with (ZEROPAD .| LEFT). rewrite has_two, (effective_other f 4 : _ -> has _ LEFT = has f LEFT) by lia.
  rewrite Hbody. assert (Hz : has f LEFT = false -> has (effective f) ZEROPAD = has f ZEROPAD) by (unfold effective; by intros ->).
  destruct (has f LEFT); [|rewrite Hz by done; destruct (has f ZEROPAD)]; cbn [orb negb mbind option_bind];
    rewrite ?orb_true_r, <- !app_assoc; cbn [negb mbind option_bind].
  - rewrite put_sign, <- Hs. put_step. rewrite prefix_spec. do 3 put_step. rewrite pad_spec by lia. by put_step.
  - rewrite put_sign, <- Hs. put_step. rewrite prefix_spec. put_step. rewrite pad_spec by lia. do 3 put_step. by rewrite pad_after by lia.
  - rewrite pad_spec by lia. put_step. rewrite put_sign, <- Hs. put_step. rewrite prefix_spec. put_step. rewrite pad_after by lia.
    cbn [mbind option_bind]. do 2 put_step. rewrite pad_none; [done|]. destruct (0 <? w) eqn:?; to_prop; lia.
Qed.

(** *** string *)

(** What [strnlen] with [n] counts at [s]; there may be no end within [n] characters. *)
Definition string_at (m : list byte) (s n : Z) (l : list byte) : Prop :=
  area m s l /\ Forall (fun c => c <> 0) l /\
  (Z.of_nat (length l) = n \/ Z.of_nat (length l) < n /\ load m (s + Z.of_nat (length l)) = Some 0).

Lemma string_at_cons m s n c l : string_at m s n (c :: l) -> load m s = Some c /\ c <> 0 /\ string_at m (s + 1) (n - 1) l.
Proof.
  intros ([H1 H2] & Hl & H3). apply Forall_cons in Hl as [Hc Hl]. split; [done|]. split; [done|]. split; [done|]. split; [done|].
  cbn [length] in H3. destruct H3 as [H3|[H3 H4]]; [left; lia|right]. split; [lia|]. rewrite <- H4. f_equal. lia.
Qed.

Lemma strnlen_at m s n l : string_at m s n l -> strnlen m s n = Some (Z.of_nat (length l)).
Proof.
  intros H. unfold strnlen. assert (Hf : (length l < turns m)%nat) by (destruct H as (H%area_fits & _); unfold turns; lia).
  revert s n H Hf. generalize (turns m). intros fuel. 
  enough (Hl : forall s n, string_at m s n l -> (length l < fuel)%nat -> strnlen_loop fuel m s n = Some (s + Z.of_nat (length l))).
  { intros s n H Hf. rewrite Hl by done. cbn. f_equal. lia. }
  revert l. induction fuel as [|fuel IH]; intros l s n H Hf; [lia|]. cbn [strnlen_loop]. destruct l as [|c l].
  - rewrite Z.add_0_r. destruct H as (_ & _ & [<-|[H1 H2]]); [done|]. cbn [length] in *. rewrite Z.add_0_r in H2.
    rewrite (proj2 (Z.eqb_neq n 0)), H2 by lia. done.
  - pose proof (string_at_cons _ _ _ _ _ H) as (Hc & H0 & Hl). destruct H as (_ & _ & H). cbn [length] in *.
    rewrite (proj2 (Z.eqb_neq n 0)), Hc by lia. cbn [mbind option_bind]. rewrite (proj2 (Z.eqb_neq c 0)) by done.
    rewrite (IH l) by (done || lia). f_equal. lia.
Qed.

(** A string that ends. *)
Lemma string_at_cstr m s n l : 0 <= n -> cstr m s l -> string_at m s n (take (Z.to_nat n) l).
Proof.
  intros Hn. revert s n Hn. induction l as [|c l IH]; intros s n Hn Hl.
  - rewrite take_nil. split; [|split; [done|]]. { apply load_lt in Hl. simpl. lia. }
    cbn [length cstr] in *. rewrite Z.add_0_r. destruct (decide (n = 0)); [by left|right]. split; [lia|done].
  - destruct Hl as (Hc & H0 & Hl). destruct (decide (n = 0)) as [->|].
    { cbn [Z.to_nat take]. split; [|split; [done|by left]]. apply load_lt in Hc. simpl. lia. }
    replace (Z.to_nat n) with (S (Z.to_nat (n - 1))) by lia. destruct (IH (s + 1) (n - 1)) as (H1 & H2 & H3); [lia|done|].
    cbn [take]. split; [done|]. split; [by constructor|]. cbn [length]. destruct H3 as [H3|[H3 H4]]; [left; lia|right].
    split; [lia|]. rewrite <- H4. f_equal. lia.
Qed.

Definition source_holds (m : list byte) (src : source) (i : Z) (l : list byte) : Prop :=
  match src with At s => area m (s + i) l | Own a => area a i l end.
Definition source_string (m : list byte) (src : source) (n : Z) (l : list byte) : Prop :=
  match src with At s => string_at m s n l | Own a => string_at a 0 n l end.

(** The [n] bytes at [s] are none of those that are written for [k] characters at [p]. *)
Definition untouched (fin p k s n : Z) : Prop := s + n <= p \/ Z.min fin (p + k) <= s \/ fin <= p.
Definition source_clear (fin p k : Z) (src : source) (i n : Z) : Prop :=
  match src with At s => untouched fin p k (s + i) n | Own _ => True end.

Lemma put_elsewhere fin o c o' s d :
  put fin o c = Some o' -> byte_ok c -> area (fst o) s d -> untouched fin (snd o) 1 s (Z.of_nat (length d)) -> area (fst o') s d.
Proof.
  unfold put. destruct (Z.ltb_spec (snd o) fin) as [H|H]; [|by intros [= <-]].
  intros Hp Hc Ha Hcl. rewrite store_byte in Hp by done. destruct (poke _ _ _) as [m|] eqn:E; [|done]. injection Hp as <-. cbn [fst].
  apply (area_poke _ _ _ _ _ _ E); [|done]. cbn [length]. unfold clear_of, untouched in *. lia.
Qed.

Lemma copy_chars_spec fin o src i l :
  bytes_ok l -> source_holds (fst o) src i l -> source_clear fin (snd o) (Z.of_nat (length l)) src i (Z.of_nat (length l)) ->
  copy_chars (length l) fin o src i = put_all fin o l.
Proof.
  revert o i. induction l as [|c l IH]; intros o i Hb Hh Hcl; [done|]. apply bytes_ok_cons in Hb as [Hc Hb].
  assert (Hread : source_char (fst o) src i = Some c) by (destruct src; apply Hh).
  cbn [length copy_chars put_all]. rewrite Hread. cbn [mbind option_bind].
  assert ((if snd o <? fin then put fin o c else Some (fst o, snd o + 1)) = put fin o c) as ->.
  { unfold put. by destruct (snd o <? fin). }
  destruct (put fin o c) as [o'|] eqn:Hp; [|done]. cbn [mbind option_bind].
  pose proof (put_next _ _ _ _ Hp) as Hs.
  apply IH; [done|..]; destruct src as [s|a]; cbn [source_holds source_clear area length] in *; rewrite ?Z.add_assoc; try done; try apply Hh.
  - apply (put_elsewhere _ _ _ _ _ _ Hp); [done|apply Hh|]. unfold untouched in *. lia.
  - rewrite Hs. unfold untouched in *. lia.
Qed.

Definition string_text (spec : printf_spec) (l : list Z) : list Z :=
  let fill := fill (field_width spec) l 32 in if has (flags spec) LEFT then l ++ fill else fill ++ l.

Lemma put_all_next fin o l o' : put_all fin o l = Some o' -> snd o' = snd o + Z.of_nat (length l).
Proof.
  revert o. induction l as [|c l IH]; intros o; cbn [put_all length]; [intros [= ->]; lia|].
  destruct (put fin o c) as [o1|] eqn:E; [|done]. apply put_next in E. intros H%IH. lia.
Qed.

Lemma put_all_elsewhere fin o l o' s d :
  put_all fin o l = Some o' -> bytes_ok l -> area (fst o) s d ->
  untouched fin (snd o) (Z.of_nat (length l)) s (Z.of_nat (length d)) -> area (fst o') s d.
Proof.
  revert o. induction l as [|c l IH]; intros o H Hb Ha Hcl; [by injection H as <-|]. apply bytes_ok_cons in Hb as [Hc Hb]. cbn [put_all length] in *.
  destruct (put fin o c) as [o1|] eqn:E; [|done]. apply (IH o1 H Hb).
  - apply (put_elsewhere _ _ _ _ _ _ E Hc Ha). unfold untouched in *. lia.
  - rewrite (put_next _ _ _ _ E). unfold untouched in *. lia.
Qed.

Lemma bytes_replicate n c : byte_ok c -> bytes_ok (replicate n c).
Proof. intros H. by apply Forall_replicate. Qed.

Lemma string_spec o fin src spec l :
  sane spec -> bytes_ok l -> Z.of_nat (length l) < 2 ^ 31 -> source_string (fst o) src (u32 (precision spec)) l ->
  source_clear fin (snd o) (Z.of_nat (length (string_text spec l))) src 0 (Z.of_nat (length l)) ->
  string o fin src spec = put_all fin o (string_text spec l).
Proof.
  intros [Hw Hp] Hb Hl Hs Hcl. unfold string, string_text in *.
  assert (source_strnlen (fst o) src (u32 (precision spec)) = Some (Z.of_nat (length l))) as -> by (destruct src; by apply strnlen_at).
  cbn [mbind option_bind]. rewrite Nat2Z.id.
  assert (Hh : source_holds (fst o) src 0 l) by (destruct src; cbn [source_holds source_string] in *; rewrite ?Z.add_0_r; apply Hs).
  assert (Hfield : forall o w, - 2 ^ 31 < w < 2 ^ 31 -> field fin (Z.of_nat (length l)) o w =
    (o ← put_all fin o (fill w l 32); Some (o, if Z.of_nat (length l) <? w then Z.of_nat (length l) - 1 else w - 1))).
  { intros o' w Hr. unfold field. rewrite field_loop_spec by lia. done. }
  assert (Hcopy : forall o', source_holds (fst o') src 0 l -> source_clear fin (snd o') (Z.of_nat (length l)) src 0 (Z.of_nat (length l)) ->
    copy_chars (length l) fin o' src 0 = put_all fin o' l) by (intros; by apply copy_chars_spec).
  destruct (has (flags spec) LEFT); cbn [negb mbind option_bind]; rewrite length_app in Hcl.
  - rewrite Hcopy, put_all_app; [|done|destruct src; [|done]; cbn [source_clear] in *; unfold untouched in *; lia].
    put_step. rewrite Hfield by lia. by put_step.
  - rewrite Hfield by lia. rewrite put_all_app. destruct (put_all fin o _) as [o1|] eqn:E1; [|done]. cbn [mbind option_bind].
    pose proof (put_all_next _ _ _ _ E1) as Hn. rewrite Hcopy.
    + put_step. rewrite Hfield by (case_bool; to_prop; lia). unfold fill.
      replace (Z.to_nat _) with 0%nat by (case_bool; to_prop; lia). done.
    + destruct src as [s|a]; [|done]. cbn [source_holds source_clear] in *. 
      apply (put_all_elsewhere _ _ _ _ _ _ E1); [by apply bytes_replicate|done|]. unfold untouched in *. lia.
    + destruct src as [s|a]; [|done]. cbn [source_clear] in *. rewrite Hn. unfold untouched in *. lia.
Qed.

(** *** Strings made in an array *)

(** The part of a string the precision asks for. *)
Definition cut_text (spec : printf_spec) (l : list Z) : list Z :=
  string_text spec (if precision spec <? 0 then l else take (Z.to_nat (precision spec)) l).

Lemma own_spec o fin a spec l :
  sane spec -> bytes_ok l -> Z.of_nat (length l) < 2 ^ 31 -> cstr a 0 l -> string o fin (Own a) spec = put_all fin o (cut_text spec l).
Proof.
  intros Hs Hb Hl Ha. unfold cut_text. set (t := if precision spec <? 0 then _ else _).
  assert (Ht : t = take (Z.to_nat (u32 (precision spec))) l).
  { unfold t. destruct Hs as [_ Hp]. destruct (Z.ltb_spec (precision spec) 0).
    - replace (precision spec) with (-1) by lia. rewrite take_ge; [done|]. change (u32 (-1)) with (2 ^ 32 - 1). lia.
    - by rewrite u32_id by lia. }
  rewrite (string_spec o fin (Own a) spec t); [done|done|..|done].
  - rewrite Ht. by apply Forall_take.
  - rewrite Ht, length_take. lia.
  - rewrite Ht. apply string_at_cstr; [|done]. unfold u32. apply Z.mod_pos_bound. lia.
Qed.

Lemma push_put fin o c : snd o < fin -> push o c = put fin o c.
Proof. intros H. unfold push, put. by rewrite (proj2 (Z.ltb_lt _ _)). Qed.

Lemma push_all_put fin o l : snd o + Z.of_nat (length l) <= fin -> push_all o l = put_all fin o l.
Proof.
  revert o. induction l as [|c l IH]; intros o H; [done|]. cbn [push_all put_all length] in *. rewrite (push_put fin) by lia.
  destruct (put fin o c) as [o'|] eqn:E; [|done]. apply put_next in E. apply IH. lia.
Qed.

Lemma push_all_app o a b : push_all o (a ++ b) = (o ← push_all o a; push_all o b).
Proof. revert o. induction a as [|c a IH]; intros o; [done|]. cbn [app push_all]. destruct (push o c) as [o'|]; [apply IH|done]. Qed.

Lemma push_all_one o c : push_all o [c] = push o c.
Proof. cbn [push_all]. by destruct (push o c). Qed.

(** What fits in an array, with the end of the string. *)
Lemma array_string n l :
  bytes_ok l -> Forall (fun c => c <> 0) l -> (length l < n)%nat ->
  exists p, put_all (Z.of_nat n) (array n) (l ++ [0]) = Some p /\ cstr (fst p) 0 l.
Proof.
  intros Hb H0 Hl. destruct (put_all_spec (Z.of_nat n) (replicate n 0) 0 (l ++ [0])) as (m & H1 & H2).
  - lia.
  - rewrite length_replicate. lia.
  - apply bytes_ok_app. split; [done|]. apply bytes_ok_cons. split; [unfold byte_ok; lia|constructor].
  - exists (m, 0 + Z.of_nat (length (l ++ [0]))). split; [done|]. rewrite take_ge in H2 by (rewrite length_app; simpl; lia).
    by apply (poke_cstr _ _ _ _ H2).
Qed.

(** A function that fills an array and prints it. *)
Lemma array_printed n l o fin spec :
  sane spec -> bytes_ok l -> Forall (fun c => c <> 0) l -> (length l < n)%nat -> (n < 100)%nat ->
  (p ← put_all (Z.of_nat n) (array n) (l ++ [0]); string o fin (Own (fst p)) spec) = put_all fin o (cut_text spec l).
Proof.
  intros Hs Hb H0 Hl Hn. destruct (array_string n l) as (p & -> & Hp); [done..|]. cbn [mbind option_bind].
  apply own_spec; [done|done|lia|done].
Qed.

(** *** What an address points to *)

Definition hex_two (b : Z) : list Z := [digit_char 0x20 (b / 16); digit_char 0x20 (b mod 16)].

Fixpoint join (sep : list Z) (ls : list (list Z)) : list Z :=
  match ls with [] => [] | [l] => l | l :: ls => l ++ sep ++ join sep ls end.

Lemma hex_asc_spec b : byte_ok b -> [hex_asc_hi b; hex_asc_lo b] = hex_two b.
Proof.
  intros Hb. assert (H : Forall (fun b => [hex_asc_hi b; hex_asc_lo b] = hex_two b) (seqZ 0 256)).
  { apply (bool_decide_unpack _). by vm_compute. }
  rewrite Forall_forall in H. apply H, elem_of_seqZ. unfold byte_ok in Hb. lia.
Qed.

Lemma pack_hex_byte_spec o b : byte_ok b -> pack_hex_byte o b = push_all o (hex_two b).
Proof. intros Hb. rewrite <- hex_asc_spec by done. unfold pack_hex_byte. cbn [push_all]. destruct (push o _) as [o'|]; [|done]. cbn [mbind option_bind]. by destruct (push o' _). Qed.

Lemma push_join sep l ls p :
  push_all p (join sep (l :: ls)) = (p ← push_all p l; p ← (if (0 <? length ls)%nat then push_all p sep else Some p); push_all p (join sep ls)).
Proof.
  destruct ls as [|l' ls]; cbn [join length].
  - by destruct (push_all p l).
  - rewrite !push_all_app. destruct (push_all p l) as [p1|]; [|done]. cbn [mbind option_bind]. by rewrite push_all_app.
Qed.

(** The separator is put but for the last turn. *)
Lemma push_separator (s : bool) c p (n : nat) k i :
  i + Z.of_nat (S n) = k + 1 -> (if s && negb (i =? k) then push p c else Some p) = (if (0 <? n)%nat then push_all p (if s then [c] else []) else Some p).
Proof.
  intros H. destruct (Nat.ltb_spec 0 n); [rewrite (proj2 (Z.eqb_neq i k)) by lia|rewrite (proj2 (Z.eqb_eq i k)) by lia];
    destruct s; cbn [negb andb]; by rewrite ?push_all_one.
Qed.

Lemma mac_loop_spec rd addr i (colons : bool) p bs :
  area rd (addr + i) bs -> bytes_ok bs -> i + Z.of_nat (length bs) = 6 ->
  mac_loop (length bs) rd addr i colons p = push_all p (join (if colons then [58] else []) (hex_two <$> bs)).
Proof.
  revert i p. induction bs as [|b bs IH]; intros i p Ha Hb Hi; [done|]. destruct Ha as [Hl Ha]. apply bytes_ok_cons in Hb as [Hb0 Hb].
  cbn [length mac_loop] in *. rewrite Hl. cbn [mbind option_bind fmap list_fmap]. rewrite pack_hex_byte_spec, push_join, length_fmap by done.
  destruct (push_all p _) as [p1|]; [|done]. cbn [mbind option_bind]. rewrite (push_separator _ _ _ (length bs)) by lia.
  destruct (if (0 <? length bs)%nat then _ else Some p1) as [p2|]; [|done]. cbn [mbind option_bind]. apply IH; [by rewrite Z.add_assoc|done|lia].
Qed.

(** The two bytes of a group. *)
Definition pair_bytes (w : Z * Z) : list Z := [fst w; snd w].
Definition hex_pair (w : Z * Z) : list Z := hex_two (fst w) ++ hex_two (snd w).

Lemma ip6_loop_spec rd addr i (colons : bool) p ws :
  area rd (addr + 2 * i) (concat (pair_bytes <$> ws)) -> bytes_ok (concat (pair_bytes <$> ws)) -> i + Z.of_nat (length ws) = 8 ->
  ip6_loop (length ws) rd addr i colons p = push_all p (join (if colons then [58] else []) (hex_pair <$> ws)).
Proof.
  revert i p. induction ws as [|[a b] ws IH]; intros i p Ha Hb Hi; [done|]. destruct Ha as (Hl1 & Hl2 & Ha).
  apply bytes_ok_cons in Hb as [Hb0 [Hb1 Hb]%bytes_ok_cons]. cbn [length ip6_loop] in *. rewrite Hl1.
  cbn [mbind option_bind fmap list_fmap]. rewrite pack_hex_byte_spec, push_join, length_fmap by done.
  change (hex_pair (a, b)) with (hex_two a ++ hex_two b). cbn [fst snd] in *. rewrite push_all_app. destruct (push_all p _) as [p0|]; [|done]. cbn [mbind option_bind].
  rewrite Z.add_assoc, Hl2. cbn [mbind option_bind]. rewrite pack_hex_byte_spec by done.
  destruct (push_all p0 _) as [p1|]; [|done]. cbn [mbind option_bind]. rewrite (push_separator _ _ _ (length ws)) by lia.
  destruct (if (0 <? length ws)%nat then _ else Some p1) as [p2|]; [|done]. cbn [mbind option_bind].
  apply IH; [|done|lia]. by replace (addr + 2 * (i + 1)) with (addr + 2 * i + 1 + 1) by lia.
Qed.

Lemma quad_spec b : byte_ok b -> (length (put_dec_trunc b) <=? 3)%nat = true /\ reverse (put_dec_trunc b) = printed 0 10 b /\ (length (printed 0 10 b) <= 3)%nat.
Proof.
  intros Hb. assert (H : Forall (fun b => (length (put_dec_trunc b) <=? 3)%nat = true /\ reverse (put_dec_trunc b) = printed 0 10 b /\ (length (printed 0 10 b) <= 3)%nat) (seqZ 0 256)).
  { apply (bool_decide_unpack _). by vm_compute. }
  rewrite Forall_forall in H. apply H, elem_of_seqZ. unfold byte_ok in Hb. lia.
Qed.

Lemma bind_value {A B} (x : A) (f : A -> option B) e : e = Some x -> (e ≫= f) = f x.
Proof. by intros ->. Qed.

Lemma ip4_loop_next count rd addr i p b :
  load rd (addr + i) = Some b ->
  ip4_loop (S count) rd addr i p =
    (p ← (if (length (put_dec_trunc b) <=? 3)%nat then push_all p (reverse (put_dec_trunc b)) else None);
     p ← (if negb (i =? 3) then push p 46 else Some p);
     ip4_loop count rd addr (i + 1) p).
Proof. intros H. exact (bind_value b _ _ H). Qed.

Lemma ip4_loop_spec rd addr i p bs :
  area rd (addr + i) bs -> bytes_ok bs -> i + Z.of_nat (length bs) = 4 ->
  ip4_loop (length bs) rd addr i p = push_all p (join [46] (printed 0 10 <$> bs)).
Proof.
  revert i p. induction bs as [|b bs IH]; intros i p Ha Hb Hi; [done|]. destruct Ha as [Hl Ha]. apply bytes_ok_cons in Hb as [Hb0 Hb].
  cbn [length] in *. rewrite (ip4_loop_next _ _ _ _ _ b Hl), fmap_cons. destruct (quad_spec b Hb0) as (-> & -> & _).
  rewrite push_join, length_fmap. destruct (push_all p _) as [p1|]; [|done]. cbn [mbind option_bind].
  pose proof (push_separator true 46 p1 (length bs) 3 i ltac:(lia)) as Hsep. cbn [andb] in Hsep. rewrite Hsep.
  destruct (if (0 <? length bs)%nat then _ else Some p1) as [p2|]; [|done]. cbn [mbind option_bind]. apply IH; [by rewrite Z.add_assoc|done|lia].
Qed.

Definition plain_char (c : Z) : Prop := byte_ok c /\ c <> 0.

Lemma plain_split l : Forall plain_char l -> bytes_ok l /\ Forall (fun c => c <> 0) l.
Proof. intros H. split; apply (Forall_impl _ _ _ H); by intros c []. Qed.

Lemma digit_plain locase d : locase_ok locase -> 0 <= d < 16 -> plain_char (digit_char locase d).
Proof. intros Hc Hd. destruct (digit_char_spec locase d Hc Hd) as (_ & _ & Hr & _). unfold plain_char, byte_ok. lia. Qed.

Lemma hex_two_plain b : byte_ok b -> Forall plain_char (hex_two b).
Proof.
  unfold byte_ok. intros Hb. unfold hex_two.
  repeat constructor; apply digit_plain; try (by right); Z.to_euclidean_division_equations; lia.
Qed.

Lemma printed_plain locase bas n : locase_ok locase -> base_ok bas -> 0 <= n -> Forall plain_char (printed locase bas n).
Proof.
  intros Hc Hb Hn. apply Forall_fmap, Forall_reverse. unfold base_ok in Hb. apply (Forall_impl _ _ _ (digits_ok 64 bas n ltac:(lia) Hn)).
  intros d Hd. apply digit_plain; [done|lia].
Qed.

Lemma join_plain sep ls : Forall plain_char sep -> Forall (Forall plain_char) ls -> Forall plain_char (join sep ls).
Proof.
  intros Hs. induction 1 as [|l ls Hl Hls IH]; [constructor|]. cbn [join]. destruct ls; [done|].
  apply Forall_app. split; [done|]. by apply Forall_app.
Qed.

Lemma join_length sep ls k :
  Forall (fun l => length l <= k)%nat ls -> (length (join sep ls) <= length ls * (k + length sep))%nat /\
  (ls <> [] -> (length (join sep ls) + length sep <= length ls * (k + length sep))%nat).
Proof.
  induction 1 as [|l ls Hl Hls [IH1 IH2]]; [simpl; split; [lia|done]|]. cbn [join length]. destruct ls as [|l' ls]; [simpl; lia|].
  specialize (IH2 ltac:(done)). rewrite !length_app. cbn [length] in *. nia.
Qed.

(** Other flags than [LEFT] do not matter for a string. *)
Lemma cut_text_flags spec f l : has f LEFT = has (flags spec) LEFT -> cut_text (with_flags spec f) l = cut_text spec l.
Proof. intros H. unfold cut_text, string_text. cbn [flags with_flags precision field_width]. by rewrite H. Qed.

Lemma array_pushed n l o fin spec :
  sane spec -> Forall plain_char l -> (length l < n)%nat -> (n < 100)%nat ->
  (p ← push_all (array n) l; p ← push p 0; string o fin (Own (fst p)) (with_flags spec (flags spec .& Z.lnot SPECIAL))) =
  put_all fin o (cut_text spec l).
Proof.
  intros Hs [Hb H0]%plain_split Hl Hn.
  rewrite <- (cut_text_flags spec (flags spec .& Z.lnot SPECIAL)) by (apply (has_clear _ 6 4); lia).
  rewrite <- (array_printed n) by done. rewrite <- (push_all_put (Z.of_nat n) (array n)) by (rewrite length_app; simpl; lia).
  rewrite push_all_app. destruct (push_all _ l) as [p|]; [|done]. cbn [mbind option_bind]. by rewrite push_all_one.
Qed.

Definition colons (spec : printf_spec) : list Z := if has (flags spec) SPECIAL then [] else [58].

Lemma colons_plain spec : Forall plain_char (colons spec).
Proof. unfold colons. destruct (has _ _); repeat constructor; unfold byte_ok; lia. Qed.

Lemma mac_address_string_spec o fin addr spec bs :
  sane spec -> area (fst o) addr bs -> bytes_ok bs -> length bs = 6%nat ->
  mac_address_string o fin addr spec = put_all fin o (cut_text spec (join (colons spec) (hex_two <$> bs))).
Proof.
  intros Hs Ha Hb Hl. unfold mac_address_string. rewrite <- Hl at 1. rewrite mac_loop_spec by (rewrite ?Z.add_0_r; done || lia).
  replace (if negb _ then _ else _) with (colons spec) by (unfold colons; by destruct (has _ _)). apply array_pushed; [done|..|lia].
  - apply join_plain; [apply colons_plain|]. apply Forall_fmap, (Forall_impl _ _ _ Hb). apply hex_two_plain.
  - destruct (join_length (colons spec) (hex_two <$> bs) 2) as [_ H]; [apply Forall_fmap, Forall_forall; simpl; lia|].
    rewrite length_fmap, Hl in H. assert (length (colons spec) <= 1)%nat by (unfold colons; destruct (has _ _); simpl; lia).
    destruct bs; [done|]. specialize (H ltac:(done)). lia.
Qed.

Lemma ip6_addr_string_spec o fin addr spec ws :
  sane spec -> area (fst o) addr (concat (pair_bytes <$> ws)) -> bytes_ok (concat (pair_bytes <$> ws)) -> length ws = 8%nat ->
  ip6_addr_string o fin addr spec = put_all fin o (cut_text spec (join (colons spec) (hex_pair <$> ws))).
Proof.
  intros Hs Ha Hb Hl. unfold ip6_addr_string. rewrite <- Hl at 1. rewrite ip6_loop_spec by (rewrite ?Z.add_0_r; done || lia).
  replace (if negb _ then _ else _) with (colons spec) by (unfold colons; by destruct (has _ _)). apply array_pushed; [done|..|lia].
  - apply join_plain; [apply colons_plain|]. clear Ha Hl. induction ws as [|[a b] ws IH]; [constructor|].
    apply bytes_ok_cons in Hb as [Hb0 [Hb1 Hb]%bytes_ok_cons]. constructor; [|by apply IH]. apply Forall_app. split; by apply hex_two_plain.
  - destruct (join_length (colons spec) (hex_pair <$> ws) 4) as [_ H]; [apply Forall_fmap, Forall_forall; simpl; lia|].
    rewrite length_fmap, Hl in H. assert (length (colons spec) <= 1)%nat by (unfold colons; destruct (has _ _); simpl; lia).
    destruct ws; [done|]. specialize (H ltac:(done)). lia.
Qed.

Lemma ip4_addr_string_spec o fin addr spec bs :
  sane spec -> area (fst o) addr bs -> bytes_ok bs -> length bs = 4%nat ->
  ip4_addr_string o fin addr spec = put_all fin o (cut_text spec (join [46] (printed 0 10 <$> bs))).
Proof.
  intros Hs Ha Hb Hl. unfold ip4_addr_string. rewrite <- Hl at 1. rewrite ip4_loop_spec by (rewrite ?Z.add_0_r; done || lia).
  apply array_pushed; [done|..|lia].
  - apply join_plain; [repeat constructor; unfold byte_ok; lia|]. apply Forall_fmap, (Forall_impl _ _ _ Hb). intros b Hb0.
    apply printed_plain; [by left|right; by left|apply Hb0].
  - destruct (join_length [46] (printed 0 10 <$> bs) 3) as [_ H]; [apply Forall_fmap, (Forall_impl _ _ _ Hb); intros; by apply quad_spec|].
    rewrite length_fmap, Hl in H. destruct bs; [done|]. specialize (H ltac:(done)). simpl in *. lia.
Qed.

(** *** Resources *)

Lemma area_load m p d i b : area m p d -> d !! i = Some b -> load m (p + Z.of_nat i) = Some b.
Proof.
  revert p i. induction d as [|c d IH]; intros p i Ha Hi; [done|]. destruct Ha as [Hc Ha]. destruct i as [|i].
  - injection Hi as <-. by rewrite Z.add_0_r.
  - rewrite <- (IH (p + 1) i) by done. f_equal. lia.
Qed.

Lemma area_peek m p d : area m p d -> peek m p (Z.of_nat (length d)) = Some d.
Proof.
  intros Ha. pose proof (area_fits _ _ _ Ha) as [H1 H2]. unfold peek.
  rewrite (proj2 (Z.leb_le 0 p)), (proj2 (Z.leb_le 0 _)), (proj2 (Z.leb_le _ _)) by lia. cbn [andb]. f_equal. rewrite Nat2Z.id.
  apply list_eq_same_length with (length d); [done|rewrite length_take, length_drop; lia|].
  intros i x y Hi Hx Hy. rewrite lookup_take_lt, lookup_drop in Hx by lia. pose proof (area_load _ _ _ _ _ Ha Hy) as Hl.
  unfold load in Hl. rewrite (proj2 (Z.leb_le 0 _)) in Hl by lia. replace (Z.to_nat (p + Z.of_nat i)) with (Z.to_nat p + i)%nat in Hl by lia. congruence.
Qed.

Lemma load_word_spec m p v : 0 <= v < 2 ^ 32 -> area m p (word_bytes v) -> load_word m p = Some v.
Proof.
  intros Hv Ha. unfold load_word. rewrite (area_peek _ _ _ Ha : peek m p 4 = _). cbn [mbind option_bind]. f_equal.
  unfold word_bytes. cbn [foldr]. rewrite !Z.shiftr_div_pow2 by lia. unfold u8.
  change (2 ^ 8) with 256. change (2 ^ 16) with 65536. change (2 ^ 24) with 16777216. Z.to_euclidean_division_equations. lia.
Qed.

Definition resource_spec (fl : Z) : printf_spec :=
  mkSpec FORMAT_TYPE_NONE (SPECIAL .| SMALL .| ZEROPAD)
    (if has fl IORESOURCE_IO then 4 else if has fl IORESOURCE_MEM then 8 else -1) 16 (-1) 0.

Definition resource_text (first last fl : Z) : list Z :=
  [91] ++ number_text (resource_spec fl) first ++ [45] ++ number_text (resource_spec fl) last ++ [93].

Lemma resource_number fl v :
  0 <= v < 2 ^ 32 ->
  sane (resource_spec fl) /\ Forall plain_char (number_text (resource_spec fl) v) /\ (length (number_text (resource_spec fl) v) <= 10)%nat.
Proof.
  intros Hv. set (w := field_width (resource_spec fl)).
  assert (Hw : -1 <= w <= 8) by (unfold w, resource_spec; cbn [field_width]; repeat case_match; lia).
  split; [unfold sane; fold w; cbn [precision resource_spec]; lia|].
  assert (Hl : (length (printed 0x20 16 v) <= 8)%nat).
  { unfold printed, numeral. rewrite length_fmap, length_reverse, (digits_fuel 8 64) by (lia || done). apply digits_length. }
  assert (E : number_text (resource_spec fl) v = [48; 120] ++ replicate (Z.to_nat (w - 2 - Z.of_nat (length (printed 0x20 16 v)))) 48 ++ printed 0x20 16 v).
  { assert (Hb : body_text 97 16 (-1) v = printed 0x20 16 v).
    { unfold body_text. change (97 .& SMALL) with 0x20. change (magnitude 97 v) with v. cbv zeta. by replace (Z.to_nat (-1 - _)) with 0%nat by lia. }
    unfold number_text. fold w. change (flags (resource_spec fl)) with 97. change (base (resource_spec fl)) with 16.
    change (precision (resource_spec fl)) with (-1). change (sign_text 97 v) with (@nil Z). change (prefix_text 97 16) with [48; 120].
    change (has 97 LEFT) with false. change (has 97 ZEROPAD) with true. rewrite Hb. unfold fill. rewrite !length_app. cbn [length app].
    do 4 f_equal. lia. }
  rewrite E. split.
  - repeat constructor; try (unfold byte_ok; lia). apply Forall_app. split; [|apply printed_plain; [by right|right; by right|lia]].
    apply Forall_replicate. unfold plain_char, byte_ok. lia.
  - rewrite !length_app, length_replicate. simpl. lia.
Qed.

Lemma resource_plain first last fl : 0 <= first < 2 ^ 32 -> 0 <= last < 2 ^ 32 -> Forall plain_char (resource_text first last fl).
Proof.
  intros H1 H2. assert (Hc : forall c, 0 < c < 256 -> Forall plain_char [c]) by (intros c Hc; repeat constructor; unfold byte_ok; lia).
  unfold resource_text. rewrite !Forall_app. split_and!; try (apply Hc; lia); by apply resource_number.
Qed.

(** One more text in the array. *)
Ltac step_array E :=
  rewrite put_all_app;
  match goal with |- context [put_all ?fin ?o ?l] => destruct (put_all fin o l) as [?|] eqn:E; [|done] end;
  apply put_all_next in E; cbn [mbind option_bind length snd array] in *.

(** [sym] is long enough. *)
Lemma resource_string_spec o fin res spec first last name fl :
  sane spec -> 0 <= first < 2 ^ 32 -> 0 <= last < 2 ^ 32 -> 0 <= fl < 2 ^ 32 -> length name = 4%nat ->
  area (fst o) res (word_bytes first ++ word_bytes last ++ name ++ word_bytes fl) ->
  resource_string o fin res spec = put_all fin o (cut_text spec (resource_text first last fl)).
Proof.
  intros Hs H1 H2 H3 Hn [Ha1 [Ha2 [_ Ha3]%area_app]%area_app]%area_app. rewrite <- !Z.add_assoc, Hn in *. unfold resource_string.
  rewrite (load_word_spec _ (res + 12) _ H3 Ha3), (load_word_spec _ _ _ H1 Ha1), (load_word_spec _ (res + 4) _ H2 Ha2). cbn [mbind option_bind].
  change (mkSpec FORMAT_TYPE_NONE _ _ _ _ _) with (resource_spec fl).
  destruct (resource_number fl first H1) as (Hr & _ & L1). destruct (resource_number fl last H2) as (_ & _ & L2).
  pose proof (resource_plain first last fl H1 H2) as Hp. unfold resource_text in Hp.
  rewrite <- (array_printed 24 (resource_text first last fl)); [|done|..|lia]; unfold resource_text.
  - change (Z.of_nat 24) with 24. rewrite <- !app_assoc. rewrite (push_put 24), <- put_all_one by (simpl; lia).
    assert (Hbase : base_ok (base (resource_spec fl))) by (by right; right).
    step_array E. rewrite number_spec by (done || lia). step_array E1. rewrite (push_put 24), <- put_all_one by lia.
    step_array E2. rewrite number_spec by (done || lia). step_array E3. rewrite (push_put 24), <- put_all_one by lia.
    step_array E4. by rewrite (push_put 24), <- put_all_one by lia.
  - apply (plain_split _ Hp).
  - apply (plain_split _ Hp).
  - rewrite !length_app. cbn [length]. lia.
Qed.

(** *** pointer *)

Definition pointer_spec (spec : printf_spec) : printf_spec :=
  let f := flags spec .| SMALL in
  if field_width spec =? -1 then mkSpec (type spec) (f .| ZEROPAD) 8 16 (precision spec) (qualifier spec)
  else mkSpec (type spec) f (field_width spec) 16 (precision spec) (qualifier spec).

Lemma pointer_number_spec o fin ptr spec :
  sane spec -> 0 <= ptr < 2 ^ 32 -> pointer_number o fin ptr spec = put_all fin o (number_text (pointer_spec spec) ptr).
Proof.
  intros [Hw Hp] H. rewrite <- number_spec; [|lia|unfold pointer_spec, base_ok; case_match; simpl; lia|].
  - unfold pointer_number, pointer_spec. cbn [with_flags field_width flags]. by destruct (field_width spec =? -1).
  - unfold sane, pointer_spec. case_match; simpl; lia.
Qed.

Section Points.
Context (sprint_symbol : Z -> list Z).

(** What [%p] and the characters behind it print for a pointer, where the given bytes
    are what it points to. *)
Variant pointer_text (ext : list Z) (ptr : Z) (spec : printf_spec) : list byte -> list Z -> Prop :=
  | pointer_null : ptr = 0 -> pointer_text ext ptr spec [] (cut_text spec paren_null)
  | pointer_symbol :
      ptr <> 0 -> char_at ext 0 = 70 \/ char_at ext 0 = 83 -> pointer_text ext ptr spec [] (cut_text spec (sprint_symbol ptr))
  | pointer_resource first last name fl :
      ptr <> 0 -> char_at ext 0 = 82 -> 0 <= first < 2 ^ 32 -> 0 <= last < 2 ^ 32 -> 0 <= fl < 2 ^ 32 -> length name = 4%nat ->
      pointer_text ext ptr spec (word_bytes first ++ word_bytes last ++ name ++ word_bytes fl) (cut_text spec (resource_text first last fl))
  | pointer_mac bs :
      ptr <> 0 -> char_at ext 0 = 77 -> length bs = 6%nat ->
      pointer_text ext ptr spec bs (cut_text spec (join (colons spec) (hex_two <$> bs)))
  | pointer_raw_mac bs :
      ptr <> 0 -> char_at ext 0 = 109 -> length bs = 6%nat -> pointer_text ext ptr spec bs (cut_text spec (join [] (hex_two <$> bs)))
  | pointer_ip6 ws :
      ptr <> 0 -> char_at ext 0 = 73 -> char_at ext 1 = 54 -> length ws = 8%nat ->
      pointer_text ext ptr spec (concat (pair_bytes <$> ws)) (cut_text spec (join (colons spec) (hex_pair <$> ws)))
  | pointer_raw_ip6 ws :
      ptr <> 0 -> char_at ext 0 = 105 -> char_at ext 1 = 54 -> length ws = 8%nat ->
      pointer_text ext ptr spec (concat (pair_bytes <$> ws)) (cut_text spec (join [] (hex_pair <$> ws)))
  | pointer_ip4 bs :
      ptr <> 0 -> char_at ext 0 = 73 \/ char_at ext 0 = 105 -> char_at ext 1 = 52 -> length bs = 4%nat ->
      pointer_text ext ptr spec bs (cut_text spec (join [46] (printed 0 10 <$> bs)))
  | pointer_other_ip :
      ptr <> 0 -> char_at ext 0 = 73 \/ char_at ext 0 = 105 -> char_at ext 1 <> 54 -> char_at ext 1 <> 52 ->
      pointer_text ext ptr spec [] (number_text (pointer_spec (with_flags spec (flags spec .& Z.lnot SPECIAL))) ptr)
  | pointer_plain :
      ptr <> 0 -> char_at ext 0 ∉ [70; 83; 82; 109; 77; 105; 73] -> pointer_text ext ptr spec [] (number_text (pointer_spec spec) ptr).

(** [sprint_symbol] makes a string that fits [sym]. *)
Hypothesis symbols_plain : forall a, Forall plain_char (sprint_symbol a).
Hypothesis symbols_fit : forall a, Z.of_nat (length (sprint_symbol a)) < KSYM_SYMBOL_LEN.

Lemma own_chars o fin spec l :
  sane spec -> Forall plain_char l -> Z.of_nat (length l) < 2 ^ 31 -> string o fin (Own (l ++ [0])) spec = put_all fin o (cut_text spec l).
Proof.
  intros Hs [Hb H0]%plain_split Hl. apply own_spec; [done..|]. apply (poke_cstr (l ++ [0])); [|done].
  unfold poke. rewrite (proj2 (Z.leb_le 0 0)), (proj2 (Z.leb_le (0 + _) _)) by lia. cbn [andb Z.to_nat take app]. rewrite drop_ge by lia. by rewrite app_nil_r.
Qed.

Lemma paren_plain : Forall plain_char paren_null.
Proof. repeat constructor; unfold byte_ok; lia. Qed.

Lemma symbol_prints o fin ptr spec : sane spec -> symbol_string sprint_symbol o fin ptr spec = put_all fin o (cut_text spec (sprint_symbol ptr)).
Proof.
  intros Hs. unfold symbol_string. specialize (symbols_fit ptr). rewrite (proj2 (Z.ltb_lt _ _)) by done.
  apply own_chars; [done..|]. change KSYM_SYMBOL_LEN with 223 in *. lia.
Qed.

Lemma with_special spec : has (flags (with_flags spec (flags spec .| SPECIAL))) SPECIAL = true.
Proof. cbn [flags with_flags]. change SPECIAL with (2 ^ 6). rewrite has_set by lia. apply orb_true_r. Qed.

Lemma colons_special spec : colons (with_flags spec (flags spec .| SPECIAL)) = [].
Proof. unfold colons. by rewrite with_special. Qed.

Lemma cut_special spec l : cut_text (with_flags spec (flags spec .| SPECIAL)) l = cut_text spec l.
Proof. apply cut_text_flags. change SPECIAL with (2 ^ 6). change LEFT with (2 ^ 4). rewrite has_set by lia. apply orb_false_r. Qed.

Lemma special_cleared f : (f .| SPECIAL) .& Z.lnot SPECIAL = f .& Z.lnot SPECIAL.
Proof. rewrite Z.land_lor_distr_l, Z.land_lnot_diag. apply Z.lor_0_r. Qed.

Lemma ip_address_6 fmt o fin ptr spec ws :
  load (fst o) (fmt + 1) = Some 54 -> sane spec -> area (fst o) ptr (concat (pair_bytes <$> ws)) -> bytes_ok (concat (pair_bytes <$> ws)) ->
  length ws = 8%nat -> ip_address fmt o fin ptr spec = put_all fin o (cut_text spec (join (colons spec) (hex_pair <$> ws))).
Proof. intros H. unfold ip_address. rewrite (bind_value 54 _ _ H). apply ip6_addr_string_spec. Qed.

Lemma ip_address_4 fmt o fin ptr spec bs :
  load (fst o) (fmt + 1) = Some 52 -> sane spec -> area (fst o) ptr bs -> bytes_ok bs -> length bs = 4%nat ->
  ip_address fmt o fin ptr spec = put_all fin o (cut_text spec (join [46] (printed 0 10 <$> bs))).
Proof. intros H. unfold ip_address. rewrite (bind_value 52 _ _ H). apply ip4_addr_string_spec. Qed.

Lemma ip_address_other fmt o fin ptr spec d :
  load (fst o) (fmt + 1) = Some d -> d <> 54 -> d <> 52 -> sane spec -> 0 <= ptr < 2 ^ 32 ->
  ip_address fmt o fin ptr spec = put_all fin o (number_text (pointer_spec (with_flags spec (flags spec .& Z.lnot SPECIAL))) ptr).
Proof.
  intros H H1 H2 Hs Hp. unfold ip_address. rewrite (bind_value d _ _ H), (proj2 (Z.eqb_neq d 54)), (proj2 (Z.eqb_neq d 52)) by done.
  by apply pointer_number_spec.
Qed.

Lemma pointer_prints o fin fmt ptr spec ext bs text :
  sane spec -> 0 <= ptr < 2 ^ 32 -> cstr (fst o) fmt ext -> pointer_text ext ptr spec bs text -> bytes_ok bs ->
  bs = [] \/ area (fst o) ptr bs -> pointer sprint_symbol fmt o fin ptr spec = put_all fin o text.
Proof.
  intros Hs Hp He Ht Hb Ha. unfold pointer. pose proof (cstr_at _ _ _ 0 He ltac:(lia)) as H0. rewrite Z.add_0_r in H0.
  assert (H1 : char_at ext 0 <> 0 -> load (fst o) (fmt + 1) = Some (char_at ext 1)).
  { intros Hne. apply (cstr_at _ _ _ 1 He). destruct ext; [done|simpl; lia]. }
  assert (Hs' : sane (with_flags spec (flags spec .| SPECIAL))) by done.
  assert (Har : bs <> [] -> area (fst o) ptr bs) by (intros Hne; by destruct Ha).
  rewrite (bind_value _ _ _ H0). clear H0 He Ha.
  destruct Ht as [->|Hne [E|E]|first last name fl Hne E ? ? ? ?|bs Hne E Hl|bs Hne E Hl|ws Hne E E1 Hl|ws Hne E E1 Hl|bs Hne [E|E] E1 Hl|Hne [E|E] E1 E2|Hne E].
  1: by apply own_chars; [done|apply paren_plain|].
  all: rewrite (proj2 (Z.eqb_neq ptr 0)) by done; unfold pointer_switch; rewrite ?E in *; rewrite ?E1 in *.
  - by apply symbol_prints.
  - by apply symbol_prints.
  - apply resource_string_spec with name; try done. by apply Har.
  - apply mac_address_string_spec; [done|apply Har; by destruct bs|done..].
  - rewrite <- (colons_special spec), <- cut_special. apply mac_address_string_spec; [done|apply Har; by destruct bs|done..].
  - apply ip_address_6; [by apply H1|done|apply Har; by destruct ws|done..].
  - rewrite <- (colons_special spec), <- cut_special. apply ip_address_6; [by apply H1|done|apply Har; by destruct ws|done..].
  - apply ip_address_4; [by apply H1|done|apply Har; by destruct bs|done..].
  - rewrite <- cut_special. apply ip_address_4; [by apply H1|done|apply Har; by destruct bs|done..].
  - apply (ip_address_other _ _ _ _ _ _ (H1 ltac:(done))); done.
  - rewrite <- special_cleared. apply (ip_address_other fmt o fin ptr (with_flags spec (flags spec .| SPECIAL)) _ (H1 ltac:(done))); done.
  - rewrite !not_elem_of_cons in E. rewrite !(proj2 (Z.eqb_neq (char_at ext 0) _)) by tauto. by apply pointer_number_spec.
Qed.

End Points.

End KernelPrintf.
