(* ===== verification/KernelFormat.v ===== *)
(** * KernelFormat: formats in the board's kernel

    [format_decode] and [vsnprintf] of lib/vsprintf.c, with the functions that are calls
    of it, over the conversions of file KernelPrintf.

    An argument is a 32-bit word (an [int], a [long], a pointer) or a 64-bit one; [None]
    is undefined behaviour, and an argument that is not there or not of its size. *)

From S2P Require Import Prelude KernelFifo KernelString KernelNumber KernelPrintf.
Import KernelFifo KernelString KernelNumber KernelPrintf.

Module KernelFormat.

(** ** Decoding a format *)

(** The end of the text before a [%]. *)
Fixpoint scan_loop (fuel : nat) (rd : list byte) (fmt : Z) : option Z :=
  match fuel with
  | O => None
  | S fuel => c ← load rd fmt; if (c =? 0) || (c =? 37) then Some fmt else scan_loop fuel rd (fmt + 1)
  end.

Definition flag_of (c : Z) : option Z :=
  if c =? 45 then Some LEFT
  else if c =? 43 then Some PLUS
  else if c =? 32 then Some SPACE
  else if c =? 35 then Some SPECIAL
  else if c =? 48 then Some ZEROPAD
  else None.

(** The flags behind [fmt], and where they end. *)
Fixpoint flag_loop (fuel : nat) (rd : list byte) (fmt flags : Z) : option (Z * Z) :=
  match fuel with
  | O => None
  | S fuel =>
      let fmt := fmt + 1 in
      c ← load rd fmt;
      match flag_of c with Some b => flag_loop fuel rd fmt (flags .| b) | None => Some (flags, fmt) end
  end.

(** The type of an integer conversion. *)
Definition integer_type (spec : printf_spec) : format_type :=
  let q := qualifier spec in
  if q =? 76 then FORMAT_TYPE_LONG_LONG
  else if q =? 108 then if has (flags spec) SIGN then FORMAT_TYPE_LONG else FORMAT_TYPE_ULONG
  else if (q =? 90) || (q =? 122) then FORMAT_TYPE_SIZE_T
  else if q =? 116 then FORMAT_TYPE_PTRDIFF
  else if q =? 104 then if has (flags spec) SIGN then FORMAT_TYPE_SHORT else FORMAT_TYPE_USHORT
  else if has (flags spec) SIGN then FORMAT_TYPE_INT else FORMAT_TYPE_UINT.

(** The conversion at [fmt]: how many characters of it are taken, and what it is. *)
Definition decode_conversion (c : Z) (spec : printf_spec) : Z * printf_spec :=
  let spec := with_base spec 10 in
  let integer := fun spec => (1, with_type spec (integer_type spec)) in
  if c =? 99 then (1, with_type spec FORMAT_TYPE_CHAR)
  else if c =? 115 then (1, with_type spec FORMAT_TYPE_STR)
  else if c =? 112 then (0, with_type spec FORMAT_TYPE_PTR)
  else if c =? 110 then (1, with_type spec FORMAT_TYPE_NRCHARS)
  else if c =? 37 then (1, with_type spec FORMAT_TYPE_PERCENT_CHAR)
  else if c =? 111 then integer (with_base spec 8)
  else if c =? 120 then integer (with_base (with_flags spec (flags spec .| SMALL)) 16)
  else if c =? 88 then integer (with_base spec 16)
  else if (c =? 100) || (c =? 105) then integer (with_flags spec (flags spec .| SIGN))
  else if c =? 117 then integer spec
  else (0, with_type spec FORMAT_TYPE_INVALID).

Definition is_qualifier (c : Z) : bool :=
  (c =? 104) || (c =? 108) || (c =? 76) || (c =? 90) || (c =? 122) || (c =? 116).

(** From the label [qualifier] on: where the format goes on, and the specification. *)
Definition decode_qualifier (rd : list byte) (fmt : Z) (spec : printf_spec) : option (Z * printf_spec) :=
  c ← load rd fmt;
  '(fmt, q) ← (if is_qualifier c then
                 d ← load rd (fmt + 1);
                 Some (if (c =? 108) && (d =? 108) then (fmt + 2, 76) else (fmt + 1, c))
               else Some (fmt, -1));
  c ← load rd fmt;
  let '(n, spec) := decode_conversion c (with_qualifier spec q) in
  Some (fmt + n, spec).

(** From the label [precision] on. *)
Definition decode_precision (rd : list byte) (fmt : Z) (spec : printf_spec) : option (Z * printf_spec) :=
  let spec := with_precision spec (-1) in
  c ← load rd fmt;
  if c =? 46 then
    d ← load rd (fmt + 1);
    if isdigit d then
      '(v, fmt) ← skip_atoi rd (fmt + 1);
      decode_qualifier rd fmt (with_precision spec (if v <? 0 then 0 else v))
    else if d =? 42 then Some (fmt + 2, with_type spec FORMAT_TYPE_PRECISION)
    else decode_qualifier rd (fmt + 1) spec
  else decode_qualifier rd fmt spec.

(** The flags and the field width. *)
Definition decode_directive (rd : list byte) (fmt : Z) (spec : printf_spec) : option (Z * printf_spec) :=
  '(flags, fmt) ← flag_loop (turns rd) rd fmt 0;
  let spec := with_width (with_flags spec flags) (-1) in
  c ← load rd fmt;
  if isdigit c then '(v, fmt) ← skip_atoi rd fmt; decode_precision rd fmt (with_width spec v)
  else if c =? 42 then Some (fmt + 1, with_type spec FORMAT_TYPE_WIDTH)
  else decode_precision rd fmt spec.

(** From the comment [By default] on. *)
Definition decode_start (rd : list byte) (start : Z) (spec : printf_spec) : option (Z * printf_spec) :=
  let spec := with_type spec FORMAT_TYPE_NONE in
  fmt ← scan_loop (turns rd) rd start;
  c ← load rd fmt;
  if negb (fmt =? start) || (c =? 0) then Some (fmt, spec) else decode_directive rd fmt spec.

(** Where the format goes on, and the specification; the code returns the distance. *)
Definition format_decode (rd : list byte) (fmt : Z) (spec : printf_spec) : option (Z * printf_spec) :=
  match type spec with
  | FORMAT_TYPE_WIDTH =>
      let spec := if field_width spec <? 0 then with_flags (with_width spec (i32 (- field_width spec))) (flags spec .| LEFT) else spec in
      decode_precision rd fmt (with_type spec FORMAT_TYPE_NONE)
  | FORMAT_TYPE_PRECISION =>
      let spec := if precision spec <? 0 then with_precision spec 0 else spec in
      decode_qualifier rd fmt (with_type spec FORMAT_TYPE_NONE)
  | _ => decode_start rd fmt spec
  end.

(** ** vsnprintf *)

(** An argument is a word, or a [long long]. *)
Variant arg := Word (z : Z) | Wide (z : Z).

(** [va_arg] of a type of 32 bits: its value as an unsigned number. *)
Definition va_word (args : list arg) : option (Z * list arg) :=
  match args with Word z :: args => Some (u32 z, args) | _ => None end.
Definition va_wide (args : list arg) : option (Z * list arg) :=
  match args with Wide z :: args => Some (u64 z, args) | _ => None end.

Definition i16 (z : Z) : Z := (z + 2 ^ 15) mod 2 ^ 16 - 2 ^ 15.

(** The number an integer conversion prints, as [unsigned long long]. *)
Definition va_number (t : format_type) (args : list arg) : option (Z * list arg) :=
  match t with
  | FORMAT_TYPE_LONG_LONG => va_wide args
  | FORMAT_TYPE_ULONG | FORMAT_TYPE_SIZE_T => va_word args
  | FORMAT_TYPE_LONG | FORMAT_TYPE_PTRDIFF | FORMAT_TYPE_INT => '(v, args) ← va_word args; Some (u64 (i32 v), args)
  | FORMAT_TYPE_USHORT => '(v, args) ← va_word args; Some (u16 v, args)
  | FORMAT_TYPE_SHORT => '(v, args) ← va_word args; Some (u64 (i16 v), args)
  | _ => va_word args
  end.

(** [memcpy] of what fits of the text from [old_fmt] to [fmt]; it must not overlap. *)
Definition copy_text (o : out) (fin old_fmt fmt : Z) : option out :=
  let read := fmt - old_fmt in
  m ← (if snd o <? fin then
         let copy := if fin - snd o <? read then fin - snd o else read in
         if (old_fmt + copy <=? snd o) || (snd o + copy <=? old_fmt) then
           d ← peek (fst o) old_fmt copy; poke (fst o) (snd o) d
         else None
       else Some (fst o));
  Some (m, snd o + read).

(** [while (--field_width > 0)] put a space. *)
Fixpoint char_pad_loop (fuel : nat) (fin : Z) (o : out) (w : Z) : option (out * Z) :=
  match fuel with
  | O => None
  | S fuel =>
      let w := i32 (w - 1) in
      if 0 <? w then o ← put fin o 32; char_pad_loop fuel fin o w else Some (o, w)
  end.
Definition char_pad (fin : Z) (o : out) (w : Z) : option (out * Z) := char_pad_loop (pad_turns w) fin o w.

Definition put_char (fin : Z) (o : out) (c : Z) (spec : printf_spec) : option out :=
  '(o, w) ← (if negb (has (flags spec) LEFT) then char_pad fin o (field_width spec) else Some (o, field_width spec));
  o ← put fin o c;
  '(o, _) ← char_pad fin o w;
  Some o.

Fixpoint skip_alnum (fuel : nat) (rd : list byte) (fmt : Z) : option Z :=
  match fuel with
  | O => None
  | S fuel => c ← load rd fmt; if isalnum c then skip_alnum fuel rd (fmt + 1) else Some fmt
  end.

Section Formatted.
Context (sprint_symbol : Z -> list Z).

(** The [switch]: where the format goes on, the specification, the arguments that are
    left, and the output. *)
Definition format_step (buf fin old_fmt fmt : Z) (spec : printf_spec) (args : list arg) (o : out) :
    option (Z * printf_spec * list arg * out) :=
  match type spec with
  | FORMAT_TYPE_NONE => o ← copy_text o fin old_fmt fmt; Some (fmt, spec, args, o)
  | FORMAT_TYPE_WIDTH => '(v, args) ← va_word args; Some (fmt, with_width spec (i32 v), args, o)
  | FORMAT_TYPE_PRECISION => '(v, args) ← va_word args; Some (fmt, with_precision spec (i32 v), args, o)
  | FORMAT_TYPE_CHAR => '(v, args) ← va_word args; o ← put_char fin o (u8 v) spec; Some (fmt, spec, args, o)
  | FORMAT_TYPE_STR => '(v, args) ← va_word args; o ← string o fin (source_at v) spec; Some (fmt, spec, args, o)
  | FORMAT_TYPE_PTR =>
      '(v, args) ← va_word args;
      o ← pointer sprint_symbol (fmt + 1) o fin v spec;
      fmt ← skip_alnum (turns (fst o)) (fst o) fmt;
      Some (fmt, spec, args, o)
  | FORMAT_TYPE_PERCENT_CHAR | FORMAT_TYPE_INVALID => o ← put fin o 37; Some (fmt, spec, args, o)
  | FORMAT_TYPE_NRCHARS =>
      '(v, args) ← va_word args;
      m ← poke (fst o) v (word_bytes (snd o - buf));
      Some (fmt, spec, args, (m, snd o))
  | t => '(v, args) ← va_number t args; o ← number o fin v spec; Some (fmt, spec, args, o)
  end.

Fixpoint format_loop (fuel : nat) (buf fin fmt : Z) (spec : printf_spec) (args : list arg) (o : out) : option out :=
  match fuel with
  | O => None
  | S fuel =>
      c ← load (fst o) fmt;
      if c =? 0 then Some o
      else
        '(next, spec) ← format_decode (fst o) fmt spec;
        '(fmt, spec, args, o) ← format_step buf fin fmt next spec args o;
        format_loop fuel buf fin fmt spec args o
  end.

(** Two turns for a character of the format are enough. *)
Definition format_turns (m : list byte) : nat := 2 * turns m.

(** Memory then, and the value that is returned.  The only other effect is the warning
    about a negative size. *)
Definition vsnprintf (m : list byte) (buf size fmt : Z) (args : list arg) : option (list byte * Z) :=
  if i32 size <? 0 then Some (m, 0)
  else
    let '(fin, size) := if u32 (buf + size) <? buf then (2 ^ 32 - 1, 2 ^ 32 - 1 - buf) else (u32 (buf + size), size) in
    '(m, str) ← format_loop (format_turns m) buf fin fmt (mkSpec FORMAT_TYPE_NONE 0 0 0 0 0) args (m, buf);
    m ← (if 0 <? size then if str <? fin then store m str 0 else store m (fin - 1) 0 else Some m);
    Some (m, i32 (str - buf)).

(** [i >= size] compares unsigned numbers. *)
Definition cut_result (i size : Z) : Z := if size <=? u32 i then i32 (size - 1) else i.

Definition vscnprintf (m : list byte) (buf size fmt : Z) (args : list arg) : option (list byte * Z) :=
  '(m, i) ← vsnprintf m buf size fmt args; Some (m, cut_result i size).

Definition snprintf (m : list byte) (buf size fmt : Z) (args : list arg) : option (list byte * Z) :=
  '(m, i) ← vsnprintf m buf size fmt args; Some (m, i).

Definition scnprintf (m : list byte) (buf size fmt : Z) (args : list arg) : option (list byte * Z) :=
  '(m, i) ← vsnprintf m buf size fmt args; Some (m, cut_result i size).

Definition INT_MAX : Z := 2 ^ 31 - 1.

Definition vsprintf (m : list byte) (buf fmt : Z) (args : list arg) : option (list byte * Z) :=
  vsnprintf m buf INT_MAX fmt args.

Definition sprintf (m : list byte) (buf fmt : Z) (args : list arg) : option (list byte * Z) :=
  '(m, i) ← vsnprintf m buf INT_MAX fmt args; Some (m, i).

End Formatted.

(** ** Formats as texts *)

(** The text before a [%]. *)
Fixpoint plain_text (f : list Z) : list Z :=
  match f with c :: f => if c =? 37 then [] else c :: plain_text f | [] => [] end.

Fixpoint flags_in (f : list Z) (a : Z) : Z * list Z :=
  match f with c :: g => match flag_of c with Some b => flags_in g (a .| b) | None => (a, f) end | [] => (a, []) end.

Fixpoint number_at (f : list Z) (i : Z) : Z * list Z :=
  match f with c :: g => if isdigit c then number_at g (i32 (i * 10 + c - 48)) else (i, f) | [] => (i, []) end.

Definition read_qualifier (f : list Z) (spec : printf_spec) : list Z * printf_spec :=
  let c := char_at f 0 in
  let '(n, q) := if is_qualifier c then if (c =? 108) && (char_at f 1 =? 108) then (2%nat, 76) else (1%nat, c) else (0%nat, -1) in
  let f := drop n f in
  let '(k, spec) := decode_conversion (char_at f 0) (with_qualifier spec q) in
  (drop (Z.to_nat k) f, spec).

Definition read_precision (f : list Z) (spec : printf_spec) : list Z * printf_spec :=
  let spec := with_precision spec (-1) in
  if char_at f 0 =? 46 then
    let d := char_at f 1 in
    if isdigit d then
      let '(v, f) := number_at (drop 1 f) 0 in read_qualifier f (with_precision spec (if v <? 0 then 0 else v))
    else if d =? 42 then (drop 2 f, with_type spec FORMAT_TYPE_PRECISION)
    else read_qualifier (drop 1 f) spec
  else read_qualifier f spec.

Definition read_directive (f : list Z) (spec : printf_spec) : list Z * printf_spec :=
  let '(flags, f) := flags_in (drop 1 f) 0 in
  let spec := with_width (with_flags spec flags) (-1) in
  let c := char_at f 0 in
  if isdigit c then let '(v, f) := number_at f 0 in read_precision f (with_width spec v)
  else if c =? 42 then (drop 1 f, with_type spec FORMAT_TYPE_WIDTH)
  else read_precision f spec.

Definition read_start (f : list Z) (spec : printf_spec) : list Z * printf_spec :=
  let spec := with_type spec FORMAT_TYPE_NONE in
  let t := plain_text f in
  if (0 <? length t)%nat then (drop (length t) f, spec) else read_directive f spec.

(** What is left of the format, and the specification. *)
Definition read_format (f : list Z) (spec : printf_spec) : list Z * printf_spec :=
  match type spec with
  | FORMAT_TYPE_WIDTH =>
      let spec := if field_width spec <? 0 then with_flags (with_width spec (i32 (- field_width spec))) (flags spec .| LEFT) else spec in
      read_precision f (with_type spec FORMAT_TYPE_NONE)
  | FORMAT_TYPE_PRECISION =>
      let spec := if precision spec <? 0 then with_precision spec 0 else spec in
      read_qualifier f (with_type spec FORMAT_TYPE_NONE)
  | _ => read_start f spec
  end.

Section Decoding.
Context (m : list byte) (e : Z).

(** Where [f] is, when it ends at [e]. *)
Definition pos (f : list Z) : Z := e - Z.of_nat (length f).
Definition holds (f : list Z) : Prop := cstr m (pos f) f.

Lemma pos_drop n f : (n <= length f)%nat -> pos (drop n f) = pos f + Z.of_nat n.
Proof. intros H. unfold pos. rewrite length_drop. lia. Qed.

Lemma holds_drop n f : holds f -> holds (drop n f).
Proof.
  intros H. unfold holds. destruct (decide (n <= length f)%nat); [rewrite pos_drop by done; by apply cstr_drop|].
  rewrite drop_ge, <- (drop_all f), pos_drop by lia. by apply cstr_drop.
Qed.

Lemma holds_next c f : holds (c :: f) -> load m (pos (c :: f)) = Some c /\ c <> 0 /\ holds f /\ pos (c :: f) + 1 = pos f.
Proof.
  intros (H1 & H2 & H3). assert (E : pos (c :: f) + 1 = pos f) by (unfold pos; cbn [length]; lia). rewrite E in H3. done.
Qed.

Lemma holds_char f : holds f -> load m (pos f) = Some (char_at f 0).
Proof. intros H. rewrite <- (Z.add_0_r (pos f)). by apply (cstr_at _ _ _ 0 H), le_0_n. Qed.

Lemma holds_char_1 f : holds f -> char_at f 0 <> 0 -> load m (pos f + 1) = Some (char_at f 1).
Proof. intros H Hc. apply (cstr_at _ _ _ 1 H). destruct f; [done|simpl; lia]. Qed.

Lemma holds_turns f : holds f -> (length f < turns m)%nat.
Proof. apply cstr_turns. Qed.

Lemma scan_loop_spec fuel f : holds f -> (length f < fuel)%nat -> scan_loop fuel m (pos f) = Some (pos (drop (length (plain_text f)) f)).
Proof.
  revert f. induction fuel as [|fuel IH]; intros f Hf Hl; [lia|]. cbn [scan_loop]. rewrite holds_char by done. cbn [mbind option_bind].
  destruct f as [|c f]; [done|]. change (char_at (c :: f) 0) with c. apply holds_next in Hf as (_ & H0 & Hf & E).
  rewrite (proj2 (Z.eqb_neq c 0)) by done. cbn [orb plain_text]. destruct (c =? 37); [done|]. rewrite E, IH by (done || simpl in *; lia). done.
Qed.

Lemma flag_loop_spec fuel p f a :
  holds f -> (length f < fuel)%nat -> p + 1 = pos f -> flag_loop fuel m p a = Some (fst (flags_in f a), pos (snd (flags_in f a))).
Proof.
  revert p f a. induction fuel as [|fuel IH]; intros p f a Hf Hl E; [lia|]. cbn [flag_loop]. rewrite E, holds_char by done. cbn [mbind option_bind].
  destruct f as [|c f]; [done|]. change (char_at (c :: f) 0) with c. apply holds_next in Hf as (_ & H0 & Hf & E1).
  cbn [flags_in]. destruct (flag_of c); [|done]. apply IH; [done|simpl in *; lia|done].
Qed.

Lemma skip_atoi_spec f : holds f -> skip_atoi m (pos f) = Some (fst (number_at f 0), pos (snd (number_at f 0))).
Proof.
  intros Hf. unfold skip_atoi. pose proof (holds_turns f Hf) as Hl. revert Hf Hl. generalize (turns m), 0. intros fuel. revert f.
  induction fuel as [|fuel IH]; intros f i Hf Hl; [lia|]. cbn [skip_atoi_loop]. rewrite holds_char by done. cbn [mbind option_bind].
  destruct f as [|c f]; [done|]. change (char_at (c :: f) 0) with c. apply holds_next in Hf as (_ & H0 & Hf & E1).
  cbn [number_at]. destruct (isdigit c); [|done]. rewrite E1. apply IH; [done|simpl in *; lia].
Qed.

Lemma char_at_length f n : char_at f n <> 0 -> (n < length f)%nat.
Proof. unfold char_at. intros H. apply lookup_lt_is_Some_1. destruct (f !! n); [eauto|done]. Qed.

Lemma pos_next n f : char_at f n <> 0 -> pos f + Z.of_nat (S n) = pos (drop (S n) f).
Proof. intros H%char_at_length. rewrite pos_drop by lia. lia. Qed.

Lemma conversion_length c spec : fst (decode_conversion c spec) = 0 \/ fst (decode_conversion c spec) = 1 /\ c <> 0.
Proof.
  unfold decode_conversion.
  repeat match goal with |- context [if ?b then _ else _] => destruct b eqn:?; cbn [fst] end; try (by left); right; (split; [done|]); to_prop; lia.
Qed.

Lemma decode_qualifier_spec f spec :
  holds f -> decode_qualifier m (pos f) spec = Some (pos (fst (read_qualifier f spec)), snd (read_qualifier f spec)).
Proof.
  intros Hf. unfold decode_qualifier, read_qualifier. rewrite holds_char by done. cbn [mbind option_bind].
  set (r := if is_qualifier (char_at f 0) then if (_ : bool) then (2%nat, 76) else _ else _).
  assert (E : (if is_qualifier (char_at f 0) then
      d ← load m (pos f + 1); Some (if (char_at f 0 =? 108) && (d =? 108) then (pos f + 2, 76) else (pos f + 1, char_at f 0))
    else Some (pos f, -1)) = Some (pos (drop (fst r) f), snd r)).
  { unfold r. destruct (is_qualifier (char_at f 0)) eqn:Eq; [|done].
    assert (H0 : char_at f 0 <> 0) by (intros H; by rewrite H in Eq). rewrite holds_char_1 by done. cbn [mbind option_bind]. f_equal.
    destruct (Z.eqb_spec (char_at f 0) 108), (Z.eqb_spec (char_at f 1) 108) as [E1|]; cbn [andb fst snd]; f_equal; try (by apply (pos_next 0)).
    apply (pos_next 1). by rewrite E1. }
  rewrite E. clearbody r. destruct r as [n q]. cbn [mbind option_bind fst snd]. rewrite holds_char by (by apply holds_drop). cbn [mbind option_bind].
  pose proof (conversion_length (char_at (drop n f) 0) (with_qualifier spec q)) as Hc. destruct (decode_conversion _ _) as [k s]. cbn [fst snd] in *.
  do 2 f_equal. destruct Hc as [->|[-> Hc]]; [by rewrite Z.add_0_r|]. by apply (pos_next 0).
Qed.

(** What is read is the start of the format. *)
Lemma flags_suffix f a : exists n, snd (flags_in f a) = drop n f.
Proof.
  revert a. induction f as [|c f IH]; intros a; [by exists 0%nat|]. cbn [flags_in]. destruct (flag_of c) as [b|]; [|by exists 0%nat].
  destruct (IH (a .| b)) as [n ->]. by exists (S n).
Qed.

Lemma number_suffix f i : exists n, snd (number_at f i) = drop n f.
Proof.
  revert i. induction f as [|c f IH]; intros i; [by exists 0%nat|]. cbn [number_at]. destruct (isdigit c); [|by exists 0%nat].
  destruct (IH (i32 (i * 10 + c - 48))) as [n ->]. by exists (S n).
Qed.

Lemma holds_number f i : holds f -> holds (snd (number_at f i)).
Proof. intros Hf. destruct (number_suffix f i) as [n ->]. by apply holds_drop. Qed.

Lemma decode_precision_spec f spec :
  holds f -> decode_precision m (pos f) spec = Some (pos (fst (read_precision f spec)), snd (read_precision f spec)).
Proof.
  intros Hf. unfold decode_precision, read_precision. rewrite holds_char by done. cbn [mbind option_bind].
  destruct (Z.eqb_spec (char_at f 0) 46) as [E|E]; [|by apply decode_qualifier_spec].
  assert (H0 : char_at f 0 <> 0) by (by rewrite E). rewrite holds_char_1 by done. cbn [mbind option_bind].
  rewrite (pos_next 0 f H0 : pos f + 1 = _). destruct (isdigit (char_at f 1)).
  - rewrite skip_atoi_spec by (by apply holds_drop). destruct (number_at (drop 1 f) 0) as [v g] eqn:En. cbn [mbind option_bind fst snd].
    apply decode_qualifier_spec. pose proof (holds_number (drop 1 f) 0) as H. rewrite En in H. by apply H, holds_drop.
  - destruct (Z.eqb_spec (char_at f 1) 42) as [E1|E1]; [|by apply decode_qualifier_spec, holds_drop].
    cbn [fst snd]. do 2 f_equal. apply (pos_next 1). by rewrite E1.
Qed.

Lemma decode_directive_spec f spec :
  holds f -> char_at f 0 <> 0 ->
  decode_directive m (pos f) spec = Some (pos (fst (read_directive f spec)), snd (read_directive f spec)).
Proof.
  intros Hf H0. unfold decode_directive, read_directive. rewrite (flag_loop_spec _ _ (drop 1 f)); [|by apply holds_drop| |by apply (pos_next 0)].
  2: { rewrite length_drop. pose proof (holds_turns f Hf). lia. }
  destruct (flags_suffix (drop 1 f) 0) as [n Hn]. destruct (flags_in (drop 1 f) 0) as [fl g]. cbn [mbind option_bind fst snd] in *.
  assert (Hg : holds g) by (rewrite Hn; by apply holds_drop, holds_drop). rewrite holds_char by done. cbn [mbind option_bind].
  destruct (isdigit (char_at g 0)).
  - rewrite skip_atoi_spec by done. pose proof (holds_number g 0 Hg) as H. destruct (number_at g 0) as [v h]. cbn [mbind option_bind fst snd] in *.
    by apply decode_precision_spec.
  - destruct (Z.eqb_spec (char_at g 0) 42) as [E|E]; [|by apply decode_precision_spec]. cbn [fst snd]. do 2 f_equal.
    apply (pos_next 0). by rewrite E.
Qed.

Lemma decode_start_spec f spec :
  holds f -> char_at f 0 <> 0 -> decode_start m (pos f) spec = Some (pos (fst (read_start f spec)), snd (read_start f spec)).
Proof.
  intros Hf H0. unfold decode_start, read_start. rewrite scan_loop_spec by (done || by apply holds_turns). cbn [mbind option_bind].
  rewrite holds_char by (by apply holds_drop). cbn [mbind option_bind]. destruct (plain_text f) as [|c t] eqn:Et; cbn [length].
  - rewrite drop_0, Z.eqb_refl, (proj2 (Z.eqb_neq _ 0)) by done. cbn [negb orb Nat.ltb Nat.leb]. by apply decode_directive_spec.
  - assert (pos (drop (S (length t)) f) <> pos f).
    { unfold pos. rewrite length_drop. destruct f; [done|]. simpl. lia. }
    by rewrite (proj2 (Z.eqb_neq _ _)) by done.
Qed.

(** [format_decode] reads the format as a text. *)
Lemma format_decode_spec f spec :
  holds f -> f <> [] -> format_decode m (pos f) spec = Some (pos (fst (read_format f spec)), snd (read_format f spec)).
Proof.
  intros Hf Hne. assert (H0 : char_at f 0 <> 0) by (destruct f as [|c f]; [done|]; by destruct Hf as (_ & ? & _)).
  unfold format_decode, read_format.
  destruct (type spec); try (by apply decode_start_spec); [by apply decode_precision_spec|by apply decode_qualifier_spec].
Qed.

End Decoding.

(** *** Every turn gets on *)

Definition waits (spec : printf_spec) : bool :=
  match type spec with FORMAT_TYPE_WIDTH | FORMAT_TYPE_PRECISION => true | _ => false end.

Lemma integer_no_wait spec s : waits (with_type s (integer_type spec)) = false.
Proof. unfold waits, integer_type. cbn [type with_type]. repeat case_match; done. Qed.

Lemma conversion_no_wait c spec : waits (snd (decode_conversion c spec)) = false.
Proof.
  unfold decode_conversion. repeat match goal with |- context [if ?b then _ else _] => destruct b end; cbn [snd];
    try apply integer_no_wait; done.
Qed.

Lemma qualifier_reads f spec : waits (snd (read_qualifier f spec)) = false /\ exists n, fst (read_qualifier f spec) = drop n f.
Proof.
  unfold read_qualifier. destruct (if is_qualifier _ then _ else _) as [n q]. pose proof (conversion_no_wait (char_at (drop n f) 0) (with_qualifier spec q)) as H.
  destruct (decode_conversion _ _) as [k s]. split; [done|]. cbn [fst]. rewrite drop_drop. by eexists.
Qed.

Lemma precision_reads f spec :
  exists n, fst (read_precision f spec) = drop n f /\ (waits (snd (read_precision f spec)) = true -> n <> 0%nat /\ f <> []).
Proof.
  assert (Hq : forall g s k, g = drop k f -> exists n, fst (read_qualifier g s) = drop n f /\ (waits (snd (read_qualifier g s)) = true -> n <> 0%nat /\ f <> [])).
  { intros g s k ->. destruct (qualifier_reads (drop k f) s) as [Hw [n ->]]. rewrite Hw, drop_drop. eauto with congruence. }
  unfold read_precision. destruct (Z.eqb_spec (char_at f 0) 46) as [E|E]; [|by apply (Hq _ _ 0%nat)]. destruct (isdigit (char_at f 1)).
  - destruct (number_suffix (drop 1 f) 0) as [n Hn]. destruct (number_at (drop 1 f) 0) as [v g]. cbn [snd] in Hn. rewrite drop_drop in Hn.
    by apply (Hq _ _ _ Hn).
  - destruct (char_at f 1 =? 42); [|by apply (Hq _ _ 1%nat)]. exists 2%nat. split; [done|]. intros _. split; [done|]. by intros ->.
Qed.

Lemma directive_reads f spec : exists n, fst (read_directive f spec) = drop (S n) f.
Proof.
  unfold read_directive. destruct (flags_suffix (drop 1 f) 0) as [n Hn]. destruct (flags_in (drop 1 f) 0) as [fl g]. cbn [snd] in Hn.
  rewrite drop_drop in Hn. assert (Hp : forall h s k, h = drop k g -> exists j, fst (read_precision h s) = drop (S j) f).
  { intros h s k ->. destruct (precision_reads (drop k g) s) as (j & -> & _). rewrite Hn, !drop_drop. by eexists. }
  destruct (isdigit (char_at g 0)).
  - destruct (number_suffix g 0) as [k Hk]. destruct (number_at g 0) as [v h]. cbn [snd] in Hk. by apply (Hp _ _ k).
  - destruct (char_at g 0 =? 42); [|by apply (Hp _ _ 0%nat)]. cbn [fst]. rewrite Hn, drop_drop. exists (S n). f_equal. lia.
Qed.

(** How far the work on a format is. *)
Definition left_over (f : list Z) (spec : printf_spec) : nat := 2 * length f + if waits spec then 1 else 0.

Lemma format_reads f spec :
  f <> [] -> exists n, fst (read_format f spec) = drop n f /\
    (left_over (fst (read_format f spec)) (snd (read_format f spec)) < left_over f spec)%nat.
Proof.
  intros Hne. assert (Hf : (0 < length f)%nat) by (destruct f; [done|simpl; lia]).
  assert (Hs : exists n, fst (read_start f spec) = drop (S n) f).
  { unfold read_start. destruct (plain_text f) as [|c t]; cbn [length]; [apply directive_reads|]. by exists (length t). }
  unfold read_format, left_over, waits. destruct (type spec) eqn:Et;
    try (destruct Hs as [n Hn]; exists (S n); rewrite Hn, length_drop; split; [done|]; repeat case_match; lia).
  - match goal with |- context [read_precision f ?s] => destruct (precision_reads f s) as (n & -> & Hw); exists n end.
    split; [done|]. rewrite length_drop. unfold waits in Hw. destruct (type (snd _)); try lia; destruct (Hw eq_refl); lia.
  - match goal with |- context [read_qualifier f ?s] => destruct (qualifier_reads f s) as (Hw & n & ->); exists n end.
    split; [done|]. rewrite length_drop. unfold waits in Hw. destruct (type (snd _)); done || lia.
Qed.

(** ** What is printed *)

Lemma char_pad_spec fin o w :
  - 2 ^ 31 < w < 2 ^ 31 ->
  char_pad fin o w = (o ← put_all fin o (replicate (Z.to_nat (w - 1)) 32); Some (o, if 1 <? w then 0 else w - 1)).
Proof.
  unfold char_pad, pad_turns. intros Hw. rewrite (i32_small (w - 1)) by lia.
  assert (Hf : (Z.to_nat (w - 1) < S (S (Z.to_nat (w - 1))))%nat) by lia.
  revert Hf. generalize (S (S (Z.to_nat (w - 1)))). intros fuel Hf. revert o w Hw Hf.
  induction fuel as [|fuel IH]; intros o w Hw Hf; [lia|]. cbn [char_pad_loop]. rewrite i32_small by lia. destruct (Z.ltb_spec 0 (w - 1)) as [H|H].
  - replace (Z.to_nat (w - 1)) with (S (Z.to_nat (w - 1 - 1))) by lia. cbn [replicate put_all]. destruct (put fin o 32) as [o'|]; [|done].
    cbn [mbind option_bind]. rewrite IH by lia. put_step. do 2 f_equal. destruct (Z.ltb_spec 1 w), (Z.ltb_spec 1 (w - 1)); lia.
  - replace (Z.to_nat (w - 1)) with 0%nat by lia. cbn [replicate put_all mbind option_bind]. by rewrite (proj2 (Z.ltb_ge 1 w)) by lia.
Qed.

Lemma put_char_spec fin o c spec : sane spec -> put_char fin o c spec = put_all fin o (string_text spec [c]).
Proof.
  intros [Hw _]. unfold put_char, string_text, fill. cbn [length]. change (Z.of_nat 1) with 1. destruct (has (flags spec) LEFT); cbn [negb].
  - cbn [mbind option_bind]. rewrite <- put_all_one. put_step. rewrite char_pad_spec by lia. by put_step.
  - rewrite char_pad_spec by lia. put_step. rewrite put_all_one. destruct (put fin _ c) as [o'|]; [|done]. cbn [mbind option_bind].
    rewrite char_pad_spec by (case_bool; lia). by replace (Z.to_nat _) with 0%nat by (case_bool; to_prop; lia).
Qed.

Lemma copy_text_spec o fin p q t :
  0 <= snd o -> fin <= Z.of_nat (length (fst o)) \/ snd o + Z.of_nat (length t) <= Z.of_nat (length (fst o)) -> bytes_ok t ->
  area (fst o) p t -> untouched fin (snd o) (Z.of_nat (length t)) p (Z.of_nat (length t)) -> q = p + Z.of_nat (length t) ->
  copy_text o fin p q = put_all fin o t.
Proof.
  intros H0 Hfit Hb Ha Hu ->. destruct o as [m s]. cbn [fst snd] in *. unfold copy_text. cbn [fst snd].
  replace (p + _ - p) with (Z.of_nat (length t)) by lia. destruct (Z.ltb_spec s fin) as [Hs|Hs]; [|by rewrite put_all_full by lia].
  destruct (put_all_spec fin m s t) as (m' & -> & Hp); [lia|lia|done|].
  set (k := if fin - s <? Z.of_nat (length t) then fin - s else Z.of_nat (length t)).
  assert (Hk : take (Z.to_nat k) t = take (Z.to_nat (fin - s)) t /\ Z.of_nat (length (take (Z.to_nat k) t)) = k).
  { unfold k. destruct (Z.ltb_spec (fin - s) (Z.of_nat (length t))); [rewrite length_take; split; [done|lia]|].
    rewrite !take_ge by lia. done. }
  destruct Hk as [Hk1 Hk2]. assert (Hkb : 0 <= k <= Z.of_nat (length t) /\ s + k <= fin) by (unfold k; case_bool; to_prop; lia).
  assert ((p + k <=? s) || (s + k <=? p) = true) as ->.
  { apply orb_true_iff. rewrite !Z.leb_le. unfold untouched in Hu. lia. }
  pose proof (area_peek _ _ _ (area_take _ _ _ (Z.to_nat k) Ha)) as Hpk. rewrite Hk2 in Hpk. rewrite Hpk, Hk1. cbn [mbind option_bind]. by rewrite Hp.
Qed.

Fixpoint drop_alnum (f : list Z) : list Z :=
  match f with c :: g => if isalnum c then drop_alnum g else f | [] => [] end.

Lemma skip_alnum_spec m e f : holds m e f -> skip_alnum (turns m) m (pos e f) = Some (pos e (drop_alnum f)).
Proof.
  intros Hf. pose proof (holds_turns m e f Hf) as Hl. revert Hf Hl. generalize (turns m). intros fuel. revert f.
  induction fuel as [|fuel IH]; intros f Hf Hl; [lia|]. cbn [skip_alnum]. rewrite holds_char by done. cbn [mbind option_bind].
  destruct f as [|c f]; [done|]. change (char_at (c :: f) 0) with c. apply holds_next in Hf as (_ & H0 & Hf & E1).
  cbn [drop_alnum]. destruct (isalnum c); [|done]. rewrite E1. apply IH; [done|simpl in *; lia].
Qed.

Lemma alnum_suffix f : exists n, drop_alnum f = drop n f.
Proof. induction f as [|c f [n IH]]; [by exists 0%nat|]. cbn [drop_alnum]. destruct (isalnum c); [by exists (S n)|by exists 0%nat]. Qed.

Definition is_integer (t : format_type) : bool :=
  match t with
  | FORMAT_TYPE_LONG_LONG | FORMAT_TYPE_ULONG | FORMAT_TYPE_LONG | FORMAT_TYPE_USHORT | FORMAT_TYPE_SHORT
  | FORMAT_TYPE_UINT | FORMAT_TYPE_INT | FORMAT_TYPE_SIZE_T | FORMAT_TYPE_PTRDIFF => true
  | _ => false
  end.

(** The conversions C99 defines and the kernel prints as C99 says.  Excluded are those it
    does not know ([%hhd], [%jd], [%f], ...) or prints without regard to the qualifier
    ([%ls], [%lc]); a negative argument as precision; 0 with the precision 0 or the flag
    [#]; the flag 0 with a precision; the flag [#] in octal with a precision; and numbers
    of the types [size_t] and [ptrdiff_t] whose sign the conversion does not agree with. *)
Definition number_as_c99 (spec : printf_spec) (v : Z) : bool :=
  let f := flags spec in
  (negb (magnitude f v =? 0) || (negb (precision spec =? 0) && negb (has f SPECIAL))) &&
  (negb (has f ZEROPAD) || has f LEFT || (precision spec <? 0)) &&
  (negb (has f SPECIAL) || negb (base spec =? 8) || (precision spec <? 0)) &&
  match type spec with
  | FORMAT_TYPE_SIZE_T => negb (has f SIGN) || (v <? 2 ^ 31)
  | FORMAT_TYPE_PTRDIFF => has f SIGN || (v <? 2 ^ 31)
  | _ => true
  end.

Definition as_c99 (spec : printf_spec) (args : list arg) : bool :=
  match type spec with
  | FORMAT_TYPE_INVALID => false
  | FORMAT_TYPE_PRECISION => match args with Word v :: _ => 0 <=? i32 v | _ => true end
  | FORMAT_TYPE_CHAR | FORMAT_TYPE_STR => qualifier spec =? -1
  | t => if is_integer t then match va_number t args with Some (v, _) => number_as_c99 spec v | None => true end else true
  end.

(** All the kernel knows. *)
Definition kernel_format (_ : printf_spec) (_ : list arg) : bool := true.

Section Rendering.
Context (sprint_symbol : Z -> list Z) (m : list byte) (buf n : Z) (ok : printf_spec -> list arg -> bool).

(** Bytes of memory that are no part of what is written, the [n] bytes at [buf]. *)
Definition seen (p : Z) (bs : list byte) : Prop := area m p bs /\ clear_of p (Z.of_nat (length bs)) buf n.

(** The text of one turn, the arguments and the format that are left, and the
    specification: [t] is the text of the format that was read.  [%n] is not printing. *)
Variant converts (t rest : list Z) (spec : printf_spec) : list arg -> list Z -> list arg -> list Z -> printf_spec -> Prop :=
  | converts_text args : type spec = FORMAT_TYPE_NONE -> converts t rest spec args t args rest spec
  | converts_width v args :
      type spec = FORMAT_TYPE_WIDTH -> converts t rest spec (Word v :: args) [] args rest (with_width spec (i32 v))
  | converts_precision v args :
      type spec = FORMAT_TYPE_PRECISION -> converts t rest spec (Word v :: args) [] args rest (with_precision spec (i32 v))
  | converts_char v args :
      type spec = FORMAT_TYPE_CHAR -> sane spec -> converts t rest spec (Word v :: args) (string_text spec [u8 v]) args rest spec
  | converts_null v args :
      type spec = FORMAT_TYPE_STR -> sane spec -> u32 v < PAGE_SIZE ->
      converts t rest spec (Word v :: args) (cut_text spec null_text) args rest spec
  | converts_string v l args :
      type spec = FORMAT_TYPE_STR -> sane spec -> PAGE_SIZE <= u32 v -> string_at m (u32 v) (u32 (precision spec)) l ->
      Z.of_nat (length l) < 2 ^ 31 -> clear_of (u32 v) (Z.min (u32 (precision spec)) (Z.of_nat (length l) + 1)) buf n ->
      converts t rest spec (Word v :: args) (string_text spec l) args rest spec
  | converts_pointer v bs text args :
      type spec = FORMAT_TYPE_PTR -> sane spec -> pointer_text sprint_symbol (drop 1 rest) (u32 v) spec bs text -> bs = [] \/ seen (u32 v) bs ->
      converts t rest spec (Word v :: args) text args (drop_alnum rest) spec
  | converts_percent args : type spec = FORMAT_TYPE_PERCENT_CHAR -> converts t rest spec args [37] args rest spec
  | converts_invalid args : type spec = FORMAT_TYPE_INVALID -> converts t rest spec args [37] args rest spec
  | converts_number v args args' :
      is_integer (type spec) = true -> sane spec -> va_number (type spec) args = Some (v, args') ->
      converts t rest spec args (number_text spec v) args' rest spec.

(** What a format of conversions that are [ok] prints for its arguments. *)
Inductive renders : list Z -> printf_spec -> list arg -> list Z -> Prop :=
  | renders_end spec args : renders [] spec args []
  | renders_turn f spec args rest spec1 text args' f' spec2 more :
      f <> [] -> read_format f spec = (rest, spec1) -> ok spec1 args = true ->
      converts (take (length f - length rest) f) rest spec1 args text args' f' spec2 ->
      renders f' spec2 args' more -> renders f spec args (text ++ more).

Definition same_outside (m' : list byte) : Prop :=
  length m' = length m /\ forall q, q < buf \/ buf + n <= q -> load m' q = load m q.

Lemma same_area m' p d : same_outside m' -> clear_of p (Z.of_nat (length d)) buf n -> area m p d -> area m' p d.
Proof.
  intros [Hl Hs]. revert p. induction d as [|b d IH]; intros p Hc Ha; cbn [area length] in *; [by rewrite Hl|]. destruct Ha as [H1 H2].
  split; [rewrite Hs; [done|]|apply IH; [|done]]; unfold clear_of in *; lia.
Qed.

Lemma same_cstr m' p s : same_outside m' -> clear_of p (Z.of_nat (length s) + 1) buf n -> cstr m p s -> cstr m' p s.
Proof.
  intros [_ Hs]. revert p. induction s as [|c s IH]; intros p Hc Ha; cbn [cstr length] in *.
  - rewrite Hs; [done|]. unfold clear_of in Hc. simpl in Hc. lia.
  - destruct Ha as (H1 & H2 & H3). split; [rewrite Hs; [done|]|split; [done|apply IH; [|done]]]; unfold clear_of in *; lia.
Qed.

Lemma same_string m' s k l :
  same_outside m' -> clear_of s (Z.min k (Z.of_nat (length l) + 1)) buf n -> string_at m s k l -> string_at m' s k l.
Proof.
  intros Hm Hc (Ha & H0 & He). split; [apply same_area; [done| |done]|]; [unfold clear_of in *; lia|]. split; [done|].
  destruct He as [He|[He1 He2]]; [by left|right]. split; [done|]. destruct Hm as [_ Hm]. rewrite Hm; [done|]. unfold clear_of in *. lia.
Qed.

Lemma put_all_inside fin o l o' :
  put_all fin o l = Some o' -> bytes_ok l -> buf <= snd o -> Z.min fin (snd o + Z.of_nat (length l)) <= buf + n -> same_outside (fst o) -> same_outside (fst o').
Proof.
  revert o. induction l as [|c l IH]; intros o H Hb Ho Hf Hm; [by injection H as <-|]. apply bytes_ok_cons in Hb as [Hc Hb]. cbn [put_all length] in *.
  destruct (put fin o c) as [o1|] eqn:E; [|done]. pose proof (put_next _ _ _ _ E) as Hn. apply (IH o1 H Hb); [lia|lia|].
  unfold put in E. destruct (Z.ltb_spec (snd o) fin); [|by injection E as <-]. rewrite store_byte in E by done.
  destruct (poke (fst o) (snd o) [c]) as [m1|] eqn:Ep; [|done]. injection E as <-. destruct Hm as [Hl Hs]. split.
  - apply poke_length in Ep as [El _]. cbn [fst]. by rewrite El.
  - intros q Hq. cbn [fst]. rewrite (poke_load_ne _ _ _ _ _ Ep); [by apply Hs|]. cbn [length]. lia.
Qed.

(** *** The texts are bytes *)

Lemma area_bytes p d : bytes_ok m -> area m p d -> bytes_ok d.
Proof.
  intros Hm. revert p. induction d as [|b d IH]; intros p Ha; [constructor|]. destruct Ha as [H1 H2]. apply bytes_ok_cons.
  split; [by apply (load_ok m p)|by apply (IH (p + 1))].
Qed.

End Rendering.

Lemma bytes_fill w l c : byte_ok c -> bytes_ok (fill w l c).
Proof. intros H. by apply bytes_replicate. Qed.

Lemma string_text_bytes spec l : bytes_ok l -> bytes_ok (string_text spec l).
Proof.
  intros H. assert (bytes_ok (fill (field_width spec) l 32)) by (by apply bytes_fill). unfold string_text.
  destruct (has _ _); by apply bytes_ok_app.
Qed.

Lemma cut_text_bytes spec l : bytes_ok l -> bytes_ok (cut_text spec l).
Proof. intros H. apply string_text_bytes. destruct (precision spec <? 0); [done|by apply Forall_take]. Qed.

Lemma number_text_bytes spec v : base_ok (base spec) -> 0 <= v < 2 ^ 64 -> bytes_ok (number_text spec v).
Proof.
  intros Hb Hv. unfold number_text. set (front := sign_text _ _ ++ _). set (body := body_text _ _ _ _).
  assert (H1 : bytes_ok front).
  { apply bytes_ok_app. unfold sign_text, prefix_text. split; repeat case_match; repeat constructor; unfold byte_ok; lia. }
  assert (H2 : bytes_ok body).
  { apply bytes_ok_app. split; [by apply bytes_replicate|]. apply plain_split, printed_plain; [apply locase_of_ok|done|].
    by apply magnitude_range. }
  assert (H3 : forall c, byte_ok c -> bytes_ok (fill (field_width spec) (front ++ body) c)) by (intros; by apply bytes_fill).
  destruct (has _ LEFT); [|destruct (has _ ZEROPAD)]; rewrite !bytes_ok_app; split_and!; try done; apply H3; unfold byte_ok; lia.
Qed.

Lemma join_bytes {A} sep (g : A -> list Z) (P : A -> Prop) l :
  Forall plain_char sep -> (forall a, P a -> Forall plain_char (g a)) -> Forall P l -> bytes_ok (join sep (g <$> l)).
Proof. intros Hs Hg Hl. apply plain_split, join_plain; [done|]. apply Forall_fmap. by apply (Forall_impl _ _ _ Hl). Qed.

Lemma pointer_text_bytes sprint_symbol ext ptr spec bs text :
  (forall a, Forall plain_char (sprint_symbol a)) -> 0 <= ptr < 2 ^ 32 -> bytes_ok bs -> pointer_text sprint_symbol ext ptr spec bs text -> bytes_ok text.
Proof.
  intros Hsym Hp Hb Ht. assert (Hn : forall s, bytes_ok (number_text (pointer_spec s) ptr)).
  { intros s. apply number_text_bytes; [unfold pointer_spec, base_ok; case_match; simpl; lia|lia]. }
  assert (Hws : forall ws, bytes_ok (concat (pair_bytes <$> ws)) -> Forall (fun w => byte_ok (fst w) /\ byte_ok (snd w)) ws).
  { intros ws. induction ws as [|[a b] ws IH]; [constructor|]. intros [H1 [H2 H3]%bytes_ok_cons]%bytes_ok_cons. constructor; [done|by apply IH]. }
  assert (Hpair : forall w, byte_ok (fst w) /\ byte_ok (snd w) -> Forall plain_char (hex_pair w)) by (intros w []; apply Forall_app; split; by apply hex_two_plain).
  assert (Hdot : Forall plain_char [46]) by (repeat constructor; unfold byte_ok; lia).
  destruct Ht; try apply Hn; apply cut_text_bytes.
  - apply plain_split, paren_plain.
  - by apply plain_split.
  - by apply plain_split, resource_plain.
  - by apply (join_bytes _ _ byte_ok); [apply colons_plain|apply hex_two_plain|].
  - by apply (join_bytes _ _ byte_ok); [constructor|apply hex_two_plain|].
  - eapply join_bytes; [apply colons_plain|apply Hpair|by apply Hws].
  - eapply join_bytes; [constructor|apply Hpair|by apply Hws].
  - apply (join_bytes _ _ byte_ok); [done| |done]. intros b Hb0. apply printed_plain; [by left|right; by left|apply Hb0].
Qed.

(** *** What a specification says of the format *)

(** The base of an integer conversion is one of three, and [%p] is left in the format. *)
Definition spec_fits (r : list Z * printf_spec) : Prop :=
  (is_integer (type (snd r)) = true -> base_ok (base (snd r))) /\ (type (snd r) = FORMAT_TYPE_PTR -> char_at (fst r) 0 = 112).

Lemma integer_not_pointer spec : integer_type spec <> FORMAT_TYPE_PTR.
Proof. unfold integer_type. repeat case_match; done. Qed.

Lemma conversion_fits f spec :
  let r := decode_conversion (char_at f 0) spec in spec_fits (drop (Z.to_nat (fst r)) f, snd r).
Proof.
  unfold decode_conversion. repeat match goal with |- context [if ?b then _ else _] => destruct b eqn:? end;
    (split; intros H; cbn [fst snd type base with_type with_base with_flags] in *; [unfold base_ok; auto; done|]);
    try (by destruct (integer_not_pointer _ H)); try done.
  to_prop. by rewrite drop_0.
Qed.

Lemma qualifier_fits f spec : spec_fits (read_qualifier f spec).
Proof.
  unfold read_qualifier. destruct (if is_qualifier _ then _ else _) as [k q]. pose proof (conversion_fits (drop k f) (with_qualifier spec q)).
  by destruct (decode_conversion _ _).
Qed.

Lemma precision_fits f spec : spec_fits (read_precision f spec).
Proof.
  unfold read_precision. destruct (char_at f 0 =? 46); [|apply qualifier_fits]. destruct (isdigit _); [|destruct (_ =? 42); [done|apply qualifier_fits]].
  destruct (number_at _ 0). apply qualifier_fits.
Qed.

Lemma format_fits f spec : spec_fits (read_format f spec).
Proof.
  unfold read_format. assert (Hs : spec_fits (read_start f spec)).
  { unfold read_start. destruct (0 <? _)%nat; [done|]. unfold read_directive. destruct (flags_in _ 0) as [fl g].
    destruct (isdigit _); [|destruct (_ =? 42); [done|apply precision_fits]]. destruct (number_at _ 0). apply precision_fits. }
  destruct (type spec); try done; [apply precision_fits|apply qualifier_fits].
Qed.

Lemma va_number_range t args v args' : va_number t args = Some (v, args') -> 0 <= v < 2 ^ 64.
Proof.
  assert (Hw : forall l a k, va_word l = Some (a, k) -> 0 <= a < 2 ^ 32).
  { intros l a k. destruct l as [|[z|z] l]; [done| |done]. intros [= <- <-]. apply Z.mod_pos_bound. lia. }
  assert (Hl : va_word args = None \/ exists a k, va_word args = Some (a, k)) by (destruct (va_word args) as [[]|]; eauto).
  destruct t; cbn [va_number]; try (intros H%Hw; lia);
    try (destruct Hl as [->|(a & k & ->)]; [done|]; intros [= <- _]; (apply Z.mod_pos_bound; lia) || (pose proof (u16_range a); lia)).
  destruct args as [|[z|z] l]; [done..|]. intros [= <- _]. apply Z.mod_pos_bound. lia.
Qed.

(** ** vsnprintf prints what the format says *)

Lemma null_plain : Forall plain_char null_text.
Proof. repeat constructor; unfold byte_ok; lia. Qed.

Lemma i32_u32 v : i32 (u32 v) = i32 v.
Proof. unfold i32, u32. by rewrite Z.add_mod_idemp_l. Qed.

Lemma u8_u32 v : u8 (u32 v) = u8 v.
Proof. unfold u8, u32. apply Z.mod_mod_divide. by exists (2 ^ 24). Qed.

Lemma u32_range v : 0 <= u32 v < 2 ^ 32.
Proof. apply Z.mod_pos_bound. lia. Qed.

Section Printing.
Context (sprint_symbol : Z -> list Z) (m : list byte) (buf n fin e : Z).
Hypothesis symbols_plain : forall a, Forall plain_char (sprint_symbol a).
Hypothesis symbols_fit : forall a, Z.of_nat (length (sprint_symbol a)) < KSYM_SYMBOL_LEN.
Hypothesis bytes : bytes_ok m.

Lemma converts_bytes t rest spec args text args' f' spec' :
  converts sprint_symbol m buf n t rest spec args text args' f' spec' -> bytes_ok t -> spec_fits (rest, spec) -> bytes_ok text.
Proof.
  intros Hc Ht [Hb _]. destruct Hc; try done; try (by repeat constructor).
  - apply string_text_bytes. constructor; [unfold byte_ok, u8; apply Z.mod_pos_bound; lia|constructor].
  - apply cut_text_bytes, plain_split, null_plain.
  - apply string_text_bytes. destruct H2 as [H2 _]. by apply (area_bytes m (u32 v)).
  - apply (pointer_text_bytes sprint_symbol (drop 1 rest) (u32 v) spec bs); [done|apply u32_range| |done].
    destruct H2 as [->|[H2 _]]; [constructor|by apply (area_bytes m (u32 v))].
  - apply number_text_bytes; [by apply Hb|]. by apply (va_number_range _ _ _ _ H1).
Qed.

(** One turn. *)
Lemma format_step_spec f rest spec args text args' f' spec' o :
  converts sprint_symbol m buf n (take (length f - length rest) f) rest spec args text args' f' spec' -> spec_fits (rest, spec) ->
  (exists k, rest = drop k f) -> holds m e f -> clear_of (pos e f) (Z.of_nat (length f) + 1) buf n ->
  same_outside m buf n (fst o) -> 0 <= buf <= snd o -> Z.min fin (snd o + Z.of_nat (length text)) <= buf + n -> buf + n <= Z.of_nat (length m) ->
  format_step sprint_symbol buf fin (pos e f) (pos e rest) spec args o = (o ← put_all fin o text; Some (pos e f', spec', args', o)).
Proof.
  intros Hc Hspec [k Hk] Hf Hclear Hm Hbuf Hfit Hn. unfold format_step.
  assert (Hrest : forall m', same_outside m buf n m' -> holds m' e rest).
  { intros m' Hm'. subst rest. apply holds_drop. by apply (same_cstr m buf n). }
  assert (Htaken : area m (pos e f) (take (length f - length rest) f)) by (apply area_take; by eapply proj1, area_app, cstr_area).
  pose proof (area_bytes m _ _ bytes Htaken) as Hbt. pose proof (converts_bytes _ _ _ _ _ _ _ _ Hc Hbt Hspec) as Htext.
  pose proof (proj1 Hm) as Hlen. destruct Hspec as [Hbase Hptr].
  destruct Hc as [args Ht|v args Ht|v args Ht|v args Ht Hs|v args Ht Hs Hv|v l args Ht Hs Hv Hl Hll Hcl|v bs text args Ht Hs Hp Hseen|args Ht|args Ht|v args args' Ht Hs Hv].
  - rewrite Ht. rewrite (copy_text_spec o fin (pos e f) (pos e rest) (take (length f - length rest) f)); [done|lia|lia|done|..].
    + apply (same_area m buf n); [done| |done]. rewrite length_take; unfold clear_of in *; lia.
    + unfold untouched. rewrite length_take in *. unfold clear_of in *. lia.
    + subst rest. unfold pos. rewrite length_take, length_drop. lia.
  - rewrite Ht. cbn [va_word mbind option_bind put_all]. by rewrite i32_u32.
  - rewrite Ht. cbn [va_word mbind option_bind put_all]. by rewrite i32_u32.
  - rewrite Ht. cbn [va_word mbind option_bind]. rewrite put_char_spec by done. by rewrite u8_u32.
  - rewrite Ht. cbn [va_word mbind option_bind]. unfold source_at. rewrite (proj2 (Z.ltb_lt _ _)) by done.
    by rewrite own_chars by (done || apply null_plain).
  - rewrite Ht. cbn [va_word mbind option_bind]. unfold source_at. rewrite (proj2 (Z.ltb_ge _ _)) by done.
    rewrite (string_spec o fin (At (u32 v)) spec l); [done|done|..|done| |].
    + by apply (area_bytes m (u32 v)), Hl.
    + by apply (same_string m buf n).
    + cbn [source_clear]. destruct Hl as (_ & _ & Hl). unfold untouched, clear_of in *. lia.
  - rewrite Ht. cbn [va_word mbind option_bind].
    assert (Hp1 : pos e rest + 1 = pos e (drop 1 rest)) by (apply (pos_next e 0); cbn [fst snd] in Hptr; by rewrite Hptr).
    rewrite Hp1, (pointer_prints sprint_symbol symbols_plain symbols_fit o fin _ (u32 v) spec (drop 1 rest) bs text);
      [|done|apply u32_range|by apply holds_drop, Hrest|done|..].
    + destruct (put_all fin o text) as [o'|] eqn:Eo; [|done]. cbn [mbind option_bind]. rewrite skip_alnum_spec; [done|].
      apply Hrest. apply (put_all_inside m buf n fin o text); [done|done|lia|lia|done].
    + destruct Hseen as [->|[Hseen _]]; [constructor|by apply (area_bytes m (u32 v))].
    + destruct Hseen as [->|[Hs1 Hs2]]; [by left|right]. by apply (same_area m buf n).
  - rewrite Ht. by rewrite put_all_one.
  - rewrite Ht. by rewrite put_all_one.
  - assert (E : number o fin v spec = put_all fin o (number_text spec v)).
    { apply number_spec; [by apply (va_number_range _ _ _ _ Hv)|by apply Hbase|done]. }
    destruct (type spec); try done; rewrite Hv; cbn [mbind option_bind]; by rewrite E.
Qed.

Lemma converts_left t rest spec args text args' f' spec' :
  converts sprint_symbol m buf n t rest spec args text args' f' spec' -> (exists k, f' = drop k rest) /\ (left_over f' spec' <= left_over rest spec)%nat.
Proof.
  intros Hc. assert (H0 : exists k, rest = drop k rest) by (by exists 0%nat).
  destruct Hc; try (split; [done|unfold left_over, waits; cbn [type with_width with_precision]; lia]).
  destruct (alnum_suffix rest) as [k ->]. split; [by exists k|]. unfold left_over. rewrite length_drop. lia.
Qed.

Lemma put_all_total mo s t :
  0 <= s -> Z.min fin (s + Z.of_nat (length t)) <= Z.of_nat (length mo) -> bytes_ok t -> exists m1, put_all fin (mo, s) t = Some (m1, s + Z.of_nat (length t)).
Proof.
  intros H0 Hf Hb. destruct (decide (s <= fin)); [|exists mo; apply put_all_full; lia].
  destruct (put_all_spec fin mo s t) as (m1 & -> & _); [lia|lia|done|]. by exists m1.
Qed.

(** All turns. *)
Lemma format_loop_spec ok f spec args text :
  renders sprint_symbol m buf n ok f spec args text ->
  forall fuel o, (left_over f spec < fuel)%nat -> holds m e f -> clear_of (pos e f) (Z.of_nat (length f) + 1) buf n ->
  same_outside m buf n (fst o) -> 0 <= buf <= snd o -> Z.min fin (snd o + Z.of_nat (length text)) <= buf + n -> buf + n <= Z.of_nat (length m) ->
  bytes_ok text /\ format_loop sprint_symbol fuel buf fin (pos e f) spec args o = put_all fin o text.
Proof.
  induction 1 as [spec args|f spec args rest spec1 text args' f' spec2 more Hne Hread _ Hc _ IH]; intros fuel o Hfuel Hf Hclear Hm Hbuf Hfit Hn;
    (destruct fuel as [|fuel]; [lia|]); cbn [format_loop].
  - rewrite (same_cstr m buf n (fst o) _ [] Hm Hclear Hf : load (fst o) (pos e []) = Some 0). split; [constructor|done].
  - assert (Hcur : holds (fst o) e f) by (by apply (same_cstr m buf n)). pose proof (format_fits f spec) as Hspec.
    destruct (format_reads f spec Hne) as (k & Hk & Hdec). rewrite Hread in *. cbn [fst snd] in *.
    pose proof (area_bytes m _ _ bytes (area_take _ _ _ (length f - length rest) (proj1 (area_app _ _ _ _ (cstr_area _ _ _ Hf))))) as Hbt.
    pose proof (converts_bytes _ _ _ _ _ _ _ _ Hc Hbt Hspec) as Htext. destruct (converts_left _ _ _ _ _ _ _ _ Hc) as [[j Hj] Hle].
    rewrite length_app in Hfit. rewrite holds_char by done. cbn [mbind option_bind].
    assert (char_at f 0 <> 0) by (destruct f as [|c f]; [done|]; by destruct Hf as (_ & ? & _)). rewrite (proj2 (Z.eqb_neq _ 0)) by done.
    rewrite format_decode_spec, Hread by done. cbn [mbind option_bind fst snd].
    rewrite (format_step_spec f rest spec1 args text args' f' spec2 o); try done; [|by exists k|lia].
    assert (Hff : exists i, f' = drop i f) by (rewrite Hj, Hk, drop_drop; by eexists). destruct Hff as [i Hi].
    assert (Hhf : holds m e f') by (rewrite Hi; by apply holds_drop).
    assert (Hcf : clear_of (pos e f') (Z.of_nat (length f') + 1) buf n).
    { rewrite Hi. unfold clear_of, pos in *. rewrite length_drop. lia. }
    destruct o as [mo s]. cbn [fst snd] in *.
    destruct (put_all_total mo s text) as (m1 & E1); [lia|destruct Hm as [Hml _]; lia|done|].
    assert (Hm1 : same_outside m buf n m1) by (apply (put_all_inside m buf n fin (mo, s) text (m1, s + Z.of_nat (length text))); simpl; done || lia).
    rewrite put_all_app, E1. cbn [mbind option_bind].
    destruct (IH fuel (m1, s + Z.of_nat (length text))) as [Hmore ->]; cbn [fst snd]; try done; try lia.
    split; [by apply bytes_ok_app|done].
Qed.

End Printing.

(** What fits between [buf] and the end of the address space. *)
Definition room (buf size : Z) : Z := if buf + size <? 2 ^ 32 then size else 2 ^ 32 - 1 - buf.

(** What is in the buffer then: the start of the text and the end of the string. *)
Definition written (room : Z) (text : list Z) : list Z := if room =? 0 then [] else take (Z.to_nat (room - 1)) text ++ [0].

Definition no_spec : printf_spec := mkSpec FORMAT_TYPE_NONE 0 0 0 0 0.

Lemma poke_again m p c d m1 : poke m p [c] = Some m1 -> poke m1 p [d] = poke m p [d].
Proof.
  intros H. pose proof (poke_length _ _ _ _ H) as (Hl & H0 & H1). cbn [length] in *.
  destruct (poke_fits m1 p [d]) as [m2 E2]; [lia|simpl; lia|]. destruct (poke_fits m p [d]) as [m3 E3]; [lia|simpl; lia|].
  rewrite E2, E3. f_equal. apply memory_ext.
  - apply poke_length in E2 as [-> _], E3 as [-> _]. done.
  - intros q. rewrite (poke_load _ _ _ _ q E2), (poke_load _ _ _ _ q E3), (poke_load _ _ _ _ q H). cbn [length].
    by destruct ((p <=? q) && (q <? p + Z.of_nat 1)).
Qed.

(** The end of the string goes behind the text, or over the last character that fits. *)
Lemma end_of_string m buf r text m1 :
  0 < r -> poke m buf (take (Z.to_nat r) text) = Some m1 -> buf + Z.min r (Z.of_nat (length text) + 1) <= Z.of_nat (length m) ->
  (if buf + Z.of_nat (length text) <? buf + r then store m1 (buf + Z.of_nat (length text)) 0 else store m1 (buf + r - 1) 0) = poke m buf (written r text).
Proof.
  intros Hr Hp Hf. unfold written. rewrite (proj2 (Z.eqb_neq r 0)), !store_byte by (unfold byte_ok; lia).
  destruct (Z.ltb_spec (buf + Z.of_nat (length text)) (buf + r)) as [Hlt|Hge].
  - rewrite take_ge in Hp by lia. rewrite take_ge by lia. rewrite poke_app, Hp. done.
  - destruct (lookup_lt_is_Some_2 text (Z.to_nat (r - 1)) ltac:(lia)) as [c Hc].
    replace (Z.to_nat r) with (S (Z.to_nat (r - 1))) in Hp by lia. rewrite (take_S_r _ _ c Hc), poke_app in Hp.
    rewrite poke_app. destruct (poke m buf (take (Z.to_nat (r - 1)) text)) as [m0|] eqn:E; [|done]. cbn [mbind option_bind] in *.
    replace (buf + r - 1) with (buf + Z.of_nat (length (take (Z.to_nat (r - 1)) text))) by (rewrite length_take; lia).
    by rewrite (poke_again _ _ _ 0 _ Hp).
Qed.

Lemma written_length r text : 0 <= r -> Z.of_nat (length (written r text)) = Z.min r (Z.of_nat (length text) + 1).
Proof.
  intros Hr. unfold written. destruct (Z.eqb_spec r 0) as [->|]; [simpl; lia|]. rewrite length_app, length_take. simpl. lia.
Qed.

Lemma vsnprintf_spec sprint_symbol ok m buf size fmt f args text :
  (forall a, Forall plain_char (sprint_symbol a)) -> (forall a, Z.of_nat (length (sprint_symbol a)) < KSYM_SYMBOL_LEN) ->
  bytes_ok m -> cstr m fmt f -> 0 <= size < 2 ^ 31 -> 0 <= buf < 2 ^ 32 ->
  let w := written (room buf size) text in
  renders sprint_symbol m buf (Z.of_nat (length w)) ok f no_spec args text ->
  clear_of fmt (Z.of_nat (length f) + 1) buf (Z.of_nat (length w)) -> buf + Z.of_nat (length w) <= Z.of_nat (length m) ->
  exists m', vsnprintf sprint_symbol m buf size fmt args = Some (m', i32 (Z.of_nat (length text))) /\ poke m buf w = Some m'.
Proof.
  intros Hsp Hsf Hb Hf Hsize Hbuf w Hr Hclear Hfit. set (r := room buf size) in *.
  assert (Hr0 : 0 <= r /\ (r = 0 -> size = 0 \/ buf = 2 ^ 32 - 1)) by (unfold r, room; destruct (Z.ltb_spec (buf + size) (2 ^ 32)); lia).
  assert (Hw : Z.of_nat (length w) = Z.min r (Z.of_nat (length text) + 1)) by (apply written_length; lia).
  set (e := fmt + Z.of_nat (length f)). assert (He : fmt = pos e f) by (unfold pos, e; lia).
  destruct (format_loop_spec sprint_symbol m buf (Z.of_nat (length w)) (buf + r) e Hsp Hsf Hb ok f no_spec args text Hr (format_turns m) (m, buf)) as [Htext Hloop].
  - pose proof (cstr_turns _ _ _ Hf). unfold left_over, format_turns. cbn [waits type no_spec]. lia.
  - unfold holds. by rewrite <- He.
  - by rewrite <- He.
  - by split.
  - simpl. lia.
  - cbn [snd]. lia.
  - done.
  - destruct (put_all_spec (buf + r) m buf text) as (m1 & E1 & E2); [lia|lia|done|]. replace (buf + r - buf) with r in E2 by lia.
    rewrite E1, <- He in Hloop. destruct (poke_fits m buf w) as [m' Em']; [lia|done|]. exists m'. split; [|done].
    unfold vsnprintf. rewrite i32_small, (proj2 (Z.ltb_ge size 0)) by lia. fold no_spec.
    assert ((if u32 (buf + size) <? buf then (2 ^ 32 - 1, 2 ^ 32 - 1 - buf) else (u32 (buf + size), size)) = (buf + r, r)) as ->.
    { unfold r, room. destruct (Z.ltb_spec (buf + size) (2 ^ 32)).
      - by rewrite u32_id, (proj2 (Z.ltb_ge _ _)) by lia.
      - assert (u32 (buf + size) = buf + size - 2 ^ 32) as -> by (unfold u32; symmetry; apply Z.mod_unique with 1; lia).
        rewrite (proj2 (Z.ltb_lt _ _)) by lia. f_equal; lia. }
    rewrite Hloop. cbn [mbind option_bind]. replace (buf + Z.of_nat (length text) - buf) with (Z.of_nat (length text)) by lia.
    destruct (Z.ltb_spec 0 r) as [Hpos|Hz].
    + rewrite (end_of_string m buf r text m1 Hpos E2) by lia. fold w. by rewrite Em'.
    + assert (Er : r = 0) by lia. assert (Ew : w = []) by (unfold w, written; by rewrite Er). rewrite Ew in Em'. rewrite Er in E2.
      change (take (Z.to_nat 0) text) with (@nil Z) in E2. rewrite E2 in Em'. injection Em' as ->. done.
Qed.


(** [snprintf(buf, 6, "%*d|%s", 4, -7, "ok")], with the buffer at 0, the format at 16 and
    the string at 4096: five characters of the text are stored. *)
Definition sample_format : list Z := [37; 42; 100; 124; 37; 115].
Definition sample_memory : list byte := replicate 16 1 ++ sample_format ++ [0] ++ replicate 4073 1 ++ [111; 107; 0].
Definition sample_args : list arg := [Word 4; Word (-7); Word 4096].
Definition sample_text : list Z := [32; 32; 45; 55; 124; 111; 107].

Lemma sample_renders : renders (fun _ => []) sample_memory 0 6 as_c99 sample_format no_spec sample_args sample_text.
Proof.
  assert (sample_text = [] ++ number_text (mkSpec FORMAT_TYPE_INT 2 4 10 (-1) (-1)) (2 ^ 64 - 7) ++ [124] ++
    string_text (mkSpec FORMAT_TYPE_STR 0 (-1) 10 (-1) (-1)) [111; 107] ++ []) as -> by (by vm_compute).
  eapply renders_turn; [done|by vm_compute|by vm_compute|apply converts_width; by vm_compute|].
  eapply renders_turn; [done|by vm_compute|by vm_compute|apply converts_number; [done|unfold sane; cbn; lia|by vm_compute]|].
  eapply renders_turn; [done|by vm_compute|by vm_compute|apply (converts_text _ _ _ _ [124]); by vm_compute|].
  eapply renders_turn; [done|by vm_compute|by vm_compute|apply converts_string|apply renders_end].
  - done.
  - unfold sane; cbn; lia.
  - by vm_compute.
  - split; [|split; [by repeat constructor|right; by vm_compute]]. by vm_compute.
  - by vm_compute.
  - right. by vm_compute.
Qed.


(** ** Numbers are read back *)

(** A number in no field. *)
Lemma number_text_bare t f bas q v :
  number_text (mkSpec t f (-1) bas (-1) q) v = (sign_text f v ++ prefix_text f bas) ++ printed (f .& SMALL) bas (magnitude f v).
Proof.
  assert (Hf : forall l c, fill (-1) l c = []) by (intros; unfold fill; by replace (Z.to_nat _) with 0%nat by lia).
  unfold number_text, body_text. cbn [flags base precision field_width]. rewrite !Hf.
  replace (Z.to_nat (-1 - _)) with 0%nat by lia. cbn [replicate app]. rewrite app_nil_r. by repeat case_match.
Qed.

Lemma printed_length locase bas v : base_ok bas -> 0 <= v < 2 ^ 64 -> (length (printed locase bas v) <= 22)%nat.
Proof.
  intros Hb Hv. unfold printed, numeral. rewrite length_fmap, length_reverse. unfold base_ok in Hb.
  rewrite (digits_fuel 22 64); [apply digits_length|lia| |lia|lia]. split; [lia|].
  apply Z.lt_le_trans with (8 ^ 22); [change (8 ^ 22) with (2 ^ 66); lia|]. change (Z.of_nat 22) with 22. apply Z.pow_le_mono_l. lia.
Qed.

Lemma printed_read m p locase bas v :
  locase_ok locase -> base_ok bas -> 0 <= v < 2 ^ 64 -> cstr m p (printed locase bas v) -> strict_strtoull m p bas = Some (0, v).
Proof.
  intros Hc Hb Hv Hs. assert (Hbr : 1 < bas <= 16) by (unfold base_ok in Hb; lia). pose proof (printed_length locase bas v Hb Hv).
  unfold strict_strtoull. rewrite (strict_strto_spec (2 ^ 64) u64 m) with (s := printed locase bas v); [|lia|done|done|lia]. f_equal.
  unfold strictly. pose proof (number_in_printed locase bas Hc Hbr v [] Hv) as Hn. rewrite app_nil_r in Hn. rewrite Hn; [|done..].
  pose proof (printed_nonempty locase bas v) as Hne. rewrite drop_all, bool_decide_true by (by left).
  destruct (printed locase bas v); [done|]. cbn [length Nat.ltb Nat.leb andb]. by rewrite u64_id.
Qed.

(** The conversions of a [long long]. *)
Variant long_conversion : Z -> Z -> Z -> Prop :=
  | conversion_o : long_conversion 111 8 0
  | conversion_u : long_conversion 117 10 0
  | conversion_x : long_conversion 120 16 SMALL
  | conversion_X : long_conversion 88 16 0.

Lemma i64_small z : - 2 ^ 63 <= z < 2 ^ 63 -> i64 z = z.
Proof. intros H. unfold i64. rewrite Z.mod_small; lia. Qed.

Lemma i64_u64 z : i64 (u64 z) = i64 z.
Proof. unfold i64, u64. by rewrite Z.add_mod_idemp_l. Qed.

Lemma i64_negate v : - 2 ^ 63 <= v < 0 -> i64 (- i64 (- v)) = v.
Proof.
  intros Hv. destruct (decide (v = - 2 ^ 63)) as [->|]; [done|]. rewrite (i64_small (- v)) by lia. rewrite i64_small; lia.
Qed.

Section Back.
Context (sprint_symbol : Z -> list Z) (m : list byte) (buf size fmt : Z).
Hypothesis symbols_plain : forall a, Forall plain_char (sprint_symbol a).
Hypothesis symbols_fit : forall a, Z.of_nat (length (sprint_symbol a)) < KSYM_SYMBOL_LEN.
Hypothesis bytes : bytes_ok m.
Hypothesis sized : 24 <= size < 2 ^ 31 /\ buf + size < 2 ^ 32.
Hypothesis inside : 0 <= buf /\ buf + 24 <= Z.of_nat (length m).
Hypothesis apart : clear_of fmt 5 buf 24.

(** What one conversion of a [long long] leaves in the buffer. *)
Lemma long_printed c spec v :
  cstr m fmt [37; 108; 108; c] -> read_format [37; 108; 108; c] no_spec = ([], spec) -> type spec = FORMAT_TYPE_LONG_LONG -> sane spec ->
  bytes_ok (number_text spec (u64 v)) -> Forall (fun c => c <> 0) (number_text spec (u64 v)) -> (length (number_text spec (u64 v)) <= 23)%nat ->
  exists m' r, vsnprintf sprint_symbol m buf size fmt [Wide v] = Some (m', r) /\ cstr m' buf (number_text spec (u64 v)).
Proof.
  intros Hf Hr Ht Hs Hb H0 Hl. set (text := number_text spec (u64 v)) in *.
  assert (Hw : written (room buf size) text = text ++ [0]).
  { unfold room. rewrite (proj2 (Z.ltb_lt _ _)) by lia. unfold written. rewrite (proj2 (Z.eqb_neq size 0)), take_ge by lia. done. }
  destruct (vsnprintf_spec sprint_symbol kernel_format m buf size fmt [37; 108; 108; c] [Wide v] text) as (m' & E & Hp); try done; try lia.
  - rewrite Hw, <- (app_nil_r text). eapply renders_turn; [done|exact Hr|done| |apply renders_end].
    apply converts_number; [by rewrite Ht|done|by rewrite Ht].
  - rewrite Hw, length_app. unfold clear_of in *. cbn [length]. lia.
  - rewrite Hw, length_app. cbn [length]. lia.
  - rewrite Hw in Hp. exists m', (i32 (Z.of_nat (length text))). split; [done|]. by apply (poke_cstr _ _ _ _ Hp).
Qed.

Lemma unsigned_back c bas f v :
  long_conversion c bas f -> cstr m fmt [37; 108; 108; c] -> 0 <= v < 2 ^ 64 ->
  exists m' r, vsnprintf sprint_symbol m buf size fmt [Wide v] = Some (m', r) /\ strict_strtoull m' buf bas = Some (0, v).
Proof.
  intros Hc Hf Hv. set (spec := mkSpec FORMAT_TYPE_LONG_LONG f (-1) bas (-1) 76).
  assert (Hconv : read_format [37; 108; 108; c] no_spec = ([], spec) /\ base_ok bas /\ locase_ok (f .& SMALL) /\
    has f SIGN = false /\ prefix_text f bas = []).
  { unfold spec, base_ok, locase_ok. destruct Hc; (split; [by vm_compute|]); split_and!; auto; by vm_compute. }
  destruct Hconv as (Hr & Hb & Hl & Hsign & Hpre).
  assert (Etext : number_text spec (u64 v) = printed (f .& SMALL) bas v).
  { unfold spec. rewrite number_text_bare, u64_id by done. unfold sign_text, magnitude. rewrite Hsign, Hpre. done. }
  pose proof (printed_plain _ _ v Hl Hb ltac:(lia)) as [Hp1 Hp2]%plain_split. pose proof (printed_length (f .& SMALL) bas v Hb Hv).
  destruct (long_printed c spec v) as (m' & r & E & Hs); try done; try (rewrite Etext; done || lia).
  exists m', r. split; [done|]. rewrite Etext in Hs. by apply (printed_read m' buf (f .& SMALL)).
Qed.

Lemma signed_back v :
  cstr m fmt [37; 108; 108; 100] -> - 2 ^ 63 <= v < 2 ^ 63 ->
  exists m' r, vsnprintf sprint_symbol m buf size fmt [Wide v] = Some (m', r) /\ strict_strtoll m' buf 10 = Some (0, v).
Proof.
  intros Hf Hv. set (spec := mkSpec FORMAT_TYPE_LONG_LONG SIGN (-1) 10 (-1) 76).
  assert (Etext : number_text spec (u64 v) = (if v <? 0 then [45] else []) ++ printed 0 10 (Z.abs v)).
  { unfold spec. rewrite number_text_bare. unfold sign_text, magnitude. change (has SIGN SIGN) with true. cbn [andb].
    rewrite i64_u64, i64_small by done. change (prefix_text SIGN 10) with (@nil Z). change (SIGN .& SMALL) with 0. rewrite app_nil_r.
    destruct (Z.ltb_spec v 0); [by rewrite Z.abs_neq by lia|]. by rewrite u64_id, Z.abs_eq by lia. }
  assert (Hb : base_ok 10) by (by right; left). assert (Hl : locase_ok 0) by (by left).
  pose proof (printed_plain 0 10 (Z.abs v) Hl Hb ltac:(lia)) as Hp. pose proof (printed_length 0 10 (Z.abs v) Hb ltac:(lia)) as Hlen.
  assert (Hplain : Forall plain_char (number_text spec (u64 v)) /\ (length (number_text spec (u64 v)) <= 23)%nat).
  { rewrite Etext, length_app. split; [apply Forall_app; split; [|done]|]; destruct (v <? 0); cbn [length]; try lia; repeat constructor; unfold byte_ok; lia. }
  destruct Hplain as [[Hp1 Hp2]%plain_split Hp3].
  destruct (long_printed 100 spec v) as (m' & r & E & Hs); try done. exists m', r. split; [done|]. rewrite Etext in Hs.
  unfold strict_strtoll. destruct (Z.ltb_spec v 0) as [Hneg|Hpos]; cbn [app] in Hs.
  - destruct Hs as (Hc & _ & Hs). rewrite Hc. cbn [mbind option_bind Z.eqb Pos.eqb].
    rewrite (printed_read m' (buf + 1) 0 10 (Z.abs v)) by (done || lia). cbn [mbind option_bind Z.eqb]. rewrite Z.abs_neq by lia. by rewrite i64_negate by lia.
  - rewrite Z.abs_eq in * by lia. rewrite (printed_read m' buf 0 10 v) by (done || lia).
    pose proof (printed_chars 0 10 Hl ltac:(lia) v Hpos) as Hch. destruct (printed 0 10 v) as [|c l] eqn:Ep; [by destruct (printed_nonempty 0 10 v)|].
    apply Forall_cons in Hch as [(_ & Hc & _) _]. destruct Hs as (Hld & _ & _). rewrite Hld. cbn [mbind option_bind].
    rewrite (proj2 (Z.eqb_neq c 45)) by lia. cbn [mbind option_bind]. by rewrite i64_small by lia.
Qed.

(** C33. A number printed by [%llo], [%llu], [%llx] or [%llX] is read back by
    [strict_strtoull] in that base, whatever the number is, and one printed by [%lld] by
    [strict_strtoll]: a buffer of 24 bytes is always long enough. *)
Theorem printed_numbers_read_back :
  (forall c bas f v, long_conversion c bas f -> cstr m fmt [37; 108; 108; c] -> 0 <= v < 2 ^ 64 ->
     exists m' r, vsnprintf sprint_symbol m buf size fmt [Wide v] = Some (m', r) /\ strict_strtoull m' buf bas = Some (0, v)) /\
  (forall v, cstr m fmt [37; 108; 108; 100] -> - 2 ^ 63 <= v < 2 ^ 63 ->
     exists m' r, vsnprintf sprint_symbol m buf size fmt [Wide v] = Some (m', r) /\ strict_strtoll m' buf 10 = Some (0, v)).
Proof. split; [apply unsigned_back|apply signed_back]. Qed.

End Back.

(** The largest number in octal. *)
Definition octal_memory : list byte := replicate 24 1 ++ [37; 108; 108; 111; 0].

Lemma printed_numbers_read_back_witness :
  exists m' r, vsnprintf (fun _ => []) octal_memory 0 24 24 [Wide (2 ^ 64 - 1)] = Some (m', r) /\ strict_strtoull m' 0 8 = Some (0, 2 ^ 64 - 1).
Proof.
  destruct (printed_numbers_read_back (fun _ => []) octal_memory 0 24 24) as [H _].
  - intros _. constructor.
  - intros _. done.
  - apply (bool_decide_unpack _). by vm_compute.
  - lia.
  - split; [lia|]. by vm_compute.
  - right. lia.
  - apply (H 111 8 0); [constructor|by vm_compute|lia].
Defined.

(** ** Where it differs from what it says *)

Definition printed_by (fmt : list Z) (args : list arg) (size : Z) : option (list Z * Z) :=
  '(m, r) ← scnprintf (fun _ => []) (replicate 16 1 ++ fmt ++ [0]) 0 size 16 args; Some (take (Z.to_nat r) m, r).

(** With no room at all, [scnprintf] returns -1. *)
Lemma scnprintf_no_room : printed_by [120] [] 0 = Some ([], -1).
Proof. by vm_compute. Qed.

(** The conversions [%.0d] of 0, [%#x] of 0 and [%06.3d] of 7 print 0, 0x0 and 000007,
    and [%.*s] with the precision -1 prints nothing; [%zd] of -1 prints 4294967295. *)
Lemma not_as_c99 :
  printed_by [37; 46; 48; 100] [Word 0] 16 = Some ([48], 1) /\
  printed_by [37; 35; 120] [Word 0] 16 = Some ([48; 120; 48], 3) /\
  printed_by [37; 48; 54; 46; 51; 100] [Word 7] 16 = Some ([48; 48; 48; 48; 48; 55], 6) /\
  printed_by [37; 46; 42; 115] [Word (-1); Word 0] 16 = Some ([], 0) /\
  printed_by [37; 115] [Word 0] 16 = Some (null_text, 6) /\
  printed_by [37; 122; 100] [Word (-1)] 16 = Some ([52; 50; 57; 52; 57; 54; 55; 50; 57; 53], 10).
Proof. by vm_compute. Qed.

End KernelFormat.
