(* ===== verification/KernelScan.v ===== *)
(** * KernelScan: formatted input in the board's kernel

    [vsscanf] and [sscanf] of lib/vsprintf.c.  The string, the format and what the
    arguments point to are in one memory, read as it is then; [None] is undefined
    behaviour: an access outside memory, an argument that is not there.

    The theorem is about numbers that [vsnprintf] of file KernelFormat printed. *)

From S2P Require Import Prelude KernelFifo KernelString KernelText KernelNumber KernelPrintf KernelFormat.
Import KernelFifo KernelString KernelText KernelNumber KernelPrintf KernelFormat.

Module KernelScan.

(** Past white space. *)
Fixpoint skip_space (fuel : nat) (m : list byte) (p : Z) : option Z :=
  match fuel with
  | O => None
  | S fuel => c ← load m p; if isspace c then skip_space fuel m (p + 1) else Some p
  end.

(** To white space or the end. *)
Fixpoint skip_word (fuel : nat) (m : list byte) (p : Z) : option Z :=
  match fuel with
  | O => None
  | S fuel => c ← load m p; if negb (isspace c) && negb (c =? 0) then skip_word fuel m (p + 1) else Some p
  end.

(** At least one character, at most the field width. *)
Fixpoint scan_chars (fuel : nat) (m : list byte) (s str w : Z) : option (list byte * Z) :=
  match fuel with
  | O => None
  | S fuel =>
      c ← load m str;
      m ← store m s c;
      let w := i32 (w - 1) in
      if 0 <? w then
        d ← load m (str + 1);
        if negb (d =? 0) then scan_chars fuel m (s + 1) (str + 1) w else Some (m, str + 1)
      else Some (m, str + 1)
  end.

(** Characters up to white space or the end, at most the field width. *)
Fixpoint scan_string (fuel : nat) (m : list byte) (s str w : Z) : option (list byte * Z * Z) :=
  match fuel with
  | O => None
  | S fuel =>
      c ← load m str;
      if negb (c =? 0) && negb (isspace c) && negb (w =? 0) then
        m ← store m s c; scan_string fuel m (s + 1) (str + 1) (i32 (w - 1))
      else Some (m, s, str)
  end.

(** The bytes of an integer, the low one first. *)
Fixpoint le_bytes (n : nat) (v : Z) : list byte :=
  match n with O => [] | S n => u8 v :: le_bytes n (v .>> 8) end.

(** What an integer conversion stores, and where the string goes on. *)
Definition scan_value (m : list byte) (str base : Z) (is_sign : bool) (qualifier : Z) : option (list byte * Z) :=
  let sized := fun n => '(v, next) ← (if is_sign then simple_strtol m str base else simple_strtoul m str base); Some (le_bytes n v, next) in
  if qualifier =? 72 then sized 1%nat
  else if qualifier =? 104 then sized 2%nat
  else if qualifier =? 108 then sized 4%nat
  else if qualifier =? 76 then
    '(v, next) ← (if is_sign then simple_strtoll m str base else simple_strtoull m str base); Some (le_bytes 8 v, next)
  else if (qualifier =? 90) || (qualifier =? 122) then '(v, next) ← simple_strtoul m str base; Some (le_bytes 4 v, next)
  else sized 4%nat.

(** [str], [fmt], the arguments that are left, and [num]. *)
Record scan_state := mkScan { memory : list byte; str : Z; fmt : Z; args : list arg; num : Z }.

(** How a turn of the loop ends: [continue], [break] or [return]. *)
Variant turn := Continue (s : scan_state) | Break (s : scan_state) | Return (s : scan_state).

(** No digit of the base is there. *)
Definition no_digit (base digit : Z) : bool :=
  (digit =? 0) || ((base =? 16) && negb (isxdigit digit)) || ((base =? 10) && negb (isdigit digit)) ||
  ((base =? 8) && (negb (isdigit digit) || (55 <? digit))) || ((base =? 0) && negb (isdigit digit)).

(** Behind the [switch]: an integer. *)
Definition scan_integer (s : scan_state) (base : Z) (is_sign : bool) (qualifier : Z) : option turn :=
  let m := memory s in
  str ← skip_space (turns m) m (str s);
  c ← load m str;
  digit ← (if is_sign && (c =? 45) then load m (str + 1) else Some c);
  if no_digit base digit then Some (Break (mkScan m str (fmt s) (args s) (num s)))
  else
    '(p, args) ← va_word (args s);
    '(d, next) ← scan_value m str base is_sign qualifier;
    m ← poke m p d;
    Some (Continue (mkScan m next (fmt s) args (i32 (num s + 1)))).

(** The [switch]; [fmt] is behind the conversion [c]. *)
Definition scan_conversion (buf c w qualifier : Z) (s : scan_state) : option turn :=
  let m := memory s in
  if c =? 99 then
    '(p, args) ← va_word (args s);
    '(m, str) ← scan_chars (turns m) m p (str s) (if w =? -1 then 1 else w);
    Some (Continue (mkScan m str (fmt s) args (i32 (num s + 1))))
  else if c =? 115 then
    '(p, args) ← va_word (args s);
    str ← skip_space (turns m) m (str s);
    '(m, p, str) ← scan_string (turns m) m p str (if w =? -1 then INT_MAX else w);
    m ← store m p 0;
    Some (Continue (mkScan m str (fmt s) args (i32 (num s + 1))))
  else if c =? 110 then
    '(p, args) ← va_word (args s);
    m ← poke m p (word_bytes (str s - buf));
    Some (Continue (mkScan m (str s) (fmt s) args (num s)))
  else if c =? 111 then scan_integer s 8 false qualifier
  else if (c =? 120) || (c =? 88) then scan_integer s 16 false qualifier
  else if c =? 105 then scan_integer s 0 true qualifier
  else if c =? 100 then scan_integer s 10 true qualifier
  else if c =? 117 then scan_integer s 10 false qualifier
  else if c =? 37 then
    d ← load m (str s);
    let s := mkScan m (str s + 1) (fmt s) (args s) (num s) in
    Some (if negb (d =? 37) then Return s else Continue s)
  else Some (Return s).

(** The qualifier at [fmt], and where the format goes on. *)
Definition scan_qualifier (m : list byte) (fmt : Z) : option (Z * Z) :=
  c ← load m fmt;
  if (c =? 104) || (c =? 108) || (c =? 76) || (c =? 90) || (c =? 122) then
    d ← load m (fmt + 1);
    Some (if c =? d then
            if c =? 104 then (72, fmt + 2) else if c =? 108 then (76, fmt + 2) else (c, fmt + 1)
          else (c, fmt + 1))
  else Some (-1, fmt).

(** Behind a [%]. *)
Definition scan_directive (buf : Z) (s : scan_state) : option turn :=
  let m := memory s in
  c ← load m (fmt s);
  if c =? 42 then
    fmt ← skip_word (turns m) m (fmt s);
    str ← skip_word (turns m) m (str s);
    Some (Continue (mkScan m str fmt (args s) (num s)))
  else
    '(w, fmt) ← (if isdigit c then skip_atoi m (fmt s) else Some (-1, fmt s));
    '(qualifier, fmt) ← scan_qualifier m fmt;
    c ← load m fmt;
    d ← load m (str s);
    if (c =? 0) || (d =? 0) then Some (Break (mkScan m (str s) fmt (args s) (num s)))
    else scan_conversion buf c w qualifier (mkScan m (str s) (fmt + 1) (args s) (num s)).

(** The body of the loop. *)
Definition scan_turn (buf : Z) (s : scan_state) : option turn :=
  let m := memory s in
  c ← load m (fmt s);
  '(fmt, str) ← (if isspace c then
                   fmt ← skip_space (turns m) m (fmt s); str ← skip_space (turns m) m (str s); Some (fmt, str)
                 else Some (fmt s, str s));
  c ← load m fmt;
  if negb (c =? 37) && negb (c =? 0) then
    d ← load m str;
    let s := mkScan m (str + 1) (fmt + 1) (args s) (num s) in
    Some (if negb (c =? d) then Break s else Continue s)
  else if c =? 0 then Some (Break (mkScan m str fmt (args s) (num s)))
  else scan_directive buf (mkScan m str (fmt + 1) (args s) (num s)).

(** A [%n] that is left when the string or the format ends. *)
Definition scan_rest (buf : Z) (s : scan_state) : option (list byte * Z) :=
  let m := memory s in
  c ← load m (fmt s);
  if c =? 37 then
    d ← load m (fmt s + 1);
    if d =? 110 then
      '(p, _) ← va_word (args s);
      m ← poke m p (word_bytes (str s - buf));
      Some (m, num s)
    else Some (m, num s)
  else Some (m, num s).

(** Every turn goes at least one character ahead in the format. *)
Fixpoint vsscanf_loop (fuel : nat) (buf : Z) (s : scan_state) : option (list byte * Z) :=
  match fuel with
  | O => None
  | S fuel =>
      c ← load (memory s) (fmt s);
      d ← load (memory s) (str s);
      if (c =? 0) || (d =? 0) then scan_rest buf s
      else
        t ← scan_turn buf s;
        match t with
        | Continue s => vsscanf_loop fuel buf s
        | Break s => scan_rest buf s
        | Return s => Some (memory s, num s)
        end
  end.

(** Memory then, and what is returned. *)
Definition vsscanf (m : list byte) (buf fmt : Z) (args : list arg) : option (list byte * Z) :=
  vsscanf_loop (turns m) buf (mkScan m buf fmt args 0).

Definition sscanf (m : list byte) (buf fmt : Z) (args : list arg) : option (list byte * Z) :=
  '(m, i) ← vsscanf m buf fmt args; Some (m, i).

(** ** Numbers that were printed *)

(** A [long long] and its conversion. *)
Record item := mkItem { conv : Z; val : Z }.

Definition item_ok (i : item) : Prop :=
  match conv i with
  | 111 | 117 | 120 | 88 => 0 <= val i < 2 ^ 64
  | 100 => - 2 ^ 63 <= val i < 2 ^ 63
  | _ => False
  end.

Definition conv_base (c : Z) : Z := if c =? 111 then 8 else if (c =? 120) || (c =? 88) then 16 else 10.
Definition conv_flags (c : Z) : Z := if c =? 120 then SMALL else if c =? 100 then SIGN else 0.
Definition conv_spec (c : Z) : printf_spec := mkSpec FORMAT_TYPE_LONG_LONG (conv_flags c) (-1) (conv_base c) (-1) 76.

(** What is printed for it. *)
Definition item_text (i : item) : list Z :=
  (if (conv i =? 100) && (val i <? 0) then [45] else []) ++ printed (conv_flags (conv i) .& SMALL) (conv_base (conv i)) (Z.abs (val i)).
Definition item_format (i : item) : list Z := [37; 108; 108; conv i].

Definition items_text (l : list item) : list Z := join [32] (item_text <$> l).
Definition items_format (l : list item) : list Z := join [32] (item_format <$> l).

Ltac item_cases i Hi :=
  let c := fresh "c" in let v := fresh "v" in
  destruct i as [c v]; unfold item_ok in Hi; cbn [conv val] in *;
  assert (Hcases : c = 111 \/ c = 117 \/ c = 120 \/ c = 88 \/ c = 100) by (repeat case_match; try done; auto);
  destruct Hcases as [->|[->|[->|[->| ->]]]]; cbv iota in Hi.

Lemma item_base i : item_ok i -> base_ok (conv_base (conv i)) /\ locase_ok (conv_flags (conv i) .& SMALL) /\ 0 <= Z.abs (val i) < 2 ^ 64.
Proof.
  intros Hi. item_cases i Hi; unfold base_ok, locase_ok; (split; [vm_compute; auto|split; [vm_compute; auto|lia]]).
Qed.

Lemma item_printed i : item_ok i -> number_text (conv_spec (conv i)) (u64 (val i)) = item_text i.
Proof.
  intros Hi. unfold conv_spec, item_text. rewrite number_text_bare. unfold sign_text, magnitude.
  item_cases i Hi; try (change (has (conv_flags _) SIGN) with false; cbn [andb Z.eqb Pos.eqb]; by rewrite u64_id, Z.abs_eq by lia).
  change (has (conv_flags 100) SIGN) with true. cbn [andb Z.eqb Pos.eqb]. rewrite !i64_u64, !(i64_small v) by lia.
  change (prefix_text (conv_flags 100) (conv_base 100)) with (@nil Z). rewrite app_nil_r.
  destruct (Z.ltb_spec v 0); [by rewrite Z.abs_neq by lia|]. by rewrite u64_id, Z.abs_eq by lia.
Qed.

Lemma item_read_format i rest spec :
  item_ok i -> waits spec = false -> read_format (item_format i ++ rest) spec = (rest, conv_spec (conv i)).
Proof.
  intros Hi Hw. unfold item_format. assert (E : read_format ([37; 108; 108; conv i] ++ rest) spec = read_start ([37; 108; 108; conv i] ++ rest) spec).
  { unfold read_format. unfold waits in Hw. by destruct (type spec). }
  rewrite E. item_cases i Hi; reflexivity.
Qed.

Lemma items_format_next i l : exists r, items_format (i :: l) = 37 :: r.
Proof. destruct l; by eexists. Qed.

Lemma items_format_two i j l : items_format (i :: j :: l) = item_format i ++ 32 :: items_format (j :: l).
Proof. done. Qed.

Lemma items_text_two i j l : items_text (i :: j :: l) = item_text i ++ [32] ++ items_text (j :: l).
Proof. done. Qed.

Lemma space_read f r spec : waits spec = false -> f = 37 :: r -> read_format (32 :: f) spec = (f, with_type spec FORMAT_TYPE_NONE).
Proof. intros Hw ->. unfold read_format. unfold waits in Hw. by destruct (type spec). Qed.

Definition item_arg (i : item) : arg := Wide (val i).

(** The format prints the texts of the items, with spaces between them. *)
Lemma items_render sprint_symbol m buf n l spec :
  Forall item_ok l -> waits spec = false -> renders sprint_symbol m buf n kernel_format (items_format l) spec (item_arg <$> l) (items_text l).
Proof.
  intros Hl. revert spec. induction Hl as [|i l Hi Hl IH]; intros spec Hw; [constructor|].
  assert (Hc : forall t rest, converts sprint_symbol m buf n t rest (conv_spec (conv i)) (item_arg <$> i :: l) (item_text i) (item_arg <$> l) rest (conv_spec (conv i))).
  { intros t rest. rewrite <- item_printed by done. apply converts_number; [done|unfold sane; simpl; lia|done]. }
  destruct l as [|j l].
  - change (items_format [i]) with (item_format i). change (items_text [i]) with (item_text i). rewrite <- (app_nil_r (item_text i)).
    eapply renders_turn; [done| |done|apply Hc|apply renders_end]. rewrite <- (app_nil_r (item_format i)). by apply item_read_format.
  - rewrite items_format_two, items_text_two. eapply renders_turn; [done|by apply item_read_format|done|apply Hc|].
    destruct (items_format_next j l) as [r Hr]. eapply renders_turn; [done|by apply (space_read _ r)|done| |apply (IH (with_type (conv_spec (conv i)) FORMAT_TYPE_NONE)); done].
    replace (take _ _) with [32] by (cbn [length]; replace (S _ - _)%nat with 1%nat by lia; done). by apply converts_text.
Qed.

Lemma item_plain i : item_ok i -> Forall plain_char (item_text i) /\ item_text i <> [].
Proof.
  intros Hi. destruct (item_base i Hi) as (Hb & Hc & Hv). unfold item_text. split.
  - apply Forall_app. split; [|by apply printed_plain; [done..|lia]]. destruct (_ && _); repeat constructor; unfold byte_ok; lia.
  - intros [_ H]%app_nil. by apply (printed_nonempty _ _ _ H).
Qed.

Lemma items_plain l : Forall item_ok l -> Forall plain_char (items_text l).
Proof.
  intros Hl. apply join_plain; [repeat constructor; unfold byte_ok; lia|]. apply Forall_fmap, (Forall_impl _ _ _ Hl). intros i Hi. by apply item_plain.
Qed.

(** *** Scanning one of them *)

(** What is behind a number. *)
Definition ends_number (r : list Z) : Prop := r = [] \/ exists r', r = 32 :: r'.

Definition conv_sign (c : Z) : bool := c =? 100.

(** The first character: no white space, and a digit of the base behind a sign. *)
Lemma item_first i r :
  item_ok i -> exists c t, item_text i ++ r = c :: t /\ isspace c = false /\
    no_digit (conv_base (conv i)) (if conv_sign (conv i) && (c =? 45) then char_at t 0 else c) = false.
Proof.
  intros Hi. destruct (item_base i Hi) as (Hb & Hc & Hv). unfold item_text.
  assert (Hr : 1 < conv_base (conv i) <= 16) by (unfold base_ok in Hb; lia).
  pose proof (printed_chars _ _ Hc Hr _ (proj1 Hv)) as Hch. pose proof (printed_nonempty (conv_flags (conv i) .& SMALL) (conv_base (conv i)) (Z.abs (val i))) as Hne.
  destruct (printed _ _ _) as [|d t]; [done|]. apply Forall_cons in Hch as [(Hd & Hrange & _) _].
  assert (Hdig : isspace d = false /\ no_digit (conv_base (conv i)) d = false).
  { assert (H : Forall (fun b => Forall (fun d => digit_of b d = true -> isspace d = false /\ no_digit b d = false) (seqZ 48 55)) [8; 10; 16]).
    { apply (bool_decide_unpack _). by vm_compute. }
    rewrite !Forall_cons, !Forall_forall in H. destruct H as (H1 & H2 & H3 & _).
    assert (d ∈ seqZ 48 55) by (apply elem_of_seqZ; lia). destruct Hb as [E|[E|E]]; rewrite E in *; auto. }
  destruct Hdig as [Hs Hn]. destruct ((conv i =? 100) && (val i <? 0)) eqn:E.
  - exists 45, (d :: t ++ r). apply andb_true_iff in E as [E _]. unfold conv_sign. rewrite E. done.
  - exists d, (t ++ r). split; [done|]. split; [done|]. rewrite (proj2 (Z.eqb_neq d 45)) by lia. by rewrite andb_false_r.
Qed.

Lemma printed_scan m p locase bas v r :
  locase_ok locase -> base_ok bas -> 0 <= v < 2 ^ 64 -> ends_number r -> cstr m p (printed locase bas v ++ r) ->
  simple_strtoull m p bas = Some (v, p + Z.of_nat (length (printed locase bas v))).
Proof.
  intros Hc Hb Hv Hr Hs. assert (Hbr : 1 < bas <= 16) by (unfold base_ok in Hb; lia).
  unfold simple_strtoull. rewrite (simple_strto_spec (2 ^ 64) u64 m) with (s := printed locase bas v ++ r); [|lia|done|done].
  assert (Hend : digit_of bas (char_at r 0) = false /\ TOLOWER (char_at r 0) <> 120) by (destruct Hr as [->|[r' ->]]; by split).
  rewrite (number_in_printed locase bas Hc Hbr v r Hv) by apply Hend. cbn [fst snd]. by rewrite u64_id.
Qed.

Lemma item_value m p i r :
  item_ok i -> ends_number r -> cstr m p (item_text i ++ r) ->
  scan_value m p (conv_base (conv i)) (conv_sign (conv i)) 76 = Some (le_bytes 8 (val i), p + Z.of_nat (length (item_text i))).
Proof.
  intros Hi Hr Hs. destruct (item_base i Hi) as (Hb & Hc & Hv). unfold scan_value. cbn [Z.eqb Pos.eqb].
  unfold item_text in *. destruct (conv_sign (conv i)) eqn:Es.
  - unfold conv_sign in Es. rewrite Es in *. cbn [andb] in *. apply Z.eqb_eq in Es. unfold simple_strtoll.
    assert (Hrange : - 2 ^ 63 <= val i < 2 ^ 63) by (unfold item_ok in Hi; by rewrite Es in Hi).
    destruct (Z.ltb_spec (val i) 0) as [Hneg|Hpos]; cbn [app] in *.
    + destruct Hs as (H45 & _ & Hs). rewrite H45. cbn [mbind option_bind Z.eqb Pos.eqb]. rewrite (printed_scan _ _ _ _ _ _ Hc Hb Hv Hr Hs).
      cbn [mbind option_bind length]. rewrite Z.abs_neq, Z.opp_involutive, i64_u64, i64_small by lia. do 2 f_equal. lia.
    + rewrite (printed_scan _ _ _ _ _ _ Hc Hb Hv Hr Hs). rewrite Z.abs_eq in * by lia.
      assert (Hch : exists c, load m p = Some c /\ c <> 45).
      { assert (Hbr : 1 < conv_base (conv i) <= 16) by (unfold base_ok in Hb; lia).
        pose proof (printed_chars _ _ Hc Hbr _ Hpos) as Hch. pose proof (printed_nonempty (conv_flags (conv i) .& SMALL) (conv_base (conv i)) (val i)) as Hne.
        destruct (printed _ _ _) as [|d t]; [done|]. apply Forall_cons in Hch as [(_ & Hd & _) _]. exists d. split; [apply Hs|lia]. }
      destruct Hch as (c & -> & H45). cbn [mbind option_bind]. rewrite (proj2 (Z.eqb_neq c 45)) by done. cbn [mbind option_bind].
      by rewrite i64_small by lia.
  - assert (Hpos : 0 <= val i).
    { revert Es. unfold conv_sign. item_cases i Hi; done || lia. }
    rewrite (proj2 (Z.ltb_ge (val i) 0)), andb_false_r in * by lia. cbn [app] in *.
    rewrite (printed_scan _ _ _ _ _ _ Hc Hb Hv Hr Hs). cbn [mbind option_bind]. by rewrite Z.abs_eq by lia.
Qed.

(** *** Scanning all of them *)

Lemma skip_none m p c t : cstr m p (c :: t) -> isspace c = false -> skip_space (turns m) m p = Some p.
Proof. intros (H & _) Hc. unfold turns. cbn [skip_space]. rewrite H. cbn [mbind option_bind]. by rewrite Hc. Qed.

Lemma skip_one m p c t : cstr m p (32 :: c :: t) -> isspace c = false -> skip_space (turns m) m p = Some (p + 1).
Proof.
  intros H Hc. pose proof (cstr_fits _ _ _ H) as Hl. destruct H as (H1 & _ & H2 & _). unfold turns. cbn [length] in Hl.
  destruct (length m) as [|k]; [lia|]. cbn [skip_space]. rewrite H1. cbn [mbind option_bind]. change (isspace 32) with true. cbn iota.
  rewrite H2. cbn [mbind option_bind]. by rewrite Hc.
Qed.

Lemma conversion_integer i buf w q s :
  item_ok i -> scan_conversion buf (conv i) w q s = scan_integer s (conv_base (conv i)) (conv_sign (conv i)) q.
Proof. intros Hi. item_cases i Hi; done. Qed.

Lemma qualifier_ll m p t : cstr m p (108 :: 108 :: t) -> scan_qualifier m p = Some (76, p + 2).
Proof. intros (H1 & _ & H2 & _). unfold scan_qualifier. rewrite H1. cbn [mbind option_bind Z.eqb Pos.eqb orb]. rewrite H2. done. Qed.

(** One number is stored, behind white space or not. *)
Lemma scan_directive_item buf m p q i fr r a args n :
  item_ok i -> ends_number r -> cstr m p (item_text i ++ r) -> cstr m q ([108; 108; conv i] ++ fr) -> 0 <= a < 2 ^ 32 -> 0 <= n < 2 ^ 31 - 1 ->
  scan_directive buf (mkScan m p q (Word a :: args) n) =
    (m' ← poke m a (le_bytes 8 (val i)); Some (Continue (mkScan m' (p + Z.of_nat (length (item_text i))) (q + 3) args (n + 1)))).
Proof.
  intros Hi Hr Hp Hq Ha Hn. destruct (item_first i r Hi) as (c & t & Et & Hsp & Hd). pose proof (item_value m p i r Hi Hr Hp) as Hval.
  pose proof (qualifier_ll _ _ _ Hq) as Hll. destruct Hq as (Q1 & _ & Q2 & _ & Q3 & Q0 & _). rewrite Et in Hp.
  pose proof (skip_none _ _ _ _ Hp Hsp) as Hskip. pose proof (cstr_at _ _ _ 1 Hp ltac:(simpl; lia)) as P2. destruct Hp as (P1 & P0 & _).
  change (Z.of_nat 1) with 1 in P2. change (char_at (c :: t) 1) with (char_at t 0) in P2.
  rewrite <- Z.add_assoc in Q3. change (1 + 1) with 2 in Q3.
  unfold scan_directive. cbn [memory fmt KernelScan.str KernelScan.args num]. rewrite Q1. cbn [mbind option_bind].
  change (108 =? 42) with false. change (isdigit 108) with false. cbn iota. cbn [mbind option_bind]. rewrite Hll. cbn [mbind option_bind].
  rewrite Q3, P1. cbn [mbind option_bind]. rewrite (proj2 (Z.eqb_neq (conv i) 0)), (proj2 (Z.eqb_neq c 0)) by done. cbn [orb].
  rewrite conversion_integer by done. unfold scan_integer. cbn [memory fmt KernelScan.str KernelScan.args num]. rewrite Hskip. cbn [mbind option_bind].
  rewrite P1. cbn [mbind option_bind].
  assert ((if conv_sign (conv i) && (c =? 45) then load m (p + 1) else Some c) = Some (if conv_sign (conv i) && (c =? 45) then char_at t 0 else c)) as ->.
  { by destruct (conv_sign (conv i) && (c =? 45)). }
  cbn [mbind option_bind va_word]. rewrite Hd, u32_id, Hval by done. cbn [mbind option_bind]. rewrite i32_small by lia.
  by replace (q + 2 + 1) with (q + 3) by lia.
Qed.

Definition before (space : bool) (l : list Z) : list Z := if space then 32 :: l else l.
Definition tail_format (l : list item) : list Z := match l with [] => [] | _ => before true (items_format l) end.
Definition tail_text (l : list item) : list Z := match l with [] => [] | _ => before true (items_text l) end.

Lemma items_format_cons i l : items_format (i :: l) = 37 :: [108; 108; conv i] ++ tail_format l.
Proof. by destruct l. Qed.

Lemma items_text_cons i l : items_text (i :: l) = item_text i ++ tail_text l.
Proof. destruct l; [by rewrite app_nil_r|done]. Qed.

Lemma tail_ends l : ends_number (tail_text l).
Proof. destruct l; [by left|right; by eexists]. Qed.

Lemma cstr_first m p (space : bool) x : cstr m p (before space x) -> cstr m (p + Z.of_nat (if space then 1 else 0)) x.
Proof. destruct space; cbn [before]; [intros (_ & _ & H); done|]. by rewrite Z.add_0_r. Qed.

Lemma scan_turn_item buf m p q (space : bool) i l a args n :
  item_ok i -> cstr m p (before space (items_text (i :: l))) -> cstr m q (before space (items_format (i :: l))) -> 0 <= a < 2 ^ 32 -> 0 <= n < 2 ^ 31 - 1 ->
  let k := Z.of_nat (if space then 1 else 0) in
  scan_turn buf (mkScan m p q (Word a :: args) n) =
    (m' ← poke m a (le_bytes 8 (val i)); Some (Continue (mkScan m' (p + k + Z.of_nat (length (item_text i))) (q + k + 4) args (n + 1)))).
Proof.
  intros Hi Hp Hq Ha Hn k. pose proof (cstr_first _ _ _ _ Hp) as Hp1. pose proof (cstr_first _ _ _ _ Hq) as Hq1. fold k in Hp1, Hq1.
  rewrite items_text_cons, items_format_cons in *. destruct (item_first i (tail_text l) Hi) as (c & t & Et & Hsp & _).
  assert (Hc : exists c, load m q = Some c /\ (if isspace c then fmt ← skip_space (turns m) m q; str ← skip_space (turns m) m p; Some (fmt, str) else Some (q, p)) = Some (q + k, p + k)).
  { rewrite Et in Hp. unfold k. destruct space; cbn [before] in *.
    - exists 32. split; [apply Hq|]. change (isspace 32) with true. cbn iota.
      by rewrite (skip_one _ _ _ _ Hq eq_refl), (skip_one _ _ _ _ Hp Hsp).
    - exists 37. split; [apply Hq|]. change (isspace 37) with false. cbn iota. by rewrite !Z.add_0_r. }
  destruct Hc as (c0 & Hc0 & Hskip). destruct Hq1 as (Q1 & _ & Hq1). unfold scan_turn. cbn [memory fmt KernelScan.str KernelScan.args num].
  rewrite Hc0. cbn [mbind option_bind]. rewrite Hskip. cbn [mbind option_bind]. rewrite Q1. cbn [mbind option_bind Z.eqb Pos.eqb negb andb].
  rewrite (scan_directive_item buf m (p + k) (q + k + 1) i (tail_format l) (tail_text l)) by (done || apply tail_ends).
  by replace (q + k + 1 + 3) with (q + k + 4) by lia.
Qed.

(** Where a number is stored: clear of the string and of the format. *)
Definition target (m : list byte) (p pn q qn a : Z) : Prop :=
  0 <= a < 2 ^ 32 /\ a + 8 <= Z.of_nat (length m) /\ clear_of p pn a 8 /\ clear_of q qn a 8.

Fixpoint all_apart (ps : list Z) : Prop :=
  match ps with [] => True | p :: ps => Forall (fun q => clear_of p 8 q 8) ps /\ all_apart ps end.

Lemma scan_end buf m p q args n : load m q = Some 0 -> scan_rest buf (mkScan m p q args n) = Some (m, n).
Proof. intros H. unfold scan_rest. cbn [memory fmt KernelScan.str KernelScan.args num]. by rewrite H. Qed.

Lemma before_char m p (space : bool) x c t : cstr m p (before space x) -> x = c :: t -> exists d, load m p = Some d /\ d <> 0.
Proof. intros H ->. destruct space; destruct H as (H1 & H2 & _); eauto. Qed.

Lemma target_rest m m' p pn q qn p' pn' q' qn' a :
  length m' = length m -> p <= p' -> p' + pn' <= p + pn -> q <= q' -> q' + qn' <= q + qn -> target m p pn q qn a -> target m' p' pn' q' qn' a.
Proof. unfold target, clear_of. intros -> ? ? ? ?. lia. Qed.

(** Every number is stored, and what is clear of all of them stays. *)
Lemma vsscanf_items buf l : Forall item_ok l -> l <> [] -> forall (space : bool) fuel m p q ps n,
  (length l < fuel)%nat -> cstr m p (before space (items_text l)) -> cstr m q (before space (items_format l)) -> length ps = length l ->
  Forall (target m p (Z.of_nat (length (before space (items_text l))) + 1) q (Z.of_nat (length (before space (items_format l))) + 1)) ps ->
  all_apart ps -> 0 <= n -> n + Z.of_nat (length l) < 2 ^ 31 ->
  exists m', vsscanf_loop fuel buf (mkScan m p q (Word <$> ps) n) = Some (m', n + Z.of_nat (length l)) /\
    Forall2 (fun i a => area m' a (le_bytes 8 (val i))) l ps /\
    (forall b d, area m b d -> Forall (fun a => clear_of b (Z.of_nat (length d)) a 8) ps -> area m' b d).
Proof.
  induction 1 as [|i l Hi Hl IH]; intros Hne; [done|]. clear Hne. intros space fuel m p q ps n Hfuel Hp Hq Hps Ht Ha Hn Hmax.
  destruct ps as [|a ps]; [done|]. destruct fuel as [|fuel]; [lia|]. cbn [length] in *.
  apply Forall_cons in Ht as [(Ha1 & Ha2 & Ha3 & Ha4) Ht]. destruct Ha as [Hap Ha]. cbn [vsscanf_loop fmap list_fmap memory fmt KernelScan.str].
  destruct (before_char _ _ _ _ _ _ Hq (items_format_cons i l)) as (c & -> & Hc0).
  destruct (item_first i (tail_text l) Hi) as (c1 & t & Et & _). rewrite <- items_text_cons in Et.
  destruct (before_char _ _ _ _ _ _ Hp Et) as (d & -> & Hd0). cbn [mbind option_bind].
  rewrite (proj2 (Z.eqb_neq c 0)), (proj2 (Z.eqb_neq d 0)) by done. cbn [orb]. rewrite (scan_turn_item _ _ _ _ _ _ l) by (done || lia).
  set (k := Z.of_nat (if space then 1 else 0)). destruct (poke_fits m a (le_bytes 8 (val i))) as [m1 E1]; [lia|simpl; lia|].
  rewrite E1. cbn [mbind option_bind]. pose proof (poke_length _ _ _ _ E1) as (Hlen & _).
  assert (Hlb : Z.of_nat (length (le_bytes 8 (val i))) = 8) by done.
  assert (Hp1 : cstr m1 p (before space (items_text (i :: l)))) by (apply (cstr_poke _ _ _ _ _ _ E1); [by rewrite Hlb|done]).
  assert (Hq1 : cstr m1 q (before space (items_format (i :: l)))) by (apply (cstr_poke _ _ _ _ _ _ E1); [by rewrite Hlb|done]).
  apply cstr_first in Hp1, Hq1. fold k in Hp1, Hq1. rewrite items_text_cons in Hp1. rewrite items_format_cons in Hq1.
  change (37 :: [108; 108; conv i] ++ tail_format l) with ([37; 108; 108; conv i] ++ tail_format l) in Hq1.
  apply cstr_suffix in Hp1, Hq1. change (Z.of_nat (length [37; 108; 108; conv i])) with 4 in Hq1.
  set (p1 := p + k + Z.of_nat (length (item_text i))) in *. set (q1 := q + k + 4) in *.
  assert (Hrest : exists m', vsscanf_loop fuel buf (mkScan m1 p1 q1 (Word <$> ps) (n + 1)) = Some (m', n + 1 + Z.of_nat (length l)) /\
    Forall2 (fun i a => area m' a (le_bytes 8 (val i))) l ps /\
    (forall b d, area m1 b d -> Forall (fun a => clear_of b (Z.of_nat (length d)) a 8) ps -> area m' b d)).
  { destruct l as [|j l].
    - destruct ps; [|done]. exists m1. destruct fuel as [|fuel]; [lia|]. cbn [vsscanf_loop memory fmt KernelScan.str length]. rewrite Hq1, Hp1.
      cbn [mbind option_bind]. change (0 =? 0) with true. cbn [orb]. rewrite scan_end by done. rewrite Z.add_0_r. split; [done|]. split; [constructor|done].
    - apply (IH ltac:(done) true); try done; try lia. apply (Forall_impl _ _ _ Ht). intros b.
      assert (length (items_text (i :: j :: l)) = length (item_text i) + S (length (items_text (j :: l))))%nat by (by rewrite items_text_two, !length_app).
      assert (length (items_format (i :: j :: l)) = 4 + S (length (items_format (j :: l))))%nat by (by rewrite items_format_two, length_app).
      apply target_rest; [done|..]; unfold p1, q1, k; destruct space; cbn [before length]; lia. }
  destruct Hrest as (m' & E & HF & Hframe). exists m'. split; [rewrite E; do 2 f_equal; lia|]. split.
  - constructor; [|done]. apply Hframe; [by apply (poke_area m)|]. rewrite Hlb. done.
  - intros b dd Hb [Hcl Hcls]%Forall_cons. apply Hframe; [|done]. apply (area_poke _ _ _ _ _ _ E1); [|done]. by rewrite Hlb.
Qed.

Lemma items_text_long l : Forall item_ok l -> (length l <= length (items_text l))%nat.
Proof.
  induction 1 as [|i l Hi Hl IH]; [simpl; lia|]. rewrite items_text_cons, length_app. destruct (item_plain i Hi) as [_ Hne].
  assert (1 <= length (item_text i))%nat by (destruct (item_text i); [done|simpl; lia]).
  destruct l as [|j l]; [simpl; lia|]. cbn [tail_text before length] in *. lia.
Qed.

(** C32. What [vsnprintf] prints for a list of numbers with spaces between them, each by
    one of [%lld], [%llu], [%llo], [%llx] and [%llX], [vsscanf] reads back with the same
    format: it returns how many there are, and every number is stored where its argument
    points to. *)
Theorem printed_lists_are_scanned sprint_symbol m buf size fmt l ps :
  (forall a, Forall plain_char (sprint_symbol a)) -> (forall a, Z.of_nat (length (sprint_symbol a)) < KSYM_SYMBOL_LEN) ->
  bytes_ok m -> Forall item_ok l -> l <> [] -> cstr m fmt (items_format l) ->
  let n := Z.of_nat (length (items_text l)) in
  let k := Z.of_nat (length (items_format l)) in
  n < size < 2 ^ 31 -> 0 <= buf -> buf + size < 2 ^ 32 -> buf + n + 1 <= Z.of_nat (length m) -> clear_of fmt (k + 1) buf (n + 1) ->
  length ps = length l -> Forall (target m buf (n + 1) fmt (k + 1)) ps -> all_apart ps ->
  exists m1 m2, vsnprintf sprint_symbol m buf size fmt (item_arg <$> l) = Some (m1, n) /\
    vsscanf m1 buf fmt (Word <$> ps) = Some (m2, Z.of_nat (length l)) /\ Forall2 (fun i a => area m2 a (le_bytes 8 (val i))) l ps.
Proof.
  intros Hsp Hsf Hb Hl Hne Hf n k Hsize Hbuf Hend Hfit Hclear Hps Ht Ha. pose proof (plain_split _ (items_plain l Hl)) as [Htb Ht0].
  assert (Hw : written (room buf size) (items_text l) = items_text l ++ [0]).
  { unfold room. rewrite (proj2 (Z.ltb_lt _ _)) by lia. unfold written. rewrite (proj2 (Z.eqb_neq size 0)), take_ge by lia. done. }
  assert (Hwl : Z.of_nat (length (items_text l ++ [0])) = n + 1) by (rewrite length_app; cbn [length]; lia).
  destruct (vsnprintf_spec sprint_symbol kernel_format m buf size fmt (items_format l) (item_arg <$> l) (items_text l)) as (m1 & E & Hp); try done; try lia.
  { by apply items_render. }
  { by rewrite Hw, Hwl. }
  { rewrite Hw, Hwl. lia. }
  rewrite i32_small in E by lia. rewrite Hw in Hp. pose proof (poke_length _ _ _ _ Hp) as (Hlen & _).
  assert (Hs1 : cstr m1 buf (items_text l)) by (by apply (poke_cstr _ _ _ _ Hp)).
  assert (Hf1 : cstr m1 fmt (items_format l)) by (apply (cstr_poke _ _ _ _ _ _ Hp); [by rewrite Hwl|done]).
  pose proof (items_text_long l Hl). pose proof (cstr_turns _ _ _ Hs1).
  destruct (vsscanf_items buf l Hl Hne false (turns m1) m1 buf fmt ps 0) as (m2 & E2 & HF & _); try done; try lia.
  { apply (Forall_impl _ _ _ Ht). intros a. apply target_rest; cbn [before]; done || lia. }
  exists m1, m2. split; [done|]. split; [exact E2|done].
Qed.

(** The numbers -5 and 255 as [%lld %llx], in a buffer at 0 with the format at 16. *)
Definition two_items : list item := [mkItem 100 (-5); mkItem 120 255].
Definition two_memory : list byte := replicate 16 1 ++ items_format two_items ++ [0] ++ replicate 16 1.

Lemma printed_lists_are_scanned_witness :
  exists m1 m2, vsnprintf (fun _ => []) two_memory 0 16 16 [Wide (-5); Wide 255] = Some (m1, 5) /\
    vsscanf m1 0 16 [Word 26; Word 34] = Some (m2, 2) /\ Forall2 (fun i a => area m2 a (le_bytes 8 (val i))) two_items [26; 34].
Proof.
  apply (printed_lists_are_scanned (fun _ => []) two_memory 0 16 16 two_items [26; 34]).
  - intros _. constructor.
  - intros _. done.
  - apply (bool_decide_unpack _). by vm_compute.
  - repeat constructor; vm_compute; by intros.
  - done.
  - by vm_compute.
  - by vm_compute.
  - lia.
  - lia.
  - by vm_compute.
  - right. by vm_compute.
  - done.
  - repeat constructor; try lia; first [by vm_compute|left; by vm_compute|right; by vm_compute].
  - cbn [all_apart]. split; [apply Forall_cons; split; [left; lia|constructor]|]. split; [constructor|done].
Defined.

(** The field width of an integer is read and then ignored: [%2d] of 1234 stores 1234. *)
Lemma width_ignored : vsscanf ([0; 0; 0; 0] ++ [37; 50; 100; 0] ++ [49; 50; 51; 52; 0]) 8 4 [Word 0] =
  Some (le_bytes 4 1234 ++ [37; 50; 100; 0] ++ [49; 50; 51; 52; 0], 1).
Proof. by vm_compute. Qed.

End KernelScan.
