(* ===== verification/KernelCmdline.v ===== *)
(** * KernelCmdline: numbers on the command line of the board's kernel

    lib/cmdline.c of the Linux kernel kept beside the agent: lists of integers with
    ranges in them, and sizes with a suffix, read from a string in memory.

    The array of integers is a list of its own; [None] is undefined behaviour, a write
    behind the end of the array among others. *)

From S2P Require Import Prelude KernelFifo KernelString KernelNumber KernelPrintf KernelFormat.
Import KernelFifo KernelString KernelNumber KernelPrintf KernelFormat.

Module KernelCmdline.

(** [ints[i] = v] *)
Definition set_int (ints : list Z) (i v : Z) : option (list Z) :=
  if (0 <=? i) && (i <? Z.of_nat (length ints)) then Some (<[Z.to_nat i := v]> ints) else None.
Definition get_int (ints : list Z) (i : Z) : option Z := if 0 <=? i then ints !! Z.to_nat i else None.

(** [for (x = *pint; x < upper_range; x++) *pint++ = x;], with the number of turns. *)
Fixpoint range_loop (count : nat) (ints : list Z) (i x : Z) : option (list Z) :=
  match count with O => Some ints | S count => ints ← set_int ints i x; range_loop count ints (i + 1) (x + 1) end.

(** The string then, the array, and what is returned. *)
Definition get_range (m : list byte) (str : Z) (ints : list Z) (i : Z) : option (Z * list Z * Z) :=
  let str := str + 1 in
  '(upper_range, _) ← simple_strtol m str 0;
  x ← get_int ints i;
  let inc_counter := i32 (upper_range - x) in
  ints ← range_loop (Z.to_nat (upper_range - x)) ints i x;
  Some (str, ints, inc_counter).

Definition get_option (m : list byte) (str : Z) (ints : list Z) (i : Z) : option (Z * list Z * Z) :=
  if str =? 0 then Some (str, ints, 0)
  else
    c ← load m str;
    if c =? 0 then Some (str, ints, 0)
    else
      '(v, next) ← simple_strtol m str 0;
      ints ← set_int ints i v;
      if str =? next then Some (next, ints, 0)
      else
        c ← load m next;
        Some (if c =? 44 then (next + 1, ints, 2) else if c =? 45 then (next, ints, 3) else (next, ints, 1)).

(** The string then, the array, and [i]; every turn but the last reads a character. *)
Fixpoint get_options_loop (fuel : nat) (m : list byte) (nints str : Z) (ints : list Z) (i : Z) : option (Z * list Z * Z) :=
  match fuel with
  | O => None
  | S fuel =>
      if i <? nints then
        '(str, ints, res) ← get_option m str ints i;
        if res =? 0 then Some (str, ints, i)
        else if res =? 3 then
          '(str, ints, range_nums) ← get_range m str ints i;
          if range_nums <? 0 then Some (str, ints, i)
          else get_options_loop fuel m nints str ints (i32 (i + (range_nums - 1) + 1))
        else if res =? 1 then Some (str, ints, i32 (i + 1))
        else get_options_loop fuel m nints str ints (i32 (i + 1))
      else Some (str, ints, i)
  end.

Definition get_options (m : list byte) (str nints : Z) (ints : list Z) : option (Z * list Z) :=
  '(str, ints, i) ← get_options_loop (turns m) m nints str ints 1;
  ints ← set_int ints 0 (i - 1);
  Some (str, ints).

(** The value, and where the string goes on. *)
Definition memparse (m : list byte) (ptr : Z) : option (Z * Z) :=
  '(ret, endptr) ← simple_strtoull m ptr 0;
  c ← load m endptr;
  let kilo := fun r => u64 (r .<< 10) in
  Some (if (c =? 71) || (c =? 103) then (kilo (kilo (kilo ret)), endptr + 1)
        else if (c =? 77) || (c =? 109) then (kilo (kilo ret), endptr + 1)
        else if (c =? 75) || (c =? 107) then (kilo ret, endptr + 1)
        else (ret, endptr)).

(** A range is written without a look at the size of the array: [1-9] into four
    integers. *)
Lemma get_options_overflows : get_options [49; 0; 49; 45; 57; 0] 2 4 [0; 0; 0; 0] = None.
Proof. by vm_compute. Qed.

(** With room enough behind the array, [ints[0]] tells more numbers than fit. *)
Lemma get_options_counts_too_far :
  get_options [49; 0; 49; 45; 57; 0] 2 4 [0; 0; 0; 0; 7; 7; 7; 7; 7; 7] = Some (4, [8; 1; 2; 3; 4; 5; 6; 7; 8; 7]).
Proof. by vm_compute. Qed.

(** ** Lists of integers *)

(** An integer, or a range. *)
Variant element := Single (v : Z) | Range (a b : Z).

Definition element_ok (e : element) : Prop :=
  match e with Single v => 0 <= v < 2 ^ 31 | Range a b => 0 <= a <= b /\ b < 2 ^ 31 end.
Definition decimal (v : Z) : list Z := printed 0 10 v.
Definition element_text (e : element) : list Z := match e with Single v => decimal v | Range a b => decimal a ++ 45 :: decimal b end.
Definition element_values (e : element) : list Z := match e with Single v => [v] | Range a b => seqZ a (b - a + 1) end.

Definition list_text (l : list element) : list Z := join [44] (element_text <$> l).
Definition list_values (l : list element) : list Z := concat (element_values <$> l).

(** What may stand behind a number. *)
Definition separated (r : list Z) : Prop := isxdigit (char_at r 0) = false /\ TOLOWER (char_at r 0) <> 120.

Lemma digits_first fuel n : (0 < fuel)%nat -> 0 < n < 10 ^ Z.of_nat fuel -> exists d l, reverse (digits fuel 10 n) = d :: l /\ 0 < d < 10.
Proof.
  revert n. induction fuel as [|fuel IH]; intros n H0 Hn; [lia|]. cbn [digits]. destruct (Z.ltb_spec n 10); [exists n, []; split; [done|lia]|].
  rewrite Nat2Z.inj_succ, Z.pow_succ_r in Hn by lia. destruct fuel as [|fuel]; [simpl in Hn; lia|].
  destruct (IH (n / 10)) as (d & l & E & Hd); [lia|split; [apply Z.div_str_pos; lia|apply Z.div_lt_upper_bound; lia]|].
  exists d, (l ++ [n mod 10]). rewrite reverse_cons, E. done.
Qed.

Lemma decimal_first v : 0 < v < 2 ^ 64 -> exists c t, decimal v = c :: t /\ c <> 48 /\ c <> 0 /\ c <> 45.
Proof.
  intros Hv. destruct (digits_first 64 v) as (d & l & E & Hd); [lia|split; [lia|]; apply Z.lt_le_trans with (2 ^ 64); [lia|by vm_compute]|].
  unfold decimal, printed, numeral. rewrite E. exists (digit_char 0 d), (digit_char 0 <$> l). split; [done|].
  destruct (digit_char_spec 0 d (or_introl eq_refl) ltac:(lia)) as (_ & _ & _ & _ & H). rewrite H by lia. lia.
Qed.

(** The base is guessed right. *)
Lemma number_in_decimal v r : 0 <= v < 2 ^ 64 -> separated r -> number_in 0 (decimal v ++ r) = (v, length (decimal v)).
Proof.
  intros Hv [Hr Hx]. destruct (decide (v = 0)) as [->|].
  - change (decimal 0) with [48]. unfold number_in, base_of, starts_0x, prefix_length. cbn [app]. change (char_at (48 :: r) 0) with 48.
    change (char_at (48 :: r) 1) with (char_at r 0). cbn [Z.eqb Pos.eqb andb].
    rewrite (proj2 (Z.eqb_neq (TOLOWER _) 120)) by done. cbn [andb Z.eqb Pos.eqb drop leading].
    change (digit_of 8 48) with true. cbn iota. assert (leading 8 r = []) as ->; [|done].
    destruct r as [|c r]; [done|]. change (char_at (c :: r) 0) with c in Hr. cbn [leading].
    unfold digit_of. by rewrite Hr.
  - destruct (decimal_first v) as (c & t & E & H48 & _); [lia|].
    assert (number_in 0 (decimal v ++ r) = number_in 10 (decimal v ++ r)) as ->.
    { unfold number_in, base_of. rewrite E. cbn [app]. change (char_at (c :: t ++ r) 0) with c. by rewrite (proj2 (Z.eqb_neq c 48)). }
    apply number_in_printed; [by left|lia|done| |done]. unfold digit_of. by rewrite Hr.
Qed.

Lemma decimal_reads m p v r :
  0 <= v < 2 ^ 31 -> separated r -> cstr m p (decimal v ++ r) -> simple_strtol m p 0 = Some (v, p + Z.of_nat (length (decimal v))).
Proof.
  intros Hv Hr Hs. assert (Hc : exists c, load m p = Some c /\ c <> 45).
  { destruct (decide (v = 0)) as [->|]; [exists 48; split; [apply Hs|done]|]. destruct (decimal_first v) as (c & t & E & _ & _ & H); [lia|].
    rewrite E in Hs. exists c. split; [apply Hs|done]. }
  destruct Hc as (c & Hc & H45). unfold simple_strtol. rewrite Hc. cbn [mbind option_bind]. rewrite (proj2 (Z.eqb_neq c 45)) by done.
  unfold simple_strtoul. rewrite (simple_strto_spec (2 ^ 32) u32 m) with (s := decimal v ++ r); [|lia|done|done].
  rewrite number_in_decimal by (done || lia). cbn [fst snd mbind option_bind]. by rewrite u32_id, i32_small by lia.
Qed.

(** The suffix of a size, and how often it means a factor of 1024. *)
Definition suffix (c : Z) : nat :=
  if (c =? 71) || (c =? 103) then 3 else if (c =? 77) || (c =? 109) then 2 else if (c =? 75) || (c =? 107) then 1 else 0.

Lemma kilos k r : u64 (u64 (r * 1024 ^ Z.of_nat k) .<< 10) = u64 (r * 1024 ^ Z.of_nat (S k)).
Proof.
  rewrite Z.shiftl_mul_pow2 by lia. change (2 ^ 10) with 1024. unfold u64. rewrite Z.mul_mod_idemp_l by lia. f_equal.
  rewrite Nat2Z.inj_succ, Z.pow_succ_r by lia. lia.
Qed.

(** A size in decimal is multiplied by what its suffix means, modulo 2^64. *)
Lemma memparse_decimal m p v r :
  0 <= v < 2 ^ 64 -> separated r -> cstr m p (decimal v ++ r) ->
  let k := suffix (char_at r 0) in
  memparse m p = Some (u64 (v * 1024 ^ Z.of_nat k), p + Z.of_nat (length (decimal v)) + Z.of_nat (if (0 <? k)%nat then 1 else 0)).
Proof.
  intros Hv Hr Hs k. unfold memparse, simple_strtoull. rewrite (simple_strto_spec (2 ^ 64) u64 m) with (s := decimal v ++ r); [|lia|done|done].
  rewrite number_in_decimal by done. cbn [fst snd mbind option_bind].
  assert (load m (p + Z.of_nat (length (decimal v))) = Some (char_at r 0)) as ->.
  { pose proof (cstr_drop _ _ _ (length (decimal v)) Hs ltac:(rewrite length_app; lia)) as Hs'. rewrite drop_app_length in Hs'.
    rewrite <- (Z.add_0_r (p + _)). by apply (cstr_at _ _ _ 0 Hs'), le_0_n. }
  cbn [mbind option_bind]. unfold k, suffix. replace (u64 v) with (u64 (v * 1024 ^ Z.of_nat 0)) by (f_equal; simpl; lia).
  repeat case_match; rewrite ?kilos; cbn [Nat.ltb Nat.leb]; rewrite ?Z.add_0_r; done.
Qed.

Lemma decimal_long v : 0 <= v < 2 ^ 64 -> exists c t, decimal v = c :: t /\ c <> 0.
Proof.
  intros Hv. destruct (decide (v = 0)) as [->|]; [by exists 48, []|]. destruct (decimal_first v) as (c & t & E & _ & H & _); [lia|]. eauto.
Qed.

Lemma set_int_next h x rest v : set_int (h ++ x :: rest) (Z.of_nat (length h)) v = Some (h ++ v :: rest).
Proof.
  unfold set_int. rewrite (proj2 (Z.leb_le _ _)), (proj2 (Z.ltb_lt _ _)) by (rewrite ?length_app; simpl; lia). cbn [andb].
  rewrite Nat2Z.id, insert_app_r_alt, Nat.sub_diag by lia. done.
Qed.

Lemma range_loop_spec count h rest x :
  (count <= length rest)%nat -> range_loop count (h ++ rest) (Z.of_nat (length h)) x = Some (h ++ seqZ x (Z.of_nat count) ++ drop count rest).
Proof.
  revert h rest x. induction count as [|count IH]; intros h rest x Hc; [done|]. destruct rest as [|y rest]; [simpl in Hc; lia|].
  cbn [range_loop]. rewrite set_int_next. cbn [mbind option_bind]. replace (h ++ x :: rest) with ((h ++ [x]) ++ rest) by (by rewrite <- app_assoc).
  replace (Z.of_nat (length h) + 1) with (Z.of_nat (length (h ++ [x]))) by (rewrite length_app; simpl; lia). rewrite IH by (simpl in Hc; lia).
  rewrite <- app_assoc. do 2 f_equal. rewrite (seqZ_cons x (Z.of_nat (S count))) by lia. cbn [app drop]. do 3 f_equal; lia.
Qed.

Definition tail_list (l : list element) : list Z := match l with [] => [] | _ => 44 :: list_text l end.

Lemma list_text_cons e l : list_text (e :: l) = element_text e ++ tail_list l.
Proof. destruct l; [by rewrite app_nil_r|done]. Qed.

Lemma tail_separated l : separated (tail_list l).
Proof. by destruct l. Qed.

Section Options.
Context (m : list byte) (nints : Z).
Hypothesis small : nints < 2 ^ 31.

(** From [str] on, the numbers of [l] are read to [rest]. *)
Definition reads (l : list element) : Prop :=
  forall fuel str h rest, (length (list_text l) < fuel)%nat -> str <> 0 -> cstr m str (list_text l) ->
  (length (list_values l) <= length rest)%nat -> Z.of_nat (length h) + Z.of_nat (length (list_values l)) <= nints ->
  get_options_loop fuel m nints str (h ++ rest) (Z.of_nat (length h)) =
    Some (str + Z.of_nat (length (list_text l)), h ++ list_values l ++ drop (length (list_values l)) rest,
          Z.of_nat (length h) + Z.of_nat (length (list_values l))).

(** The number at [str], and the array with it. *)
Lemma get_option_decimal str h x rest v r :
  str <> 0 -> 0 <= v < 2 ^ 31 -> separated r -> cstr m str (decimal v ++ r) ->
  let next := str + Z.of_nat (length (decimal v)) in
  get_option m str (h ++ x :: rest) (Z.of_nat (length h)) =
    Some (if char_at r 0 =? 44 then (next + 1, h ++ v :: rest, 2) else if char_at r 0 =? 45 then (next, h ++ v :: rest, 3) else (next, h ++ v :: rest, 1)).
Proof.
  intros Hstr Hv Hr Hs next. unfold get_option. rewrite (proj2 (Z.eqb_neq str 0)) by done.
  pose proof (decimal_reads m str v r Hv Hr Hs) as Hd. fold next in Hd. destruct (decimal_long v) as (c & t & E & H0); [lia|].
  assert (load m str = Some c) as -> by (rewrite E in Hs; apply Hs). cbn [mbind option_bind]. rewrite (proj2 (Z.eqb_neq c 0)) by done.
  rewrite Hd. cbn [mbind option_bind]. rewrite set_int_next. cbn [mbind option_bind].
  rewrite (proj2 (Z.eqb_neq str next)) by (unfold next; rewrite E; simpl; lia).
  assert (Hn : load m next = Some (char_at r 0)).
  { pose proof (cstr_drop _ _ _ (length (decimal v)) Hs ltac:(rewrite length_app; lia)) as Hs'. rewrite drop_app_length in Hs'.
    unfold next. rewrite <- (Z.add_0_r (str + _)). by apply (cstr_at _ _ _ 0 Hs'), le_0_n. }
  by rewrite Hn.
Qed.

Lemma reads_single l v fuel str h rest :
  (l <> [] -> reads l) -> 0 <= v < 2 ^ 31 -> (length (decimal v ++ tail_list l) < fuel)%nat -> str <> 0 -> cstr m str (decimal v ++ tail_list l) ->
  (S (length (list_values l)) <= length rest)%nat -> Z.of_nat (length h) + 1 + Z.of_nat (length (list_values l)) <= nints -> 0 <= str ->
  get_options_loop fuel m nints str (h ++ rest) (Z.of_nat (length h)) =
    Some (str + Z.of_nat (length (decimal v ++ tail_list l)), h ++ v :: list_values l ++ drop (S (length (list_values l))) rest,
          Z.of_nat (length h) + 1 + Z.of_nat (length (list_values l))).
Proof.
  intros IH Hv Hf Hstr Hs Hrest Hmax Hpos. destruct fuel as [|fuel]; [lia|]. destruct rest as [|x rest]; [simpl in Hrest; lia|].
  cbn [get_options_loop length] in *. rewrite (proj2 (Z.ltb_lt _ nints)) by lia. rewrite (get_option_decimal str h x rest v (tail_list l)) by (done || apply tail_separated).
  cbn [mbind option_bind]. rewrite length_app in *. destruct l as [|e l].
  - cbn [tail_list]. change (char_at [] 0) with 0. cbn [Z.eqb Pos.eqb length list_values fmap list_fmap concat app drop]. rewrite i32_small by lia. do 2 f_equal; [f_equal|]; lia.
  - change (char_at (tail_list (e :: l)) 0) with 44. cbn [Z.eqb Pos.eqb]. rewrite i32_small by lia.
    replace (h ++ v :: rest) with ((h ++ [v]) ++ rest) by (by rewrite <- app_assoc).
    replace (Z.of_nat (length h) + 1) with (Z.of_nat (length (h ++ [v]))) in * by (rewrite length_app; simpl; lia).
    cbn [tail_list length] in *. assert (Hs' : cstr m (str + Z.of_nat (length (decimal v)) + 1) (list_text (e :: l))).
    { pose proof (cstr_drop _ _ _ (length (decimal v)) Hs ltac:(rewrite length_app; lia)) as Hs'. rewrite drop_app_length in Hs'. apply Hs'. }
    rewrite IH; [|done|lia|lia|done|lia|lia]. rewrite <- app_assoc. cbn [app drop]. do 2 f_equal. f_equal. lia.
Qed.

Lemma get_range_decimal str h x rest b r :
  0 <= x <= b -> b < 2 ^ 31 -> separated r -> cstr m (str + 1) (decimal b ++ r) -> (Z.to_nat (b - x) <= S (length rest))%nat ->
  get_range m str (h ++ x :: rest) (Z.of_nat (length h)) = Some (str + 1, h ++ seqZ x (b - x) ++ drop (Z.to_nat (b - x)) (x :: rest), b - x).
Proof.
  intros Hx Hb Hr Hs Hl. unfold get_range. rewrite (decimal_reads m (str + 1) b r) by (done || lia). cbn [mbind option_bind].
  assert (get_int (h ++ x :: rest) (Z.of_nat (length h)) = Some x) as ->.
  { unfold get_int. rewrite (proj2 (Z.leb_le _ _)) by lia. by rewrite Nat2Z.id, list_lookup_middle. }
  cbn [mbind option_bind]. rewrite range_loop_spec by done. cbn [mbind option_bind]. rewrite i32_small, Z2Nat.id by lia. done.
Qed.

Lemma reads_all l : Forall element_ok l -> l <> [] -> reads l.
Proof.
  induction 1 as [|e l He Hl IH]; [done|]. intros _ fuel str h rest Hf Hstr Hs Hrest Hmax. rewrite list_text_cons in *.
  change (list_values (e :: l)) with (element_values e ++ list_values l) in *. rewrite length_app in Hrest, Hmax.
  assert (Hpos : 0 <= str) by (apply cstr_fits in Hs; lia). destruct e as [v|a b]; cbn [element_text element_values element_ok] in *.
  - cbn [length] in *. rewrite (reads_single l v) by (done || lia). cbn [app length]. do 2 f_equal. lia.
  - rewrite <- app_assoc in Hs. cbn [app] in Hs. rewrite length_seqZ in Hrest, Hmax. destruct fuel as [|fuel]; [lia|].
    destruct rest as [|x rest]; [simpl in Hrest; lia|]. cbn [get_options_loop length] in *. rewrite (proj2 (Z.ltb_lt _ nints)) by lia.
    rewrite (get_option_decimal str h x rest a (45 :: decimal b ++ tail_list l)); [|done|lia|done|done].
    change (char_at (45 :: decimal b ++ tail_list l) 0) with 45. cbn [Z.eqb Pos.eqb mbind option_bind]. set (next := str + Z.of_nat (length (decimal a))).
    assert (Hs1 : cstr m (next + 1) (decimal b ++ tail_list l)).
    { pose proof (cstr_drop _ _ _ (length (decimal a)) Hs ltac:(rewrite length_app; lia)) as Hs'. rewrite drop_app_length in Hs'. apply Hs'. }
    rewrite (get_range_decimal next h a rest b (tail_list l)) by (done || lia || apply tail_separated). cbn [mbind option_bind].
    rewrite (proj2 (Z.ltb_ge (b - a) 0)), i32_small by lia. rewrite app_assoc.
    replace (Z.of_nat (length h) + (b - a - 1) + 1) with (Z.of_nat (length (h ++ seqZ a (b - a)))) by (rewrite length_app, length_seqZ; lia).
    rewrite !length_app in Hf. cbn [length] in *.
    rewrite (reads_single l b); [|done|lia|rewrite length_app; lia|lia|done|rewrite length_drop; cbn [length]; lia|rewrite length_app, length_seqZ; lia|lia].
    rewrite !length_app, !length_seqZ, drop_drop. do 2 f_equal; [|lia]. f_equal; [unfold next; cbn [length]; lia|].
    rewrite <- !app_assoc. f_equal. rewrite (seqZ_app a (b - a) 1) by lia. rewrite <- app_assoc. f_equal.
    replace (seqZ (a + (b - a)) 1) with [b] by (replace (a + (b - a)) with b by lia; done). cbn [app]. do 2 f_equal.
    replace (Z.to_nat (b - a + 1) + length (list_values l))%nat with (S (Z.to_nat (b - a) + length (list_values l))) by lia.
    replace (Z.to_nat (b - a) + S (length (list_values l)))%nat with (S (Z.to_nat (b - a) + length (list_values l))) by lia. done.
Qed.

End Options.

(** A list that fits is expanded: [ints[0]] tells how many numbers there are, the numbers
    follow, with every range written out, and the string is read to its end. *)
Theorem get_options_expands m str l ints nints :
  Forall element_ok l -> l <> [] -> str <> 0 -> cstr m str (list_text l) -> nints < 2 ^ 31 ->
  (length (list_values l) < length ints)%nat -> Z.of_nat (length (list_values l)) < nints ->
  get_options m str nints ints =
    Some (str + Z.of_nat (length (list_text l)), Z.of_nat (length (list_values l)) :: list_values l ++ drop (S (length (list_values l))) ints).
Proof.
  intros Hl Hne Hstr Hs Hn Hfit Hmax. unfold get_options. destruct ints as [|x ints]; [simpl in Hfit; lia|]. cbn [length] in Hfit.
  assert (E : get_options_loop (turns m) m nints str (x :: ints) 1 = Some (str + Z.of_nat (length (list_text l)),
    [x] ++ list_values l ++ drop (length (list_values l)) ints, 1 + Z.of_nat (length (list_values l)))).
  { apply (reads_all m nints Hn l Hl Hne (turns m) str [x] ints); [by eapply cstr_turns|done|done|lia|simpl; lia]. }
  rewrite E.
  cbn [mbind option_bind app]. pose proof (set_int_next [] x (list_values l ++ drop (length (list_values l)) ints)) as Hset.
  cbn [app length] in *. change (Z.of_nat 0) with 0 in Hset. rewrite Hset. cbn [mbind option_bind drop].
  by replace (1 + Z.of_nat (length (list_values l)) - 1) with (Z.of_nat (length (list_values l))) by lia.
Qed.

(** The list 7,1-3 in an array of six. *)
Lemma get_options_expands_example :
  get_options [0; 55; 44; 49; 45; 51; 0] 1 6 [0; 0; 0; 0; 0; 0] = Some (6, [4; 7; 1; 2; 3; 0]).
Proof. by vm_compute. Qed.

End KernelCmdline.
